(* ===== verification/_CoqProject ===== *)
-Q . S2P
Prelude.v
Regex.v
PyValues.v
CoreTypes.v
Lease.v
Jobs.v
JobLifecycle.v
JobQueue.v
JobSpecs.v
Events.v
Jsonb.v
AuditTrail.v
AuditSpecs.v
Outbox.v
Delivery.v
LeasedOutbox.v
OutboxOperations.v
OutboxLifecycle.v
OutboxSpecs.v
OutboxResults.v
LeasedWorker.v
InternalWorker.v
UnitOfWork.v
Errors.v
ErrorSpecs.v
Texts.v
Identity.v
Sessions.v
Passwords.v
AuthEvents.v
Administration.v
Challenges.v
AuthService.v
Profile.v
ExternalSignIn.v
Histories.v
ExternalSpecs.v
ChallengeSpecs.v
RateLimits.v
EmailDelivery.v
ChallengeMail.v
Query.v
Json.v
JsonSpecs.v
Cache.v
CacheSpecs.v
Schemas.v
CacheClient.v
CacheClientSpecs.v
Urls.v
OidcProvider.v
OidcSpecs.v
Http.v
OidcRoutes.v
OidcRouteSpecs.v
Routes.v
RouteSpecs.v
Server.v
OidcServer.v
ServerSpecs.v
Boundary.v
Isolation.v
Schema.v
Migrations.v
ModelTables.v
MigrationSpecs.v
Storage.v
StorageSpecs.v
Settings.v
SettingsSpecs.v
Observability.v
ObservabilitySpecs.v
Lifecycle.v
WorkerCommands.v
