(* ===== verification/Prelude.v ===== *)
(** * Ekumidayomi back end: verification development (root file)

    ** The program

    The repository is the back end of a shop: a FastAPI application over
    PostgreSQL and Redis, with its own domain events, transactional outbox,
    audit trail, background jobs, cache and object storage, and identity
    (users, sessions, passwords, email challenges, sign-in with external
    providers, administration, address books). Paths below are relative to
    src/src/ekumidayomi/. A request passes the middleware (api/middleware.py)
    and the limits (core/rate_limits.py) to a route (api/v1/), which reaches a
    service with a unit of work (db/uow.py); the service changes rows, records
    audit evidence (audit/service.py) and stages domain events (events.py) in the
    outbox (outbox/repository.py) in the same transaction; a leased worker
    (outbox/leased_worker.py) later claims the staged messages, asks a handler
    to prepare and deliver them outside any transaction, and records the
    result; jobs (jobs/service.py) are claimed under leases in the same way.

    ** How the code is modelled

    The embedding is shallow. Tables are finite maps from the primary key to a
    record with the columns of the model class; a query is a filter and an
    order; a call is a function from the state before it and the clock readings
    and fresh identifiers it draws to an answer and the state after it. An
    exception is a value ([res], or the constructor [Err] of the monads [M] and
    [R] of Identity.v and RateLimits.v). Integers are unbounded as in Python;
    a column of bounded width is mentioned where the code relies on it. Times are
    microseconds since the epoch, in UTC. Strings are lists of code points.
    Regular expressions are executed by derivatives (Regex.v).

    Concurrency is interleaving of transactions: a row lock, an advisory lock
    or SERIALIZABLE makes a call atomic, so that histories are sequences of
    calls, and [FOR UPDATE SKIP LOCKED] is the set of locked rows that a claim
    is given from outside. Jobs, outbox, workers, identity, the cache and its
    callers, and object storage each have a labelled step relation; the
    theorems about histories are over [Prelude.runs] of those relations.

    ** Files

    - Prelude: results, exceptions, tables, ordering, [runs], tactics.
    - Regex, PyValues, Texts, Json, Urls: the parts of the language and of its
      standard library that the program uses, with what its proofs need of
      them; JsonSpecs: that JSON is read back.
    - CoreTypes: core/types.py (UTC datetimes are in PyValues) and the page
      envelope of api/schemas.py; Schemas: money as a response shows it and the
      dictionaries of pages. Query: api/query.py.
    - Lease: the contract of a fenced lease, as an interface; Jobs and the leased
      outbox are its two instances.
    - Jobs, JobLifecycle, JobQueue, JobSpecs: jobs/models.py and
      jobs/service.py; its step relation and invariant; the abstract queue that
      it refines; and each operation on every branch.
    - Events: events.py. Jsonb: what a JSONB column gives back of a payload.
      AuditTrail, AuditSpecs: audit/.
    - Outbox: outbox/model.py and outbox/repository.py. Delivery:
      outbox/outcomes.py, retry.py, settings.py and ports.py. LeasedOutbox:
      outbox/leased_repository.py. OutboxOperations: outbox/operations.py.
      OutboxLifecycle, OutboxSpecs, OutboxResults: the step relation over all
      of these, its invariant and its properties. LeasedWorker, InternalWorker:
      the two workers. WorkerCommands: the loop of the leased worker and
      auth/delivery_worker.py.
    - UnitOfWork: db/uow.py. Lifecycle: what the processes - the server, the
      delivery worker, the bootstrap and migration commands - acquire and
      release, and the scope of a request around the unit of work.
    - Errors, ErrorSpecs: core/errors.py, users/errors.py, api/errors.py,
      api/health_errors.py. Observability, ObservabilitySpecs:
      api/middleware.py, api/health.py, core/observability.py and
      core/logging.py. Settings: core/settings.py with every group of settings,
      and what core/application.py hands to the engine, to Redis and to the
      routes; SettingsSpecs: their bounds and what holds in production.
    - Identity: the tables of users/ and auth/ and the monad of a service call.
      Sessions: auth/sessions.py, permissions.py, dependencies.py, settings.py.
      Passwords: auth/passwords.py, password_policy.py. AuthEvents:
      auth/events.py. Administration: users/administration.py,
      users/admin_repository.py, auth/bootstrap.py. Challenges:
      auth/challenges.py. AuthService: auth/service.py and registration.py.
      Profile: users/service.py, schemas.py, address.py. ExternalSignIn:
      auth/oidc/contracts.py, attempts.py and service.py. Histories: every call
      of these services as one step. ChallengeSpecs, ExternalSpecs: what
      challenges and external sign-in guarantee.
    - OidcProvider, OidcSpecs: auth/oidc/providers.py and settings.py.
    - Http, Routes, RouteSpecs: responses and cookies, and the routes of api/v1/;
      OidcRoutes, OidcRouteSpecs: api/v1/auth_oidc.py. Server, ServerSpecs: a
      request through api/v1/router.py - body, limit with its origin check,
      dependencies, handler - and histories of requests. OidcServer: the routes
      that begin and end a handshake behind the same limit, and the server as a
      whole; Boundary: what stops a request on any of its routes. Isolation:
      what a request of one customer can reach of another's.
    - RateLimits: core/rate_limits.py (the Lua script included),
      auth/rate_limits.py, auth/rate_dependencies.py,
      users/rate_dependencies.py, users/settings.py.
    - EmailDelivery: email/ (message, adapter, submission loop). ChallengeMail:
      auth/email_handler.py.
    - Cache, CacheSpecs: cache/keys.py and codec.py. CacheClient,
      CacheClientSpecs: cache/client.py, many callers on one store.
    - Storage, StorageSpecs: storage/, with its port as an interface.
    - Schema: schemas, the operations of migrations and what an engine promises
      about them, as an interface with one instance. Migrations:
      migrations/versions/. ModelTables: the tables the model modules declare
      under the convention of db/base.py. MigrationSpecs: how these fit.

    ** What is proved

    - Jobs: the table invariant along every history; a stale token never
      changes a row; a live lease is exclusive; attempts count the claims and
      stay within the budget; the refinement of the abstract queue; claim,
      recover, retry, the holder's calls and enqueueing on every branch.
    - Outbox: the table invariant along every history of ordinary, leased and
      operator calls; the fence; one content per message; events of an
      aggregate are claimed in order; the event that a claim hands out is the
      event that was staged, as far as its JSONB column keeps it; results and replays on every branch; the bounds of
      the retry delay; the workers send one content per message, and raise only
      where a handler's preparation does; an internal worker is atomic; what
      each command of an operator leaves behind and exits with.
    - Migrations: each script takes back what it did; together they build
      exactly the tables of the models; and the outbox they leave is one the
      leased worker takes over, with no message of challenge mail stuck.
    - Unit of work: all or nothing, and each callback at most once; a request
      scope is the transaction that the services assume; and every process
      releases what it acquired, whichever of its library calls fail.
    - Identity: along any history of calls the database stays well formed and
      an active verified administrator remains once there is one; a secret
      resolves exactly to the live session with its digest, whatever the cache
      says; role changes on every branch; a challenge withstands a bounded
      number of guesses and is consumed at most once; the address book keeps
      its bound and its default.
    - External sign-in: endpoints stay on the pinned hosts; an identity stands on
      a token signed for this client and handshake; an attempt is consumed at
      most once and by its browser; a callback on every branch; every account
      keeps a way to sign in; and the handshake from redirect to session.
    - Routes: no request of a signed-in route acts without a trusted origin and a
      live session, none of administrators without one; what each response tells
      a browser; and the life of a session from signing in to signing out.
    - Server: limits and routes together. Over any history of requests no window
      holds more attempts than the rule of the path allows, per address and per
      account; on every route, those of handshakes included, nothing that a
      limit, an origin or a missing session stops reaches the database or the
      store of handshakes; a request changes rows of its own actor only, and
      an answer about an account depends on rows of that account only.
    - Limits: no window holds more requests than the limit; a refused caller
      that waits as long as it was told is admitted.
    - Values: money and pages are exact, and a price that is shown is read back
      as the same money; sort parameters are read as documented;
      events accept exactly the documented payloads and survive storage, large
      floats apart; audit
      metadata is allowlisted, redacted and bounded, and audit queries are
      complete; error responses expose nothing that the contract does not
      declare; a request has one safe id, under which everything about it is
      logged; and a log line is a JSON object without control characters below
      the space that reads back as the record.
    - Cache: one caller loads at a time; what a call answers; every call ends;
      the codec reads back what it wrote.
    - Storage: what is held is what was declared; image keys are safe and distinct.
    - Settings: exactly the settings within the bounds are accepted, group by
      group; what production insists on, down to the hosts and to the cookies of
      every route.
    - Mail: one call of the adapter posts exactly the unresolved requests up to
      the first refusal; a request whose acceptance a call reported is never
      posted again, and rounds that get through end with every recipient accepted;
      a fingerprint pins the bytes sent; a challenge is mailed exactly when it
      is eligible, and the code that is mailed is the code that is accepted.

    ** Bounds and fuel

    Recursion over payloads is structural ([freeze_value], [sanitize_value] and
    [normalize_json_value] follow the nested value; the depth limits of the code
    are arguments of the recursion). [digit_count] is given the bit length of
    its argument as fuel, at least the number of its decimal digits. The JSON
    scanner is given twice the length of the text and one, which
    [JsonSpecs.scan_fuel] shows to be enough. [Migrations.walk] takes as many steps
    as there are revisions. [WorkerCommands.worker_run] is the one loop
    that need not end: its fuel is a number of rounds, and once it is told to
    stop, that many rounds are enough. Every other definition is a total function.

    ** Assumptions, and what is left out

    - Parameters with named hypotheses: HMAC and hash functions, the Argon2
      hasher, the email validator, full case folding and lowering, NFKC and IPv6
      literals, the text of floats and its reader, the breach service, the random
      delay of the retry policy, the answers of HTTP providers, the verification of
      signatures, the host check of the framework; whether pydantic lets NaN pass
      the bounds of a float; uuid4 draws and other secrets are arguments, and where a
      theorem needs them fresh it says so; the Redis clock does not go back and
      the random members of one window are distinct.
    - The cache of sessions gives hints: any content may come back, and the
      theorems hold for all of them.
    - [updated_at] columns, database-side defaults that the code never reads,
      datetime overflow beyond year 9999, the exponent limits of [decimal], the
      limit on recursion of the JSON scanner, and the shortening of long index
      names are left out; the payload of an event goes through JSONB as Jsonb.v
      describes it, the other JSONB columns give back the value that was stored;
      sums of floats are exact rationals; [casefold] is exact on the ASCII text that
      decides a sensitive key.
    - Not modelled: the framework's parsing and bounding of paths, queries and
      bodies in front of the routes (which body fits a model is an input of a
      request); what engines, pools, clients and signal handlers do once they
      are built; reading settings from the environment and arguments from the
      command line; the build of the documentation. PROJECT.json lists each
      part with its reason. *)

From stdpp Require Export base tactics numbers list gmap sorting strings.
From Stdlib Require Export ZArith Lia.
From Stdlib Require Ascii String.
Export (notations) Stdlib.Strings.Ascii.

(** stdpp leaves several scopes open; the development reads integers as [Z]
    unless a file says otherwise. *)
Set Default Goal Selector "!".
Open Scope Z_scope.
Open Scope list_scope.

(** ** Fallible computations *)

(** A Python function that may raise returns [Err e]; the error type is a
    parameter so that each component can use its own exceptions. *)
Inductive res (E A : Type) : Type :=
| Ok (a : A)
| Err (e : E).
Arguments Ok {E A} a.
Arguments Err {E A} e.

#[export] Instance res_ret {E} : MRet (res E) := λ A a, Ok a.
#[export] Instance res_bind {E} : MBind (res E) :=
  λ A B f m, match m with Ok a => f a | Err e => Err e end.
#[export] Instance res_fmap {E} : FMap (res E) :=
  λ A B f m, match m with Ok a => Ok (f a) | Err e => Err e end.

#[export] Instance res_eq_dec {E A} `{EqDecision E, EqDecision A} : EqDecision (res E A).
Proof. solve_decision. Defined.

(** [if not b: raise e]. *)
Definition require {E} (b : bool) (e : E) : res E unit :=
  if b then Ok tt else Err e.

(** [for x in xs: v = f(x); out.append(v)], stopping at the first exception. *)
Fixpoint traverse {E A B} (f : A → res E B) (xs : list A) : res E (list B) :=
  match xs with
  | [] => Ok []
  | x :: xs => y ← f x; ys ← traverse f xs; Ok (y :: ys)
  end.

(** The same loop, threading a value that the body updates. *)
Section thread.
Context {E S A B : Type} (f : A → S → res E (B * S)).
Fixpoint thread (xs : list A) (s : S) : res E (list B * S) :=
  match xs with
  | [] => Ok ([], s)
  | x :: xs => '(y, s) ← f x s; '(ys, s) ← thread xs s; Ok (y :: ys, s)
  end.
End thread.

Definition is_ok {E A} (m : res E A) : bool :=
  match m with Ok _ => true | Err _ => false end.

(** The built-in exceptions the modelled code raises, with their messages. *)
Inductive pyexn :=
| TypeError (msg : string)
| ValueError (msg : string)
| RuntimeError (msg : string)
| KeyError
| InvalidOperation
| IntegrityError (constraint : string)
| InvalidRequestError (msg : string)
| FileNotFoundError
| HandlerError.

#[export] Instance pyexn_eq_dec : EqDecision pyexn.
Proof. solve_decision. Defined.

Section res_lemmas.
Context {E : Type}.

Lemma bind_Ok {A B} (m : res E A) (f : A → res E B) b :
  (m ≫= f) = Ok b ↔ ∃ a, m = Ok a ∧ f a = Ok b.
Proof.
  destruct m as [a|e]; cbn; split; [naive_solver| |done|naive_solver].
  by intros (a' & [= <-] & ?).
Qed.

Lemma bind_Err {A B} (m : res E A) (f : A → res E B) e :
  (m ≫= f) = Err e ↔ m = Err e ∨ ∃ a, m = Ok a ∧ f a = Err e.
Proof. destruct m; cbn; naive_solver. Qed.

Lemma require_Ok (b : bool) (e : E) u : require b e = Ok u ↔ b = true.
Proof. destruct b, u; cbn; naive_solver. Qed.

Lemma require_Err (b : bool) (e e' : E) : require b e = Err e' ↔ b = false ∧ e' = e.
Proof. destruct b; cbn; naive_solver. Qed.

Lemma traverse_Forall2 {A B} (f : A → res E B) xs ys :
  traverse f xs = Ok ys ↔ Forall2 (λ x y, f x = Ok y) xs ys.
Proof.
  revert ys; induction xs as [|x xs IH]; intros ys; cbn.
  - split; [intros [= <-]; constructor|by inversion 1].
  - rewrite bind_Ok; setoid_rewrite bind_Ok; setoid_rewrite IH. split.
    + intros (y & Hy & ys' & ? & [= <-]); by constructor.
    + inversion 1; subst; eauto 10.
Qed.
End res_lemmas.

(** A check and the rest of a validator. *)
Lemma require_then {E A} (b : bool) (e : E) (m : res E A) a : (require b e;; m) = Ok a ↔ b = true ∧ m = Ok a.
Proof. destruct b; cbn; naive_solver. Qed.

(** A validator that returns what it was given, and the rest. *)
Lemma validated_then {E A B} (m : res E A) (P : Prop) x (f : A → res E B) b :
  (∀ y, m = Ok y ↔ y = x ∧ P) → (m ≫= f) = Ok b ↔ P ∧ f x = Ok b.
Proof.
  intros Hm. rewrite bind_Ok. split.
  - intros (y & [-> ?]%Hm & ?). done.
  - intros [? ?]. exists x. split; [|done]. by apply Hm.
Qed.

Lemma existsb_none {A} (f : A → bool) l : existsb f l = false ↔ ∀ x, x ∈ l → f x = false.
Proof.
  rewrite <- not_true_iff_false, existsb_exists. setoid_rewrite <- list_elem_of_In. split.
  - intros Hn x Hx. apply not_true_iff_false. eauto.
  - intros Hall (x & Hx & Ht). specialize (Hall x Hx). congruence.
Qed.

(** Inverts every successful bind in the context; the final [Ok] is left. *)
Ltac res_inv :=
  repeat match goal with
  | H : (_ ≫= _) = Ok _ |- _ =>
      let x := fresh "x" in let Hx := fresh "Hx" in
      apply bind_Ok in H as (x & Hx & H)
  | H : require _ _ = Ok ?u |- _ => apply require_Ok in H
  | H : Ok _ = Err _ |- _ => discriminate H
  | H : Err _ = Ok _ |- _ => discriminate H
  end.

(** Splits boolean conjunctions, disjunctions and comparisons into
    propositions, in the hypotheses and in the goal. *)
Ltac bool_inv :=
  repeat match goal with
  | H : _ && _ = true |- _ => apply andb_true_iff in H as [? ?]
  | H : _ || _ = false |- _ => apply orb_false_iff in H as [? ?]
  | H : negb _ = true |- _ => apply negb_true_iff in H
  | H : negb _ = false |- _ => apply negb_false_iff in H
  | H : (_ <=? _)%Z = true |- _ => apply Z.leb_le in H
  | H : (_ <=? _)%Z = false |- _ => apply Z.leb_gt in H
  | H : (_ <? _)%Z = true |- _ => apply Z.ltb_lt in H
  | H : (_ <? _)%Z = false |- _ => apply Z.ltb_ge in H
  | H : (_ =? _)%Z = true |- _ => apply Z.eqb_eq in H
  | H : (_ =? _)%Z = false |- _ => apply Z.eqb_neq in H
  | H : bool_decide _ = true |- _ => apply bool_decide_eq_true in H
  | H : bool_decide _ = false |- _ => apply bool_decide_eq_false in H
  end.

(** ** Functional record update *)

(** [r <| f := v |>] is Python's [r.f = v] on a value. A record declares its
    eta expansion once; the setters are computed from it. *)
Class Settable (R : Type) := eta : R → R.
Class Setter {R T} (proj : R → T) := setter : (T → T) → R → R.
Arguments setter {R T} proj {_} / f r.

Ltac derive_setter :=
  lazymatch goal with
  | |- @Setter ?R ?T ?proj =>
      let f := fresh "f" in
      let r := fresh "r" in
      intros f r;
      let inst := constr:(_ : Settable R) in
      let e := eval hnf in (inst r) in
      let pat := eval pattern (proj r) in e in
      lazymatch pat with
      | ?F _ => let t := eval cbv beta in (F (f (proj r))) in exact t
      end
  end.

#[export] Hint Extern 1 (Setter _) => derive_setter : typeclass_instances.

#[warnings="-postfix-notation-not-level-1"]
Notation "r <| p := v |>" := (setter p (λ _, v) r)
  (at level 12, left associativity, p constr at level 11).
#[warnings="-postfix-notation-not-level-1"]
Notation "r <| p ::= f |>" := (setter p f r)
  (at level 12, left associativity, p constr at level 11).

(** ** Database tables *)

(** Identifiers are UUIDs, ordered in PostgreSQL by their 128-bit value. *)
Abbreviation uuid := Z (only parsing).
(** Aware datetimes, normalised to UTC, in microseconds since the epoch. *)
Abbreviation datetime := Z (only parsing).
(** [datetime.timedelta], in microseconds. *)
Abbreviation timedelta := Z (only parsing).

Definition seconds (n : Z) : timedelta := n * 1000000.

(** A row of an ORM table is found under its primary key. *)
Class Keyed (R : Type) := row_id : R → Z.

Abbreviation table R := (gmap Z R).

Definition table_ok {R} `{Keyed R} (t : table R) : Prop :=
  ∀ k r, t !! k = Some r → row_id r = k.

Definition rows {R} (t : table R) : list R := (map_to_list t).*2.

(** [session.add(r); flush()] for a row whose key is its own id. *)
Definition put {R} `{Keyed R} (r : R) (t : table R) : table R := <[row_id r := r]> t.

(** Flushing a batch of modified rows. *)
Definition put_all {R} `{Keyed R} (rs : list R) (t : table R) : table R := foldr put t rs.

(** SQL comparisons with a nullable column are not true on NULL. *)
Definition sql_le (o : option Z) (t : Z) : bool := from_option (λ x, x <=? t) false o.
Definition sql_gt (o : option Z) (t : Z) : bool := from_option (λ x, t <? x) false o.

(** ORDER BY: lexicographic comparison of the listed columns. *)
Fixpoint lexle (xs ys : list Z) : bool :=
  match xs, ys with
  | [], _ => true
  | _ :: _, [] => false
  | x :: xs, y :: ys => (x <? y) || ((x =? y) && lexle xs ys)
  end.

Definition key_le {R} (key : R → list Z) (a b : R) : Prop := lexle (key a) (key b).

#[export] Instance key_le_dec {R} (key : R → list Z) a b : Decision (key_le key a b).
Proof. unfold key_le. apply _. Defined.

Lemma lexle_cons x xs y ys :
  lexle (x :: xs) (y :: ys) ↔ x < y ∨ (x = y ∧ lexle xs ys).
Proof.
  cbn. rewrite orb_True, andb_True, !Is_true_true.
  by rewrite Z.ltb_lt, Z.eqb_eq.
Qed.

Lemma lexle_refl xs : lexle xs xs.
Proof. induction xs; [done|]. apply lexle_cons; auto. Qed.

Lemma lexle_trans xs ys zs : lexle xs ys → lexle ys zs → lexle xs zs.
Proof.
  revert ys zs; induction xs as [|x xs IH]; intros [|y ys] [|z zs]; try done.
  rewrite !lexle_cons.
  intros [?|[-> ?]] [?|[-> ?]]; [left; lia|auto|auto|right; eauto].
Qed.

Lemma lexle_total xs ys : lexle xs ys ∨ lexle ys xs.
Proof.
  revert ys; induction xs as [|x xs IH]; intros [|y ys]; try (cbn; auto; done).
  rewrite !lexle_cons.
  destruct (Z.lt_trichotomy x y) as [?|[->|?]]; [auto| |auto].
  destruct (IH ys); auto.
Qed.

#[export] Instance key_le_trans {R} (key : R → list Z) : Transitive (key_le key).
Proof. intros a b c. apply lexle_trans. Qed.
#[export] Instance key_le_total {R} (key : R → list Z) : Total (key_le key).
Proof. intros a b. apply lexle_total. Qed.
#[export] Instance key_le_refl {R} (key : R → list Z) : Reflexive (key_le key).
Proof. intros a. apply lexle_refl. Qed.

Definition order_by {R} (key : R → list Z) (l : list R) : list R := merge_sort (key_le key) l.

(** [SELECT ... WHERE p ORDER BY key]. *)
Definition select {R} (p : R → bool) (key : R → list Z) (t : table R) : list R :=
  order_by key (filter (λ r, Is_true (p r)) (rows t)).

(** [SELECT ... WHERE p ORDER BY key LIMIT n FOR UPDATE SKIP LOCKED]: the rows
    another transaction has locked are passed over. *)
Definition select_for_update {R} `{Keyed R} (locked : gset Z) (p : R → bool)
    (key : R → list Z) (limit : Z) (t : table R) : list R :=
  take (Z.to_nat limit) (select (λ r, p r && bool_decide (row_id r ∉ locked)) key t).

(** [UPDATE ... SET f WHERE p], with its row count. *)
Definition update_where {R} (p : R → bool) (f : R → R) (t : table R) : table R :=
  (λ r, if p r then f r else r) <$> t.
Definition rowcount {R} (p : R → bool) (t : table R) : Z :=
  Z.of_nat (length (filter (λ r, Is_true (p r)) (rows t))).

Section table_lemmas.
Context {R : Type} `{Keyed R}.
Implicit Types (t : table R) (r : R).

Lemma elem_of_rows t r : table_ok t → r ∈ rows t ↔ t !! row_id r = Some r.
Proof.
  intros Hok. unfold rows. rewrite list_elem_of_fmap. split.
  - intros ([k r'] & -> & Hin%elem_of_map_to_list). cbn.
    by rewrite (Hok _ _ Hin).
  - intros Hr. exists (row_id r, r). by rewrite elem_of_map_to_list.
Qed.

Lemma NoDup_rows t : table_ok t → NoDup (row_id <$> rows t).
Proof.
  intros Hok. unfold rows. rewrite <-list_fmap_compose.
  replace ((row_id ∘ snd) <$> map_to_list t) with ((map_to_list t).*1);
    [apply NoDup_fst_map_to_list|].
  apply list_fmap_ext. intros i [k r] Hi%list_elem_of_lookup_2. cbn.
  apply elem_of_map_to_list in Hi. symmetry. by apply Hok.
Qed.

Lemma order_by_Permutation key (l : list R) : order_by key l ≡ₚ l.
Proof. apply merge_sort_Permutation. Qed.

Lemma order_by_Sorted key (l : list R) : StronglySorted (key_le key) (order_by key l).
Proof. apply StronglySorted_merge_sort; apply _. Qed.

Lemma elem_of_select p key t r :
  table_ok t → r ∈ select p key t ↔ p r = true ∧ t !! row_id r = Some r.
Proof.
  intros Hok. unfold select. rewrite order_by_Permutation.
  rewrite list_elem_of_filter, Is_true_true. by rewrite elem_of_rows.
Qed.

Lemma select_NoDup p key t : table_ok t → NoDup (row_id <$> select p key t).
Proof.
  intros Hok. unfold select. rewrite order_by_Permutation.
  eapply sublist_NoDup; [by apply NoDup_rows|].
  apply fmap_sublist, sublist_filter.
Qed.

Lemma select_Sorted p key t : StronglySorted (key_le key) (select p key t).
Proof. apply order_by_Sorted. Qed.

Lemma elem_of_select_for_update locked p key n t r :
  table_ok t → r ∈ select_for_update locked p key n t →
  p r = true ∧ t !! row_id r = Some r ∧ row_id r ∉ locked.
Proof.
  intros Hok Hr. unfold select_for_update in Hr.
  apply (sublist_subseteq _ _ (sublist_take _ _)) in Hr.
  apply elem_of_select in Hr as [Hr ?]; [|done]. by bool_inv.
Qed.

Lemma select_for_update_NoDup locked p key n t :
  table_ok t → NoDup (row_id <$> select_for_update locked p key n t).
Proof.
  intros Hok. unfold select_for_update. eapply sublist_NoDup.
  { by apply (select_NoDup (λ r, p r && bool_decide (row_id r ∉ locked)) key t). }
  apply fmap_sublist, sublist_take.
Qed.

Lemma select_for_update_split locked p key n t :
  ∃ rest, select (λ r, p r && bool_decide (row_id r ∉ locked)) key t
          = select_for_update locked p key n t ++ rest ∧
          (rest = [] ∨ length (select_for_update locked p key n t) = Z.to_nat n).
Proof.
  unfold select_for_update. set (l := select _ key t).
  exists (drop (Z.to_nat n) l). rewrite take_drop. split; [done|].
  destruct (decide (length l ≤ Z.to_nat n)%nat).
  - left. by apply drop_ge.
  - right. rewrite length_take. lia.
Qed.

Lemma select_for_update_Sorted locked p key n t :
  StronglySorted (key_le key) (select_for_update locked p key n t).
Proof.
  destruct (select_for_update_split locked p key n t) as (rest & Heq & _).
  eapply StronglySorted_app_1_l. rewrite <-Heq. apply select_Sorted.
Qed.

(** The batch is a prefix of the ordered eligible rows: a row left out means
    that the batch is full and that the row sorts after all of it. *)
Lemma select_for_update_prefix locked p key n t r :
  table_ok t → p r = true → t !! row_id r = Some r → row_id r ∉ locked →
  r ∈ select_for_update locked p key n t ∨
  (length (select_for_update locked p key n t) = Z.to_nat n ∧
   ∀ r', r' ∈ select_for_update locked p key n t → key_le key r' r).
Proof.
  intros Hok Hp Hr Hl.
  destruct (select_for_update_split locked p key n t) as (rest & Heq & Hrest).
  assert (Hin : r ∈ select (λ r, p r && bool_decide (row_id r ∉ locked)) key t).
  { apply elem_of_select; [done|]. split; [|done].
    by rewrite Hp, bool_decide_eq_true_2. }
  pose proof (select_Sorted (λ r, p r && bool_decide (row_id r ∉ locked)) key t) as Hs.
  rewrite Heq in Hin, Hs. apply elem_of_app in Hin as [?|Hin]; [by left|right].
  destruct Hrest as [->|?]; [by apply not_elem_of_nil in Hin|].
  split; [done|]. intros r' Hr'. by eapply StronglySorted_app_1_elem_of.
Qed.

Lemma length_select_for_update locked p key n t :
  0 ≤ n → Z.of_nat (length (select_for_update locked p key n t)) ≤ n.
Proof. intros. unfold select_for_update. rewrite length_take. lia. Qed.

Lemma table_ok_put r t : table_ok t → table_ok (put r t).
Proof.
  intros Hok k r'. unfold put. rewrite lookup_insert_Some.
  intros [[<- <-]|[_ ?]]; [done|by apply Hok].
Qed.

Lemma table_ok_put_all rs t : table_ok t → table_ok (put_all rs t).
Proof. intros Hok. induction rs; [done|]. by apply table_ok_put. Qed.

Lemma table_ok_update_where p f t :
  table_ok t → (∀ r, row_id (f r) = row_id r) → table_ok (update_where p f t).
Proof.
  intros Hok Hf k r. unfold update_where. rewrite lookup_fmap_Some.
  intros (r' & <- & Hr'). apply Hok in Hr'. destruct (p r'); [by rewrite Hf|done].
Qed.

Lemma lookup_put_all_ne rs t k : k ∉ row_id <$> rs → put_all rs t !! k = t !! k.
Proof.
  induction rs as [|r rs IH]; [done|]. rewrite fmap_cons, not_elem_of_cons.
  intros [? ?]. cbn. unfold put at 1. rewrite lookup_insert_ne; auto.
Qed.

Lemma lookup_put_all rs t r :
  NoDup (row_id <$> rs) → r ∈ rs → put_all rs t !! row_id r = Some r.
Proof.
  induction rs as [|r' rs IH]; [by intros _ ?%not_elem_of_nil|].
  rewrite fmap_cons, NoDup_cons, elem_of_cons. intros [Hn ?] [->|Hr]; cbn; unfold put at 1.
  - by rewrite lookup_insert_eq.
  - rewrite lookup_insert_ne; [by apply IH|].
    intros Heq. apply Hn. rewrite Heq. apply list_elem_of_fmap. eauto.
Qed.

(** What a row is after a batch is flushed: the batch's version of it, or
    the row itself. *)
Lemma lookup_put_all_inv rs t k r :
  put_all rs t !! k = Some r → (r ∈ rs ∧ row_id r = k) ∨ t !! k = Some r.
Proof.
  induction rs as [|r' rs IH]; [by right|]. cbn. unfold put at 1.
  rewrite lookup_insert_Some, elem_of_cons.
  intros [[Hk Hr]|[_ [[? ?]|?]%IH]]; subst; auto.
Qed.

(** A loop that modifies the selected rows in place, flushed: each selected
    row is found modified, every other row is untouched. *)
Lemma fmap_id_imap (f : nat → R → R) rs :
  (∀ i r, row_id (f i r) = row_id r) → row_id <$> imap f rs = row_id <$> rs.
Proof.
  intros Hf. rewrite fmap_imap. apply list_eq. intros i.
  rewrite list_lookup_imap, list_lookup_fmap. destruct (rs !! i); cbn; [|done].
  by rewrite Hf.
Qed.

Lemma lookup_put_all_imap (f : nat → R → R) rs t k r :
  table_ok t → (∀ i r, row_id (f i r) = row_id r) → NoDup (row_id <$> rs) →
  (∀ r, r ∈ rs → t !! row_id r = Some r) → t !! k = Some r →
  (∃ i, rs !! i = Some r ∧ put_all (imap f rs) t !! k = Some (f i r)) ∨
  (k ∉ row_id <$> rs ∧ put_all (imap f rs) t !! k = Some r).
Proof.
  intros Hok Hf Hnd Hin Hk. pose proof (Hok _ _ Hk) as Hid.
  destruct (decide (k ∈ row_id <$> rs)) as [Hel|Hel].
  - left. apply list_elem_of_fmap in Hel as (r' & Hkr & Hr').
    assert (r' = r) as -> by (apply Hin in Hr'; congruence).
    apply list_elem_of_lookup_1 in Hr' as (i & Hi). exists i. split; [done|].
    rewrite <-Hid, <-(Hf i). apply lookup_put_all.
    + by rewrite fmap_id_imap.
    + apply elem_of_lookup_imap. eauto.
  - right. split; [done|]. rewrite lookup_put_all_ne; [done|].
    by rewrite fmap_id_imap.
Qed.

Lemma lookup_put_all_imap_None (f : nat → R → R) rs t k :
  (∀ i r, row_id (f i r) = row_id r) → (∀ r, r ∈ rs → t !! row_id r = Some r) →
  t !! k = None → put_all (imap f rs) t !! k = None.
Proof.
  intros Hf Hin Hk. rewrite lookup_put_all_ne; [done|]. rewrite fmap_id_imap by done.
  intros (r & -> & Hr)%list_elem_of_fmap. apply Hin in Hr. congruence.
Qed.

Lemma lookup_update_where p f t k :
  update_where p f t !! k = (λ r, if p r then f r else r) <$> t !! k.
Proof. unfold update_where. apply lookup_fmap. Qed.

Lemma rowcount_pos p t :
  table_ok t → 0 < rowcount p t ↔ ∃ r, t !! row_id r = Some r ∧ p r = true.
Proof.
  intros Hok. unfold rowcount. split.
  - intros Hlen. destruct (filter _ (rows t)) as [|r l] eqn:Hf; [cbn in Hlen; lia|].
    assert (Hr : r ∈ filter (λ r, Is_true (p r)) (rows t)) by (rewrite Hf; left).
    rewrite list_elem_of_filter, elem_of_rows, Is_true_true in Hr by done.
    naive_solver.
  - intros (r & Hr & Hp). rewrite <-elem_of_rows in Hr by done.
    assert (Hin : r ∈ filter (λ r, Is_true (p r)) (rows t)).
    { rewrite list_elem_of_filter, Is_true_true. auto. }
    destruct (filter _ _); [by apply not_elem_of_nil in Hin|cbn; lia].
Qed.
End table_lemmas.


(** An UPDATE whose WHERE clause no row satisfies. *)
Lemma update_where_nobody {R} (p : R → bool) f (t : table R) :
  (∀ k r, t !! k = Some r → p r = false) → update_where p f t = t ∧ rowcount p t = 0.
Proof.
  intros Hp. split.
  - unfold update_where. apply map_eq. intros k. rewrite lookup_fmap.
    destruct (t !! k) as [r|] eqn:Hk; cbn; [|done]. by rewrite (Hp _ _ Hk).
  - unfold rowcount. replace (filter _ (rows t)) with (@nil R); [done|].
    symmetry. apply (nil_length_inv), Nat.le_0_r, Nat.nlt_ge. intros Hlen.
    destruct (filter (λ r, Is_true (p r)) (rows t)) as [|r l] eqn:Hf; [cbn in Hlen; lia|].
    assert (Hr : r ∈ filter (λ r, Is_true (p r)) (rows t)) by (rewrite Hf; left).
    apply list_elem_of_filter in Hr as [Hpr Hr]. unfold rows in Hr.
    apply list_elem_of_fmap in Hr as ([k r'] & -> & Hkr%elem_of_map_to_list).
    cbn in Hpr. by rewrite (Hp _ _ Hkr) in Hpr.
Qed.

(** An UPDATE whose WHERE clause exactly one row satisfies. *)
Lemma update_where_one {R} `{Keyed R} (p : R → bool) f (t : table R) k r :
  table_ok t → t !! k = Some r → p r = true → (∀ r', p r' = true → row_id r' = k) →
  update_where p f t = <[k := f r]> t ∧ (0 <? rowcount p t) = true.
Proof.
  intros Hok Hk Hp Hone. split.
  - apply map_eq. intros i. rewrite lookup_update_where.
    destruct (decide (i = k)) as [->|Hne].
    + rewrite lookup_insert_eq, Hk. cbn. by rewrite Hp.
    + rewrite lookup_insert_ne by done. destruct (t !! i) as [r'|] eqn:Hi; cbn; [|done].
      destruct (p r') eqn:Hr; [|done]. apply Hone in Hr. rewrite (Hok _ _ Hi) in Hr. congruence.
  - apply Z.ltb_lt, rowcount_pos; [done|]. exists r. by rewrite (Hok _ _ Hk).
Qed.

(** Counting the rows that satisfy [p] as the table changes. *)
Section rowcount.
Context {R : Type} (p : R → bool).
Implicit Types (t : table R) (r : R).

Lemma rowcount_insert t k r :
  t !! k = None → rowcount p (<[k := r]> t) = (if p r then 1 else 0) + rowcount p t.
Proof.
  intros Hk. unfold rowcount, rows. rewrite map_to_list_insert by done.
  rewrite fmap_cons, filter_cons. cbn [snd]. destruct (p r); case_decide; try done; cbn [length]; lia.
Qed.

Lemma rowcount_delete t k r :
  t !! k = Some r → rowcount p t = (if p r then 1 else 0) + rowcount p (delete k t).
Proof.
  intros Hk. rewrite <-(insert_delete_id t k r) at 1 by done.
  apply rowcount_insert, lookup_delete_eq.
Qed.

(** A row replaced by one that counts the same. *)
Lemma rowcount_replace t k r0 r :
  t !! k = Some r0 → p r = p r0 → rowcount p (<[k := r]> t) = rowcount p t.
Proof.
  intros Hk Hp. rewrite <-insert_delete_eq, rowcount_insert by apply lookup_delete_eq.
  by rewrite (rowcount_delete t k r0 Hk), Hp.
Qed.

Lemma rowcount_update_where q f t :
  (∀ r, p (f r) = p r) → rowcount p (update_where q f t) = rowcount p t.
Proof.
  intros Hf. unfold rowcount, rows, update_where. rewrite map_to_list_fmap.
  induction (map_to_list t) as [|[k r] l IH]; [done|].
  rewrite !fmap_cons, !filter_cons. cbn [snd prod_map].
  assert (p (if q r then f r else r) = p r) as -> by (destruct (q r); auto).
  case_decide; cbn [length]; lia.
Qed.
End rowcount.

(** ** Lists *)

Lemma filter_agree {A} (P Q : A → Prop) `{∀ x, Decision (P x)} `{∀ x, Decision (Q x)} (l : list A) :
  (∀ x, x ∈ l → P x ↔ Q x) → filter P l = filter Q l.
Proof.
  induction l as [|x l IH]; [done|]. intros Hl. rewrite !filter_cons, IH by (intros; apply Hl; by right).
  pose proof (Hl x ltac:(by left)). repeat case_decide; tauto.
Qed.

(** ** Runs of a labelled transition system *)

Inductive runs {W L : Type} (step : W → L → W → Prop) : W → list L → W → Prop :=
| runs_nil w : runs step w [] w
| runs_cons w1 l w2 ls w3 :
    step w1 l w2 → runs step w2 ls w3 → runs step w1 (l :: ls) w3.

#[export] Hint Constructors runs : core.

(** An invariant of every step is an invariant of every run. *)
Lemma runs_invariant {W L} (step : W → L → W → Prop) (inv : W → Prop) :
  (∀ w l w', inv w → step w l w' → inv w') →
  ∀ w ls w', runs step w ls w' → inv w → inv w'.
Proof. intros Hstep w ls w'. induction 1; eauto. Qed.

Lemma runs_app {W L} (step : W → L → W → Prop) w1 ls1 w2 ls2 w3 :
  runs step w1 ls1 w2 → runs step w2 ls2 w3 → runs step w1 (ls1 ++ ls2) w3.
Proof. induction 1; cbn; eauto. Qed.
