(* ===== verification/Regex.v ===== *)
(** * Regular expressions

    The validators of the program are Python patterns used with
    [Pattern.fullmatch]. This file models the fragment the patterns use
    (character classes, sequence, alternative, star and bounded repetition)
    over strings of Unicode code points, with an executable matcher by
    derivatives and its correctness against the language of the pattern. *)

From S2P Require Import Prelude.
From Stdlib Require Import Ascii NArith.

(** A Python [str] is a sequence of Unicode code points. *)
Abbreviation str := (list N).

(** ASCII literals. *)
Definition lit (s : string) : str := N_of_ascii <$> Stdlib.Strings.String.list_ascii_of_string s.

(** A character class: inclusive ranges of code points. *)
Definition cls := list (N * N).

Definition in_cls (k : cls) (c : N) : bool :=
  existsb (λ r, (r.1 <=? c)%N && (c <=? r.2)%N) k.

Definition chr (a : ascii) : N * N := (N_of_ascii a, N_of_ascii a).
Definition rng (a b : ascii) : N * N := (N_of_ascii a, N_of_ascii b).
Arguments chr a%_char.
Arguments rng a%_char b%_char.

Inductive regex :=
| Void
| Eps
| Cls (k : cls)
| Alt (r s : regex)
| Seq (r s : regex)
| Star (r : regex).

Fixpoint rep (n : nat) (r : regex) : regex :=
  match n with O => Eps | S n => Seq r (rep n r) end.
Fixpoint upto (n : nat) (r : regex) : regex :=
  match n with O => Eps | S n => Alt Eps (Seq r (upto n r)) end.
(** [r+] and [r{lo,hi}]. *)
Definition plus (r : regex) : regex := Seq r (Star r).
Definition between (lo hi : nat) (r : regex) : regex := Seq (rep lo r) (upto (hi - lo) r).

(** The language of a pattern. *)
Inductive matches : regex → str → Prop :=
| m_eps : matches Eps []
| m_cls k c : in_cls k c = true → matches (Cls k) [c]
| m_alt_l r s w : matches r w → matches (Alt r s) w
| m_alt_r r s w : matches s w → matches (Alt r s) w
| m_seq r s w v : matches r w → matches s v → matches (Seq r s) (w ++ v)
| m_star_nil r : matches (Star r) []
| m_star_cons r w v : matches r w → matches (Star r) v → matches (Star r) (w ++ v).

Fixpoint nullable (r : regex) : bool :=
  match r with
  | Void | Cls _ => false
  | Eps | Star _ => true
  | Alt r s => nullable r || nullable s
  | Seq r s => nullable r && nullable s
  end.

(** Simplifying constructors keep the derivatives small. *)
Definition alt (r s : regex) : regex :=
  match r, s with Void, _ => s | _, Void => r | _, _ => Alt r s end.
Definition seq (r s : regex) : regex :=
  match r, s with
  | Void, _ | _, Void => Void
  | Eps, _ => s
  | _, Eps => r
  | _, _ => Seq r s
  end.

Fixpoint deriv (c : N) (r : regex) : regex :=
  match r with
  | Void | Eps => Void
  | Cls k => if in_cls k c then Eps else Void
  | Alt r s => alt (deriv c r) (deriv c s)
  | Seq r s =>
      if nullable r then alt (seq (deriv c r) s) (deriv c s) else seq (deriv c r) s
  | Star r => seq (deriv c r) (Star r)
  end.

(** [Pattern.fullmatch(s) is not None]. *)
Fixpoint fullmatch (r : regex) (w : str) : bool :=
  match w with [] => nullable r | c :: w => fullmatch (deriv c r) w end.

Create HintDb regex.
#[export] Hint Constructors matches : regex.

Lemma matches_alt_iff r s w : matches (Alt r s) w ↔ matches r w ∨ matches s w.
Proof. split; [inversion 1; auto|intros [?|?]; auto with regex]. Qed.

Lemma matches_seq_iff r s w :
  matches (Seq r s) w ↔ ∃ w1 w2, w = w1 ++ w2 ∧ matches r w1 ∧ matches s w2.
Proof. split; [inversion 1; eauto 10|intros (? & ? & -> & ? & ?); auto with regex]. Qed.

Lemma matches_void w : ¬ matches Void w.
Proof. by inversion 1. Qed.

Lemma matches_eps w : matches Eps w ↔ w = [].
Proof. split; [by inversion 1|intros ->; auto with regex]. Qed.

Lemma alt_matches r s w : matches (alt r s) w ↔ matches (Alt r s) w.
Proof.
  rewrite matches_alt_iff.
  destruct r, s; cbn; rewrite ?matches_alt_iff;
    repeat match goal with |- context [matches Void w] =>
      assert (matches Void w ↔ False) as -> by (split; [apply matches_void|done]) end;
    tauto.
Qed.

Lemma seq_matches r s w : matches (seq r s) w ↔ matches (Seq r s) w.
Proof.
  rewrite matches_seq_iff.
  assert (HV : ∀ v, matches Void v → False) by apply matches_void.
  assert (HE : ∀ v, matches Eps v → v = []) by (intros v; apply matches_eps).
  assert (HEl : ∀ s', matches s' w ↔ ∃ w1 w2, w = w1 ++ w2 ∧ matches Eps w1 ∧ matches s' w2).
  { intros s'. split; [intros; exists [], w; auto with regex|].
    by intros (w1 & w2 & -> & ->%HE & ?). }
  assert (HEr : ∀ r', matches r' w ↔ ∃ w1 w2, w = w1 ++ w2 ∧ matches r' w1 ∧ matches Eps w2).
  { intros r'. split; [intros; exists w, []; rewrite app_nil_r; auto with regex|].
    intros (w1 & w2 & -> & ? & ->%HE). by rewrite app_nil_r. }
  destruct r, s; cbn;
    first [apply HEl|apply HEr|by rewrite matches_seq_iff|split; [intros []%HV|naive_solver]].
Qed.

Lemma nullable_matches r : nullable r = true ↔ matches r [].
Proof.
  induction r as [| |k|r IHr s IHs|r IHr s IHs|r IHr]; cbn.
  - split; [done|intros []%matches_void].
  - split; auto with regex.
  - split; [done|by inversion 1].
  - by rewrite orb_true_iff, IHr, IHs, matches_alt_iff.
  - rewrite andb_true_iff, IHr, IHs, matches_seq_iff. split; [intros [? ?]; by exists [], []|].
    intros (w1 & w2 & Heq & ? & ?). symmetry in Heq. by apply app_nil in Heq as [-> ->].
  - split; auto with regex.
Qed.

Lemma star_cons_inv r c w :
  matches (Star r) (c :: w) →
  ∃ w1 w2, w = w1 ++ w2 ∧ matches r (c :: w1) ∧ matches (Star r) w2.
Proof.
  intros H. remember (Star r) as sr eqn:Hsr. remember (c :: w) as cw eqn:Hcw.
  revert w Hcw. induction H as [| | | | | |r' v v' Hv _ Hv' IH]; try done.
  injection Hsr as ->. intros w Hcw. destruct v as [|c' v]; cbn in Hcw; [eauto|].
  injection Hcw as -> <-. eauto.
Qed.

Lemma deriv_matches c r w : matches (deriv c r) w ↔ matches r (c :: w).
Proof.
  revert w; induction r as [| |k|r IHr s IHs|r IHr s IHs|r IHr]; intros w; cbn.
  - split; intros []%matches_void.
  - split; [intros []%matches_void|intros ?%matches_eps; done].
  - destruct (in_cls k c) eqn:Hk.
    + rewrite matches_eps. split; [intros ->; auto with regex|by inversion 1].
    + split; [intros []%matches_void|inversion 1; congruence].
  - by rewrite alt_matches, !matches_alt_iff, IHr, IHs.
  - assert (Hseq : matches (seq (deriv c r) s) w ↔
      ∃ w1 w2, w = w1 ++ w2 ∧ matches r (c :: w1) ∧ matches s w2).
    { rewrite seq_matches, matches_seq_iff. by setoid_rewrite IHr. }
    assert (Hcons : matches (Seq r s) (c :: w) ↔
      (matches r [] ∧ matches s (c :: w)) ∨
      ∃ w1 w2, w = w1 ++ w2 ∧ matches r (c :: w1) ∧ matches s w2).
    { rewrite matches_seq_iff. split.
      - intros ([|c' w1] & w2 & Heq & ? & ?); cbn in Heq; [subst; auto|].
        injection Heq as <- ->. eauto 10.
      - intros [[? ?]|(w1 & w2 & -> & ? & ?)]; [by exists [], (c :: w)|by exists (c :: w1), w2]. }
    rewrite Hcons, <-nullable_matches. destruct (nullable r).
    + rewrite alt_matches, matches_alt_iff, Hseq, IHs. naive_solver.
    + rewrite Hseq. naive_solver.
  - rewrite seq_matches, matches_seq_iff. setoid_rewrite IHr. split.
    + intros (w1 & w2 & -> & ? & ?). change (c :: w1 ++ w2) with ((c :: w1) ++ w2).
      auto with regex.
    + apply star_cons_inv.
Qed.

(** The matcher decides the language of the pattern. *)
Lemma fullmatch_matches r w : fullmatch r w = true ↔ matches r w.
Proof.
  revert r; induction w as [|c w IH]; intros r; cbn.
  - apply nullable_matches.
  - by rewrite IH, deriv_matches.
Qed.

(** ** What a match says about the string *)

(** Every class of the pattern is included in [P]. *)
Fixpoint all_cls (P : cls → Prop) (r : regex) : Prop :=
  match r with
  | Void | Eps => True
  | Cls k => P k
  | Alt r s | Seq r s => all_cls P r ∧ all_cls P s
  | Star r => all_cls P r
  end.

Lemma matches_chars (P : N → Prop) r w :
  all_cls (λ k, ∀ c, in_cls k c = true → P c) r → matches r w → Forall P w.
Proof.
  intros Hr Hm; induction Hm; cbn in *;
    rewrite ?Forall_app, ?Forall_cons; naive_solver.
Qed.

Lemma all_cls_rep P n r : all_cls P r → all_cls P (rep n r).
Proof. induction n; cbn; auto. Qed.
Lemma all_cls_upto P n r : all_cls P r → all_cls P (upto n r).
Proof. induction n; cbn; auto. Qed.

(** Inclusion of classes, by their ranges. *)
Lemma in_cls_incl k k' c :
  forallb (λ r, bool_decide (r ∈ k')) k = true → in_cls k c = true → in_cls k' c = true.
Proof.
  unfold in_cls. rewrite forallb_forall, !existsb_exists. intros Hk (r & Hr & Hc).
  exists r. split; [|done]. apply list_elem_of_In. apply Hk in Hr. by apply bool_decide_eq_true in Hr.
Qed.

Lemma Forall_in_cls_incl k k' w :
  forallb (λ r, bool_decide (r ∈ k')) k = true →
  Forall (λ c, in_cls k c = true) w → Forall (λ c, in_cls k' c = true) w.
Proof. intros Hk Hw. eapply Forall_impl; [exact Hw|]. intros c. by apply in_cls_incl. Qed.

(** A run of characters of one class, of a bounded length. *)
Lemma matches_upto_cls k n w :
  (length w ≤ n)%nat → Forall (λ c, in_cls k c = true) w → matches (upto n (Cls k)) w.
Proof.
  revert w. induction n as [|n IH]; intros [|c w] Hl Hw; cbn in *; try lia; auto with regex.
  inversion Hw; subst. apply m_alt_r. apply (m_seq _ _ [c] w); [by constructor|].
  apply IH; [lia|done].
Qed.

Lemma matches_rep_cls k n w :
  length w = n → Forall (λ c, in_cls k c = true) w → matches (rep n (Cls k)) w.
Proof.
  revert w. induction n as [|n IH]; intros [|c w] Hl Hw; cbn in *; try lia; auto with regex.
  inversion Hw; subst. apply (m_seq _ _ [c] w); [by constructor|]. apply IH; [lia|done].
Qed.

Lemma matches_between_cls k lo hi w :
  (lo ≤ length w ≤ hi)%nat → Forall (λ c, in_cls k c = true) w →
  matches (between lo hi (Cls k)) w.
Proof.
  intros Hl Hw. rewrite <-(take_drop lo w) in *. apply Forall_app in Hw as [Ht Hd].
  rewrite take_drop in Hl. apply m_seq.
  - apply matches_rep_cls; [rewrite length_take; lia|done].
  - apply matches_upto_cls; [rewrite length_drop; lia|done].
Qed.

Lemma matches_star_cls k w : matches (Star (Cls k)) w ↔ Forall (λ c, in_cls k c = true) w.
Proof.
  split; [intros Hm; eapply matches_chars; [|exact Hm]; by cbn; auto|]. induction 1 as [|c w Hc _ IH]; [constructor|].
  apply (m_star_cons _ [c] w); [by constructor|done].
Qed.

(** An upper bound on the length of a match, when the pattern has one. *)
Fixpoint max_len (r : regex) : option nat :=
  match r with
  | Void | Eps => Some 0%nat
  | Cls _ => Some 1%nat
  | Alt r s => m ← max_len r; n ← max_len s; Some (Nat.max m n)
  | Seq r s => m ← max_len r; n ← max_len s; Some (m + n)%nat
  | Star _ => None
  end.

Lemma matches_max_len r w n :
  matches r w → max_len r = Some n → (length w ≤ n)%nat.
Proof.
  intros Hm; revert n; induction Hm; intros n Hn; cbn in *; simplify_option_eq;
    rewrite ?length_app; try lia;
    repeat match goal with IH : ∀ n, Some _ = Some n → _ |- _ => specialize (IH _ eq_refl) end;
    lia.
Qed.

(** A matching string is not empty when the pattern is not nullable. *)
Lemma fullmatch_nonempty r w : nullable r = false → fullmatch r w = true → w ≠ [].
Proof. intros Hr Hw ->. cbn in Hw. congruence. Qed.

#[export] Hint Resolve all_cls_rep all_cls_upto : regex.
