(* ===== verification/PyValues.v ===== *)
(** * Python values

    The dynamically typed values that reach the validators of the program
    ([isinstance] checks, ranges, JSON-like payloads), strings, rounding and
    datetimes. Everything here models the language and its standard library;
    the only definition of the repository is [require_utc]. *)

From S2P Require Export Prelude Regex.
From Stdlib Require Import NArith.

(** ** Rounding and floats *)

(** [n / d] rounded to the nearest integer, ties to the even one ([d > 0]). *)
Definition round_half_even (n d : Z) : Z :=
  let q := n / d in
  let r := n mod d in
  if 2 * r <? d then q
  else if d <? 2 * r then q + 1
  else if Z.even q then q else q + 1.

(** A binary float: NaN, an infinity, or [m * 2^e]. *)
Inductive pyfloat :=
| FNan
| FInf (negative : bool)
| FFin (m e : Z).

Definition isfinite (f : pyfloat) : bool :=
  match f with FFin _ _ => true | _ => false end.

(** [0 <= f <= k] for an integer [k]; false on NaN. *)
Definition float_between_0 (k : Z) (f : pyfloat) : bool :=
  match f with
  | FFin m e => (0 <=? m) && (if 0 <=? e then m * 2 ^ e <=? k else m <=? k * 2 ^ (- e))
  | _ => false
  end.

(** [timedelta(seconds=f)] in microseconds, for a finite [f]. *)
Definition float_seconds (m e : Z) : timedelta :=
  if 0 <=? e then seconds (m * 2 ^ e) else round_half_even (seconds m) (2 ^ (- e)).

Lemma round_half_even_bounds n d lo hi :
  0 < d → lo * d ≤ n ≤ hi * d → lo ≤ round_half_even n d ≤ hi.
Proof.
  intros Hd [Hlo Hhi]. unfold round_half_even.
  pose proof (Z.div_mod n d ltac:(lia)) as Hn.
  pose proof (Z.mod_pos_bound n d Hd) as Hr.
  assert (lo ≤ n / d) by (apply Z.div_le_lower_bound; lia).
  assert (n / d ≤ hi) by (apply Z.div_le_upper_bound; lia).
  assert (n / d = hi → n mod d = 0) by (intros Heq; rewrite Heq in Hn; nia).
  destruct (2 * (n mod d) <? d) eqn:?; bool_inv; [lia|].
  destruct (d <? 2 * (n mod d)) eqn:?; bool_inv; [lia|].
  destruct (Z.even (n / d)); lia.
Qed.

(** The error of rounding is at most one half. *)
Lemma round_half_even_error n d :
  0 < d → Z.abs (2 * (round_half_even n d * d - n)) ≤ d.
Proof.
  intros Hd. unfold round_half_even.
  pose proof (Z.div_mod n d ltac:(lia)) as Hn.
  pose proof (Z.mod_pos_bound n d Hd) as Hr.
  destruct (2 * (n mod d) <? d) eqn:?; bool_inv; [nia|].
  destruct (d <? 2 * (n mod d)) eqn:?; bool_inv; [nia|].
  destruct (Z.even (n / d)); nia.
Qed.

Lemma round_half_even_exact k d : 0 < d → round_half_even (k * d) d = k.
Proof.
  intros Hd. unfold round_half_even. rewrite Z.div_mul, Z.mod_mul by lia.
  destruct (2 * 0 <? d) eqn:?; bool_inv; lia.
Qed.

Lemma float_seconds_bounds k m e :
  0 ≤ k → float_between_0 k (FFin m e) = true → 0 ≤ float_seconds m e ≤ seconds k.
Proof.
  unfold float_between_0, float_seconds, seconds. intros Hk ?. bool_inv.
  destruct (0 <=? e) eqn:?; bool_inv.
  - pose proof (Z.pow_nonneg 2 e). nia.
  - pose proof (Z.pow_pos_nonneg 2 (- e) ltac:(lia) ltac:(lia)).
    apply round_half_even_bounds; nia.
Qed.

(** ** Datetimes *)

(** A [datetime]: its wall clock reading and, when it is aware, its offset
    from UTC, both in microseconds. *)
Record pydatetime := Datetime { wall : Z; utcoffset : option timedelta }.

Definition aware (t : datetime) : pydatetime := Datetime t (Some 0).

(** ** Values *)

Inductive pyval :=
| PNone
| PBool (b : bool)
| PInt (z : Z)
| PFloat (f : pyfloat)
| PStr (s : str)
| PUUID (i : uuid)
| PDatetime (d : pydatetime)
| PTimedelta (d : timedelta)
| PList (l : list pyval)
| PTuple (l : list pyval)
| PDict (kvs : list (pyval * pyval))
| PObject.

(** Induction through the elements of the containers. *)

Section pyval_induction.
Context (P : pyval → Prop).
Context (Hatom : ∀ v, (∀ l, v ≠ PList l) → (∀ l, v ≠ PTuple l) → (∀ kvs, v ≠ PDict kvs) → P v).
Context (Hlist : ∀ l, Forall P l → P (PList l)).
Context (Htuple : ∀ l, Forall P l → P (PTuple l)).
Context (Hdict : ∀ kvs, Forall (λ kv, P kv.2) kvs → P (PDict kvs)).

Fixpoint pyval_nested_ind (v : pyval) : P v.
Proof using All.
  destruct v; try (by apply Hatom).
  - apply Hlist. induction l; constructor; [apply pyval_nested_ind|done].
  - apply Htuple. induction l; constructor; [apply pyval_nested_ind|done].
  - apply Hdict. induction kvs as [|[k v] kvs]; constructor; [apply pyval_nested_ind|done].
Qed.
End pyval_induction.

(** [isinstance(value, int) and not isinstance(value, bool)]. *)
Definition as_int (v : pyval) : option Z :=
  match v with PInt z => Some z | _ => None end.
Definition as_str (v : pyval) : option str :=
  match v with PStr s => Some s | _ => None end.

(** [value or default] for an optional value that is never falsy. *)
Definition or_default {A} (o : option A) (d : A) : A := default d o.

(** [require_utc] on any Python value, and on a datetime. *)
Definition require_utc_datetime (d : pydatetime) : res pyexn datetime :=
  match utcoffset d with
  | None => Err (ValueError "datetime must be timezone-aware")
  | Some off => Ok (wall d - off)
  end.

Definition require_utc (v : pyval) : res pyexn datetime :=
  match v with
  | PDatetime d => require_utc_datetime d
  | _ => Err (TypeError "value must be a datetime")
  end.

Lemma require_utc_aware t : require_utc_datetime (aware t) = Ok t.
Proof. cbn. by rewrite Z.sub_0_r. Qed.

(** ** Strings *)

(** [s.split(c)] for a one-character separator. *)
Fixpoint split_on (c : N) (s : str) : list str :=
  match s with
  | [] => [[]]
  | x :: s =>
      let ws := split_on c s in
      if (x =? c)%N then [] :: ws
      else match ws with [] => [[x]] | w :: ws => (x :: w) :: ws end
  end.

(** [s.encode("utf-8")], which fails on lone surrogates only. *)
Definition encodable (value : str) : bool :=
  forallb (λ c, negb ((55296 <=? c) && (c <=? 57343))%N) value.

Definition utf8_char (c : N) : list N :=
  let tail i := (128 + (c / 64 ^ i) mod 64)%N in
  if (c <? 128)%N then [c]
  else if (c <? 2048)%N then [192 + c / 64; tail 0]%N
  else if (c <? 65536)%N then [224 + c / 64 ^ 2; tail 1; tail 0]%N
  else [240 + c / 64 ^ 3; tail 2; tail 1; tail 0]%N.
Definition utf8 (s : str) : list N := s ≫= utf8_char.

(** [str(uuid)]: 32 lowercase hexadecimal digits in groups of 8-4-4-4-12. *)
Definition hex_digit (d : Z) : N := Z.to_N (if d <? 10 then 48 + d else 87 + d).

Fixpoint hex (n : nat) (i : Z) : str :=
  match n with O => [] | S n => hex n (i / 16) ++ [hex_digit (i mod 16)] end.

Definition uuid_str (i : uuid) : str :=
  hex 8 (i / 16 ^ 24) ++ [45%N] ++ hex 4 (i / 16 ^ 20) ++ [45%N] ++ hex 4 (i / 16 ^ 16)
  ++ [45%N] ++ hex 4 (i / 16 ^ 12) ++ [45%N] ++ hex 12 i.

(** The last [n] decimal digits of [z]; a decimal integer. *)
Fixpoint digits (n : nat) (z : Z) : str :=
  match n with O => [] | S n => digits n (z / 10) ++ [Z.to_N (48 + z mod 10)] end.

Fixpoint digit_count (fuel : nat) (z : Z) : nat :=
  match fuel with O => 1%nat | S n => if z <? 10 then 1%nat else S (digit_count n (z / 10)) end.

Definition int_str (z : Z) : str :=
  let a := Z.abs z in
  (if z <? 0 then [45%N] else []) ++ digits (digit_count (Z.to_nat (Z.log2 a)) a) a.

(** The proleptic Gregorian date of a day number (days since 1970-01-01). *)
Definition civil (days : Z) : Z * Z * Z :=
  let z := days + 719468 in
  let era := z / 146097 in
  let doe := z mod 146097 in
  let yoe := (doe - doe / 1460 + doe / 36524 - doe / 146096) / 365 in
  let doy := doe - (365 * yoe + yoe / 4 - yoe / 100) in
  let mp := (5 * doy + 2) / 153 in
  let d := doy - (153 * mp + 2) / 5 + 1 in
  let m := if mp <? 10 then mp + 3 else mp - 9 in
  (yoe + era * 400 + (if m <=? 2 then 1 else 0), m, d).

(** [value.isoformat().replace("+00:00", "Z")] of a UTC datetime. *)
Definition isoformat_z (t : datetime) : str :=
  let '(y, m, d) := civil (t / 86400000000) in
  let us := t mod 86400000000 in
  let s := us / 1000000 in
  digits 4 y ++ lit "-" ++ digits 2 m ++ lit "-" ++ digits 2 d ++ lit "T"
  ++ digits 2 (s / 3600) ++ lit ":" ++ digits 2 (s / 60 mod 60) ++ lit ":" ++ digits 2 (s mod 60)
  ++ (if us mod 1000000 =? 0 then [] else lit "." ++ digits 6 (us mod 1000000)) ++ lit "Z".

(** [serialize_utc]. *)
Definition serialize_utc (d : pydatetime) : res pyexn str := isoformat_z <$> require_utc_datetime d.

(** Two patterns that several modules of the repository each declare:
    [^[A-Za-z0-9][A-Za-z0-9._:-]{0,254}$] and
    [^[a-z][a-z0-9]*(?:_[a-z0-9]+)*$]. *)
Definition lower := rng "a" "z".
Definition upper := rng "A" "Z".
Definition digit := rng "0" "9".

Definition SAFE_KEY_PATTERN : regex :=
  Seq (Cls [upper; lower; digit])
    (between 0 254 (Cls [upper; lower; digit; chr "."; chr "_"; chr ":"; chr "-"])).
Definition SNAKE_CASE_PATTERN : regex :=
  Seq (Cls [lower]) (Seq (Star (Cls [lower; digit]))
    (Star (Seq (Cls [chr "_"]) (plus (Cls [lower; digit]))))).

(** ** Validators shared by several modules *)

(** [isinstance(value, str) and PATTERN.fullmatch(value)], with an optional
    bound on the length; the message is the caller's. *)
Definition validate_pattern (r : regex) (bound : option nat) (msg : string)
    (v : pyval) : res pyexn str :=
  match v with
  | PStr s =>
      if match bound with Some n => bool_decide (n < length s)%nat | None => false end
         || negb (fullmatch r s)
      then Err (ValueError msg) else Ok s
  | _ => Err (ValueError msg)
  end.

(** An integer (not a boolean) in a closed range. *)
Definition validate_int_range (lo hi : Z) (tmsg vmsg : string) (v : pyval) : res pyexn Z :=
  match as_int v with
  | None => Err (TypeError tmsg)
  | Some z => if (lo <=? z) && (z <=? hi) then Ok z else Err (ValueError vmsg)
  end.

Lemma validate_pattern_Ok r bound msg v s :
  validate_pattern r bound msg v = Ok s →
  v = PStr s ∧ fullmatch r s = true ∧
  (∀ n, bound = Some n → (length s ≤ n)%nat).
Proof.
  destruct v as [| | | |s'| | | | | | |]; try discriminate. cbn.
  destruct (_ || _) eqn:Hb; [done|]. intros [= ->]. bool_inv.
  split; [done|]. split; [done|]. intros n ->. bool_inv. lia.
Qed.

Lemma validate_int_range_Ok lo hi tmsg vmsg v z :
  validate_int_range lo hi tmsg vmsg v = Ok z ↔ v = PInt z ∧ lo ≤ z ≤ hi.
Proof.
  unfold validate_int_range. destruct v as [| |z'| | | | | | | | |]; cbn; try naive_solver.
  destruct ((lo <=? z') && (z' <=? hi)) eqn:Hb.
  - bool_inv. split; [intros [= ->]; auto|intros [[= ->] _]; done].
  - split; [done|]. intros [[= ->] ?]. rewrite andb_false_iff in Hb.
    destruct Hb; bool_inv; lia.
Qed.
