(* ===== verification/CoreTypes.v ===== *)
(** * Shared value contracts (core/types.py, the page and money schemas of
    api/schemas.py)

    Exact money with four-place half-even normalisation, currency codes,
    pagination requests and result pages, with the API models built from them.
    Decimals follow Python's [decimal] with the default context of 28 digits. *)

From S2P Require Import Prelude Regex PyValues.

(** ** Strings *)

(** [str.isspace] of one code point. *)
Definition is_space (c : N) : bool :=
  in_cls [(9, 13); (28, 32); (133, 133); (160, 160); (5760, 5760); (8192, 8202);
          (8232, 8233); (8239, 8239); (8287, 8287); (12288, 12288)]%N c.

Fixpoint lstrip (s : str) : str :=
  match s with c :: s' => if is_space c then lstrip s' else s | [] => [] end.
Definition strip (s : str) : str := reverse (lstrip (reverse (lstrip s))).

(** [str.upper], of which only the ASCII part of the result matters: ten code
    points outside ASCII have an ASCII upper case, every other one keeps a
    code point outside ASCII, for which the character itself stands. *)
Definition upper_special : list (N * str) :=
  [(223, lit "SS"); (305, lit "I"); (383, lit "S"); (64256, lit "FF"); (64257, lit "FI");
   (64258, lit "FL"); (64259, lit "FFI"); (64260, lit "FFL"); (64261, lit "ST");
   (64262, lit "ST")]%N.

Definition upper_char (c : N) : str :=
  match list_find (λ p, p.1 = c) upper_special with
  | Some (_, p) => p.2
  | None => if in_cls [lower] c then [(c - 32)%N] else [c]
  end.
Definition str_upper (s : str) : str := s ≫= upper_char.

(** ** Decimals *)

(** [(-1)^neg * coeff * 10^exp], an infinity, or a NaN. *)
Inductive decimal :=
| DNum (neg : bool) (coeff exp : Z)
| DInf (neg : bool)
| DNan (signaling : bool).

#[export] Instance decimal_eq_dec : EqDecision decimal.
Proof. solve_decision. Defined.

(** The zeros of the Unicode decimal digits. *)
Definition unicode_zeros : list N :=
  [48; 1632; 1776; 1984; 2406; 2534; 2662; 2790; 2918; 3046; 3174; 3302; 3430; 3558; 3664; 3792;
   3872; 4160; 4240; 6112; 6160; 6470; 6608; 6784; 6800; 6992; 7088; 7232; 7248; 42528; 43216;
   43264; 43472; 43504; 43600; 44016; 65296; 66720; 68912; 69734; 69872; 69942; 70096; 70384;
   70736; 70864; 71248; 71360; 71472; 71904; 72016; 72784; 73040; 73120; 92768; 92864; 93008;
   120782; 120792; 120802; 120812; 120822; 123200; 123632; 125264; 130032]%N.

Definition digit_value (c : N) : option Z :=
  z ← list_find (λ z, z <= c < z + 10)%N unicode_zeros;
  Some (Z.of_N (c - z.2)).

(** The digits at the head of a string: their value, their number, the rest. *)
Fixpoint take_digits (s : str) (acc n : Z) : Z * Z * str :=
  match s with
  | c :: s' =>
      match digit_value c with
      | Some d => take_digits s' (10 * acc + d) (n + 1)
      | None => (acc, n, s)
      end
  | [] => (acc, n, [])
  end.

Definition ascii_lower (c : N) : N := if in_cls [upper] c then (c + 32)%N else c.

(** The characters outside ASCII whose case folding contains an ASCII one. *)
Definition casefold_special : list (N * str) :=
  [(223, [115; 115]); (304, [105; 775]); (329, [700; 110]); (383, [115]); (496, [106; 780]);
   (7830, [104; 817]); (7831, [116; 776]); (7832, [119; 778]); (7833, [121; 778]);
   (7834, [97; 702]); (7838, [115; 115]); (8490, [107]);
   (64256, [102; 102]); (64257, [102; 105]); (64258, [102; 108]); (64259, [102; 102; 105]);
   (64260, [102; 102; 108]); (64261, [115; 116]); (64262, [115; 116])]%N.

(** [str.casefold]: exact in its ASCII characters, which are all that the code
    looks at; other characters stand for themselves. *)
Definition casefold_char (c : N) : str :=
  match find (λ p, (p.1 =? c)%N) casefold_special with
  | Some (_, s) => s
  | None => [ascii_lower c]
  end.

Definition casefold (s : str) : str := s ≫= casefold_char.

Definition take_sign (s : str) : bool * str :=
  match s with
  | 45%N :: s' => (true, s')
  | 43%N :: s' => (false, s')
  | _ => (false, s)
  end.

Definition take_exponent (s : str) : option Z :=
  match s with
  | [] => Some 0
  | c :: s' =>
      if bool_decide (ascii_lower c = 101%N) then
        let '(neg, s') := take_sign s' in
        let '(e, n, rest) := take_digits s' 0 0 in
        if (1 <=? n) && bool_decide (rest = []) then Some (if neg then - e else e) else None
      else None
  end.

Definition decimal_special (neg : bool) (s : str) : option decimal :=
  let word := ascii_lower <$> s in
  let nan_tail (t : str) := let '(_, _, rest) := take_digits t 0 0 in bool_decide (rest = []) in
  if bool_decide (word = lit "inf" ∨ word = lit "infinity") then Some (DInf neg)
  else if bool_decide (take 3 word = lit "nan") && nan_tail (drop 3 s) then Some (DNan false)
  else if bool_decide (take 4 word = lit "snan") && nan_tail (drop 4 s) then Some (DNan true)
  else None.

(** [Decimal(s)] for a string; [None] where it raises InvalidOperation. *)
Definition decimal_of_str (s : str) : option decimal :=
  let s := filter (λ c, c ≠ 95%N) (strip s) in
  let '(neg, s) := take_sign s in
  let '(int, ni, rest) := take_digits s 0 0 in
  let '(coeff, nf, rest) :=
    match rest with
    | 46%N :: r => take_digits r int 0
    | _ => (int, 0, rest)
    end in
  if 1 <=? ni + nf
  then e ← take_exponent rest; Some (DNum neg coeff (e - nf))
  else decimal_special neg s.

(** ** Money *)

Inductive money_input :=
| FromDecimal (d : decimal)
| FromStr (s : str)
| FromBool (b : bool)
| FromInt (z : Z)
| FromFloat (f : pyfloat).

Definition MONEY_SCALE : Z := 4.
Definition DEFAULT_CURRENCY : str := lit "NGN".
Definition CONTEXT_LIMIT : Z := 10 ^ 28.

(** [value.quantize(Decimal("0.0001"), rounding=ROUND_HALF_EVEN)]: invalid when
    the result needs more digits than the context has. *)
Definition decimal_quantize (d : decimal) : res pyexn decimal :=
  match d with
  | DNum neg coeff exp =>
      if coeff =? 0 then Ok (DNum neg 0 (- MONEY_SCALE))
      else if 24 <? exp then Err InvalidOperation
      else
        let c := if - MONEY_SCALE <=? exp then coeff * 10 ^ (exp + MONEY_SCALE)
                 else round_half_even coeff (10 ^ (- MONEY_SCALE - exp)) in
        if CONTEXT_LIMIT <=? c then Err InvalidOperation else Ok (DNum neg c (- MONEY_SCALE))
  | DInf _ => Err InvalidOperation
  | DNan true => Err InvalidOperation
  | DNan false => Ok (DNan false)
  end.

Definition quantize_money (v : money_input) : res pyexn decimal :=
  match v with
  | FromBool _ => Err (TypeError "boolean values are not valid monetary amounts")
  | FromFloat _ => Err (TypeError "floating-point values are not valid monetary amounts")
  | FromInt _ => Err (TypeError "integer values are not valid monetary amounts")
  | FromDecimal d => decimal_quantize d
  | FromStr s =>
      match decimal_of_str s with
      | None => Err (ValueError "money must be a valid decimal value")
      | Some d => decimal_quantize d
      end
  end.

Definition normalize_currency (value : str) : res pyexn str :=
  let currency := str_upper (strip value) in
  require (bool_decide (length currency = 3%nat)
           && forallb (λ c, (c <? 128)%N) currency && forallb (in_cls [upper; lower]) currency)
    (ValueError "currency must be a three-letter ASCII code");;
  Ok currency.

Record Money := NewMoney { amount : decimal; currency : str }.

Definition money (amount : money_input) (currency : str) : res pyexn Money :=
  amount ← quantize_money amount;
  currency ← normalize_currency currency;
  Ok (NewMoney amount currency).

Definition money_from_value (amount : money_input) (currency : str) : res pyexn Money :=
  amount ← quantize_money amount;
  money (FromDecimal amount) currency.

Definition signed (neg : bool) (c : Z) : Z := if neg then - c else c.

(** One digit too many is rounded away, half to even. *)
Definition context_round (neg : bool) (coeff exp : Z) : decimal :=
  if coeff <? CONTEXT_LIMIT then DNum neg coeff exp
  else DNum neg (round_half_even coeff 10) (exp + 1).

(** [a + b] and [a - b] for two decimals of the same exponent, as the amounts
    of two money values are: at most one digit more than the context has. *)
Definition decimal_neg (d : decimal) : decimal :=
  match d with DNum neg c e => DNum (negb neg) c e | DInf neg => DInf (negb neg) | d => d end.

Definition decimal_add (a b : decimal) : res pyexn decimal :=
  match a, b with
  | DNan true, _ | _, DNan true => Err InvalidOperation
  | DNan false, _ | _, DNan false => Ok (DNan false)
  | DInf na, DInf nb => if Bool.eqb na nb then Ok a else Err InvalidOperation
  | DInf _, _ => Ok a
  | _, DInf _ => Ok b
  | DNum na ca e, DNum nb cb _ =>
      let s := signed na ca + signed nb cb in
      Ok (context_round (if s =? 0 then na && nb else s <? 0) (Z.abs s) e)
  end.

Definition require_same_currency (a b : Money) : res pyexn unit :=
  require (bool_decide (currency a = currency b)) (ValueError "currency mismatch").

Definition money_add (a b : Money) : res pyexn Money :=
  require_same_currency a b;;
  amount ← decimal_add (amount a) (amount b);
  money (FromDecimal amount) (currency a).

Definition money_sub (a b : Money) : res pyexn Money :=
  require_same_currency a b;;
  amount ← decimal_add (amount a) (decimal_neg (amount b));
  money (FromDecimal amount) (currency a).

(** ** Pages *)

Record PageRequest := NewPageRequest { page : Z; page_size : Z }.

Definition require_integer (msg : string) (v : pyval) : res pyexn Z :=
  match as_int v with Some z => Ok z | None => Err (TypeError msg) end.

Definition page_request (page page_size : pyval) : res pyexn PageRequest :=
  page ← require_integer "page must be an integer" page;
  page_size ← require_integer "page_size must be an integer" page_size;
  require (negb (page <? 1)) (ValueError "page must be at least 1");;
  require ((1 <=? page_size) && (page_size <=? 100))
    (ValueError "page_size must be between 1 and 100");;
  Ok (NewPageRequest page page_size).

Definition offset (r : PageRequest) : Z := (page r - 1) * page_size r.

Record Page (T : Type) := NewPage {
  items : list T; total_items : Z; p_page : Z; p_page_size : Z }.
Arguments NewPage {T}. Arguments items {T}. Arguments total_items {T}.
Arguments p_page {T}. Arguments p_page_size {T}.

Definition make_page {T} (items : list T) (total_items pg size : pyval)
    : res pyexn (Page T) :=
  request ← page_request pg size;
  total_items ← require_integer "total_items must be an integer" total_items;
  require (negb (total_items <? 0)) (ValueError "total_items must be non-negative");;
  require (negb (page_size request <? Z.of_nat (length items)))
    (ValueError "items cannot exceed page_size");;
  require (negb (total_items <? Z.of_nat (length items)))
    (ValueError "items cannot exceed total_items");;
  Ok (NewPage items total_items (page request) (page_size request)).

Definition total_pages {T} (p : Page T) : Z :=
  (total_items p + p_page_size p - 1) / p_page_size p.
Definition has_previous {T} (p : Page T) : bool := 1 <? p_page p.
Definition has_next {T} (p : Page T) : bool := p_page p <? total_pages p.

(** [.limit(page_size).offset(offset)] of an ordered result. *)
Definition limit_offset {T} (r : PageRequest) (l : list T) : list T :=
  take (Z.to_nat (page_size r)) (drop (Z.to_nat (offset r)) l).

(** ** The API page *)

Record PageMeta := NewPageMeta {
  m_page : Z; m_page_size : Z; m_total_items : Z; m_total_pages : Z;
  m_has_previous : bool; m_has_next : bool }.

(** The field bounds and the derived-value validator of the model. *)
Definition validate_page_meta (m : PageMeta) : res pyexn PageMeta :=
  require (1 <=? m_page m) (ValueError "page");;
  require ((1 <=? m_page_size m) && (m_page_size m <=? 100)) (ValueError "page_size");;
  require (0 <=? m_total_items m) (ValueError "total_items");;
  require (0 <=? m_total_pages m) (ValueError "total_pages");;
  let expected_pages := (m_total_items m + m_page_size m - 1) / m_page_size m in
  require (m_total_pages m =? expected_pages)
    (ValueError "total_pages does not match total_items and page_size");;
  require (Bool.eqb (m_has_previous m) (1 <? m_page m))
    (ValueError "has_previous does not match page");;
  require (Bool.eqb (m_has_next m) (m_page m <? expected_pages))
    (ValueError "has_next does not match page and total_pages");;
  Ok m.

Record APIPage (T : Type) := NewAPIPage { api_items : list T; pagination : PageMeta }.
Arguments NewAPIPage {T}. Arguments api_items {T}. Arguments pagination {T}.

Definition validate_item_count {T} (p : APIPage T) : res pyexn (APIPage T) :=
  require (negb (m_page_size (pagination p) <? Z.of_nat (length (api_items p))))
    (ValueError "items cannot exceed page_size");;
  require (negb (m_total_items (pagination p) <? Z.of_nat (length (api_items p))))
    (ValueError "items cannot exceed total_items");;
  Ok p.

Definition serialize_page {T U} (p : Page T) (items : list U) : res pyexn (APIPage U) :=
  meta ← validate_page_meta
    (NewPageMeta (p_page p) (p_page_size p) (total_items p) (total_pages p)
       (has_previous p) (has_next p));
  validate_item_count (NewAPIPage items meta).

(** ** Currency codes *)

Definition code_ok (s : str) : Prop := length s = 3%nat ∧ Forall (λ c, in_cls [upper] c = true) s.

Lemma in_cls_single r c : in_cls [r] c = true ↔ (r.1 ≤ c ≤ r.2)%N.
Proof. cbn. rewrite orb_false_r, andb_true_iff, !N.leb_le. tauto. Qed.

Lemma upper_not_space c : in_cls [upper] c = true → is_space c = false.
Proof.
  intros [H1 H2]%in_cls_single. cbn in H1, H2. unfold is_space.
  apply not_true_iff_false. cbn. rewrite !orb_true_iff, !andb_true_iff, !N.leb_le. lia.
Qed.

Lemma upper_fixed c : in_cls [upper] c = true → upper_char c = [c].
Proof.
  intros [H1 H2]%in_cls_single. cbn in H1, H2.
  assert (∃ n, (n ≤ 25)%nat ∧ c = (65 + N.of_nat n)%N) as (n & Hn & ->).
  { exists (N.to_nat (c - 65)). lia. }
  do 26 (destruct n as [|n]; [reflexivity|]). lia.
Qed.

Lemma code_strip s : code_ok s → strip s = s.
Proof.
  intros [Hl Hf]. destruct s as [|a [|b [|c [|]]]]; try done.
  apply Forall_cons in Hf as [Ha Hf]. apply Forall_cons in Hf as [_ Hf].
  apply Forall_cons in Hf as [Hc _]. unfold strip. cbn [lstrip].
  rewrite (upper_not_space _ Ha). change (reverse [a; b; c]) with [c; b; a]. cbn [lstrip].
  by rewrite (upper_not_space _ Hc).
Qed.

Lemma code_upper s : Forall (λ c, in_cls [upper] c = true) s → str_upper s = s.
Proof.
  induction 1 as [|c s Hc _ IH]; [done|]. unfold str_upper in *. cbn.
  rewrite upper_fixed by done. cbn. by f_equal.
Qed.

Lemma upper_special_upper :
  forallb (λ p, forallb (in_cls [upper]) p.2) upper_special = true.
Proof. reflexivity. Qed.

(** What the upper case of a character is made of: no ASCII lower-case letter. *)
Lemma upper_char_not_lower c d : d ∈ upper_char c → in_cls [lower] d = false.
Proof.
  intros Hd. apply not_true_iff_false. intros [H1 H2]%in_cls_single. cbn in H1, H2.
  unfold upper_char in Hd. destruct (list_find _ _) as [[i p]|] eqn:Hp.
  - apply list_find_Some in Hp as (Hp & _ & _). apply list_elem_of_lookup_2 in Hp.
    pose proof upper_special_upper as Ha. rewrite forallb_forall in Ha.
    specialize (Ha p ltac:(by apply list_elem_of_In)). rewrite forallb_forall in Ha.
    specialize (Ha d ltac:(by apply list_elem_of_In)).
    apply in_cls_single in Ha as [_ Ha]. cbn in Ha. lia.
  - destruct (in_cls [lower] c) eqn:Hc; apply list_elem_of_singleton in Hd as ->.
    + apply in_cls_single in Hc as [? ?]. cbn in *. lia.
    + apply not_true_iff_false in Hc. apply Hc, in_cls_single. done.
Qed.

Lemma normalize_currency_Ok v s : normalize_currency v = Ok s → code_ok s.
Proof.
  unfold normalize_currency. intros H. res_inv. injection H as <-. bool_inv. split; [done|].
  apply Forall_forall. intros d Hd.
  match goal with H : forallb (in_cls _) _ = true |- _ => rewrite forallb_forall in H;
    specialize (H d ltac:(by apply list_elem_of_In)) as Hc end.
  unfold str_upper in Hd. apply list_elem_of_bind in Hd as (c & Hd & _).
  apply upper_char_not_lower in Hd. cbn in Hc, Hd |- *.
  rewrite orb_false_r in *. apply orb_true_iff in Hc as [?|?]; congruence.
Qed.

Lemma normalize_code s : code_ok s → normalize_currency s = Ok s.
Proof.
  intros Hs. pose proof Hs as [Hl Hf]. unfold normalize_currency.
  rewrite code_strip, code_upper by done. cbn [mbind res_bind].
  rewrite (bool_decide_eq_true_2 _ Hl).
  assert (Hu : ∀ c, c ∈ s → (65 ≤ c ≤ 90)%N).
  { rewrite Forall_forall in Hf. intros c Hc. by apply Hf, in_cls_single in Hc. }
  assert (forallb (λ c, (c <? 128)%N) s = true) as ->.
  { apply forallb_forall. intros c Hc%list_elem_of_In%Hu. apply N.ltb_lt. lia. }
  assert (forallb (in_cls [upper; lower]) s = true) as ->; [|done].
  { apply forallb_forall. intros c Hc%list_elem_of_In%Hu. cbn.
    rewrite orb_true_iff, andb_true_iff, !N.leb_le. lia. }
Qed.

(** ** Quantisation *)

(** A normalised amount: a whole number of ten-thousandths within the context. *)
Definition units (d : decimal) : option Z :=
  match d with
  | DNum neg c e => if bool_decide (e = - MONEY_SCALE) then Some (signed neg c) else None
  | _ => None
  end.

Definition amount_ok (d : decimal) : Prop :=
  ∃ neg c, d = DNum neg c (- MONEY_SCALE) ∧ 0 ≤ c < CONTEXT_LIMIT.

Definition decimal_wf (d : decimal) : Prop :=
  match d with DNum _ c _ => 0 ≤ c | _ => True end.

Lemma decimal_quantize_ok d : amount_ok d → decimal_quantize d = Ok d.
Proof.
  intros (neg & c & -> & Hc). unfold decimal_quantize.
  destruct (c =? 0) eqn:Hz; bool_inv; [by subst|].
  change (24 <? - MONEY_SCALE) with false. change (- MONEY_SCALE <=? - MONEY_SCALE) with true.
  change (10 ^ (- MONEY_SCALE + MONEY_SCALE)) with 1. cbn [negb]. rewrite Z.mul_1_r.
  by rewrite (proj2 (Z.leb_gt CONTEXT_LIMIT c)) by lia.
Qed.

(** Quantising a finite decimal: out of the context, or the nearest number of
    ten-thousandths. *)
Lemma decimal_quantize_num neg coeff exp d :
  0 ≤ coeff → decimal_quantize (DNum neg coeff exp) = Ok d →
  ∃ c, d = DNum neg c (- MONEY_SCALE) ∧ 0 ≤ c < CONTEXT_LIMIT ∧
    (- MONEY_SCALE ≤ exp → c = coeff * 10 ^ (exp + MONEY_SCALE)) ∧
    (exp < - MONEY_SCALE →
     Z.abs (2 * (c * 10 ^ (- MONEY_SCALE - exp) - coeff)) ≤ 10 ^ (- MONEY_SCALE - exp)).
Proof.
  intros Hc. unfold decimal_quantize. destruct (coeff =? 0) eqn:Hz; bool_inv.
  { intros [= <-]. exists 0. subst coeff. split_and!; [done|done|done|lia|].
    intros ?. rewrite Z.mul_0_l. pose proof (Z.pow_nonneg 10 (- MONEY_SCALE - exp)). lia. }
  destruct (24 <? exp) eqn:He; [done|]. bool_inv.
  destruct (CONTEXT_LIMIT <=? _) eqn:Hl; [done|]. intros [= <-]. bool_inv.
  eexists. split; [done|]. destruct (- MONEY_SCALE <=? exp) eqn:Hs; bool_inv.
  - pose proof (Z.pow_nonneg 10 (exp + MONEY_SCALE)). split_and!; [nia|done|done|lia].
  - pose proof (Z.pow_pos_nonneg 10 (- MONEY_SCALE - exp) ltac:(lia) ltac:(lia)).
    set (p := 10 ^ (- MONEY_SCALE - exp)) in *. clearbody p.
    split_and!; [|done|lia|intros _; by apply round_half_even_error].
    apply (round_half_even_bounds coeff p 0 coeff); nia.
Qed.

(** ** Money *)

Definition money_ok (m : Money) : Prop := amount_ok (amount m) ∧ code_ok (currency m).

Definition finite (d : decimal) : bool := match d with DNum _ _ _ => true | _ => false end.

(** Money built from a finite decimal is exact and within the context. *)
Lemma money_finite neg coeff exp cur m :
  0 ≤ coeff → money (FromDecimal (DNum neg coeff exp)) cur = Ok m → money_ok m.
Proof.
  unfold money. intros Hc H. res_inv. injection H as <-. split.
  - match goal with H : quantize_money _ = _ |- _ =>
      apply decimal_quantize_num in H as (c & -> & ? & _); [|done] end. by exists neg, c.
  - by eapply normalize_currency_Ok.
Qed.

Lemma money_ok_fixed m : money_ok m → money (FromDecimal (amount m)) (currency m) = Ok m.
Proof.
  intros [Ha Hc]. unfold money. cbn [quantize_money]. rewrite decimal_quantize_ok by done.
  cbn [mbind res_bind]. rewrite normalize_code by done. by destruct m.
Qed.

Definition value (m : Money) : Z := default 0 (units (amount m)).

(** Adding two normalised amounts in the context: the exact sum, or, when the
    sum needs one more digit, a value that no longer fits. *)
Lemma sum_sign s (b : bool) :
  signed (if s =? 0 then b else s <? 0) (Z.abs s) = s.
Proof.
  unfold signed. destruct (s =? 0) eqn:Hz; bool_inv; [subst; by destruct b|].
  destruct (s <? 0) eqn:Hs; bool_inv; lia.
Qed.

(** A coefficient of 29 digits, rounded to 28, no longer quantises. *)
Lemma context_overflow neg c :
  CONTEXT_LIMIT ≤ c < 2 * CONTEXT_LIMIT →
  decimal_quantize (context_round neg c (- MONEY_SCALE)) = Err InvalidOperation.
Proof.
  intros Hc. unfold context_round. rewrite (proj2 (Z.ltb_ge c CONTEXT_LIMIT)) by lia.
  assert (Hr : CONTEXT_LIMIT <= 10 * round_half_even c 10).
  { pose proof (round_half_even_bounds c 10 (10 ^ 27) (2 * 10 ^ 27) ltac:(lia)).
    unfold CONTEXT_LIMIT in *. lia. }
  set (r := round_half_even c 10) in *. clearbody r. unfold decimal_quantize.
  destruct (r =? 0) eqn:Hz; bool_inv; [unfold CONTEXT_LIMIT in *; lia|].
  change (24 <? - MONEY_SCALE + 1) with false.
  change (- MONEY_SCALE <=? - MONEY_SCALE + 1) with true.
  change (10 ^ (- MONEY_SCALE + 1 + MONEY_SCALE)) with 10. cbn [negb].
  by rewrite (proj2 (Z.leb_le CONTEXT_LIMIT (r * 10))) by lia.
Qed.

Lemma quantize_sum na ca nb cb e :
  e = - MONEY_SCALE → 0 ≤ ca < CONTEXT_LIMIT → 0 ≤ cb < CONTEXT_LIMIT →
  let s := signed na ca + signed nb cb in
  ∃ neg, signed neg (Z.abs s) = s ∧
    (d ← decimal_add (DNum na ca e) (DNum nb cb e); decimal_quantize d) =
    if Z.abs s <? CONTEXT_LIMIT then Ok (DNum neg (Z.abs s) e) else Err InvalidOperation.
Proof.
  intros -> Ha Hb s. exists (if s =? 0 then na && nb else s <? 0). split; [apply sum_sign|].
  cbn [decimal_add mbind res_bind]. fold s.
  set (neg := if s =? 0 then na && nb else s <? 0).
  assert (Hs : Z.abs s < 2 * CONTEXT_LIMIT) by (unfold s, signed; destruct na, nb; lia).
  clearbody neg s. destruct (Z.abs s <? CONTEXT_LIMIT) eqn:Hl.
  - unfold context_round. rewrite Hl. apply decimal_quantize_ok. bool_inv.
    exists neg, (Z.abs s). split; [done|lia].
  - bool_inv. apply context_overflow. lia.
Qed.

Lemma decimal_neg_ok d : amount_ok d → amount_ok (decimal_neg d) ∧
  default 0 (units (decimal_neg d)) = - default 0 (units d).
Proof.
  intros (neg & c & -> & Hc). split; [by exists (negb neg), c|].
  cbn. rewrite !bool_decide_eq_true_2 by done. cbn. destruct neg; cbn; lia.
Qed.

Lemma combine_money a cur d :
  amount_ok (amount a) → amount_ok d → code_ok (currency a) → currency a = cur →
  let s := value a + default 0 (units d) in
  if Z.abs s <? CONTEXT_LIMIT
  then ∃ m, (x ← decimal_add (amount a) d; money (FromDecimal x) (currency a)) = Ok m ∧
            money_ok m ∧ value m = s ∧ currency m = cur
  else (x ← decimal_add (amount a) d; money (FromDecimal x) (currency a))
       = Err InvalidOperation.
Proof.
  intros (na & ca & Ha & Hca) (nb & cb & -> & Hcb) Hcur <- s.
  destruct (quantize_sum na ca nb cb _ eq_refl Hca Hcb) as (neg & Hs & Hq).
  assert (signed na ca + signed nb cb = s) as Heq.
  { unfold s, value. rewrite Ha. cbn [units]. by rewrite !bool_decide_eq_true_2. }
  rewrite Heq in Hs, Hq. rewrite Ha. clearbody s.
  destruct (decimal_add _ _) as [x|] eqn:Hx; [|done].
  cbn [mbind res_bind] in Hq |- *. unfold money. cbn [quantize_money].
  rewrite Hq. destruct (Z.abs s <? CONTEXT_LIMIT) eqn:Hl; [|done]. cbn [mbind res_bind].
  rewrite normalize_code by done. cbn [mbind res_bind]. bool_inv.
  eexists. split; [done|]. unfold value. cbn [amount currency units].
  rewrite bool_decide_eq_true_2 by done. split_and!; [|by cbn|done].
  split; [|done]. exists neg, (Z.abs s). split; [done|]. lia.
Qed.

(** The decimal an input stands for. *)
Definition decimal_input (v : money_input) : option decimal :=
  match v with FromDecimal d => Some d | FromStr s => decimal_of_str s | _ => None end.

Lemma quantize_money_input v d :
  quantize_money v = Ok d → ∃ d0, decimal_input v = Some d0 ∧ decimal_quantize d0 = Ok d.
Proof.
  destruct v as [d0|s| | |]; cbn; try done; [by exists d0|].
  destruct (decimal_of_str s) as [d0|]; [|done]. by exists d0.
Qed.

Lemma take_digits_nonneg s acc n v k rest :
  0 ≤ acc → take_digits s acc n = (v, k, rest) → 0 ≤ v.
Proof.
  revert acc n. induction s as [|c s IH]; intros acc n Ha; cbn -[digit_value]; [by intros [= <- _ _]|].
  destruct (digit_value c) as [d|] eqn:Hd; [|by intros [= <- _ _]].
  apply IH. unfold digit_value in Hd. apply bind_Some in Hd as ([i z] & _ & [= <-]). lia.
Qed.

Lemma decimal_input_wf v d :
  (∀ d, v = FromDecimal d → decimal_wf d) → decimal_input v = Some d → decimal_wf d.
Proof.
  intros Hwf. destruct v as [d0|s| | |]; cbn; try done; [intros [= ->]; by apply Hwf|].
  unfold decimal_of_str. destruct (take_sign _) as [neg s1].
  destruct (take_digits s1 0 0) as [[int ni] rest] eqn:Hi.
  apply take_digits_nonneg in Hi; [|lia].
  destruct (match rest with 46%N :: r => take_digits r int 0 | _ => (int, 0, rest) end)
    as [[coeff nf] rest'] eqn:Hf.
  assert (Hc : 0 ≤ coeff).
  { destruct rest as [|c r]; [by injection Hf as <- _ _|].
    destruct (decide (c = 46%N)) as [->|Hne]; [by apply take_digits_nonneg in Hf|].
    assert ((int, 0, c :: r) = (coeff, nf, rest')) as [= <- _ _]; [|done].
    rewrite <-Hf. clear -Hne. repeat (case_match; try done). }
  destruct (1 <=? _).
  - intros (e & _ & [= <-])%bind_Some. done.
  - unfold decimal_special. repeat case_match; intros [=]; by subst.
Qed.

(** ** Pages *)

Lemma page_request_Ok v1 v2 r :
  page_request v1 v2 = Ok r ↔
  v1 = PInt (page r) ∧ v2 = PInt (page_size r) ∧ 1 ≤ page r ∧ 1 ≤ page_size r ≤ 100.
Proof.
  unfold page_request, require_integer. split.
  - intros H. res_inv. injection H as <-.
    repeat match goal with H : match as_int ?v with _ => _ end = _ |- _ =>
      destruct v; try discriminate H; injection H as <- end.
    bool_inv. cbn. split_and!; done || lia.
  - intros (-> & -> & Hp & [Hs1 Hs2]). cbn [as_int mbind res_bind].
    rewrite (proj2 (Z.ltb_ge _ _) Hp). cbn [negb require mbind res_bind].
    rewrite (proj2 (Z.leb_le _ _) Hs1), (proj2 (Z.leb_le _ _) Hs2). by destruct r.
Qed.

Lemma drop_drop_take {T} (l : list T) (m n : nat) :
  take m l ++ take n (drop m l) = take (m + n) l.
Proof.
  revert l. induction m as [|m IH]; intros l; [done|].
  destruct l as [|x l]; cbn; [by rewrite take_nil|]. by rewrite IH.
Qed.

(** The first [n] pages of size [s] are the first [n * s] items. *)
Lemma pages_prefix {T} (l : list T) (s n : nat) :
  concat ((λ i, take s (drop (i * s) l)) <$> List.seq 0 n) = take (n * s) l.
Proof.
  induction n as [|n IH]; [done|].
  rewrite seq_S, fmap_app, concat_app, IH. cbn [fmap list_fmap concat plus].
  rewrite app_nil_r, drop_drop_take. f_equal. lia.
Qed.

Lemma total_pages_spec n s : 1 ≤ s → 0 ≤ n →
  let k := (n + s - 1) / s in 0 ≤ k ∧ (k - 1) * s < n ≤ k * s ∨ (n = 0 ∧ k = 0).
Proof.
  intros Hs Hn k. pose proof (Z.div_mod (n + s - 1) s ltac:(lia)) as Hdiv.
  pose proof (Z.mod_pos_bound (n + s - 1) s ltac:(lia)) as Hmod. fold k in Hdiv.
  destruct (decide (n = 0)) as [Hz|]; [right|left].
  - split; [done|]. unfold k. rewrite Hz. apply Z.div_small. lia.
  - nia.
Qed.

(** ** Properties *)

(** Paging: a page request is accepted exactly for integers with page at
    least 1 and size between 1 and 100, and the pages 1 to [total_pages] of an
    ordered result, taken by limit and offset, laid end to end give exactly
    that result: no item is repeated and none is left out. *)
Theorem pages_partition {T} (l : list T) v1 v2 r :
  page_request v1 v2 = Ok r →
  let pages := (Z.of_nat (length l) + page_size r - 1) / page_size r in
  concat ((λ i, limit_offset (NewPageRequest (Z.of_nat i + 1) (page_size r)) l)
            <$> List.seq 0 (Z.to_nat pages)) = l.
Proof.
  intros (_ & _ & _ & Hs)%page_request_Ok pages.
  assert (∀ i : nat, limit_offset (NewPageRequest (Z.of_nat i + 1) (page_size r)) l =
    take (Z.to_nat (page_size r)) (drop (i * Z.to_nat (page_size r)) l)) as Heq.
  { intros i. unfold limit_offset, offset. cbn. do 2 f_equal. nia. }
  rewrite (list_fmap_ext _ _ _ (λ _ i _, Heq i)), pages_prefix. apply take_ge.
  pose proof (total_pages_spec (Z.of_nat (length l)) (page_size r) ltac:(lia) ltac:(lia)) as Hk.
  cbv zeta in Hk. fold pages in Hk. nia.
Qed.

Lemma pages_partition_witness :
  concat ((λ i, limit_offset (NewPageRequest (Z.of_nat i + 1) 2) [1; 2; 3; 4; 5])
            <$> List.seq 0 (Z.to_nat ((Z.of_nat 5 + 2 - 1) / 2))) = [1; 2; 3; 4; 5].
Proof.
  refine (pages_partition [1; 2; 3; 4; 5] (PInt 1) (PInt 2) (NewPageRequest 1 2) _).
  reflexivity.
Defined.

(** A page the domain accepts is a page the API accepts: for every domain
    page and response items of the same number, the response model's
    validators (field bounds, derived totals, item count) all hold, so
    serialising never fails; has_next says exactly whether items remain beyond
    this page. *)
Theorem domain_page_serializes {T U} (l : list T) (us : list U) total pg sz p :
  make_page l total pg sz = Ok p → length us = length l →
  ∃ a, serialize_page p us = Ok a ∧ api_items a = us ∧
    m_total_items (pagination a) = total_items p ∧
    (m_has_next (pagination a) = true ↔ p_page p * p_page_size p < total_items p).
Proof.
  unfold make_page. intros H Hlen. res_inv. injection H as <-.
  match goal with H : page_request _ _ = Ok ?r |- _ =>
    apply page_request_Ok in H as (_ & _ & Hp & Hs); set (req := r) in * end.
  bool_inv. unfold serialize_page, total_pages, has_next, has_previous.
  cbn [p_page p_page_size total_items].
  match goal with H : 0 ≤ ?n |- _ => set (tot := n) in * end.
  pose proof (total_pages_spec tot (page_size req) ltac:(lia) ltac:(lia)) as Hk.
  cbv zeta in Hk. unfold validate_page_meta.
  cbn [m_page m_page_size m_total_items m_total_pages m_has_previous m_has_next].
  set (k := (tot + page_size req - 1) / page_size req) in *.
  rewrite (proj2 (Z.leb_le 1 (page req))), (proj2 (Z.leb_le 1 (page_size req))),
    (proj2 (Z.leb_le (page_size req) 100)), (proj2 (Z.leb_le 0 tot)),
    (proj2 (Z.leb_le 0 k)), Z.eqb_refl, !eqb_reflx by lia.
  cbn [andb require mbind res_bind]. unfold validate_item_count.
  cbn [pagination m_page_size m_total_items api_items].
  rewrite Hlen, (proj2 (Z.ltb_ge (page_size req) _)), (proj2 (Z.ltb_ge tot _)) by lia.
  cbn [negb require mbind res_bind]. eexists. split; [done|]. cbn.
  split_and!; [done|done|]. rewrite Z.ltb_lt. change (total_pages _) with k.
  destruct Hk as [[? Hk]|[-> ->]]; [|split; intros; nia].
  split; intros Hlt; [|destruct (decide (page req < k)); [done|]]; nia.
Qed.

Lemma domain_page_serializes_witness :
  ∃ a, serialize_page (NewPage [1; 2] 5 2 2) [lit "a"; lit "b"] = Ok a ∧
    api_items a = [lit "a"; lit "b"] ∧ m_total_items (pagination a) = 5 ∧
    (m_has_next (pagination a) = true ↔ 2 * 2 < 5).
Proof.
  refine (domain_page_serializes [1; 2] [lit "a"; lit "b"] (PInt 5) (PInt 2) (PInt 2)
    (NewPage [1; 2] 5 2 2) _ _); reflexivity.
Defined.

(** Money arithmetic is exact: adding or subtracting two money values of
    the same currency gives exactly the sum or the difference in
    ten-thousandths, again a normalised amount in that currency, and raises
    InvalidOperation exactly when the result needs more than the 28 digits of
    the context; with different currencies both raise ValueError. *)
Theorem money_arithmetic_exact a b :
  money_ok a → money_ok b →
  (currency a ≠ currency b →
   money_add a b = Err (ValueError "currency mismatch") ∧
   money_sub a b = Err (ValueError "currency mismatch")) ∧
  (currency a = currency b →
   (if Z.abs (value a + value b) <? CONTEXT_LIMIT
    then ∃ m, money_add a b = Ok m ∧ money_ok m ∧ value m = value a + value b ∧
              currency m = currency b
    else money_add a b = Err InvalidOperation) ∧
   (if Z.abs (value a - value b) <? CONTEXT_LIMIT
    then ∃ m, money_sub a b = Ok m ∧ money_ok m ∧ value m = value a - value b ∧
              currency m = currency b
    else money_sub a b = Err InvalidOperation)).
Proof.
  intros [Ha Hca] [Hb Hcb]. unfold money_add, money_sub, require_same_currency.
  split; intros Hcur.
  - by rewrite bool_decide_eq_false_2.
  - rewrite bool_decide_eq_true_2 by done. cbn [require mbind res_bind].
    destruct (decimal_neg_ok _ Hb) as [Hn Hv].
    pose proof (combine_money a (currency b) (amount b) Ha Hb Hca Hcur) as H1.
    pose proof (combine_money a (currency b) (decimal_neg (amount b)) Ha Hn Hca Hcur) as H2.
    rewrite Hv, Z.add_opp_r in H2. split; [exact H1|exact H2].
Qed.

Definition naira (c : Z) : Money := NewMoney (DNum false c (-4)) (lit "NGN").

Lemma naira_ok c : 0 ≤ c < CONTEXT_LIMIT → money_ok (naira c).
Proof. intros Hc. split; [by exists false, c|]. split; [done|]. by repeat constructor. Qed.

Lemma money_arithmetic_exact_witness :
  (lit "NGN" ≠ lit "NGN" →
   money_add (naira 15000) (naira 20000) = Err (ValueError "currency mismatch") ∧
   money_sub (naira 15000) (naira 20000) = Err (ValueError "currency mismatch")) ∧
  (lit "NGN" = lit "NGN" →
   (∃ m, money_add (naira 15000) (naira 20000) = Ok m ∧ money_ok m ∧ value m = 35000 ∧
         currency m = lit "NGN") ∧
   (∃ m, money_sub (naira 15000) (naira 20000) = Ok m ∧ money_ok m ∧ value m = -5000 ∧
         currency m = lit "NGN")).
Proof.
  refine (money_arithmetic_exact (naira 15000) (naira 20000) _ _); apply naira_ok;
    unfold CONTEXT_LIMIT; lia.
Defined.

(** C38: Normalisation: money accepts no binary float, integer or boolean. A
    finite decimal is stored as the nearest number of ten-thousandths
    (unchanged when it has at most four places, with an error of at most half a
    unit otherwise), under a three-letter upper-case code, and normalising the
    stored value again changes nothing. The only other amount it accepts is a
    quiet NaN, which is stored as it is; infinities are refused. *)
Theorem money_normalised v cur m :
  (∀ d, v = FromDecimal d → decimal_wf d) → money_from_value v cur = Ok m →
  (∃ neg coeff exp c, decimal_input v = Some (DNum neg coeff exp) ∧ money_ok m ∧
     money (FromDecimal (amount m)) (currency m) = Ok m ∧
     value m = signed neg c ∧ 0 ≤ c ∧
     (- MONEY_SCALE ≤ exp → c = coeff * 10 ^ (exp + MONEY_SCALE)) ∧
     (exp < - MONEY_SCALE →
      Z.abs (2 * (c * 10 ^ (- MONEY_SCALE - exp) - coeff)) ≤ 10 ^ (- MONEY_SCALE - exp))) ∨
  (decimal_input v = Some (DNan false) ∧ amount m = DNan false ∧ code_ok (currency m)).
Proof.
  intros Hwf H. unfold money_from_value in H. apply bind_Ok in H as (d & Hd & H).
  pose proof H as Hm. unfold money in Hm. res_inv. injection Hm as Hm.
  match goal with H : normalize_currency _ = _ |- _ => apply normalize_currency_Ok in H end.
  destruct (quantize_money_input v d Hd) as (d0 & Hin & Hq). rewrite Hin.
  assert (Hwf0 : decimal_wf d0) by (eapply decimal_input_wf; eauto).
  destruct d0 as [neg coeff exp|neg|[]]; try discriminate Hq.
  - left. destruct (decimal_quantize_num _ _ _ _ Hwf0 Hq) as (c & -> & Hc & Hup & Hdown).
    pose proof (money_finite _ _ _ _ _ (proj1 Hc) H) as Hok.
    exists neg, coeff, exp, c. split_and!; try done; [by apply money_ok_fixed| |lia].
    rewrite <-Hm. unfold value. cbn [amount].
    match goal with H : quantize_money _ = Ok ?x |- _ =>
      cbn [quantize_money] in H; rewrite decimal_quantize_ok in H by (by exists neg, c);
      injection H as <- end.
    cbn [units]. by rewrite bool_decide_eq_true_2.
  - right. injection Hq as <-. cbn in *.
    match goal with H : Ok _ = Ok _ |- _ => injection H as <- end. by subst m.
Qed.

Lemma money_normalised_witness :
  (∃ neg coeff exp c, decimal_input (FromStr (lit "1.00005")) = Some (DNum neg coeff exp) ∧
     money_ok (naira 10000) ∧
     money (FromDecimal (amount (naira 10000))) (currency (naira 10000)) = Ok (naira 10000) ∧
     value (naira 10000) = signed neg c ∧ 0 ≤ c ∧
     (- MONEY_SCALE ≤ exp → c = coeff * 10 ^ (exp + MONEY_SCALE)) ∧
     (exp < - MONEY_SCALE →
      Z.abs (2 * (c * 10 ^ (- MONEY_SCALE - exp) - coeff)) ≤ 10 ^ (- MONEY_SCALE - exp))) ∨
  (decimal_input (FromStr (lit "1.00005")) = Some (DNan false) ∧
   amount (naira 10000) = DNan false ∧ code_ok (currency (naira 10000))).
Proof.
  refine (money_normalised (FromStr (lit "1.00005")) (lit " ngn ") (naira 10000) _ _).
  - done.
  - vm_compute. reflexivity.
Defined.

(** A quiet NaN is accepted as an amount; an infinity raises outside the
    [ValueError] that the code promises for invalid amounts. *)
Lemma money_accepts_nan :
  money (FromStr (lit "NaN")) (lit "NGN") = Ok (NewMoney (DNan false) (lit "NGN")) ∧
  money (FromStr (lit "Infinity")) (lit "NGN") = Err InvalidOperation.
Proof. split; reflexivity. Qed.
