(* ===== verification/Lease.v ===== *)
(** * Fenced leases

    The contract that the job queue and the leased outbox share, as an
    interface: a table whose rows may be held under a lease token, and a step
    relation that only ever hands out fresh tokens. A component that
    implements [LeaseSystem] gets the fencing and the exclusivity theorems. *)

From S2P Require Import Prelude.

(** The token under which row [k] is held in world [w]. *)
Definition held_by {W R} (tbl : W → gmap Z R) (holder : R → option uuid)
    (w : W) (k : Z) : option uuid :=
  tbl w !! k ≫= holder.

(** What the steps of a lease-based queue promise: tokens stay issued, a row
    is held only under the token it had or under one never issued before, and
    one step never gives the same new token to two rows. *)
Class LeaseSystem {W R L : Type} (step : W → L → W → Prop) (tbl : W → gmap Z R)
    (issued : W → gset uuid) (holder : R → option uuid) (inv : W → Prop) := {
  lease_inv w l w' : inv w → step w l w' → inv w';
  lease_issued w l w' : step w l w' → issued w ⊆ issued w';
  lease_origin w l w' k tok :
    inv w → step w l w' → held_by tbl holder w' k = Some tok →
    held_by tbl holder w k = Some tok ∨ (tok ∉ issued w ∧ tok ∈ issued w');
  lease_distinct w l w' k1 k2 tok :
    inv w → step w l w' →
    held_by tbl holder w k1 ≠ Some tok → held_by tbl holder w k2 ≠ Some tok →
    held_by tbl holder w' k1 = Some tok → held_by tbl holder w' k2 = Some tok → k1 = k2 }.

Section lease_theorems.
Context {W R L : Type} {step : W → L → W → Prop} {tbl : W → gmap Z R}.
Context {issued : W → gset uuid} {holder : R → option uuid} {inv : W → Prop}.
Context `{!LeaseSystem step tbl issued holder inv}.

(** Every held token has been issued, and no two rows share one. *)
Definition lease_wf (w : W) : Prop :=
  (∀ k tok, held_by tbl holder w k = Some tok → tok ∈ issued w) ∧
  (∀ k1 k2 tok, held_by tbl holder w k1 = Some tok →
                held_by tbl holder w k2 = Some tok → k1 = k2).

Lemma lease_wf_step w l w' : inv w → step w l w' → lease_wf w → lease_wf w'.
Proof.
  intros Hinv Hs [Hi Hu]. split.
  - intros k tok Hk. destruct (lease_origin _ _ _ _ _ Hinv Hs Hk) as [?|[_ ?]]; [|done].
    eapply lease_issued; eauto.
  - intros k1 k2 tok H1 H2. destruct (decide (tok ∈ issued w)) as [Hin|Hnin].
    + destruct (lease_origin _ _ _ _ _ Hinv Hs H1) as [?|[? _]]; [|done].
      destruct (lease_origin _ _ _ _ _ Hinv Hs H2) as [?|[? _]]; [|done]. eauto.
    + eapply (lease_distinct w l w'); eauto.
Qed.

Lemma lease_wf_runs w ls w' : runs step w ls w' → inv w → lease_wf w → lease_wf w'.
Proof.
  induction 1 as [|w1 l w2 ls w3 Hs _ IH]; [done|]. intros Hinv Hwf.
  apply IH; [by eapply lease_inv|by eapply lease_wf_step].
Qed.

(** The fence: a token that was issued and is not the holder of row [k] never
    becomes the holder of row [k] again. *)
Lemma lease_fence w ls w' k tok :
  runs step w ls w' → inv w → tok ∈ issued w →
  held_by tbl holder w k ≠ Some tok → held_by tbl holder w' k ≠ Some tok.
Proof.
  induction 1 as [|w1 l w2 ls w3 Hs _ IH]; [done|]. intros Hinv Hin Hn.
  apply IH; [by eapply lease_inv|by eapply lease_issued|].
  intros H2. by destruct (lease_origin _ _ _ _ _ Hinv Hs H2) as [?|[? _]].
Qed.
End lease_theorems.
