(* ===== verification/Jobs.v ===== *)
(** * Durable background jobs (jobs/models.py, jobs/service.py)

    The job table, every operation of [JobService] as a function on it, and
    the lifecycle of a job as a step relation whose steps are those
    operations. The lemmas read each operation row by row; the properties of the
    lifecycle are in JobLifecycle.v, those of the operations in JobSpecs.v. *)

From S2P Require Import Prelude Regex PyValues Lease.

(** ** Data *)

Inductive JobStatus :=
| PENDING | RUNNING | SUCCEEDED | RETRYING | FAILED | CANCELLED.

#[export] Instance JobStatus_eq_dec : EqDecision JobStatus.
Proof. solve_decision. Defined.

Module Job.
Record t := New {
  id : uuid;
  job_type : str;
  payload : list (pyval * pyval);
  result : option (list (pyval * pyval));
  idempotency_key : str;
  status : JobStatus;
  attempts : Z;
  max_attempts : Z;
  available_at : datetime;
  started_at : option datetime;
  finished_at : option datetime;
  lease_expires_at : option datetime;
  lease_owner : option str;
  lease_token : option uuid;
  last_error_code : option str;
  created_at : datetime }.
End Job.

#[export] Instance job_keyed : Keyed Job.t := Job.id.
#[export] Instance job_settable : Settable Job.t := λ j,
  Job.New (Job.id j) (Job.job_type j) (Job.payload j) (Job.result j)
    (Job.idempotency_key j) (Job.status j) (Job.attempts j) (Job.max_attempts j)
    (Job.available_at j) (Job.started_at j) (Job.finished_at j)
    (Job.lease_expires_at j) (Job.lease_owner j) (Job.lease_token j)
    (Job.last_error_code j) (Job.created_at j).

(** The table's CHECK constraints. *)
Definition job_checks (j : Job.t) : bool :=
  (0 <=? Job.attempts j)
  && ((1 <=? Job.max_attempts j) && (Job.max_attempts j <=? 100))
  && (Job.attempts j <=? Job.max_attempts j).

(** INSERT of one staged job: the primary key, the unique idempotency key and
    the CHECK constraints. *)
Definition insert_job (j : Job.t) (t : table Job.t) : res pyexn (table Job.t) :=
  require (bool_decide (t !! Job.id j = None)) (IntegrityError "pk_jobs");;
  require (negb (existsb (λ r, bool_decide (Job.idempotency_key r = Job.idempotency_key j))
                   (rows t))) (IntegrityError "uq_jobs_idempotency_key");;
  require (job_checks j) (IntegrityError "ck_jobs");;
  Ok (put j t).

(** Polling projection without the payload and the result. *)
Record JobStatusView := {
  v_job_id : uuid; v_job_type : str; v_status : JobStatus; v_attempts : Z;
  v_max_attempts : Z; v_available_at : datetime; v_started_at : option datetime;
  v_finished_at : option datetime; v_last_error_code : option str }.

(** ** Validators *)

Definition IDEMPOTENCY_KEY_PATTERN : regex := SAFE_KEY_PATTERN.
Definition JOB_TYPE_PATTERN : regex :=
  Seq (Cls [lower]) (Seq (Star (Cls [lower; digit]))
    (Star (Seq (Cls [chr "."; chr "_"; chr ":"; chr "-"]) (plus (Cls [lower; digit]))))).
Definition ERROR_CODE_PATTERN : regex := SNAKE_CASE_PATTERN.
Definition WORKER_PATTERN : regex :=
  Seq (Cls [upper; lower; digit])
    (between 0 99 (Cls [upper; lower; digit; chr "."; chr "_"; chr ":"; chr "-"])).

Definition MAX_BATCH_SIZE : Z := 100.
Definition MAX_LEASE : timedelta := seconds (24 * 3600).
Definition MAX_RETRY_DELAY_SECONDS : Z := 300.

Definition validate_job_type : pyval → res pyexn str :=
  validate_pattern JOB_TYPE_PATTERN (Some 100%nat)
    "job_type must use 1-100 safe lowercase characters".

Definition validate_idempotency_key : pyval → res pyexn str :=
  validate_pattern IDEMPOTENCY_KEY_PATTERN None
    "idempotency_key must use 1-255 safe characters".

Definition validate_max_attempts : pyval → res pyexn Z :=
  validate_int_range 1 100 "max_attempts must be an integer"
    "max_attempts must be between 1 and 100".

Definition validate_limit : pyval → res pyexn Z :=
  validate_int_range 1 MAX_BATCH_SIZE "limit must be an integer"
    "limit must be between 1 and 100".

Definition validate_worker : pyval → res pyexn str :=
  validate_pattern WORKER_PATTERN None "worker must use 1-100 safe characters".

Definition validate_lease (v : pyval) : res pyexn timedelta :=
  match v with
  | PTimedelta d =>
      if (d <=? 0) || (MAX_LEASE <? d)
      then Err (ValueError "lease must be greater than zero and at most 24 hours")
      else Ok d
  | _ => Err (TypeError "lease must be a timedelta")
  end.

Definition validate_error_code : pyval → res pyexn str :=
  validate_pattern ERROR_CODE_PATTERN (Some 100%nat)
    "error_code must use lowercase snake case".

(** The jitter, as the timedelta it stands for. *)
Definition validate_jitter (v : pyval) : res pyexn timedelta :=
  let bad := Err (ValueError "jitter_seconds must be between 0 and 30") in
  match v with
  | PInt z => if (0 <=? z) && (z <=? 30) then Ok (seconds z) else bad
  | PFloat f =>
      match f with
      | FFin m e => if float_between_0 30 f then Ok (float_seconds m e) else bad
      | _ => bad
      end
  | _ => Err (TypeError "jitter_seconds must be a number")
  end.

(** ** Operations *)

(** Row identifiers, creation times and the clock come from the environment:
    [new_id] and [fresh] are [uuid4()], [clock] is [utc_now()]. *)
Definition enqueue (new_id : uuid) (clock created_at : datetime)
    (job_type payload idempotency_key max_attempts : pyval)
    (available_at : option pydatetime) : res pyexn Job.t :=
  job_type ← validate_job_type job_type;
  idempotency_key ← validate_idempotency_key idempotency_key;
  max_attempts ← validate_max_attempts max_attempts;
  payload ← match payload with
            | PDict kvs => Ok kvs
            | _ => Err (TypeError "payload must be a dictionary")
            end;
  available_at ← require_utc_datetime (or_default available_at (aware clock));
  Ok {| Job.id := new_id; Job.job_type := job_type; Job.payload := payload;
        Job.result := None; Job.idempotency_key := idempotency_key;
        Job.status := PENDING; Job.attempts := 0; Job.max_attempts := max_attempts;
        Job.available_at := available_at; Job.started_at := None;
        Job.finished_at := None; Job.lease_expires_at := None;
        Job.lease_owner := None; Job.lease_token := None;
        Job.last_error_code := None; Job.created_at := created_at |}.

Definition queued (s : JobStatus) : bool := bool_decide (s = PENDING ∨ s = RETRYING).

Definition claimable (now : datetime) (j : Job.t) : bool :=
  queued (Job.status j)
  && (Job.available_at j <=? now)
  && (Job.attempts j <? Job.max_attempts j).

Definition claim_order (j : Job.t) : list Z := [Job.available_at j; Job.created_at j; Job.id j].

Definition claim_job (worker : str) (lease : timedelta) (claimed_at : datetime)
    (token : uuid) (j : Job.t) : Job.t :=
  j <| Job.status := RUNNING |>
    <| Job.attempts ::= Z.succ |>
    <| Job.started_at := Some claimed_at |>
    <| Job.finished_at := None |>
    <| Job.lease_owner := Some worker |>
    <| Job.lease_token := Some token |>
    <| Job.lease_expires_at := Some (claimed_at + lease) |>
    <| Job.last_error_code := None |>.

Definition claim (clock : datetime) (fresh : nat → uuid) (locked : gset uuid)
    (worker lease limit : pyval) (now : option pydatetime) (t : table Job.t)
    : res pyexn (list Job.t * table Job.t) :=
  worker ← validate_worker worker;
  lease ← validate_lease lease;
  limit ← validate_limit limit;
  claimed_at ← require_utc_datetime (or_default now (aware clock));
  let jobs := select_for_update locked (claimable claimed_at) claim_order limit t in
  let jobs := imap (λ i j, claim_job worker lease claimed_at (fresh i) j) jobs in
  Ok (jobs, put_all jobs t).

(** [id = job_id AND status = 'running' AND lease_token = token AND
    lease_expires_at > now]. *)
Definition holds_lease (job_id token : uuid) (now : datetime) (j : Job.t) : bool :=
  bool_decide (Job.id j = job_id)
  && bool_decide (Job.status j = RUNNING)
  && bool_decide (Job.lease_token j = Some token)
  && sql_gt (Job.lease_expires_at j) now.

Definition heartbeat (clock : datetime) (job_id token : uuid)
    (lease_expires_at : pydatetime) (now : option pydatetime) (t : table Job.t)
    : res pyexn (bool * table Job.t) :=
  current_time ← require_utc_datetime (or_default now (aware clock));
  next_expiry ← require_utc_datetime lease_expires_at;
  require (negb (next_expiry <=? current_time))
    (ValueError "lease_expires_at must be in the future");;
  let p := holds_lease job_id token current_time in
  Ok (0 <? rowcount p t, update_where p (λ j, j <| Job.lease_expires_at := Some next_expiry |>) t).

Definition clear_lease (j : Job.t) : Job.t :=
  j <| Job.lease_owner := None |> <| Job.lease_token := None |>
    <| Job.lease_expires_at := None |>.

Definition complete_job (result : option (list (pyval * pyval))) (completed_at : datetime)
    (j : Job.t) : Job.t :=
  clear_lease
    (j <| Job.status := SUCCEEDED |> <| Job.result := result |>
       <| Job.finished_at := Some completed_at |> <| Job.last_error_code := None |>).

Definition complete (clock : datetime) (job_id token : uuid)
    (result : option (list (pyval * pyval))) (now : option pydatetime) (t : table Job.t)
    : res pyexn (bool * table Job.t) :=
  completed_at ← require_utc_datetime (or_default now (aware clock));
  let p := holds_lease job_id token completed_at in
  Ok (0 <? rowcount p t, update_where p (complete_job result completed_at) t).

Definition exhausted (j : Job.t) : bool := Job.max_attempts j <=? Job.attempts j.

Definition retry_delay (attempts : Z) (jitter : timedelta) : timedelta :=
  seconds (Z.min (2 ^ attempts) MAX_RETRY_DELAY_SECONDS) + jitter.

Definition retry_job (error_code : str) (jitter : timedelta) (failed_at : datetime)
    (j : Job.t) : Job.t :=
  let j' :=
    if exhausted j
    then j <| Job.status := FAILED |> <| Job.finished_at := Some failed_at |>
    else j <| Job.status := RETRYING |>
           <| Job.available_at := failed_at + retry_delay (Job.attempts j) jitter |>
           <| Job.finished_at := None |> in
  clear_lease (j' <| Job.last_error_code := Some error_code |>).

Definition retry (clock : datetime) (job_id token : uuid) (error_code jitter_seconds : pyval)
    (now : option pydatetime) (t : table Job.t) : res pyexn (bool * table Job.t) :=
  error_code ← validate_error_code error_code;
  jitter ← validate_jitter jitter_seconds;
  failed_at ← require_utc_datetime (or_default now (aware clock));
  match t !! job_id with
  | None => Ok (false, t)
  | Some j =>
      if negb (bool_decide (Job.status j = RUNNING))
         || negb (bool_decide (Job.lease_token j = Some token))
         || from_option (λ e, e <=? failed_at) true (Job.lease_expires_at j)
      then Ok (false, t)
      else Ok (true, put (retry_job error_code jitter failed_at j) t)
  end.

Definition cancel (clock : datetime) (job_id : uuid) (now : option pydatetime)
    (t : table Job.t) : res pyexn (bool * table Job.t) :=
  cancelled_at ← require_utc_datetime (or_default now (aware clock));
  let p j := bool_decide (Job.id j = job_id) && queued (Job.status j) in
  Ok (0 <? rowcount p t,
      update_where p (λ j, j <| Job.status := CANCELLED |>
                             <| Job.finished_at := Some cancelled_at |>) t).

Definition lease_expired (now : datetime) (j : Job.t) : bool :=
  bool_decide (Job.status j = RUNNING) && sql_le (Job.lease_expires_at j) now.

Definition recover_order (j : Job.t) : list Z :=
  [default 0 (Job.lease_expires_at j); Job.id j].

Definition recover_job (recovered_at : datetime) (j : Job.t) : Job.t :=
  let e := exhausted j in
  clear_lease
    (j <| Job.status := if e then FAILED else RETRYING |>
       <| Job.available_at := recovered_at |>
       <| Job.finished_at := if e then Some recovered_at else None |>
       <| Job.last_error_code := Some (lit "lease_expired") |>).

Definition recover_expired (clock : datetime) (locked : gset uuid)
    (now : option pydatetime) (limit : pyval) (t : table Job.t)
    : res pyexn (Z * table Job.t) :=
  limit ← validate_limit limit;
  recovered_at ← require_utc_datetime (or_default now (aware clock));
  let jobs := select_for_update locked (lease_expired recovered_at) recover_order limit t in
  Ok (Z.of_nat (length jobs), put_all (recover_job recovered_at <$> jobs) t).

Definition get_status (job_id : uuid) (t : table Job.t) : option JobStatusView :=
  j ← t !! job_id;
  Some {| v_job_id := Job.id j; v_job_type := Job.job_type j; v_status := Job.status j;
          v_attempts := Job.attempts j; v_max_attempts := Job.max_attempts j;
          v_available_at := Job.available_at j; v_started_at := Job.started_at j;
          v_finished_at := Job.finished_at j; v_last_error_code := Job.last_error_code j |}.

(** ** The lifecycle as a step relation *)

(** The jobs table, and every lease token [uuid4()] has produced so far. *)
Record world := World { jobs : table Job.t; issued : gset uuid }.

(** What a step does to the claim count of a job. *)
Inductive label :=
| LEnqueue
| LClaim (ids : list uuid)
| LOther.

Definition claimed_in (l : label) (k : uuid) : bool :=
  match l with LClaim ids => bool_decide (k ∈ ids) | _ => false end.

(** Any call of the service, with any arguments, any clock reading and any
    set of rows locked by concurrent transactions. *)
Inductive step : world → label → world → Prop :=
| step_enqueue w new_id clock created_at job_type payload key max_attempts avail j t' :
    enqueue new_id clock created_at job_type payload key max_attempts avail = Ok j →
    insert_job j (jobs w) = Ok t' →
    step w LEnqueue (World t' (issued w))
| step_claim w clock fresh locked worker lease limit now js t' :
    (∀ i, fresh i ∉ issued w) → Inj (=) (=) fresh →
    claim clock fresh locked worker lease limit now (jobs w) = Ok (js, t') →
    step w (LClaim (Job.id <$> js))
      (World t' (issued w ∪ list_to_set (omap Job.lease_token js)))
| step_heartbeat w clock k token expires now b t' :
    heartbeat clock k token expires now (jobs w) = Ok (b, t') →
    step w LOther (World t' (issued w))
| step_complete w clock k token result now b t' :
    complete clock k token result now (jobs w) = Ok (b, t') →
    step w LOther (World t' (issued w))
| step_retry w clock k token code jitter now b t' :
    retry clock k token code jitter now (jobs w) = Ok (b, t') →
    step w LOther (World t' (issued w))
| step_cancel w clock k now b t' :
    cancel clock k now (jobs w) = Ok (b, t') →
    step w LOther (World t' (issued w))
| step_recover w clock locked now limit n t' :
    recover_expired clock locked now limit (jobs w) = Ok (n, t') →
    step w LOther (World t' (issued w)).

Definition initial : world := World ∅ ∅.

(** What one call can do to one existing row. *)
Inductive row_step (tokens : gset uuid) : bool → Job.t → Job.t → Prop :=
| row_same j : row_step tokens false j j
| row_claim j worker lease at_ token :
    claimable at_ j = true → token ∉ tokens → 0 < lease →
    row_step tokens true j (claim_job worker lease at_ token j)
| row_heartbeat j token now expiry :
    holds_lease (Job.id j) token now j = true → now < expiry →
    row_step tokens false j (j <| Job.lease_expires_at := Some expiry |>)
| row_complete j token now result :
    holds_lease (Job.id j) token now j = true →
    row_step tokens false j (complete_job result now j)
| row_retry j token now code jitter :
    holds_lease (Job.id j) token now j = true → 0 ≤ jitter ≤ seconds 30 →
    row_step tokens false j (retry_job code jitter now j)
| row_cancel j now :
    queued (Job.status j) = true →
    row_step tokens false j
      (j <| Job.status := CANCELLED |> <| Job.finished_at := Some now |>)
| row_recover j now :
    lease_expired now j = true →
    row_step tokens false j (recover_job now j).

(** ** Row-level reading of each operation *)

Create HintDb jobs.
#[export] Hint Constructors row_step : jobs.

Lemma claim_job_id worker lease at_ token j :
  row_id (claim_job worker lease at_ token j) = row_id j.
Proof. done. Qed.

Lemma retry_job_id code jitter now j : row_id (retry_job code jitter now j) = row_id j.
Proof. unfold retry_job. by destruct (exhausted j). Qed.

Lemma validate_lease_Ok v d : validate_lease v = Ok d → v = PTimedelta d ∧ 0 < d ≤ MAX_LEASE.
Proof.
  destruct v; try done. cbn. destruct (_ || _) eqn:Hb; [done|].
  intros [= ->]. bool_inv. auto with lia.
Qed.

Lemma validate_jitter_Ok v d : validate_jitter v = Ok d → 0 ≤ d ≤ seconds 30.
Proof.
  destruct v as [| |z|f| | | | | | | |]; try done.
  - cbn. destruct (_ && _) eqn:Hb; [|done]. intros [= <-]. bool_inv. unfold seconds. lia.
  - unfold validate_jitter. destruct f as [| |m e]; try done.
    destruct (float_between_0 30 (FFin m e)) eqn:Hb; [|done].
    intros [= <-]. by apply float_seconds_bounds.
Qed.

Lemma holds_lease_true k token now j :
  holds_lease k token now j = true ↔
  Job.id j = k ∧ Job.status j = RUNNING ∧ Job.lease_token j = Some token ∧
  ∃ e, Job.lease_expires_at j = Some e ∧ now < e.
Proof.
  unfold holds_lease, sql_gt. rewrite !andb_true_iff, !bool_decide_eq_true.
  destruct (Job.lease_expires_at j) as [e|]; cbn.
  - rewrite Z.ltb_lt. naive_solver.
  - naive_solver.
Qed.

Section operations.
Context (t : table Job.t) (Hok : table_ok t).
Implicit Types (k : uuid) (j : Job.t).

Lemma heartbeat_row tokens clock id token expires now b t' k j :
  heartbeat clock id token expires now t = Ok (b, t') → t !! k = Some j →
  ∃ j', t' !! k = Some j' ∧ row_step tokens false j j'.
Proof using Hok.
  unfold heartbeat. intros H Hk. res_inv. injection H as <- <-. bool_inv.
  rewrite lookup_update_where, Hk. cbn. eexists; split; [done|].
  destruct (holds_lease _ _ _ j) eqn:Hh; [|constructor].
  pose proof Hh as (Hid & _)%holds_lease_true. subst id. by eapply row_heartbeat.
Qed.

Lemma complete_row tokens clock id token result now b t' k j :
  complete clock id token result now t = Ok (b, t') → t !! k = Some j →
  ∃ j', t' !! k = Some j' ∧ row_step tokens false j j'.
Proof using Hok.
  unfold complete. intros H Hk. res_inv. injection H as <- <-.
  rewrite lookup_update_where, Hk. cbn. eexists; split; [done|].
  destruct (holds_lease _ _ _ j) eqn:Hh; [|constructor].
  pose proof Hh as (Hid & _)%holds_lease_true. subst id. by eapply row_complete.
Qed.

Lemma cancel_row tokens clock id now b t' k j :
  cancel clock id now t = Ok (b, t') → t !! k = Some j →
  ∃ j', t' !! k = Some j' ∧ row_step tokens false j j'.
Proof using Hok.
  unfold cancel. intros H Hk. res_inv. injection H as <- <-.
  rewrite lookup_update_where, Hk. cbn. eexists; split; [done|].
  destruct (_ && _) eqn:Hh; [|constructor]. bool_inv. by apply row_cancel.
Qed.

(** The guard of [retry] is the WHERE clause of the other lease holders. *)
Lemma retry_guard id token now j :
  t !! id = Some j →
  negb (bool_decide (Job.status j = RUNNING))
    || negb (bool_decide (Job.lease_token j = Some token))
    || from_option (λ e, e <=? now) true (Job.lease_expires_at j)
  = negb (holds_lease id token now j).
Proof using Hok.
  intros Hid%Hok. change (Job.id j = id) in Hid. unfold holds_lease, sql_gt.
  rewrite (bool_decide_eq_true_2 (Job.id j = id)) by done.
  rewrite !negb_andb. cbn. f_equal.
  destruct (Job.lease_expires_at j); cbn; [|done]. by rewrite Z.ltb_antisym, negb_involutive.
Qed.

Lemma retry_row tokens clock id token code jitter now b t' k j :
  retry clock id token code jitter now t = Ok (b, t') → t !! k = Some j →
  ∃ j', t' !! k = Some j' ∧ row_step tokens false j j'.
Proof using Hok.
  unfold retry. intros H Hk. res_inv.
  destruct (t !! id) as [ji|] eqn:Hi; [|injection H as <- <-; eauto with jobs].
  rewrite (retry_guard _ _ _ _ Hi) in H.
  destruct (holds_lease _ _ _ ji) eqn:Hh; cbn in H; injection H as <- <-;
    [|eauto with jobs].
  pose proof (Hok _ _ Hi) as Hid. unfold put. rewrite retry_job_id, Hid.
  destruct (decide (id = k)) as [<-|Hne].
  - rewrite lookup_insert_eq. assert (ji = j) as -> by congruence.
    eexists; split; [done|]. eapply row_retry; [|by eapply validate_jitter_Ok].
    rewrite <-Hid in Hh. exact Hh.
  - rewrite lookup_insert_ne by done. eauto with jobs.
Qed.

Lemma recover_row tokens clock locked now limit n t' k j :
  recover_expired clock locked now limit t = Ok (n, t') → t !! k = Some j →
  ∃ j', t' !! k = Some j' ∧ row_step tokens false j j'.
Proof using Hok.
  unfold recover_expired. intros H Hk. res_inv. injection H as _ <-.
  rewrite <-imap_const.
  edestruct (lookup_put_all_imap (const (recover_job x0))) as [(i & Hi & ->)|[_ ->]].
  - exact Hok.
  - done.
  - apply (select_for_update_NoDup locked (lease_expired x0) recover_order x t Hok).
  - intros r Hr. by apply elem_of_select_for_update in Hr as (_ & ? & _).
  - exact Hk.
  - apply list_elem_of_lookup_2, elem_of_select_for_update in Hi as (? & _ & _); [|done].
    eauto with jobs.
  - eauto with jobs.
Qed.

Lemma claim_row clock fresh locked worker lease limit now js t' tokens k j :
  (∀ i, fresh i ∉ tokens) →
  claim clock fresh locked worker lease limit now t = Ok (js, t') → t !! k = Some j →
  ∃ j', t' !! k = Some j' ∧
    row_step tokens (bool_decide (k ∈ Job.id <$> js)) j j'.
Proof using Hok.
  unfold claim. intros Hfresh H Hk. res_inv. injection H as <- <-.
  set (sel := select_for_update _ _ _ _ _).
  set (f := λ i j, claim_job x x0 x2 (fresh i) j).
  assert (Hids : Job.id <$> imap f sel = row_id <$> sel) by (by apply (fmap_id_imap f)).
  rewrite Hids.
  edestruct (lookup_put_all_imap f sel t k j) as [(i & Hi & ->)|[Hn ->]];
    [exact Hok|done|by apply select_for_update_NoDup| |exact Hk| |].
  - intros r Hr. by apply elem_of_select_for_update in Hr as (_ & ? & _).
  - apply list_elem_of_lookup_2 in Hi as Hin.
    rewrite bool_decide_eq_true_2.
    2: { apply list_elem_of_fmap. exists j. split; [|done]. symmetry. by apply Hok. }
    apply elem_of_select_for_update in Hin as (? & _ & _); [|done].
    eexists; split; [reflexivity|].
    apply (row_claim tokens j x x0 x2 (fresh i)).
    { assumption. } { apply Hfresh. }
    match goal with H : validate_lease _ = _ |- _ => apply validate_lease_Ok in H end. lia.
  - rewrite bool_decide_eq_false_2 by done. eauto with jobs.
Qed.
End operations.

(** ** Steps, row by row *)

Lemma insert_job_Ok j t t' :
  insert_job j t = Ok t' →
  t' = put j t ∧ t !! Job.id j = None ∧ job_checks j = true ∧
  ∀ k r, t !! k = Some r → Job.idempotency_key r ≠ Job.idempotency_key j.
Proof.
  unfold insert_job. intros H. res_inv. injection H as <-. bool_inv.
  split; [done|]. split; [done|]. split; [done|]. intros k r Hr Heq.
  match goal with Hx : existsb _ _ = false |- _ => rename Hx into Hex end.
  apply not_true_iff_false in Hex. apply Hex, existsb_exists. exists r.
  split; [|by apply bool_decide_eq_true_2].
  apply list_elem_of_In. unfold rows. apply list_elem_of_fmap. exists (k, r).
  by rewrite elem_of_map_to_list.
Qed.

Definition enqueued (j : Job.t) : Prop :=
  Job.status j = PENDING ∧ Job.attempts j = 0 ∧ Job.lease_owner j = None ∧
  Job.lease_token j = None ∧ Job.lease_expires_at j = None ∧
  Job.finished_at j = None ∧ 1 ≤ Job.max_attempts j ≤ 100.

Lemma enqueue_Ok new_id clock created_at ty pl key mx av j :
  enqueue new_id clock created_at ty pl key mx av = Ok j → enqueued j.
Proof.
  unfold enqueue. intros H. res_inv. injection H as <-.
  match goal with Hm : validate_max_attempts _ = _ |- _ =>
    apply validate_int_range_Ok in Hm end.
  unfold enqueued. cbn. tauto.
Qed.

Lemma enqueue_id new_id clock created_at ty pl key mx av j :
  enqueue new_id clock created_at ty pl key mx av = Ok j → Job.id j = new_id.
Proof. unfold enqueue. intros H. res_inv. by injection H as <-. Qed.

Lemma step_old w l w' k j :
  table_ok (jobs w) → step w l w' → jobs w !! k = Some j →
  ∃ j', jobs w' !! k = Some j' ∧ row_step (issued w) (claimed_in l k) j j'.
Proof.
  intros Hok Hstep Hk. destruct Hstep; cbn.
  - match goal with H : insert_job _ _ = _ |- _ =>
      apply insert_job_Ok in H as (-> & Hnone & _) end.
    exists j. split; [|constructor]. unfold put. rewrite lookup_insert_ne; [done|].
    intros Heq. unfold row_id, job_keyed in Heq. congruence.
  - eapply claim_row; eauto.
  - eapply heartbeat_row; eauto.
  - eapply complete_row; eauto.
  - eapply retry_row; eauto.
  - eapply cancel_row; eauto.
  - eapply recover_row; eauto.
Qed.

(** No operation but [enqueue] creates a row. *)
Section no_new_rows.
Context (t : table Job.t) (Hok : table_ok t) (k : uuid) (Hk : t !! k = None).

Lemma claim_none clock fresh locked worker lease limit now js t' :
  claim clock fresh locked worker lease limit now t = Ok (js, t') → t' !! k = None.
Proof using Hok Hk.
  unfold claim. intros H. res_inv. injection H as <- <-.
  apply lookup_put_all_imap_None; [done| |done].
  intros r Hr. by apply elem_of_select_for_update in Hr as (_ & ? & _).
Qed.

Lemma heartbeat_none clock id token expires now b t' :
  heartbeat clock id token expires now t = Ok (b, t') → t' !! k = None.
Proof using Hk.
  unfold heartbeat. intros H. res_inv. injection H as <- <-.
  by rewrite lookup_update_where, Hk.
Qed.

Lemma complete_none clock id token result now b t' :
  complete clock id token result now t = Ok (b, t') → t' !! k = None.
Proof using Hk.
  unfold complete. intros H. res_inv. injection H as <- <-.
  by rewrite lookup_update_where, Hk.
Qed.

Lemma cancel_none clock id now b t' :
  cancel clock id now t = Ok (b, t') → t' !! k = None.
Proof using Hk.
  unfold cancel. intros H. res_inv. injection H as <- <-.
  by rewrite lookup_update_where, Hk.
Qed.

Lemma retry_none clock id token code jitter now b t' :
  retry clock id token code jitter now t = Ok (b, t') → t' !! k = None.
Proof using Hok Hk.
  unfold retry. intros H. res_inv.
  destruct (t !! id) as [ji|] eqn:Hji; [|by injection H as <- <-].
  destruct (_ || _); injection H as <- <-; [done|].
  unfold put. rewrite retry_job_id, (Hok _ _ Hji), lookup_insert_ne; congruence.
Qed.

Lemma recover_none clock locked now limit n t' :
  recover_expired clock locked now limit t = Ok (n, t') → t' !! k = None.
Proof using Hok Hk.
  unfold recover_expired. intros H. res_inv. injection H as _ <-.
  rewrite <-imap_const. apply lookup_put_all_imap_None; [done| |done].
  intros r Hr. by apply elem_of_select_for_update in Hr as (_ & ? & _).
Qed.
End no_new_rows.

#[export] Hint Resolve claim_none heartbeat_none complete_none cancel_none retry_none
  recover_none : jobs.

Lemma step_new w l w' k j' :
  table_ok (jobs w) → step w l w' → jobs w !! k = None → jobs w' !! k = Some j' →
  l = LEnqueue ∧ enqueued j' ∧ job_checks j' = true ∧
  ∀ i r, jobs w !! i = Some r → Job.idempotency_key r ≠ Job.idempotency_key j'.
Proof.
  intros Hok Hstep Hk Hk'.
  destruct Hstep; cbn in *;
    [|assert (t' !! k = None) by (eauto with jobs); congruence..].
  match goal with He : enqueue _ _ _ _ _ _ _ _ = _, Hi : insert_job _ _ = _ |- _ =>
    apply insert_job_Ok in Hi as (-> & Hnone & Hchk & Hu); apply enqueue_Ok in He end.
  unfold put in Hk'. apply lookup_insert_Some in Hk' as [[<- <-]|[_ ?]]; [auto|congruence].
Qed.
