(* ===== verification/JobLifecycle.v ===== *)
(** * Lifecycle of the background jobs

    Invariant of the job table over every history of service calls, the lease
    fence, the absorption of terminal states and the attempt budget. *)

From S2P Require Import Prelude Regex PyValues Lease Jobs.

(** ** The invariant *)

Definition unleased (j : Job.t) : Prop :=
  Job.lease_owner j = None ∧ Job.lease_token j = None ∧ Job.lease_expires_at j = None.

Definition leased (j : Job.t) : Prop :=
  is_Some (Job.lease_owner j) ∧ is_Some (Job.lease_token j) ∧
  is_Some (Job.lease_expires_at j).

(** What the columns of a job are in each status. *)
Definition status_ok (j : Job.t) : Prop :=
  match Job.status j with
  | PENDING => Job.attempts j = 0 ∧ unleased j ∧ Job.finished_at j = None
  | RUNNING => 1 ≤ Job.attempts j ∧ leased j ∧ Job.finished_at j = None
  | RETRYING =>
      1 ≤ Job.attempts j < Job.max_attempts j ∧ unleased j ∧ Job.finished_at j = None ∧
      is_Some (Job.last_error_code j)
  | SUCCEEDED =>
      1 ≤ Job.attempts j ∧ unleased j ∧ is_Some (Job.finished_at j) ∧
      Job.last_error_code j = None
  | FAILED =>
      Job.attempts j = Job.max_attempts j ∧ unleased j ∧ is_Some (Job.finished_at j) ∧
      is_Some (Job.last_error_code j)
  | CANCELLED =>
      Job.attempts j < Job.max_attempts j ∧ unleased j ∧ is_Some (Job.finished_at j)
  end.

Definition job_ok (j : Job.t) : Prop := job_checks j = true ∧ status_ok j.

Lemma job_checks_true j :
  job_checks j = true ↔ 0 ≤ Job.attempts j ≤ Job.max_attempts j ∧ 1 ≤ Job.max_attempts j ≤ 100.
Proof. unfold job_checks. rewrite !andb_true_iff, !Z.leb_le. lia. Qed.

Lemma queued_true s : queued s = true ↔ s = PENDING ∨ s = RETRYING.
Proof. unfold queued. by rewrite bool_decide_eq_true. Qed.

Lemma enqueued_job_ok j : enqueued j → job_ok j.
Proof.
  intros (Hs & Ha & Ho & Ht & He & Hf & Hm). split.
  - apply job_checks_true. lia.
  - unfold status_ok, unleased. rewrite Hs. auto.
Qed.

Lemma recover_job_ok now j : job_ok j → Job.status j = RUNNING → job_ok (recover_job now j).
Proof.
  intros [Hc%job_checks_true Hst] Hs. unfold status_ok in Hst. rewrite Hs in Hst.
  split; [by apply job_checks_true|]. unfold status_ok, unleased, recover_job. cbn.
  unfold exhausted. destruct (_ <=? _) eqn:He; bool_inv; cbn; split_and!; eauto; lia.
Qed.

Lemma retry_job_ok code jitter now j :
  job_ok j → Job.status j = RUNNING → job_ok (retry_job code jitter now j).
Proof.
  intros [Hc%job_checks_true Hst] Hs. unfold status_ok in Hst. rewrite Hs in Hst.
  split; unfold status_ok, unleased, retry_job, exhausted;
    destruct (_ <=? _) eqn:He; bool_inv; cbn; try (by apply job_checks_true);
    split_and!; eauto; lia.
Qed.

(** Every operation preserves the invariant of every existing row. *)
Lemma row_step_ok issued c j j' : job_ok j → row_step issued c j j' → job_ok j'.
Proof.
  intros Hok Hs. destruct Hs as
    [j|j worker lease at_ token Hc ? ?|j token now expiry Hh ?|j token now result Hh
    |j token now code jitter Hh ?|j now Hq|j now He]; [done|..].
  - destruct Hok as [Hk%job_checks_true _]. unfold claimable in Hc. bool_inv.
    split; [apply job_checks_true; cbn; lia|]. unfold status_ok, leased. cbn.
    split_and!; eauto; lia.
  - apply holds_lease_true in Hh as (_ & Hs & Ht & _). destruct Hok as [Hk Hst].
    unfold status_ok in Hst. rewrite Hs in Hst. destruct Hst as (? & (? & ? & _) & ?).
    split; [done|]. unfold status_ok, leased. cbn. rewrite Hs. split_and!; eauto.
  - apply holds_lease_true in Hh as (_ & Hs & _). destruct Hok as [Hk Hst].
    unfold status_ok in Hst. rewrite Hs in Hst. destruct Hst as (? & _).
    split; [done|]. unfold status_ok, unleased. cbn. split_and!; eauto.
  - apply holds_lease_true in Hh as (_ & Hs & _). by apply retry_job_ok.
  - destruct Hok as [Hk Hst]. split; [done|]. unfold status_ok in *. cbn.
    apply job_checks_true in Hk.
    apply queued_true in Hq as [Hs|Hs]; rewrite Hs in Hst;
      destruct_and!; split_and!; eauto; lia.
  - unfold lease_expired in He. bool_inv. by apply recover_job_ok.
Qed.

(** What no operation changes, and what the claim count does to [attempts]. *)
Lemma row_step_const issued c j j' :
  row_step issued c j j' →
  Job.id j' = Job.id j ∧ Job.job_type j' = Job.job_type j ∧ Job.payload j' = Job.payload j ∧
  Job.idempotency_key j' = Job.idempotency_key j ∧
  Job.max_attempts j' = Job.max_attempts j ∧ Job.created_at j' = Job.created_at j ∧
  Job.attempts j' = Job.attempts j + Z.b2z c.
Proof.
  destruct 1; unfold recover_job, retry_job; cbn;
    try destruct (exhausted j); cbn; split_and!; try done; lia.
Qed.

Definition terminal (s : JobStatus) : bool :=
  match s with SUCCEEDED | FAILED | CANCELLED => true | _ => false end.

Lemma row_step_terminal issued c j j' :
  row_step issued c j j' → terminal (Job.status j) = true → j' = j.
Proof.
  intros Hs Ht. destruct Hs as [| | | | |j now Hq|]; [done|exfalso..];
    repeat match goal with
    | H : holds_lease _ _ _ _ = true |- _ => apply holds_lease_true in H as (_ & H & _)
    | H : claimable _ _ = true |- _ => unfold claimable in H; bool_inv
    | H : lease_expired _ _ = true |- _ => unfold lease_expired in H; bool_inv
    | H : queued _ = true |- _ => apply queued_true in H as [H|H]
    | H : Job.status _ = _ |- _ => rewrite H in Ht
    end; done.
Qed.

(** ** The table over a history *)

Definition keys_unique (t : table Job.t) : Prop :=
  ∀ k1 k2 j1 j2, t !! k1 = Some j1 → t !! k2 = Some j2 →
    Job.idempotency_key j1 = Job.idempotency_key j2 → k1 = k2.

Definition world_ok (w : world) : Prop :=
  table_ok (jobs w) ∧ keys_unique (jobs w) ∧ ∀ k j, jobs w !! k = Some j → job_ok j.

(** A row after a step: either a row from before, transformed by the step, or
    the job that was just enqueued. *)
Lemma step_inv w l w' k j' :
  table_ok (jobs w) → step w l w' → jobs w' !! k = Some j' →
  (∃ j, jobs w !! k = Some j ∧ row_step (issued w) (claimed_in l k) j j') ∨
  (jobs w !! k = None ∧ l = LEnqueue ∧ enqueued j' ∧
   ∀ i r, jobs w !! i = Some r → Job.idempotency_key r ≠ Job.idempotency_key j').
Proof.
  intros Hok Hs Hk. destruct (jobs w !! k) as [j|] eqn:Hj.
  - left. exists j. split; [done|].
    destruct (step_old _ _ _ _ _ Hok Hs Hj) as (j'' & ? & ?). by simplify_eq.
  - right. destruct (step_new _ _ _ _ _ Hok Hs Hj Hk) as (? & ? & _ & ?). done.
Qed.

(** A step stages at most one job. *)
Lemma step_single_insert w l w' k1 k2 :
  table_ok (jobs w) → step w l w' → jobs w !! k1 = None → jobs w !! k2 = None →
  is_Some (jobs w' !! k1) → is_Some (jobs w' !! k2) → k1 = k2.
Proof.
  intros Hok Hs H1 H2 [j1 Hj1] [j2 Hj2].
  destruct (step_new _ _ _ _ _ Hok Hs H1 Hj1) as (-> & _).
  inversion Hs; subst; clear Hs. cbn in Hj1, Hj2.
  match goal with Hi : insert_job _ _ = _ |- _ =>
    apply insert_job_Ok in Hi as (-> & _) end.
  unfold put in *. apply lookup_insert_Some in Hj1, Hj2.
  destruct Hj1 as [[]|[]], Hj2 as [[]|[]]; congruence.
Qed.

Lemma world_ok_step w l w' : world_ok w → step w l w' → world_ok w'.
Proof.
  intros (Hok & Hu & Hj) Hs. split; [|split].
  - intros k j' Hk. destruct (step_inv _ _ _ _ _ Hok Hs Hk) as [(j & Hkj & Hr)|(Hn & -> & _)].
    + apply row_step_const in Hr as (Hid & _). rewrite <-(Hok _ _ Hkj). exact Hid.
    + inversion Hs; subst. cbn in Hk.
      match goal with Hi : insert_job _ _ = _ |- _ => apply insert_job_Ok in Hi as (-> & _) end.
      unfold put in Hk. apply lookup_insert_Some in Hk as [[? <-]|[_ ?]]; [done|congruence].
  - intros k1 k2 j1 j2 H1 H2 Heq.
    destruct (step_inv _ _ _ _ _ Hok Hs H1) as [(r1 & Hr1 & Hs1)|(Hn1 & _ & _ & Hf1)],
             (step_inv _ _ _ _ _ Hok Hs H2) as [(r2 & Hr2 & Hs2)|(Hn2 & _ & _ & Hf2)];
      repeat match goal with H : row_step _ _ _ _ |- _ =>
        apply row_step_const in H as (_ & _ & _ & ? & _) end.
    + apply (Hu k1 k2 r1 r2); congruence.
    + exfalso. apply (Hf2 k1 r1 Hr1). congruence.
    + exfalso. apply (Hf1 k2 r2 Hr2). congruence.
    + eapply step_single_insert; eauto.
  - intros k j' Hk. destruct (step_inv _ _ _ _ _ Hok Hs Hk) as [(j & Hkj & Hr)|(_ & _ & He & _)].
    + eapply row_step_ok; eauto.
    + by apply enqueued_job_ok.
Qed.

Lemma world_ok_initial : world_ok initial.
Proof. by split_and!; repeat intro. Qed.

Lemma world_ok_runs w ls w' : runs step w ls w' → world_ok w → world_ok w'.
Proof. apply runs_invariant, world_ok_step. Qed.

(** ** Lease ownership *)

(** A row is held under its token while it is running. *)
Definition holder (j : Job.t) : option uuid :=
  if bool_decide (Job.status j = RUNNING) then Job.lease_token j else None.

Lemma holder_Some j tok : holder j = Some tok ↔ Job.status j = RUNNING ∧ Job.lease_token j = Some tok.
Proof. unfold holder. case_bool_decide; naive_solver. Qed.

Lemma claim_inv clock fresh locked worker lease limit now t js t' :
  claim clock fresh locked worker lease limit now t = Ok (js, t') →
  ∃ w d n at_, validate_worker worker = Ok w ∧ validate_lease lease = Ok d ∧
    validate_limit limit = Ok n ∧ require_utc_datetime (or_default now (aware clock)) = Ok at_ ∧
    js = imap (λ i j, claim_job w d at_ (fresh i) j)
           (select_for_update locked (claimable at_) claim_order n t) ∧
    t' = put_all js t.
Proof. unfold claim. intros H. res_inv. injection H as <- <-. eauto 10. Qed.

(** The claimed rows carry the tokens drawn for them, one each. *)
Lemma elem_of_claimed w d at_ (fresh : nat → uuid) sel r :
  r ∈ imap (λ i j, claim_job w d at_ (fresh i) j) sel →
  ∃ i j, sel !! i = Some j ∧ r = claim_job w d at_ (fresh i) j ∧ holder r = Some (fresh i).
Proof. intros (i & j & -> & Hi)%elem_of_lookup_imap. exists i, j. done. Qed.

(** A step other than a claim never changes who holds a row, except to
    release it. *)
Lemma row_step_holder issued j j' tok :
  row_step issued false j j' → holder j' = Some tok → holder j = Some tok.
Proof.
  intros Hs [Hr Ht]%holder_Some. apply holder_Some. remember false as c eqn:Hc.
  destruct Hs; try done;
    unfold recover_job, retry_job in *; cbn in *;
    try destruct (exhausted j); cbn in *; try done.
Qed.

Lemma step_holder w l w' k tok :
  world_ok w → step w l w' → held_by jobs holder w' k = Some tok →
  held_by jobs holder w k = Some tok ∨ claimed_in l k = true.
Proof.
  intros (Hok & _) Hs (j' & Hk & Hh)%bind_Some. unfold held_by.
  destruct (step_inv _ _ _ _ _ Hok Hs Hk) as [(j & Hkj & Hr)|(_ & _ & He & _)].
  2: { apply holder_Some in Hh as [Hh _]. destruct He as [He _]. congruence. }
  rewrite Hkj. cbn. destruct (claimed_in l k); eauto using row_step_holder.
Qed.

(** A row that a claim newly puts under a token is one of the claimed rows,
    and the token is the one drawn for its position. *)
Lemma claim_acquired clock fresh locked worker lease limit now t js t' k j' tok :
  claim clock fresh locked worker lease limit now t = Ok (js, t') →
  t' !! k = Some j' → holder j' = Some tok →
  t !! k = Some j' ∨ ∃ i, js !! i = Some j' ∧ Job.id j' = k ∧ tok = fresh i.
Proof.
  intros (? & d & ? & ? & ? & ? & ? & ? & Hjs & ->)%claim_inv Hk [_ Ht]%holder_Some.
  apply lookup_put_all_inv in Hk as [[Hin <-]|Hk]; [right|by left].
  apply list_elem_of_lookup_1 in Hin as (i & Hin). exists i. split_and!; [done..|].
  rewrite Hjs, list_lookup_imap in Hin. apply fmap_Some in Hin as (r & _ & ->).
  by injection Ht.
Qed.

Lemma step_origin w l w' k tok :
  world_ok w → step w l w' → held_by jobs holder w' k = Some tok →
  held_by jobs holder w k = Some tok ∨ (tok ∉ issued w ∧ tok ∈ issued w').
Proof.
  intros Hok Hs Hh. destruct (step_holder _ _ _ _ _ Hok Hs Hh) as [?|Hc]; [by left|].
  destruct Hs as [|w clock fresh locked worker lease limit now js t' Hf Hi Hcl| | | | |];
    try done.
  apply bind_Some in Hh as (j' & Hk & Hh). cbn in Hk.
  destruct (claim_acquired _ _ _ _ _ _ _ _ _ _ _ _ _ Hcl Hk Hh) as [Ho|(i & Hj & _ & ->)].
  - left. unfold held_by. by rewrite Ho.
  - right. split; [done|]. cbn. apply elem_of_union_r, elem_of_list_to_set, list_elem_of_omap.
    exists j'. split; [by eapply list_elem_of_lookup_2|]. by apply holder_Some in Hh as [_ ?].
Qed.

Lemma step_distinct w l w' k1 k2 tok :
  world_ok w → step w l w' →
  held_by jobs holder w k1 ≠ Some tok → held_by jobs holder w k2 ≠ Some tok →
  held_by jobs holder w' k1 = Some tok → held_by jobs holder w' k2 = Some tok → k1 = k2.
Proof.
  intros Hok Hs Hn1 Hn2 H1 H2.
  destruct (step_holder _ _ _ _ _ Hok Hs H1) as [?|Hc]; [done|].
  destruct Hs as [|w clock fresh locked worker lease limit now js t' Hf Hi Hcl| | | | |];
    try done.
  apply bind_Some in H1 as (j1 & Hk1 & Hh1), H2 as (j2 & Hk2 & Hh2). cbn in Hk1, Hk2.
  unfold held_by in Hn1, Hn2.
  destruct (claim_acquired _ _ _ _ _ _ _ _ _ _ _ _ _ Hcl Hk1 Hh1) as [Ho|(i1 & Hj1 & <- & ->)];
    [by rewrite Ho in Hn1|].
  destruct (claim_acquired _ _ _ _ _ _ _ _ _ _ _ _ _ Hcl Hk2 Hh2) as [Ho|(i2 & Hj2 & <- & He)];
    [by rewrite Ho in Hn2|].
  apply (inj fresh) in He as ->. congruence.
Qed.

(** The job queue implements the lease interface. *)
#[export] Instance jobs_lease : LeaseSystem step jobs issued holder world_ok.
Proof.
  split; [exact world_ok_step| |exact step_origin|exact step_distinct].
  intros w l w' Hs. destruct Hs; cbn; set_solver.
Qed.

(** ** Claim counts *)

Definition claims (k : uuid) (ls : list label) : Z :=
  Z.of_nat (length (filter (λ l, Is_true (claimed_in l k)) ls)).

Lemma claims_cons k l ls : claims k (l :: ls) = Z.b2z (claimed_in l k) + claims k ls.
Proof.
  unfold claims. rewrite filter_cons. destruct (claimed_in l k); case_decide; try done.
  cbn [length Z.b2z]. lia.
Qed.

(** A claim never names a row that is not there. *)
Lemma step_absent w l w' k :
  world_ok w → step w l w' → jobs w !! k = None → claimed_in l k = false.
Proof.
  intros (Hok & _) Hs Hn. destruct Hs as [|w clock fresh locked worker lease limit now js t' _ _ Hcl| | | | |]; try done.
  cbn. apply bool_decide_eq_false_2. intros (j & -> & Hin)%list_elem_of_fmap.
  apply claim_inv in Hcl as (? & d & ? & at_ & ? & ? & ? & ? & -> & ->).
  apply elem_of_lookup_imap in Hin as (i & r & -> & Hr).
  apply list_elem_of_lookup_2, elem_of_select_for_update in Hr as (_ & Hr & _); [|done].
  change (jobs w !! row_id r = None) in Hn. congruence.
Qed.

Lemma runs_attempts w ls w' :
  runs step w ls w' → world_ok w → ∀ k j, jobs w !! k = Some j →
  ∃ j', jobs w' !! k = Some j' ∧ Job.attempts j' = Job.attempts j + claims k ls ∧
        Job.max_attempts j' = Job.max_attempts j.
Proof.
  induction 1 as [|w1 l w2 ls w3 Hs _ IH]; intros Hok k j Hk.
  - exists j. change (claims k []) with 0. split_and!; [done|lia|done].
  - destruct (step_old _ _ _ _ _ (proj1 Hok) Hs Hk) as (j2 & Hk2 & Hr).
    destruct (IH ltac:(eauto using world_ok_step) k j2 Hk2) as (j3 & ? & Ha & Hm).
    apply row_step_const in Hr as (_ & _ & _ & _ & ? & _ & ?).
    exists j3. rewrite claims_cons. split_and!; [done|lia|congruence].
Qed.

Lemma runs_claims ls w k j :
  runs step initial ls w → jobs w !! k = Some j → Job.attempts j = claims k ls.
Proof.
  intros Hr. cut (∀ w0, world_ok w0 → jobs w0 !! k = None → runs step w0 ls w →
    jobs w !! k = Some j → Job.attempts j = claims k ls); [eauto using world_ok_initial|].
  clear Hr. intros w0 Hok Hn Hr. revert Hok Hn.
  induction Hr as [|w1 l w2 ls w3 Hs Hr IH]; intros Hok Hn Hk; [congruence|].
  pose proof (world_ok_step _ _ _ Hok Hs) as Hok2.
  rewrite claims_cons, (step_absent _ _ _ _ Hok Hs Hn). cbn.
  destruct (jobs w2 !! k) as [j2|] eqn:Hk2; [|by apply IH].
  destruct (runs_attempts _ _ _ Hr Hok2 _ _ Hk2) as (j3 & Hk3 & Ha & _).
  destruct (step_new _ _ _ _ _ (proj1 Hok) Hs Hn Hk2) as (_ & (_ & ? & _) & _).
  simplify_eq. lia.
Qed.

Lemma runs_terminal w ls w' k j :
  runs step w ls w' → world_ok w → jobs w !! k = Some j →
  terminal (Job.status j) = true → jobs w' !! k = Some j.
Proof.
  induction 1 as [|w1 l w2 ls w3 Hs _ IH]; intros Hok Hk Ht; [done|].
  destruct (step_old _ _ _ _ _ (proj1 Hok) Hs Hk) as (j2 & Hk2 & Hr).
  apply row_step_terminal in Hr as ->; [|done].
  apply IH; [by eapply world_ok_step|done..].
Qed.

(** ** The status graph *)

(** The transitions a job can make in one call, with its attempt budget. *)
Definition status_edge (n m : Z) (s s' : JobStatus) : bool :=
  match s, s' with
  | PENDING, RUNNING | RETRYING, RUNNING => n <? m
  | PENDING, CANCELLED | RETRYING, CANCELLED => true
  | RUNNING, SUCCEEDED => true
  | RUNNING, RETRYING => n <? m
  | RUNNING, FAILED => m <=? n
  | _, _ => bool_decide (s = s')
  end.

Lemma row_step_edge issued c j j' :
  row_step issued c j j' →
  status_edge (Job.attempts j) (Job.max_attempts j) (Job.status j) (Job.status j') = true.
Proof.
  destruct 1 as [j|j worker lease at_ token Hc|j token now e Hh|j token now r Hh
    |j token now code jitter Hh|j now Hq|j now He];
    [by destruct (Job.status j)|..];
    repeat match goal with
    | H : holds_lease _ _ _ _ = true |- _ => apply holds_lease_true in H as (_ & H & _)
    | H : claimable _ _ = true |- _ => unfold claimable in H; bool_inv
    | H : lease_expired _ _ = true |- _ => unfold lease_expired in H; bool_inv
    | H : queued _ = true |- _ => apply queued_true in H as [H|H]
    | H : Job.status _ = _ |- _ => rewrite H
    end; try done;
    try (unfold retry_job, recover_job, exhausted; destruct (_ <=? _) eqn:E; cbn; bool_inv;
      cbn; try apply Z.leb_le; try apply Z.ltb_lt; lia);
    [cbn; apply Z.ltb_lt; lia..|cbn; by rewrite Hh].
Qed.

(** ** Calls by a worker that does not hold the job *)

Lemma not_holder_no_lease t k tok at_ :
  table_ok t → (t !! k ≫= holder) ≠ Some tok →
  ∀ i j, t !! i = Some j → holds_lease k tok at_ j = false.
Proof.
  intros Hok Hn i j Hi. apply not_true_iff_false. intros (Hid & Hs & Ht & _)%holds_lease_true.
  apply Hn. pose proof (Hok _ _ Hi) as Hii. change (Job.id j = i) in Hii.
  rewrite <-Hid, Hii, Hi. cbn. by apply holder_Some.
Qed.

Lemma not_holder_refused t k tok clock now at_ :
  table_ok t → (t !! k ≫= holder) ≠ Some tok →
  require_utc_datetime (or_default now (aware clock)) = Ok at_ →
  (∀ result, complete clock k tok result now t = Ok (false, t)) ∧
  (∀ code c jitter d, validate_error_code code = Ok c → validate_jitter jitter = Ok d →
     retry clock k tok code jitter now t = Ok (false, t)) ∧
  (∀ expires e, require_utc_datetime expires = Ok e → at_ < e →
     heartbeat clock k tok expires now t = Ok (false, t)).
Proof.
  intros Hok Hn Hat. pose proof (not_holder_no_lease t k tok at_ Hok Hn) as Hno.
  split_and!.
  - intros result. unfold complete. rewrite Hat. cbn [mbind res_bind].
    destruct (update_where_nobody _ (complete_job result at_) t Hno) as [-> ->]. done.
  - intros code c jitter d Hc Hd. unfold retry. rewrite Hc, Hd, Hat. cbn [mbind res_bind].
    destruct (t !! k) as [j|] eqn:Hk; [|done].
    by rewrite (retry_guard t Hok _ _ _ _ Hk), (Hno _ _ Hk).
  - intros expires e He Hlt. unfold heartbeat. rewrite Hat, He. cbn [mbind res_bind].
    rewrite (proj2 (Z.leb_gt e at_)) by done. cbn.
    edestruct (update_where_nobody _ (λ j, j <| Job.lease_expires_at := Some e |>) t Hno)
      as [Hu Hc]. cbn in Hu. by rewrite Hu, Hc.
Qed.

(** ** A small history *)

Definition demo_job : Job.t :=
  {| Job.id := 7; Job.job_type := lit "mail.send"; Job.payload := []; Job.result := None;
     Job.idempotency_key := lit "k1"; Job.status := PENDING; Job.attempts := 0;
     Job.max_attempts := 2; Job.available_at := 0; Job.started_at := None;
     Job.finished_at := None; Job.lease_expires_at := None; Job.lease_owner := None;
     Job.lease_token := None; Job.last_error_code := None; Job.created_at := 0 |}.

Definition demo_claimed : Job.t := claim_job (lit "w1") (seconds 60) 10 50 demo_job.
Definition demo_recovered : Job.t := recover_job (seconds 70) demo_claimed.
Definition demo_cancelled : Job.t :=
  demo_recovered <| Job.status := CANCELLED |> <| Job.finished_at := Some (seconds 80) |>.

Definition demo_world (j : Job.t) (tokens : gset uuid) : world := World {[7 := j]} tokens.

Lemma demo_enqueue : step initial LEnqueue (demo_world demo_job ∅).
Proof.
  apply (step_enqueue initial 7 0 0 (PStr (lit "mail.send")) (PDict []) (PStr (lit "k1"))
    (PInt 2) None demo_job); vm_compute; reflexivity.
Defined.

Lemma demo_claim : step (demo_world demo_job ∅) (LClaim [7]) (demo_world demo_claimed {[50]}).
Proof.
  refine (step_claim _ 10 (λ i, 50 + Z.of_nat i) ∅ (PStr (lit "w1"))
    (PTimedelta (seconds 60)) (PInt 1) None [demo_claimed] {[7 := demo_claimed]} _ _ _).
  - intros i. set_solver.
  - intros x y ?. lia.
  - vm_compute. reflexivity.
Defined.

Lemma demo_recover :
  step (demo_world demo_claimed {[50]}) LOther (demo_world demo_recovered {[50]}).
Proof.
  refine (step_recover (demo_world demo_claimed {[50]}) (seconds 70) ∅ None (PInt 100) 1
    {[7 := demo_recovered]} _).
  vm_compute. reflexivity.
Defined.

Lemma demo_cancel :
  step (demo_world demo_recovered {[50]}) LOther (demo_world demo_cancelled {[50]}).
Proof.
  refine (step_cancel (demo_world demo_recovered {[50]}) (seconds 80) 7 None true
    {[7 := demo_cancelled]} _).
  vm_compute. reflexivity.
Defined.

Lemma demo_run :
  runs step initial [LEnqueue; LClaim [7]; LOther] (demo_world demo_recovered {[50]}).
Proof.
  eapply runs_cons; [exact demo_enqueue|]. eapply runs_cons; [exact demo_claim|].
  eapply runs_cons; [exact demo_recover|]. apply runs_nil.
Defined.

Lemma demo_claimed_ok : job_ok demo_claimed.
Proof. split; [done|]. unfold status_ok, leased. cbn. split_and!; eauto; lia. Qed.

(** ** Properties *)

(** C1: Over every history of service calls, with any arguments, clocks and
    concurrently locked rows: each row is stored under its id, idempotency keys
    are unique, the CHECK constraints hold, and each job's lease columns,
    counters, finish time and error code are those its status requires. *)
Theorem job_table_invariant ls w : runs step initial ls w → world_ok w.
Proof. intros Hr. exact (world_ok_runs _ _ _ Hr world_ok_initial). Qed.

Lemma job_table_invariant_witness : world_ok (demo_world demo_recovered {[50]}).
Proof. exact (job_table_invariant _ _ demo_run). Defined.

(** C2: A worker that lost its lease is fenced off for good: once an issued
    token is not the holder of a job, no later history lets that token extend,
    complete or retry the job; each of these calls answers False and leaves the
    table unchanged. *)
Theorem stale_token_fenced ls1 w1 ls2 w2 k tok clock now at_ :
  runs step initial ls1 w1 → runs step w1 ls2 w2 →
  tok ∈ issued w1 → held_by jobs holder w1 k ≠ Some tok →
  require_utc_datetime (or_default now (aware clock)) = Ok at_ →
  (∀ result, complete clock k tok result now (jobs w2) = Ok (false, jobs w2)) ∧
  (∀ code c jitter d, validate_error_code code = Ok c → validate_jitter jitter = Ok d →
     retry clock k tok code jitter now (jobs w2) = Ok (false, jobs w2)) ∧
  (∀ expires e, require_utc_datetime expires = Ok e → at_ < e →
     heartbeat clock k tok expires now (jobs w2) = Ok (false, jobs w2)).
Proof.
  intros Hr1 Hr2 Hin Hn Hat.
  pose proof (world_ok_runs _ _ _ Hr1 world_ok_initial) as Hok1.
  pose proof (lease_fence _ _ _ _ _ Hr2 Hok1 Hin Hn) as Hn2.
  destruct (world_ok_runs _ _ _ Hr2 Hok1) as (Hok2 & _).
  by apply not_holder_refused.
Qed.

Lemma stale_token_fenced_witness :
  held_by jobs holder (demo_world demo_recovered {[50]}) 7 ≠ Some 50 ∧
  complete (seconds 90) 7 50 None None {[7 := demo_cancelled]}
  = Ok (false, {[7 := demo_cancelled]}).
Proof.
  split; [vm_compute; discriminate|].
  refine (proj1 (stale_token_fenced _ _ [LOther] (demo_world demo_cancelled {[50]})
    7 50 (seconds 90) None (seconds 90) demo_run _ _ _ _) None).
  - eapply runs_cons; [exact demo_cancel|apply runs_nil].
  - set_solver.
  - vm_compute. discriminate.
  - reflexivity.
Defined.

(** Leases are exclusive: in every reachable state a token under which a
    job is held was issued by a claim, and no two jobs are held under the same
    token. *)
Theorem lease_exclusive ls w k1 k2 tok :
  runs step initial ls w →
  held_by jobs holder w k1 = Some tok →
  tok ∈ issued w ∧ (held_by jobs holder w k2 = Some tok → k1 = k2).
Proof.
  intros Hr H1. assert (lease_wf (tbl:=jobs) (issued:=issued) (holder:=holder) w) as [Hi Hu].
  - eapply lease_wf_runs; [exact Hr|exact world_ok_initial|]. by split.
  - eauto.
Qed.

Lemma lease_exclusive_witness :
  50 ∈ issued (demo_world demo_claimed {[50]}) ∧
  (held_by jobs holder (demo_world demo_claimed {[50]}) 7 = Some 50 → 7 = 7).
Proof.
  refine (lease_exclusive [LEnqueue; LClaim [7]] _ 7 7 50 _ _).
  - eapply runs_cons; [exact demo_enqueue|]. eapply runs_cons; [exact demo_claim|]. apply runs_nil.
  - vm_compute. reflexivity.
Defined.

(** The attempt budget: in every reachable state the attempts of a job are
    exactly the number of claim calls of the history that returned it, and
    never exceed its max_attempts, which is between 1 and 100; a job that is
    still queued for a retry has attempts left. *)
Theorem attempts_are_claims ls w k j :
  runs step initial ls w → jobs w !! k = Some j →
  Job.attempts j = claims k ls ∧
  claims k ls ≤ Job.max_attempts j ≤ 100 ∧
  (Job.status j = RETRYING → claims k ls < Job.max_attempts j).
Proof.
  intros Hr Hk.
  assert (Hc : Job.attempts j = claims k ls) by (by eapply runs_claims).
  destruct (world_ok_runs _ _ _ Hr world_ok_initial) as (_ & _ & Hok).
  apply Hok in Hk as [Hch%job_checks_true Hst]. rewrite <-Hc. split; [done|].
  split; [lia|]. intros Hs. unfold status_ok in Hst. rewrite Hs in Hst. lia.
Qed.

Lemma attempts_are_claims_witness :
  Job.attempts demo_recovered = 1 ∧ 1 ≤ 2 ≤ 100 ∧
  (Job.status demo_recovered = RETRYING → 1 < 2).
Proof.
  refine (attempts_are_claims [LEnqueue; LClaim [7]; LOther]
    (demo_world demo_recovered {[50]}) 7 demo_recovered demo_run _).
  vm_compute. reflexivity.
Defined.

(** The status graph: one call moves a job only along the documented
    lifecycle (queued to running or cancelled, running to succeeded, to
    retrying while attempts are left, or to failed when the budget is used
    up), and a job that has succeeded, failed or been cancelled is never
    changed again by any history. *)
Theorem job_status_graph w l w' ls w'' k j :
  world_ok w → step w l w' → runs step w' ls w'' → jobs w !! k = Some j →
  (∃ j', jobs w' !! k = Some j' ∧
     status_edge (Job.attempts j) (Job.max_attempts j) (Job.status j) (Job.status j') = true) ∧
  (terminal (Job.status j) = true → jobs w'' !! k = Some j).
Proof.
  intros Hok Hs Hr Hk. split.
  - destruct (step_old _ _ _ _ _ (proj1 Hok) Hs Hk) as (j' & Hk' & Hrow).
    eauto using row_step_edge.
  - intros Ht. eapply runs_terminal; [eapply runs_cons; [exact Hs|exact Hr]|done..].
Qed.

Lemma job_status_graph_witness :
  (∃ j', jobs (demo_world demo_cancelled {[50]}) !! 7 = Some j' ∧
     status_edge 1 2 RETRYING (Job.status j') = true) ∧
  (terminal RETRYING = true →
   jobs (demo_world demo_cancelled {[50]}) !! 7 = Some demo_recovered).
Proof.
  refine (job_status_graph (demo_world demo_recovered {[50]}) LOther
    (demo_world demo_cancelled {[50]}) [] (demo_world demo_cancelled {[50]}) 7 demo_recovered
    _ demo_cancel _ _).
  - exact (world_ok_runs _ _ _ demo_run world_ok_initial).
  - apply runs_nil.
  - vm_compute. reflexivity.
Defined.
