(* ===== verification/JobQueue.v ===== *)
(** * The job queue as an abstract machine

    What a caller may assume of the queue, without its columns: each job is
    waiting, held under a token, or over, with a count of the times it was
    handed out. The service refines this machine. *)

From S2P Require Import Prelude Regex PyValues Lease Jobs JobLifecycle.

(** ** The machine *)

Inductive phase :=
| Waiting (n : Z)
| Held (tok : uuid) (n : Z)
| Over (n : Z).

(** One call, on one job that may be handed out [m] times. *)
Inductive phase_step (m : Z) (issued : gset uuid) : phase → phase → Prop :=
| phase_stay p : phase_step m issued p p
| phase_hand_out n tok : n < m → tok ∉ issued → phase_step m issued (Waiting n) (Held tok (n + 1))
| phase_withdraw n : phase_step m issued (Waiting n) (Over n)
| phase_give_back tok n : n < m → phase_step m issued (Held tok n) (Waiting n)
| phase_end tok n : phase_step m issued (Held tok n) (Over n).

(** The queue: the budget and the phase of each job. A call moves any number
    of jobs by one transition each and may add jobs that wait. *)
Abbreviation queue := (gmap Z (Z * phase)).

Definition queue_step (issued : gset uuid) (q q' : queue) : Prop :=
  ∀ k, match q !! k, q' !! k with
       | Some (m, p), Some (m', p') => m' = m ∧ phase_step m issued p p'
       | None, Some (_, p) => p = Waiting 0
       | None, None => True
       | Some _, None => False
       end.

(** ** The abstraction function *)

Definition job_phase (j : Job.t) : phase :=
  match Job.status j, Job.lease_token j with
  | (PENDING | RETRYING), _ => Waiting (Job.attempts j)
  | RUNNING, Some tok => Held tok (Job.attempts j)
  | RUNNING, None => Over (Job.attempts j)
  | _, _ => Over (Job.attempts j)
  end.

Definition abs_queue (t : table Job.t) : queue :=
  (λ j, (Job.max_attempts j, job_phase j)) <$> t.

Lemma job_phase_running j :
  job_ok j → Job.status j = RUNNING → ∃ tok, Job.lease_token j = Some tok ∧
  job_phase j = Held tok (Job.attempts j).
Proof.
  intros [_ Hst] Hs. unfold status_ok in Hst. rewrite Hs in Hst.
  destruct Hst as (_ & (_ & [tok Ht] & _) & _). exists tok. unfold job_phase. by rewrite Hs, Ht.
Qed.

Lemma job_phase_queued j : queued (Job.status j) = true → job_phase j = Waiting (Job.attempts j).
Proof. intros [Hs|Hs]%queued_true; unfold job_phase; by rewrite Hs. Qed.

(** What a released job is: waiting while attempts are left, over otherwise. *)
Lemma release_phase j j' m issued tok :
  Job.status j' = (if exhausted j then FAILED else RETRYING) →
  Job.attempts j' = Job.attempts j → m = Job.max_attempts j →
  phase_step m issued (Held tok (Job.attempts j)) (job_phase j').
Proof.
  intros Hs Ha ->. unfold job_phase. rewrite Hs, Ha. unfold exhausted.
  destruct (_ <=? _) eqn:He; bool_inv; by constructor.
Qed.

Lemma row_step_phase issued c j j' :
  job_ok j → row_step issued c j j' →
  phase_step (Job.max_attempts j) issued (job_phase j) (job_phase j').
Proof.
  intros Hok Hs. destruct Hs as
    [j|j worker lease at_ token Hc Hn ?|j token now expiry Hh ?|j token now result Hh
    |j token now code jitter Hh ?|j now Hq|j now He]; [constructor|..].
  - unfold claimable in Hc. bool_inv. rewrite job_phase_queued by done.
    by apply phase_hand_out.
  - apply phase_stay.
  - apply holds_lease_true in Hh as (_ & Hs & _).
    destruct (job_phase_running j Hok Hs) as (tok & _ & ->). apply phase_end.
  - apply holds_lease_true in Hh as (_ & Hs & _).
    destruct (job_phase_running j Hok Hs) as (tok & _ & ->).
    apply release_phase; [|by unfold retry_job; destruct (exhausted j)|done].
    unfold retry_job. by destruct (exhausted j).
  - rewrite job_phase_queued by done. apply phase_withdraw.
  - unfold lease_expired in He. bool_inv.
    destruct (job_phase_running j Hok) as (tok & _ & ->); [done|]. by apply release_phase.
Qed.

(** ** Properties *)

(** C36: Refinement: every call of the service, on a table that satisfies the
    invariant, is a step of the abstract queue, in which a job is handed out
    only under a fresh token and only while its budget lasts, a held job is
    only given back (with budget left) or ended, and a job that is over stays
    over; new jobs wait with no hand-outs. *)
Theorem job_service_refines_queue w l w' :
  world_ok w → step w l w' →
  queue_step (issued w) (abs_queue (jobs w)) (abs_queue (jobs w')).
Proof.
  intros (Hok & _ & Hj) Hs k. unfold abs_queue. rewrite !lookup_fmap.
  destruct (jobs w !! k) as [j|] eqn:Hk; cbn.
  - destruct (step_old _ _ _ _ _ Hok Hs Hk) as (j' & -> & Hr). cbn.
    split; [by apply row_step_const in Hr as (_ & _ & _ & _ & ? & _)|].
    eapply row_step_phase; eauto.
  - destruct (jobs w' !! k) as [j'|] eqn:Hk'; cbn; [|done].
    destruct (step_new _ _ _ _ _ Hok Hs Hk Hk') as (_ & (Hst & Ha & _) & _).
    unfold job_phase. by rewrite Hst, Ha.
Qed.

Lemma job_service_refines_queue_witness :
  queue_step ∅ {[7 := (2, Waiting 0)]} {[7 := (2, Held 50 1)]}.
Proof.
  assert (Hw : world_ok (demo_world demo_job ∅)).
  { exact (world_ok_step _ _ _ world_ok_initial demo_enqueue). }
  exact (job_service_refines_queue _ _ _ Hw demo_claim).
Defined.
