(* ===== verification/JobSpecs.v ===== *)
(** * What each job operation does

    Functional specifications of the operations of [JobService], on every
    branch, as total statements: the call returns, with this answer and this
    table. *)

From S2P Require Import Prelude Regex PyValues Lease Jobs JobLifecycle.

(** ** Helpers *)

Definition demo_table : table Job.t := {[7 := demo_claimed]}.

Lemma demo_table_ok : table_ok demo_table.
Proof. intros k r Hr. unfold demo_table in Hr. apply lookup_singleton_Some in Hr as [<- <-]. reflexivity. Qed.

Lemma claimable_true now j :
  claimable now j = true ↔
  (Job.status j = PENDING ∨ Job.status j = RETRYING) ∧ Job.available_at j ≤ now ∧
  Job.attempts j < Job.max_attempts j.
Proof.
  unfold claimable. rewrite !andb_true_iff, queued_true, Z.leb_le, Z.ltb_lt. tauto.
Qed.

Lemma claim_order_claimed w d at_ tok j :
  claim_order (claim_job w d at_ tok j) = claim_order j.
Proof. done. Qed.

Lemma StronglySorted_imap {A} (P : A → A → Prop) (f : nat → A → A) (l : list A) :
  (∀ i j a b, P a b → P (f i a) (f j b)) → StronglySorted P l → StronglySorted P (imap f l).
Proof.
  intros Hf Hs. revert f Hf. induction Hs as [|a l Hs IH Hall]; intros f Hf; cbn; constructor.
  - apply IH. intros i j. apply Hf.
  - apply Forall_forall. intros b (i & c & -> & Hc)%elem_of_lookup_imap.
    apply Hf. rewrite Forall_forall in Hall. by apply Hall, list_elem_of_lookup_2 with i.
Qed.

(** ** Claiming *)

(** What a claim promises about its batch and the table it leaves. *)
Record claim_result (locked : gset uuid) (w : str) (d : timedelta) (at_ : datetime)
    (limit : Z) (t : table Job.t) (js : list Job.t) (t' : table Job.t) : Prop := {
  cr_bounded : Z.of_nat (length js) ≤ limit;
  cr_distinct : NoDup (Job.id <$> js);
  cr_ordered : StronglySorted (key_le claim_order) js;
  cr_claimed r : r ∈ js →
    ∃ j tok, t !! Job.id r = Some j ∧ claimable at_ j = true ∧ Job.id r ∉ locked ∧
      r = claim_job w d at_ tok j ∧ t' !! Job.id r = Some r;
  cr_untouched k : k ∉ Job.id <$> js → t' !! k = t !! k;
  cr_fair k j : t !! k = Some j → claimable at_ j = true → k ∉ locked →
    k ∉ Job.id <$> js →
    Z.of_nat (length js) = limit ∧ ∀ r, r ∈ js → key_le claim_order r j }.

Section claiming.
Context (t : table Job.t) (Hok : table_ok t).
Context (fresh : nat → uuid) (locked : gset uuid) (w : str) (d : timedelta) (at_ : datetime).
Context (limit : Z) (Hlimit : 1 ≤ limit).

Let sel := select_for_update locked (claimable at_) claim_order limit t.
Let f (i : nat) (j : Job.t) := claim_job w d at_ (fresh i) j.

Lemma claim_batch_ids : Job.id <$> imap f sel = row_id <$> sel.
Proof using Type. by apply (fmap_id_imap f). Qed.

Lemma claim_batch_result : claim_result locked w d at_ limit t (imap f sel) (put_all (imap f sel) t).
Proof using Hok Hlimit.
  assert (Hnd : NoDup (Job.id <$> imap f sel)).
  { rewrite claim_batch_ids. by apply select_for_update_NoDup. }
  split.
  - rewrite length_imap. apply length_select_for_update. lia.
  - exact Hnd.
  - apply StronglySorted_imap; [|apply select_for_update_Sorted].
    intros i j a b. unfold key_le, f. by rewrite !claim_order_claimed.
  - intros r Hr. pose proof Hr as (i & j & -> & Hj)%elem_of_lookup_imap.
    apply list_elem_of_lookup_2, elem_of_select_for_update in Hj as (? & ? & ?); [|done].
    exists j, (fresh i). split_and!; [done..|].
    by apply (lookup_put_all (imap f sel) t (f i j)).
  - intros k Hk. by apply lookup_put_all_ne.
  - intros k j Hk Hc Hl Hn. pose proof (Hok _ _ Hk) as Hid.
    rewrite length_imap. rewrite claim_batch_ids in Hn.
    destruct (select_for_update_prefix locked (claimable at_) claim_order limit t j)
      as [Hin|[Hlen Hle]]; rewrite ?Hid; [done..| |].
    + destruct Hn. apply list_elem_of_fmap. eauto.
    + split; [unfold sel; lia|]. intros r (i & r' & -> & Hr)%elem_of_lookup_imap.
      unfold key_le, f. rewrite claim_order_claimed.
      by apply (Hle r'), list_elem_of_lookup_2 with i.
Qed.
End claiming.

(** ** Properties *)

(** Claiming with valid arguments always returns; the batch is at most
    [limit] distinct jobs in (available_at, created_at, id) order, each of them
    queued, due, within its attempt budget and not locked by a concurrent
    transaction, now running with one more attempt and the caller's lease;
    every other row is untouched, and a claimable unlocked job is left out
    only when the batch is full of jobs that come before it. *)
Theorem claim_correct t clock fresh locked worker lease limit now w d n at_ :
  table_ok t → validate_worker worker = Ok w → validate_lease lease = Ok d →
  validate_limit limit = Ok n → require_utc_datetime (or_default now (aware clock)) = Ok at_ →
  ∃ js t', claim clock fresh locked worker lease limit now t = Ok (js, t') ∧
           claim_result locked w d at_ n t js t'.
Proof.
  intros Hok Hw Hd Hn Hat. unfold claim. rewrite Hw, Hd, Hn, Hat. cbn [mbind res_bind].
  do 2 eexists. split; [reflexivity|]. apply claim_batch_result; [done|].
  apply validate_int_range_Ok in Hn as [_ ?]. lia.
Qed.

Lemma claim_correct_witness :
  ∃ js t', claim 10 (λ i, 50 + Z.of_nat i) ∅ (PStr (lit "w1")) (PTimedelta (seconds 60))
             (PInt 1) None {[7 := demo_job]} = Ok (js, t') ∧
           claim_result ∅ (lit "w1") (seconds 60) 10 1 {[7 := demo_job]} js t'.
Proof.
  refine (claim_correct {[7 := demo_job]} 10 _ ∅ _ _ _ None _ _ _ _ _ _ _ _ _);
    [|reflexivity..].
  intros k r Hr. apply lookup_singleton_Some in Hr as [<- <-]. reflexivity.
Defined.

(** The holder of a live lease that reports a failure gets True. With
    attempts left the job is queued again after min(2^attempts, 300) seconds
    plus jitter, which is between 2 and 330 seconds; with the budget used up it
    is failed and finished. Either way the lease is cleared, the error code is
    kept, and no other row changes. *)
Theorem retry_correct t clock k tok code jitter now c d at_ j :
  table_ok t → t !! k = Some j → job_ok j → holds_lease k tok at_ j = true →
  validate_error_code code = Ok c → validate_jitter jitter = Ok d →
  require_utc_datetime (or_default now (aware clock)) = Ok at_ →
  ∃ j', retry clock k tok code jitter now t = Ok (true, <[k := j']> t) ∧
    unleased j' ∧ Job.last_error_code j' = Some c ∧ Job.attempts j' = Job.attempts j ∧
    if exhausted j
    then Job.status j' = FAILED ∧ Job.finished_at j' = Some at_
    else Job.status j' = RETRYING ∧ Job.finished_at j' = None ∧
         Job.available_at j' = at_ + seconds (Z.min (2 ^ Job.attempts j) 300) + d ∧
         at_ + seconds 2 ≤ Job.available_at j' ≤ at_ + seconds 330.
Proof.
  intros Hok Hk [Hc%job_checks_true Hst] Hh Hcode Hjit Hat. exists (retry_job c d at_ j).
  split.
  { unfold retry. rewrite Hcode, Hjit, Hat. cbn [mbind res_bind].
    rewrite Hk, (retry_guard t Hok _ _ _ _ Hk), Hh. cbn. unfold put.
    by rewrite retry_job_id, (Hok _ _ Hk). }
  apply holds_lease_true in Hh as (_ & Hs & _). unfold status_ok in Hst. rewrite Hs in Hst.
  apply validate_jitter_Ok in Hjit.
  unfold retry_job, retry_delay, unleased. destruct (exhausted j); cbn; split_and!; try done.
  - unfold MAX_RETRY_DELAY_SECONDS. lia.
  - pose proof (Z.pow_le_mono_r 2 1 (Job.attempts j)). unfold seconds, MAX_RETRY_DELAY_SECONDS in *. lia.
  - unfold seconds, MAX_RETRY_DELAY_SECONDS in *. lia.
Qed.

Lemma retry_correct_witness :
  ∃ j', retry 20 7 50 (PStr (lit "smtp_down")) (PInt 1) None demo_table
        = Ok (true, <[7 := j']> demo_table) ∧
    unleased j' ∧ Job.last_error_code j' = Some (lit "smtp_down") ∧ Job.attempts j' = 1 ∧
    Job.status j' = RETRYING ∧ Job.finished_at j' = None ∧
    Job.available_at j' = 20 + seconds 2 + seconds 1 ∧
    20 + seconds 2 ≤ Job.available_at j' ≤ 20 + seconds 330.
Proof.
  refine (retry_correct demo_table 20 7 50 _ _ None _ _ _ demo_claimed
            demo_table_ok _ demo_claimed_ok _ _ _ _); reflexivity.
Defined.

(** ** Recovery *)

Lemma lease_expired_true now j :
  lease_expired now j = true ↔
  Job.status j = RUNNING ∧ ∃ e, Job.lease_expires_at j = Some e ∧ e ≤ now.
Proof.
  unfold lease_expired, sql_le. rewrite andb_true_iff, bool_decide_eq_true.
  destruct (Job.lease_expires_at j); cbn; rewrite ?Z.leb_le; naive_solver.
Qed.

Lemma recover_job_not_running now j : Job.status (recover_job now j) ≠ RUNNING.
Proof. unfold recover_job. cbn. by destruct (exhausted j). Qed.

(** Recovery with a valid limit always returns. It releases at most
    [limit] jobs, only running jobs whose lease has run out, each of which is
    queued again at once or, with its budget used up, failed; a job with a
    live lease is never touched; and when it reports fewer than [limit] jobs
    no unlocked job with an expired lease is left in the table. *)
Theorem recover_correct t clock locked now limit n at_ :
  table_ok t → validate_limit limit = Ok n →
  require_utc_datetime (or_default now (aware clock)) = Ok at_ →
  ∃ m t', recover_expired clock locked now limit t = Ok (m, t') ∧ 0 ≤ m ≤ n ∧
    (∀ k j, t !! k = Some j → lease_expired at_ j = false → t' !! k = Some j) ∧
    (∀ k j, t !! k = Some j → t' !! k = Some j ∨ t' !! k = Some (recover_job at_ j)) ∧
    (∀ k j', m < n → t' !! k = Some j' → k ∉ locked → lease_expired at_ j' = false).
Proof.
  intros Hok Hn Hat. unfold recover_expired. rewrite Hn, Hat. cbn [mbind res_bind].
  apply validate_int_range_Ok in Hn as [_ Hn].
  set (sel := select_for_update _ _ _ _ _).
  assert (Hrow : ∀ k j, t !! k = Some j →
    (j ∈ sel ∧ put_all (recover_job at_ <$> sel) t !! k = Some (recover_job at_ j)) ∨
    (j ∉ sel ∧ put_all (recover_job at_ <$> sel) t !! k = Some j)).
  { intros k j Hk. rewrite <-imap_const.
    edestruct (lookup_put_all_imap (const (recover_job at_)) sel t k j)
      as [(i & Hi & ->)|[Hni ->]]; [exact Hok|done| | |exact Hk| |].
    - by apply select_for_update_NoDup.
    - intros r Hr. by apply elem_of_select_for_update in Hr as (_ & ? & _).
    - left. split; [by eapply list_elem_of_lookup_2|done].
    - right. split; [|done]. intros Hin. apply Hni. rewrite <-(Hok _ _ Hk).
      apply list_elem_of_fmap. eauto. }
  do 2 eexists. split; [reflexivity|].
  pose proof (length_select_for_update locked (lease_expired at_) recover_order n t).
  fold sel in H. split; [lia|]. split_and!.
  - intros k j Hk He. destruct (Hrow k j Hk) as [[Hin _]|[_ ?]]; [|done].
    apply elem_of_select_for_update in Hin as (He' & _); [congruence|done].
  - intros k j Hk. destruct (Hrow k j Hk) as [[_ ?]|[_ ?]]; auto.
  - intros k j' Hm Hk Hl. apply not_true_iff_false. intros He.
    destruct (t !! k) as [j|] eqn:Hj.
    2: { rewrite <-imap_const, lookup_put_all_imap_None in Hk; try done.
         intros r Hr. by apply elem_of_select_for_update in Hr as (_ & ? & _). }
    destruct (Hrow k j Hj) as [[_ Hk']|[Hnin Hk']]; rewrite Hk in Hk'; injection Hk' as ->.
    + apply lease_expired_true in He as [Hr _]. by apply recover_job_not_running in Hr.
    + pose proof (Hok _ _ Hj) as Hid.
      destruct (select_for_update_prefix locked (lease_expired at_) recover_order n t j)
        as [Hin|[Hlen _]]; rewrite ?Hid; try done. fold sel in Hlen. lia.
Qed.

Lemma recover_correct_witness :
  ∃ m t', recover_expired (seconds 70) ∅ None (PInt 100) demo_table = Ok (m, t') ∧
    0 ≤ m ≤ 100 ∧
    (∀ k j, demo_table !! k = Some j → lease_expired (seconds 70) j = false →
       t' !! k = Some j) ∧
    (∀ k j, demo_table !! k = Some j →
       t' !! k = Some j ∨ t' !! k = Some (recover_job (seconds 70) j)) ∧
    (∀ k j', m < 100 → t' !! k = Some j' → k ∉ (∅ : gset uuid) →
       lease_expired (seconds 70) j' = false).
Proof.
  refine (recover_correct demo_table (seconds 70) ∅ None _ _ _ demo_table_ok _ _); reflexivity.
Defined.

(** ** The lease holder's other calls, and cancellation *)

Lemma holds_lease_one t k tok at_ j :
  table_ok t → t !! k = Some j → holds_lease k tok at_ j = true → ∀ f,
  update_where (holds_lease k tok at_) f t = <[k := f j]> t ∧
  (0 <? rowcount (holds_lease k tok at_) t) = true.
Proof.
  intros Hok Hk Hh f. apply update_where_one; [done..|].
  by intros r' (? & _)%holds_lease_true.
Qed.

(** The holder of a live lease completes its job (True): the job has
    succeeded with the given result, finished now, no lease and no error, and
    no other row changes; and its heartbeat (True) moves the lease expiry to
    the requested instant and changes nothing else. *)
Theorem holder_calls_correct t clock k tok result now at_ j expires e :
  table_ok t → t !! k = Some j → holds_lease k tok at_ j = true →
  require_utc_datetime (or_default now (aware clock)) = Ok at_ →
  require_utc_datetime expires = Ok e → at_ < e →
  complete clock k tok result now t = Ok (true, <[k := complete_job result at_ j]> t) ∧
  heartbeat clock k tok expires now t
  = Ok (true, <[k := j <| Job.lease_expires_at := Some e |>]> t) ∧
  holds_lease k tok at_ (j <| Job.lease_expires_at := Some e |>) = true.
Proof.
  intros Hok Hk Hh Hat He Hlt. split_and!.
  - unfold complete. rewrite Hat. cbn [mbind res_bind].
    destruct (holds_lease_one _ _ _ _ _ Hok Hk Hh (complete_job result at_)) as [-> ->]. done.
  - unfold heartbeat. rewrite Hat, He. cbn [mbind res_bind].
    rewrite (proj2 (Z.leb_gt e at_)) by done. cbn [require negb mbind res_bind].
    destruct (holds_lease_one _ _ _ _ _ Hok Hk Hh
      (λ j, j <| Job.lease_expires_at := Some e |>)) as [Hu Hc].
    cbn in Hu |- *. by rewrite Hu, Hc.
  - apply holds_lease_true in Hh as (? & ? & ? & _). apply holds_lease_true. cbn. eauto 10.
Qed.

Lemma holder_calls_correct_witness :
  complete 20 7 50 None None demo_table
  = Ok (true, <[7 := complete_job None 20 demo_claimed]> demo_table) ∧
  heartbeat 20 7 50 (aware (seconds 90)) None demo_table
  = Ok (true, <[7 := demo_claimed <| Job.lease_expires_at := Some (seconds 90) |>]>
          demo_table) ∧
  holds_lease 7 50 20 (demo_claimed <| Job.lease_expires_at := Some (seconds 90) |>) = true.
Proof.
  refine (holder_calls_correct demo_table 20 7 50 None None 20 demo_claimed
    (aware (seconds 90)) (seconds 90) demo_table_ok _ _ _ _ _); reflexivity.
Defined.

(** Cancelling never interrupts a running lease holder: a queued job is
    cancelled (True), and for a job that is running or already terminal, or
    that does not exist, the call answers False and the table is unchanged. *)
Theorem cancel_correct t clock k now at_ :
  table_ok t → require_utc_datetime (or_default now (aware clock)) = Ok at_ →
  cancel clock k now t =
  Ok match t !! k with
     | Some j =>
         if queued (Job.status j)
         then (true, <[k := j <| Job.status := CANCELLED |> <| Job.finished_at := Some at_ |>]> t)
         else (false, t)
     | None => (false, t)
     end.
Proof.
  intros Hok Hat. unfold cancel. rewrite Hat. cbn [mbind res_bind].
  set (p := λ j, bool_decide (Job.id j = k) && queued (Job.status j)).
  set (f := λ j, _).
  assert (Hone : ∀ r, p r = true → row_id r = k) by (intros r ?; subst p; cbn in *; by bool_inv).
  assert (Hnone : (∀ i j, t !! i = Some j → p j = false) →
    Ok (0 <? rowcount p t, update_where p f t) = Ok (E:=pyexn) (false, t)).
  { intros Hp. destruct (update_where_nobody p f t Hp) as [-> ->]. done. }
  destruct (t !! k) as [j|] eqn:Hk; [destruct (queued (Job.status j)) eqn:Hq|].
  - assert (Hid : Job.id j = k) by (by apply Hok).
    destruct (update_where_one p f t k j Hok Hk) as [-> ->]; [|done..].
    subst p. cbn. by rewrite bool_decide_eq_true_2.
  - apply Hnone. intros i r Hi. subst p. cbn. case_bool_decide as Hid; [|done].
    assert (Job.id r = i) by (by apply Hok). assert (r = j) as -> by congruence. done.
  - apply Hnone. intros i r Hi. subst p. cbn. case_bool_decide as Hid; [|done].
    assert (Job.id r = i) by (by apply Hok). congruence.
Qed.

Lemma cancel_correct_witness :
  cancel 20 7 None demo_table =
  Ok match demo_table !! 7 with
     | Some j =>
         if queued (Job.status j)
         then (true, <[7 := j <| Job.status := CANCELLED |> <| Job.finished_at := Some 20 |>]>
                       demo_table)
         else (false, demo_table)
     | None => (false, demo_table)
     end.
Proof. refine (cancel_correct demo_table 20 7 None 20 demo_table_ok _). reflexivity. Defined.

(** ** Staging *)

#[export] Instance key_taken_dec (t : table Job.t) k :
  Decision (∃ i r, t !! i = Some r ∧ Job.idempotency_key r = k).
Proof.
  destruct (decide (map_Exists (λ _ r, Job.idempotency_key r = k) t)) as [H|H].
  - left. exact H.
  - right. exact H.
Defined.

Lemma insert_job_key j t :
  t !! Job.id j = None → job_checks j = true →
  insert_job j t =
    (if decide (∃ i r, t !! i = Some r ∧ Job.idempotency_key r = Job.idempotency_key j)
     then Err (IntegrityError "uq_jobs_idempotency_key") else Ok (<[Job.id j := j]> t)).
Proof.
  intros Hn Hc. unfold insert_job. rewrite Hc, (bool_decide_eq_true_2 _ Hn).
  cbn [require mbind res_bind].
  destruct (existsb _ _) eqn:He; cbn; destruct (decide _) as [Hk|Hk]; try done; exfalso.
  - apply Hk. apply existsb_exists in He as (r & Hr & Heq). bool_inv.
    apply list_elem_of_In in Hr. unfold rows in Hr.
    apply list_elem_of_fmap in Hr as ([i r'] & -> & Hi%elem_of_map_to_list). eauto.
  - apply not_true_iff_false in He. apply He. destruct Hk as (i & r & Hi & Heq).
    apply existsb_exists. exists r. split; [|by apply bool_decide_eq_true_2].
    apply list_elem_of_In. unfold rows. apply list_elem_of_fmap. exists (i, r).
    by rewrite elem_of_map_to_list.
Qed.

(** How many characters each pattern can match. *)
Lemma idempotency_key_length s : fullmatch IDEMPOTENCY_KEY_PATTERN s = true → (1 ≤ length s ≤ 255)%nat.
Proof.
  intros Hm. split.
  - destruct s; [discriminate Hm|cbn; lia].
  - apply fullmatch_matches in Hm. eapply matches_max_len in Hm; [exact Hm|reflexivity].
Qed.

Lemma worker_length s : fullmatch WORKER_PATTERN s = true → (1 ≤ length s ≤ 100)%nat.
Proof.
  intros Hm. split.
  - destruct s; [discriminate Hm|cbn; lia].
  - apply fullmatch_matches in Hm. eapply matches_max_len in Hm; [exact Hm|reflexivity].
Qed.

(** Staging a job is idempotent by key: with valid arguments the call
    returns a pending job with no attempts and no lease whose strings fit
    their columns; inserting it succeeds exactly when its id and its key are
    new, and then adds that one row, while a second job under a key already
    in the table is refused by the unique constraint. *)
Theorem enqueue_idempotent t new_id clock created ty pl key mx av s kvs k m at_ :
  validate_job_type ty = Ok s → validate_idempotency_key key = Ok k →
  validate_max_attempts mx = Ok m → pl = PDict kvs →
  require_utc_datetime (or_default av (aware clock)) = Ok at_ →
  t !! new_id = None →
  ∃ j, enqueue new_id clock created ty pl key mx av = Ok j ∧
    enqueued j ∧ Job.payload j = kvs ∧ Job.available_at j = at_ ∧
    (length (Job.job_type j) ≤ 100)%nat ∧
    (1 ≤ length (Job.idempotency_key j) ≤ 255)%nat ∧
    insert_job j t =
      (if decide (∃ i r, t !! i = Some r ∧ Job.idempotency_key r = k)
       then Err (IntegrityError "uq_jobs_idempotency_key") else Ok (<[new_id := j]> t)).
Proof.
  intros Hs Hk Hm -> Hat Hnew.
  destruct (enqueue new_id clock created ty (PDict kvs) key mx av) as [j|] eqn:He.
  2: { unfold enqueue in He. rewrite Hs, Hk, Hm in He. cbn [mbind res_bind] in He.
       by rewrite Hat in He. }
  exists j. split; [done|]. pose proof (enqueue_Ok _ _ _ _ _ _ _ _ _ He) as Henq.
  pose proof (enqueue_id _ _ _ _ _ _ _ _ _ He) as Hid.
  unfold enqueue in He. rewrite Hs, Hk, Hm in He. cbn [mbind res_bind] in He.
  rewrite Hat in He. injection He as <-. cbn in Henq, Hid |- *.
  apply validate_pattern_Ok in Hs as (_ & _ & Hs). apply validate_pattern_Ok in Hk as (_ & Hk & _).
  split_and!; try done; [by apply Hs|by apply idempotency_key_length..|].
  apply insert_job_key; [done|]. apply enqueued_job_ok in Henq as [? _]. done.
Qed.

Lemma enqueue_idempotent_witness :
  ∃ j, enqueue 8 0 0 (PStr (lit "mail.send")) (PDict []) (PStr (lit "k1")) (PInt 5) None = Ok j ∧
    enqueued j ∧ Job.payload j = [] ∧ Job.available_at j = 0 ∧
    (length (Job.job_type j) ≤ 100)%nat ∧ (1 ≤ length (Job.idempotency_key j) ≤ 255)%nat ∧
    insert_job j demo_table =
      (if decide (∃ i r, demo_table !! i = Some r ∧ Job.idempotency_key r = lit "k1")
       then Err (IntegrityError "uq_jobs_idempotency_key") else Ok (<[8 := j]> demo_table)).
Proof.
  refine (enqueue_idempotent demo_table 8 0 0 (PStr (lit "mail.send")) (PDict [])
    (PStr (lit "k1")) (PInt 5) None (lit "mail.send") [] (lit "k1") 5 0 _ _ _ _ _ _);
    reflexivity.
Defined.
