(* ===== verification/Events.v ===== *)
(** * Domain events (events.py)

    The event envelope: the payload is frozen into JSON-safe values under a
    depth limit, a value budget shared by the whole payload and a key policy,
    and thawed back for storage. Freezing is shown to accept exactly the
    payloads that the policy describes, and to be undone by thawing. *)

From S2P Require Import Prelude Regex PyValues.

(** ** Frozen values *)

(** [EventJsonValue]: what a payload may hold once frozen. *)
Inductive json :=
| JNull
| JBool (b : bool)
| JInt (z : Z)
| JFloat (f : pyfloat)
| JStr (s : str)
| JTuple (l : list json)
| JMap (kvs : list (str * json)).

Definition SENSITIVE_KEY_PARTS : list str :=
  lit <$> ["authorization"; "card"; "cookie"; "credential"; "cvv"; "password"; "secret"; "token"].
Definition MAX_PAYLOAD_DEPTH : Z := 8.
Definition MAX_PAYLOAD_VALUES : Z := 500.
Definition MAX_PAYLOAD_STRING_LENGTH : Z := 10000.

(** [set(key.split("_")) & _SENSITIVE_KEY_PARTS]. *)
Definition has_sensitive_part (sensitive : list str) (key : str) : bool :=
  existsb (λ p, bool_decide (p ∈ sensitive)) (split_on 95 key).

Definition validate_payload_key (key : pyval) : res pyexn str :=
  match key with
  | PStr s =>
      require (negb (bool_decide (100 < length s)%nat || negb (fullmatch SNAKE_CASE_PATTERN s)))
        (ValueError "event payload keys must use lowercase snake case");;
      require (negb (has_sensitive_part SENSITIVE_KEY_PARTS s))
        (ValueError "event payload contains a sensitive key");;
      Ok s
  | _ => Err (TypeError "event payload keys must be strings")
  end.

(** [_freeze_value], threading the budget that all the values share. *)
Fixpoint freeze_value (value : pyval) (depth budget : Z) {struct value} : res pyexn (json * Z) :=
  require (negb (MAX_PAYLOAD_DEPTH <? depth))
    (ValueError "event payload exceeds the maximum nesting depth");;
  let budget := budget - 1 in
  require (negb (budget <? 0)) (ValueError "event payload contains too many values");;
  match value with
  | PNone => Ok (JNull, budget)
  | PBool b => Ok (JBool b, budget)
  | PInt z => Ok (JInt z, budget)
  | PFloat f =>
      require (isfinite f) (ValueError "event payload must contain finite numbers");;
      Ok (JFloat f, budget)
  | PStr s =>
      require (negb (MAX_PAYLOAD_STRING_LENGTH <? Z.of_nat (length s)))
        (ValueError "event payload strings must not exceed 10000 characters");;
      Ok (JStr s, budget)
  | PList l | PTuple l =>
      '(js, budget) ← thread (λ item budget, freeze_value item (depth + 1) budget) l budget;
      Ok (JTuple js, budget)
  | PDict kvs =>
      '(m, budget) ← thread (λ kv budget,
          key ← validate_payload_key kv.1;
          '(j, budget) ← freeze_value kv.2 (depth + 1) budget;
          Ok ((key, j), budget)) kvs budget;
      Ok (JMap m, budget)
  | _ => Err (TypeError "event payload must contain only JSON-safe values")
  end.

Definition freeze_mapping (kvs : list (pyval * pyval)) (depth budget : Z)
    : res pyexn (list (str * json) * Z) :=
  thread (λ kv budget,
    key ← validate_payload_key kv.1;
    '(j, budget) ← freeze_value kv.2 depth budget;
    Ok ((key, j), budget)) kvs budget.

Fixpoint thaw_value (j : json) : pyval :=
  match j with
  | JNull => PNone
  | JBool b => PBool b
  | JInt z => PInt z
  | JFloat f => PFloat f
  | JStr s => PStr s
  | JTuple l => PList (thaw_value <$> l)
  | JMap kvs => PDict ((λ kv, (PStr kv.1, thaw_value kv.2)) <$> kvs)
  end.

(** ** The envelope *)

Record DomainEvent := {
  event_id : uuid;
  event_type : str;
  aggregate_type : str;
  aggregate_id : uuid;
  aggregate_version : Z;
  occurred_at : datetime;
  event_payload : list (str * json) }.

Definition validate_type (msg : string) (v : pyval) : res pyexn str :=
  validate_pattern SNAKE_CASE_PATTERN (Some 100%nat) msg v.

Definition as_uuid (msg : string) (v : pyval) : res pyexn uuid :=
  match v with PUUID i => Ok i | _ => Err (TypeError msg) end.

(** [DomainEvent(...)], with [__post_init__]. *)
Definition domain_event (event_id event_type aggregate_type aggregate_id aggregate_version
    occurred_at payload : pyval) : res pyexn DomainEvent :=
  event_id ← as_uuid "event_id must be a UUID" event_id;
  event_type ← validate_type
    "event_type must use lowercase snake case and at most 100 characters" event_type;
  aggregate_type ← validate_type
    "aggregate_type must use lowercase snake case and at most 100 characters" aggregate_type;
  aggregate_id ← as_uuid "aggregate_id must be a UUID" aggregate_id;
  aggregate_version ← match aggregate_version with
                      | PInt z => Ok z
                      | _ => Err (TypeError "aggregate_version must be an integer")
                      end;
  require (negb (aggregate_version <? 1)) (ValueError "aggregate_version must be positive");;
  kvs ← match payload with
        | PDict kvs => Ok kvs
        | _ => Err (TypeError "event payload must be a mapping")
        end;
  occurred_at ← require_utc occurred_at;
  '(payload, _) ← freeze_mapping kvs 1 MAX_PAYLOAD_VALUES;
  Ok {| event_id := event_id; event_type := event_type; aggregate_type := aggregate_type;
        aggregate_id := aggregate_id; aggregate_version := aggregate_version;
        occurred_at := occurred_at; event_payload := payload |}.

Definition payload_dict (e : DomainEvent) : list (pyval * pyval) :=
  (λ kv, (PStr kv.1, thaw_value kv.2)) <$> event_payload e.

(** ** The payload policy, declaratively *)

Definition key_safe (key : pyval) : bool :=
  match key with
  | PStr s =>
      bool_decide (length s ≤ 100)%nat && fullmatch SNAKE_CASE_PATTERN s
      && negb (has_sensitive_part SENSITIVE_KEY_PARTS s)
  | _ => false
  end.

Arguments key_safe : simpl never.

(** Only JSON-safe values, finite numbers, bounded strings and safe keys. *)
Fixpoint json_safe (v : pyval) : bool :=
  match v with
  | PNone | PBool _ | PInt _ => true
  | PFloat f => isfinite f
  | PStr s => Z.of_nat (length s) <=? MAX_PAYLOAD_STRING_LENGTH
  | PList l | PTuple l => forallb json_safe l
  | PDict kvs => forallb (λ kv, key_safe kv.1 && json_safe kv.2) kvs
  | _ => false
  end.

(** How many values a payload value counts for, and how deep it goes. *)
Fixpoint count (v : pyval) : Z :=
  match v with
  | PList l | PTuple l => 1 + foldr (λ x n, count x + n) 0 l
  | PDict kvs => 1 + foldr (λ kv n, count kv.2 + n) 0 kvs
  | _ => 1
  end.

Fixpoint height (v : pyval) : Z :=
  match v with
  | PList l | PTuple l => 1 + foldr (λ x n, Z.max (height x) n) 0 l
  | PDict kvs => 1 + foldr (λ kv n, Z.max (height kv.2) n) 0 kvs
  | _ => 1
  end.

Definition items_count (kvs : list (pyval * pyval)) : Z := foldr (λ kv n, count kv.2 + n) 0 kvs.
Definition items_height (kvs : list (pyval * pyval)) : Z :=
  foldr (λ kv n, Z.max (height kv.2) n) 0 kvs.
Definition items_safe (kvs : list (pyval * pyval)) : bool :=
  forallb (λ kv, key_safe kv.1 && json_safe kv.2) kvs.

(** The frozen form of a value: tuples for sequences, string keys. *)
Definition key_str (key : pyval) : str := default [] (as_str key).

Fixpoint frozen (v : pyval) : json :=
  match v with
  | PBool b => JBool b
  | PInt z => JInt z
  | PFloat f => JFloat f
  | PStr s => JStr s
  | PList l | PTuple l => JTuple (frozen <$> l)
  | PDict kvs => JMap ((λ kv, (key_str kv.1, frozen kv.2)) <$> kvs)
  | _ => JNull
  end.

Definition frozen_items (kvs : list (pyval * pyval)) : list (str * json) :=
  (λ kv, (key_str kv.1, frozen kv.2)) <$> kvs.

(** ** Induction on frozen values *)

Section json_induction.
Context (P : json → Prop).
Context (Hatom : ∀ j, (∀ l, j ≠ JTuple l) → (∀ kvs, j ≠ JMap kvs) → P j).
Context (Htuple : ∀ l, Forall P l → P (JTuple l)).
Context (Hmap : ∀ kvs, Forall (λ kv, P kv.2) kvs → P (JMap kvs)).

Fixpoint json_nested_ind (j : json) : P j.
Proof using All.
  destruct j; try (by apply Hatom).
  - apply Htuple. induction l; constructor; [apply json_nested_ind|done].
  - apply Hmap. induction kvs as [|[k v] kvs]; constructor; [apply json_nested_ind|done].
Qed.
End json_induction.

Lemma count_pos v : 1 ≤ count v.
Proof.
  induction v as [v| l IH| l IH|kvs IH] using pyval_nested_ind;
    [destruct v; cbn; try lia; naive_solver|..]; cbn;
    induction IH; cbn in *; lia.
Qed.

Lemma height_pos v : 1 ≤ height v.
Proof.
  destruct v; cbn; try lia.
  - induction l; cbn in *; lia.
  - induction l; cbn in *; lia.
  - induction kvs; cbn in *; lia.
Qed.

(** ** Freezing accepts exactly the policy *)

Lemma validate_payload_key_iff key s :
  validate_payload_key key = Ok s ↔ key_safe key = true ∧ s = key_str key.
Proof.
  unfold key_safe.
  destruct key; cbn; try (split; [done|by intros [? _]]).
  unfold key_str. cbn.
  assert (bool_decide (100 < length s0)%nat = negb (bool_decide (length s0 ≤ 100)%nat)) as ->.
  { repeat case_bool_decide; cbn; lia || done. }
  destruct (bool_decide _), (fullmatch _ _), (has_sensitive_part _ _); cbn; naive_solver.
Qed.

(** A threaded loop whose body accepts by a test, produces a value and spends
    a cost from a budget. *)
Lemma thread_budget {A B} (f : A → Z → res pyexn (B * Z)) (ok : A → Prop) (g : A → B)
    (cost : A → Z) (xs : list A) :
  (∀ x, x ∈ xs → 0 ≤ cost x) →
  (∀ x b y b', x ∈ xs → f x b = Ok (y, b') ↔ ok x ∧ cost x ≤ b ∧ y = g x ∧ b' = b - cost x) →
  ∀ b ys b', 0 ≤ b → thread f xs b = Ok (ys, b') ↔
    Forall ok xs ∧ foldr (λ x n, cost x + n) 0 xs ≤ b ∧ ys = g <$> xs ∧
    b' = b - foldr (λ x n, cost x + n) 0 xs.
Proof.
  induction xs as [|x xs IH]; intros Hc Hf b ys b' Hb; cbn.
  - split; [intros [= <- <-]; split_and!; [constructor|lia|done|lia]|].
    intros (_ & _ & -> & ->). repeat f_equal. lia.
  - assert (Hsum : 0 ≤ foldr (λ x n, cost x + n) 0 xs).
    { clear -Hc. induction xs as [|y xs IH]; cbn; [lia|].
      pose proof (Hc y ltac:(right; left)). assert (0 ≤ foldr (λ x n, cost x + n) 0 xs); [|lia].
      apply IH. intros z Hz. apply Hc. apply elem_of_cons in Hz as [->|]; [by left|by right; right]. }
    rewrite bind_Ok, Forall_cons. split.
    + intros ([y b1] & (Hok & Hle & -> & ->)%Hf & H); [|by left].
      apply bind_Ok in H as ([ys' b2] & H & [= <- <-]).
      apply IH in H as (? & ? & -> & ->); [split_and!; try done; lia|..].
      * intros z Hz. apply Hc. by right.
      * intros z c y' c' Hz. apply Hf. by right.
      * lia.
    + intros ([Hx Hxs] & Hle & -> & ->). exists (g x, b - cost x).
      split; [apply Hf; [by left|split_and!; [done|lia|done|done]]|].
      apply bind_Ok. exists (g <$> xs, b - cost x - foldr (λ x n, cost x + n) 0 xs).
      split; [|cbn; by rewrite Z.sub_add_distr].
      apply IH; [..|split_and!; [done|lia|done|done]].
      * intros z Hz. apply Hc. by right.
      * intros z c y' c' Hz. apply Hf. by right.
      * lia.
Qed.

Lemma Forall_bounded {A} (p : A → bool) (h : A → Z) (xs : list A) n :
  0 ≤ n →
  Forall (λ x, p x = true ∧ h x ≤ n) xs ↔
  forallb p xs = true ∧ foldr (λ x m, Z.max (h x) m) 0 xs ≤ n.
Proof.
  intros Hn. induction xs as [|x xs IH]; cbn; [naive_solver|].
  rewrite Forall_cons, IH, andb_true_iff, Z.max_lub_iff. tauto.
Qed.

(** The loops over a sequence and over the items of a mapping, given what
    freezing does to their values. *)
Section freeze_loops.
Context (d : Z) (Hd : d ≤ MAX_PAYLOAD_DEPTH + 1).

Definition freezes (v : pyval) : Prop := ∀ b j b',
  freeze_value v d b = Ok (j, b') ↔
  (json_safe v = true ∧ height v ≤ MAX_PAYLOAD_DEPTH + 1 - d) ∧ count v ≤ b ∧
  j = frozen v ∧ b' = b - count v.

Lemma freeze_list_iff l b js b' :
  Forall freezes l → 0 ≤ b →
  thread (λ item budget, freeze_value item d budget) l b = Ok (js, b') ↔
  (forallb json_safe l = true ∧
   foldr (λ x m, Z.max (height x) m) 0 l ≤ MAX_PAYLOAD_DEPTH + 1 - d) ∧
  foldr (λ x n, count x + n) 0 l ≤ b ∧ js = frozen <$> l ∧
  b' = b - foldr (λ x n, count x + n) 0 l.
Proof using Hd.
  intros Hl Hb. rewrite Forall_forall in Hl. rewrite <-Forall_bounded by lia.
  apply thread_budget; [|intros; by apply Hl|done].
  intros x _. pose proof (count_pos x). lia.
Qed.

Lemma freeze_mapping_iff kvs b m b' :
  Forall (λ kv, freezes kv.2) kvs → 0 ≤ b →
  freeze_mapping kvs d b = Ok (m, b') ↔
  (items_safe kvs = true ∧ items_height kvs ≤ MAX_PAYLOAD_DEPTH + 1 - d) ∧
  items_count kvs ≤ b ∧ m = frozen_items kvs ∧ b' = b - items_count kvs.
Proof using Hd.
  intros Hl Hb. rewrite Forall_forall in Hl. unfold freeze_mapping, items_safe, items_height.
  rewrite <-(Forall_bounded _ (λ kv, height kv.2)) by lia.
  unfold items_count, frozen_items.
  apply (thread_budget _ _ (λ kv, (key_str kv.1, frozen kv.2)) (λ kv, count kv.2)); [| |done].
  - intros x _. pose proof (count_pos x.2). lia.
  - intros [k v] c [k' j] c' Hin. cbn. rewrite bind_Ok, andb_true_iff. split.
    + intros (s & Hs & H). apply validate_payload_key_iff in Hs as [? ->].
      apply bind_Ok in H as ([j' c''] & H & [= <- <- <-]).
      apply (Hl _ Hin) in H as ([? ?] & ? & -> & ->). done.
    + intros ([[Hk Hv] Hh] & Hc & [= -> ->] & ->). exists (key_str k).
      split; [by apply validate_payload_key_iff|].
      apply bind_Ok. exists (frozen v, c - count v). split; [|done]. by apply (Hl _ Hin).
Qed.
End freeze_loops.

(** Freezing one value that is not a container. *)
Definition freeze_atom (v : pyval) (b : Z) : res pyexn (json * Z) :=
  match v with
  | PNone => Ok (JNull, b)
  | PBool x => Ok (JBool x, b)
  | PInt z => Ok (JInt z, b)
  | PFloat f =>
      require (isfinite f) (ValueError "event payload must contain finite numbers");; Ok (JFloat f, b)
  | PStr s =>
      require (negb (MAX_PAYLOAD_STRING_LENGTH <? Z.of_nat (length s)))
        (ValueError "event payload strings must not exceed 10000 characters");; Ok (JStr s, b)
  | _ => Err (TypeError "event payload must contain only JSON-safe values")
  end.

Definition freeze_body (v : pyval) (d b : Z) : res pyexn (json * Z) :=
  match v with
  | PList l | PTuple l =>
      '(js, b) ← thread (λ item b, freeze_value item (d + 1) b) l b; Ok (JTuple js, b)
  | PDict kvs => '(m, b) ← freeze_mapping kvs (d + 1) b; Ok (JMap m, b)
  | _ => freeze_atom v b
  end.

Lemma freeze_value_guarded v d b :
  freeze_value v d b =
  (require (negb (MAX_PAYLOAD_DEPTH <? d))
     (ValueError "event payload exceeds the maximum nesting depth");;
   require (negb (b - 1 <? 0)) (ValueError "event payload contains too many values");;
   freeze_body v d (b - 1)).
Proof. by destruct v. Qed.

Lemma freeze_value_guards v d b j b' :
  freeze_value v d b = Ok (j, b') ↔
  d ≤ MAX_PAYLOAD_DEPTH ∧ 1 ≤ b ∧ freeze_body v d (b - 1) = Ok (j, b').
Proof.
  rewrite freeze_value_guarded.
  destruct (MAX_PAYLOAD_DEPTH <? d) eqn:H1, (b - 1 <? 0) eqn:H2; bool_inv; cbn;
    split; try done; try (intros (? & ? & _); lia).
  - intros. split_and!; [done|lia|done].
  - by intros (_ & _ & ?).
Qed.

Lemma freeze_atom_iff v b j b' :
  (∀ l, v ≠ PList l) → (∀ l, v ≠ PTuple l) → (∀ kvs, v ≠ PDict kvs) →
  freeze_atom v b = Ok (j, b') ↔ json_safe v = true ∧ j = frozen v ∧ b' = b.
Proof.
  intros Hl Ht Hd. destruct v as [|x|z|f|s|i|t|t|l|l|kvs|]; cbn [freeze_atom json_safe frozen];
    try (split; [by intros [= <- <-]|by intros (_ & -> & ->)]);
    try (split; [done|by intros [? _]]).
  - destruct (isfinite f); cbn; naive_solver.
  - rewrite Z.leb_antisym.
    destruct (MAX_PAYLOAD_STRING_LENGTH <? Z.of_nat (length s)); cbn; naive_solver.
  - by destruct (Hl l).
  - by destruct (Ht l).
  - by destruct (Hd kvs).
Qed.

(** The containers, given the loops over their elements. *)
Lemma freeze_seq_iff l d b j b' :
  Forall (freezes (d + 1)) l →
  d ≤ MAX_PAYLOAD_DEPTH ∧ 1 ≤ b ∧
  ('(js, b) ← thread (λ item b, freeze_value item (d + 1) b) l (b - 1); Ok (JTuple js, b))
  = Ok (j, b') ↔
  (forallb json_safe l = true ∧
   1 + foldr (λ x m, Z.max (height x) m) 0 l ≤ MAX_PAYLOAD_DEPTH + 1 - d) ∧
  1 + foldr (λ x n, count x + n) 0 l ≤ b ∧ j = JTuple (frozen <$> l) ∧
  b' = b - (1 + foldr (λ x n, count x + n) 0 l).
Proof.
  intros IH.
  assert (Hh : 0 ≤ foldr (λ x m, Z.max (height x) m) 0 l) by (clear; induction l; cbn; lia).
  assert (Hc : 0 ≤ foldr (λ x n, count x + n) 0 l).
  { clear. induction l as [|x l]; cbn; [lia|]. pose proof (count_pos x). lia. }
  rewrite bind_Ok. split.
  - intros (? & ? & [js c] & H & [= <- <-]).
    apply freeze_list_iff in H as ([? ?] & ? & -> & ->); [|lia|done|lia].
    split_and!; try done; lia.
  - intros ([? ?] & ? & -> & ->). split_and!; [lia..|].
    exists (frozen <$> l, b - 1 - foldr (λ x n, count x + n) 0 l).
    split; [|by rewrite Z.sub_add_distr].
    apply freeze_list_iff; [lia|done|lia|]. split_and!; try done; lia.
Qed.

Lemma freeze_dict_iff kvs d b j b' :
  Forall (λ kv, freezes (d + 1) kv.2) kvs →
  d ≤ MAX_PAYLOAD_DEPTH ∧ 1 ≤ b ∧
  ('(m, b) ← freeze_mapping kvs (d + 1) (b - 1); Ok (JMap m, b)) = Ok (j, b') ↔
  (items_safe kvs = true ∧ 1 + items_height kvs ≤ MAX_PAYLOAD_DEPTH + 1 - d) ∧
  1 + items_count kvs ≤ b ∧ j = JMap (frozen_items kvs) ∧ b' = b - (1 + items_count kvs).
Proof.
  intros IH.
  assert (Hh : 0 ≤ items_height kvs) by (clear; unfold items_height; induction kvs; cbn; lia).
  assert (Hc : 0 ≤ items_count kvs).
  { clear. unfold items_count. induction kvs as [|x l]; cbn; [lia|].
    pose proof (count_pos x.2). lia. }
  rewrite bind_Ok. split.
  - intros (? & ? & [m c] & H & [= <- <-]).
    apply freeze_mapping_iff in H as ([? ?] & ? & -> & ->); [|lia|done|lia].
    split_and!; try done; lia.
  - intros ([? ?] & ? & -> & ->). split_and!; [lia..|].
    exists (frozen_items kvs, b - 1 - items_count kvs).
    split; [|by rewrite Z.sub_add_distr].
    apply freeze_mapping_iff; [lia|done|lia|]. split_and!; try done; lia.
Qed.

Lemma freeze_value_iff v : ∀ d, freezes d v.
Proof.
  induction v as [v| l IH| l IH|kvs IH] using pyval_nested_ind; intros d b j b';
    rewrite freeze_value_guards.
  - assert (height v = 1 ∧ count v = 1) as [-> ->] by (destruct v; naive_solver).
    replace (freeze_body v d (b - 1)) with (freeze_atom v (b - 1)) by (destruct v; naive_solver).
    rewrite freeze_atom_iff by done. intuition lia.
  - apply freeze_seq_iff. eapply Forall_impl; [exact IH|]. intros x Hx. apply Hx.
  - apply freeze_seq_iff. eapply Forall_impl; [exact IH|]. intros x Hx. apply Hx.
  - apply freeze_dict_iff. eapply Forall_impl; [exact IH|]. intros x Hx. apply Hx.
Qed.

(** Freezing a whole payload, from the depth and the budget of an event. *)
Lemma freeze_payload_iff kvs m b' :
  freeze_mapping kvs 1 MAX_PAYLOAD_VALUES = Ok (m, b') ↔
  items_safe kvs = true ∧ items_height kvs ≤ MAX_PAYLOAD_DEPTH ∧
  items_count kvs ≤ MAX_PAYLOAD_VALUES ∧ m = frozen_items kvs ∧
  b' = MAX_PAYLOAD_VALUES - items_count kvs.
Proof.
  rewrite freeze_mapping_iff; [|done| |done].
  - replace (MAX_PAYLOAD_DEPTH + 1 - 1) with MAX_PAYLOAD_DEPTH by done. tauto.
  - apply Forall_forall. intros kv _. apply freeze_value_iff.
Qed.

(** ** Thawing undoes freezing *)

(** A value after one round trip: tuples have become lists. *)
Fixpoint listed (v : pyval) : pyval :=
  match v with
  | PList l | PTuple l => PList (listed <$> l)
  | PDict kvs => PDict ((λ kv, (kv.1, listed kv.2)) <$> kvs)
  | _ => v
  end.

Lemma frozen_thaw j : frozen (thaw_value j) = j.
Proof.
  induction j as [j| l IH|kvs IH] using json_nested_ind.
  - destruct j as [| | | | |l|kvs]; try done; naive_solver.
  - cbn. f_equal. induction IH as [|x l Hx _ IH]; cbn; [done|]. by rewrite Hx, IH.
  - cbn. f_equal. induction IH as [|[k v] kvs Hx _ IH]; cbn; [done|]. cbn in Hx.
    by rewrite Hx, IH.
Qed.

(** What is thawed counts, nests and complies as the value it came from. *)
Lemma thaw_measures v :
  json_safe v = true →
  json_safe (thaw_value (frozen v)) = true ∧ count (thaw_value (frozen v)) = count v ∧
  height (thaw_value (frozen v)) = height v ∧ thaw_value (frozen v) = listed v.
Proof.
  assert (Hseq : ∀ l, Forall (λ v, json_safe v = true →
      json_safe (thaw_value (frozen v)) = true ∧ count (thaw_value (frozen v)) = count v ∧
      height (thaw_value (frozen v)) = height v ∧ thaw_value (frozen v) = listed v) l →
    forallb json_safe l = true →
    forallb json_safe (thaw_value <$> (frozen <$> l)) = true ∧
    foldr (λ x n, count x + n) 0 (thaw_value <$> (frozen <$> l))
    = foldr (λ x n, count x + n) 0 l ∧
    foldr (λ x n, Z.max (height x) n) 0 (thaw_value <$> (frozen <$> l))
    = foldr (λ x n, Z.max (height x) n) 0 l ∧
    thaw_value <$> (frozen <$> l) = listed <$> l).
  { intros l. induction 1 as [|x l Hx _ IH]; cbn; [done|].
    intros [Hs Hl]%andb_true_iff. destruct (Hx Hs) as (-> & -> & -> & ->).
    destruct (IH Hl) as (-> & -> & -> & ->). done. }
  induction v as [v| l IH| l IH|kvs IH] using pyval_nested_ind.
  - intros Hs. destruct v; try done; naive_solver.
  - cbn. intros Hs. destruct (Hseq l IH Hs) as (-> & -> & -> & ->). done.
  - cbn. intros Hs. destruct (Hseq l IH Hs) as (-> & -> & -> & ->). done.
  - cbn. intros Hs. induction IH as [|[k v] kvs Hx _ IH]; cbn in *; [done|].
    apply andb_true_iff in Hs as [[Hk Hv]%andb_true_iff Hs].
    destruct (Hx Hv) as (-> & -> & -> & ->).
    destruct (IH Hs) as (Hf & Hc & Hh & Hl). injection Hl as Hl.
    assert (PStr (key_str k) = k) as -> by (by destruct k).
    rewrite Hk, Hf. split_and!; [done|lia|lia|by rewrite Hl].
Qed.

(** The same for the items of a payload. *)
Lemma thaw_items kvs :
  items_safe kvs = true → let kvs' := (λ kv, (PStr kv.1, thaw_value kv.2)) <$> frozen_items kvs in
  items_safe kvs' = true ∧ items_count kvs' = items_count kvs ∧
  items_height kvs' = items_height kvs ∧ frozen_items kvs' = frozen_items kvs.
Proof.
  intros Hs. destruct (thaw_measures (PDict kvs) Hs) as (H1 & H2 & H3 & _).
  pose proof (frozen_thaw (frozen (PDict kvs))) as H4.
  unfold items_safe, items_count, items_height, frozen_items. cbn in *.
  split_and!; [done|lia|lia|by injection H4].
Qed.

(** ** Events *)

(** The fields an event is made of, and the event. *)
Lemma domain_event_iff i ty aty ai av at_ p e :
  domain_event i ty aty ai av at_ p = Ok e ↔
  i = PUUID (event_id e) ∧ ai = PUUID (aggregate_id e) ∧
  validate_pattern SNAKE_CASE_PATTERN (Some 100%nat)
    "event_type must use lowercase snake case and at most 100 characters" ty
  = Ok (event_type e) ∧
  validate_pattern SNAKE_CASE_PATTERN (Some 100%nat)
    "aggregate_type must use lowercase snake case and at most 100 characters" aty
  = Ok (aggregate_type e) ∧
  av = PInt (aggregate_version e) ∧ 1 ≤ aggregate_version e ∧
  require_utc at_ = Ok (occurred_at e) ∧
  ∃ kvs, p = PDict kvs ∧ items_safe kvs = true ∧ items_height kvs ≤ MAX_PAYLOAD_DEPTH ∧
    items_count kvs ≤ MAX_PAYLOAD_VALUES ∧ event_payload e = frozen_items kvs.
Proof.
  unfold domain_event. split.
  - intros H. res_inv.
    repeat match goal with
    | H : as_uuid _ ?v = Ok _ |- _ => destruct v; try discriminate H; injection H as ->
    | H : match ?v with _ => _ end = Ok _ |- _ => is_var v; destruct v; try discriminate H
    end.
    repeat match goal with
    | H : (let '(_, _) := ?y in _) = _ |- _ => destruct y
    | H : Ok _ = Ok _ |- _ => injection H as <-
    end. cbn.
    match goal with H : freeze_mapping _ _ _ = _ |- _ =>
      apply freeze_payload_iff in H as (? & ? & ? & ? & _) end.
    bool_inv. split_and!; eauto 10.
  - intros (-> & -> & Ht & Ha & -> & Hv & Hat & kvs & -> & Hs & Hh & Hc & Hp).
    unfold validate_type. cbn [as_uuid mbind res_bind]. rewrite Ht. cbn [mbind res_bind].
    rewrite Ha. cbn [mbind res_bind]. rewrite (proj2 (Z.ltb_ge _ _) Hv). cbn [require negb mbind res_bind].
    rewrite Hat. cbn [mbind res_bind].
    rewrite (proj2 (freeze_payload_iff kvs (frozen_items kvs) _)) by done.
    cbn. rewrite <-Hp. by destruct e.
Qed.

Definition type_name_ok (s : str) : Prop :=
  fullmatch SNAKE_CASE_PATTERN s = true ∧ (length s ≤ 100)%nat.

Lemma type_name_iff msg v s :
  validate_pattern SNAKE_CASE_PATTERN (Some 100%nat) msg v = Ok s ↔
  v = PStr s ∧ type_name_ok s.
Proof.
  split.
  - intros (-> & ? & Hl)%validate_pattern_Ok. split; [done|]. split; [done|]. by apply Hl.
  - intros (-> & Hm & Hl). cbn [validate_pattern]. rewrite Hm.
    by rewrite bool_decide_eq_false_2 by lia.
Qed.

(** The event that a stored row rebuilds. *)
Definition rebuild (e : DomainEvent) : res pyexn DomainEvent :=
  domain_event (PUUID (event_id e)) (PStr (event_type e)) (PStr (aggregate_type e))
    (PUUID (aggregate_id e)) (PInt (aggregate_version e))
    (PDatetime (aware (occurred_at e))) (PDict (payload_dict e)).

Lemma rebuild_event i ty aty ai av at_ p e :
  domain_event i ty aty ai av at_ p = Ok e → rebuild e = Ok e.
Proof.
  intros (_ & _ & Ht & Ha & _ & Hv & _ & kvs & _ & Hs & Hh & Hc & Hp)%domain_event_iff.
  apply domain_event_iff. rewrite type_name_iff in Ht, Ha. rewrite !type_name_iff.
  destruct (thaw_items kvs Hs) as (H1 & H2 & H3 & H4).
  split_and!; try done; [by destruct Ht|by destruct Ha|by apply require_utc_aware|].
  exists (payload_dict e). unfold payload_dict. rewrite Hp. cbn in *.
  rewrite H1, H2, H3, H4. done.
Qed.

(** ** Properties *)

(** An event can be built exactly from a UUID pair, two lowercase
    snake_case type names of at most 100 characters, a positive integer
    version, an aware time, and a payload dictionary that is JSON-safe: at most
    500 values nested at most 8 deep, finite numbers, strings of at most 10000
    characters, and snake_case keys at every level of which no
    underscore-separated part is a sensitive word. The payload is stored frozen
    (tuples for lists) and the time in UTC. *)
Theorem event_accepts_exactly i ty aty ai av at_ p e :
  domain_event i ty aty ai av at_ p = Ok e ↔
  i = PUUID (event_id e) ∧ ai = PUUID (aggregate_id e) ∧
  (ty = PStr (event_type e) ∧ type_name_ok (event_type e)) ∧
  (aty = PStr (aggregate_type e) ∧ type_name_ok (aggregate_type e)) ∧
  av = PInt (aggregate_version e) ∧ 1 ≤ aggregate_version e ∧
  require_utc at_ = Ok (occurred_at e) ∧
  ∃ kvs, p = PDict kvs ∧ json_safe p = true ∧ height p ≤ 9 ∧ count p ≤ 501 ∧
    event_payload e = frozen_items kvs.
Proof.
  rewrite domain_event_iff, !type_name_iff. unfold MAX_PAYLOAD_DEPTH, MAX_PAYLOAD_VALUES.
  split; intros (? & ? & [? ?] & [? ?] & ? & ? & ? & kvs & -> & Hs & Hh & Hc & ?); split_and!; try done;
    exists kvs; cbn in *; unfold items_height, items_count in *; split_and!; try done; lia.
Qed.

(** Freezing is lossless: the payload of an event, thawed for storage and
    frozen again, gives the same event, and thawing gives back the dictionary
    the event was built from, with tuples turned into lists. *)
Theorem event_payload_roundtrip i ty aty ai av at_ kvs e :
  domain_event i ty aty ai av at_ (PDict kvs) = Ok e →
  rebuild e = Ok e ∧ PDict (payload_dict e) = listed (PDict kvs).
Proof.
  intros H. split; [by eapply rebuild_event|].
  apply domain_event_iff in H as (_ & _ & _ & _ & _ & _ & _ & k & [= <-] & Hs & _ & _ & Hp).
  unfold payload_dict. rewrite Hp. by apply (thaw_measures (PDict kvs)).
Qed.

Lemma event_payload_roundtrip_witness :
  ∃ e, domain_event (PUUID 1) (PStr (lit "order_paid")) (PStr (lit "order")) (PUUID 2) (PInt 1)
         (PDatetime (aware 5)) (PDict [(PStr (lit "lines"), PTuple [PInt 3; PNone])]) = Ok e ∧
       rebuild e = Ok e ∧ payload_dict e = [(PStr (lit "lines"), PList [PInt 3; PNone])].
Proof.
  eexists. split; [vm_compute; reflexivity|].
  match goal with |- rebuild ?e = _ ∧ _ =>
    pose proof (event_payload_roundtrip (PUUID 1) (PStr (lit "order_paid")) (PStr (lit "order"))
      (PUUID 2) (PInt 1) (PDatetime (aware 5))
      [(PStr (lit "lines"), PTuple [PInt 3; PNone])] e) as H end.
  destruct H as [H _]; [vm_compute; reflexivity|]. split; [exact H|reflexivity].
Defined.
