(* ===== verification/Jsonb.v ===== *)
(** * What a JSONB column gives back

    The payload of an event goes to PostgreSQL as the text of [json.dumps] and
    comes back as what [json.loads] reads of the column. PostgreSQL documents
    that JSONB keeps values and not their texts: the order of the keys of an
    object is lost, and a number is a [numeric], printed without an exponent.
    [float.__repr__] writes an exponent from 10^16 on, so such a float comes back
    as the integer that its shortest decimal text denotes. What JSONB refuses -
    NUL characters and lone surrogates - never becomes a row. *)

From S2P Require Import Prelude Regex PyValues Events.

(** The integer that a float is, if it is one, and whether its text has no
    positive exponent. *)
Definition whole (f : pyfloat) : option Z :=
  match f with
  | FFin m e => if 0 <=? e then Some (m * 2 ^ e)
                else if m mod 2 ^ (- e) =? 0 then Some (m / 2 ^ (- e)) else None
  | _ => None
  end.
Definition below_1e16 (f : pyfloat) : bool :=
  match f with
  | FFin m e => if 0 <=? e then Z.abs (m * 2 ^ e) <? 10 ^ 16 else Z.abs m <? 10 ^ 16 * 2 ^ (- e)
  | _ => false
  end.

(** A value after a round trip, given what becomes of a float. *)
Inductive same_but (number : pyfloat → pyval → Prop) : pyval → pyval → Prop :=
| same_none : same_but number PNone PNone
| same_bool b : same_but number (PBool b) (PBool b)
| same_int z : same_but number (PInt z) (PInt z)
| same_float f v : number f v → same_but number (PFloat f) v
| same_str s : same_but number (PStr s) (PStr s)
| same_list l l' : Forall2 (same_but number) l l' → same_but number (PList l) (PList l')
| same_dict kvs kvs1 kvs' :
    Forall2 (λ a b, a.1 = b.1 ∧ same_but number a.2 b.2) kvs kvs1 → kvs1 ≡ₚ kvs' →
    same_but number (PDict kvs) (PDict kvs').

(** A float as JSONB gives it back: itself, or an integer within the error of
    its shortest text, half a unit in the last of 53 places. *)
Definition jsonb_number (f : pyfloat) (v : pyval) : Prop :=
  if below_1e16 f then v = PFloat f
  else ∃ w z, whole f = Some w ∧ v = PInt z ∧ 2 ^ 53 * Z.abs (z - w) ≤ Z.abs w.
Definition jsonb : pyval → pyval → Prop := same_but jsonb_number.

(** Equal but for the order of keys, as [==] compares dictionaries. *)
Definition same_value : pyval → pyval → Prop := same_but (λ f v, v = PFloat f).

(** Values whose floats are all below 10^16. *)
Fixpoint floats_small (v : pyval) : bool :=
  match v with
  | PFloat f => below_1e16 f
  | PList l | PTuple l => forallb floats_small l
  | PDict kvs => forallb (λ kv, floats_small kv.2) kvs
  | _ => true
  end.

(** ** What survives the trip *)

Definition keeps_measures (v v' : pyval) : Prop :=
  json_safe v = true → json_safe v' = true ∧ count v' = count v ∧ height v' = height v ∧ listed v' = v'.

Lemma forallb_perm {A} (f : A → bool) l l' : l ≡ₚ l' → forallb f l = forallb f l'.
Proof. induction 1; cbn; [done|congruence| |congruence]. rewrite !andb_assoc. f_equal. apply andb_comm. Qed.
Lemma sum_perm {A} (g : A → Z) l l' : l ≡ₚ l' → foldr (λ x n, g x + n) 0 l = foldr (λ x n, g x + n) 0 l'.
Proof. induction 1; cbn; lia. Qed.
Lemma max_perm {A} (g : A → Z) l l' : l ≡ₚ l' → foldr (λ x n, Z.max (g x) n) 0 l = foldr (λ x n, Z.max (g x) n) 0 l'.
Proof. induction 1; cbn; lia. Qed.

Lemma jsonb_measures v v' : jsonb v v' → keeps_measures v v'.
Proof.
  revert v'. induction v as [v Hl Ht Hd|l IH|l IH|kvs IH] using pyval_nested_ind; intros v' Hv.
  - destruct Hv as [| | |f v Hn| |l l' _|kvs kvs1 kvs' _ _]; try (by intros); [|by destruct (Hl l)|by destruct (Hd kvs)].
    unfold jsonb_number in Hn. destruct (below_1e16 f); [subst; by intros|]. destruct Hn as (w & z & _ & -> & _). by intros.
  - inversion Hv as [| | | | |? l' Hf|]; subst. clear Hv. unfold keeps_measures. cbn.
    induction Hf as [|x y l l' Hxy _ IHf]; cbn; [done|]. apply Forall_cons in IH as [Hx IH].
    intros [H1 H2]%andb_true_iff. destruct (Hx _ Hxy H1) as (-> & -> & -> & Hy).
    destruct (IHf IH H2) as (-> & Hc & Hh & [= Hls]). split_and!; [done|lia|lia|by rewrite Hy, Hls].
  - inversion Hv.
  - inversion Hv as [| | | | | |? kvs1 kvs' Hf Hp]; subst. clear Hv. unfold keeps_measures. cbn.
    rewrite <-(forallb_perm _ _ _ Hp), <-(sum_perm (λ kv, count kv.2) _ _ Hp), <-(max_perm (λ kv, height kv.2) _ _ Hp).
    intros Hs. assert (H : forallb (λ kv, key_safe kv.1 && json_safe kv.2) kvs1 = true ∧
      foldr (λ kv n, count kv.2 + n) 0 kvs1 = foldr (λ kv n, count kv.2 + n) 0 kvs ∧
      foldr (λ kv n, Z.max (height kv.2) n) 0 kvs1 = foldr (λ kv n, Z.max (height kv.2) n) 0 kvs ∧
      Forall (λ kv, (kv.1, listed kv.2) = kv) kvs1).
    { clear Hp kvs'. induction Hf as [|[k x] [k' y] l l' [Hk Hxy] _ IHf]; [by repeat split|]. cbn in *. subst k'.
      apply Forall_cons in IH as [Hx IH]. apply andb_true_iff in Hs as [[H1 H2]%andb_true_iff H3].
      destruct (Hx _ Hxy H2) as (-> & -> & -> & Hy). destruct (IHf IH H3) as (-> & Hc & Hh & Hl). cbn in *.
      rewrite H1. split_and!; [done|lia|lia|]. constructor; [cbn; by rewrite Hy|done]. }
    destruct H as (-> & -> & -> & Hl). split_and!; try done. f_equal. rewrite Hp in Hl.
    clear -Hl. induction Hl as [|kv l Hkv _ IHl]; [done|]. cbn. by rewrite IHl, Hkv.
Qed.

(** Without large floats nothing but the order of keys changes. *)
Lemma jsonb_same v v' : jsonb v v' → floats_small v = true → same_value v v'.
Proof.
  revert v'. induction v as [v Hl Ht Hd|l IH|l IH|kvs IH] using pyval_nested_ind; intros v' Hv.
  - destruct Hv as [| | |f v Hn| |l l' _|kvs kvs1 kvs' _ _]; try (by intros _; constructor); [|by destruct (Hl l)|by destruct (Hd kvs)].
    cbn. intros Hf. constructor. unfold jsonb_number in Hn. by rewrite Hf in Hn.
  - inversion Hv as [| | | | |? l' Hf|]; subst. clear Hv. cbn. intros Hs. constructor.
    induction Hf as [|x y l l' Hxy _ IHf]; [constructor|]. apply Forall_cons in IH as [Hx IH].
    apply andb_true_iff in Hs as [H1 H2]. constructor; [by apply Hx|by apply IHf].
  - inversion Hv.
  - inversion Hv as [| | | | | |? kvs1 kvs' Hf Hp]; subst. clear Hv. cbn. intros Hs. econstructor; [|exact Hp].
    clear Hp kvs'. induction Hf as [|[k x] [k' y] l l' [Hk Hxy] _ IHf]; [constructor|]. cbn in *.
    apply Forall_cons in IH as [Hx IH]. apply andb_true_iff in Hs as [H1 H2]. constructor; [split; [done|by apply Hx]|by apply IHf].
Qed.

(** An event whose payload made the trip. *)
Definition event_after (e e' : DomainEvent) : Prop :=
  event_id e' = event_id e ∧ event_type e' = event_type e ∧ aggregate_type e' = aggregate_type e ∧
  aggregate_id e' = aggregate_id e ∧ aggregate_version e' = aggregate_version e ∧ occurred_at e' = occurred_at e ∧
  jsonb (PDict (payload_dict e)) (PDict (payload_dict e')).

(** The event that is rebuilt of a stored payload. *)
Lemma jsonb_event i ty aty ai av at_ p e kvs :
  domain_event i ty aty ai av at_ p = Ok e → jsonb (PDict (payload_dict e)) (PDict kvs) →
  ∃ e', domain_event (PUUID (event_id e)) (PStr (event_type e)) (PStr (aggregate_type e)) (PUUID (aggregate_id e))
      (PInt (aggregate_version e)) (PDatetime (aware (occurred_at e))) (PDict kvs) = Ok e' ∧ event_after e e'.
Proof.
  intros He Hj. pose proof (rebuild_event _ _ _ _ _ _ _ _ He) as Hr. unfold rebuild in Hr.
  apply domain_event_iff in Hr as (_ & _ & Ht & Ha & _ & Hv & Hat & p' & [= <-] & Hs & Hh & Hc & _).
  destruct (jsonb_measures _ _ Hj Hs) as (Hs' & Hc' & Hh' & Hl).
  set (e' := {| event_id := event_id e; event_type := event_type e; aggregate_type := aggregate_type e;
    aggregate_id := aggregate_id e; aggregate_version := aggregate_version e; occurred_at := occurred_at e;
    event_payload := frozen_items kvs |}).
  exists e'. split.
  - apply domain_event_iff. split_and!; try done. exists kvs. unfold items_height, items_count in *. cbn in *.
    split_and!; try done; lia.
  - assert (Hp : PDict (payload_dict e') = PDict kvs).
    { destruct (thaw_measures (PDict kvs) Hs') as (_ & _ & _ & Hth). cbn in Hth. unfold payload_dict. cbn. unfold frozen_items. by rewrite Hth. }
    split_and!; try done. by rewrite Hp.
Qed.
