(* ===== verification/AuditTrail.v ===== *)
(** * Audit records (audit/model.py, audit/service.py, audit/events.py)

    Recording business evidence: the metadata sanitiser (allowlist, redaction,
    bounds), the validated recorder, the declared event classes, the
    append-only table and its filtered, paged queries. *)

From S2P Require Import Prelude Regex PyValues CoreTypes.

(** ** Data *)

Inductive ActorKind := CUSTOMER | ADMINISTRATOR | SYSTEM | ANONYMOUS.
Inductive AuditOutcome := SUCCEEDED | DENIED | AUDIT_FAILED.

#[export] Instance ActorKind_eq_dec : EqDecision ActorKind.
Proof. solve_decision. Defined.
#[export] Instance AuditOutcome_eq_dec : EqDecision AuditOutcome.
Proof. solve_decision. Defined.

(** [AuditValue]: what sanitised metadata holds. *)
Inductive aval :=
| ANull
| ABool (b : bool)
| AInt (z : Z)
| AFloat (f : pyfloat)
| AStr (s : str)
| AList (l : list aval)
| ADict (kvs : list (str * aval)).

Module Audit.
Record t := New {
  id : uuid;
  actor_kind : ActorKind;
  actor_id : option uuid;
  action : str;
  target_type : str;
  target_id : uuid;
  outcome : AuditOutcome;
  occurred_at : datetime;
  correlation_id : str;
  metadata : list (str * aval) }.
End Audit.

#[export] Instance audit_keyed : Keyed Audit.t := Audit.id.

(** ** Limits *)

Definition REDACTED_VALUE : str := lit "[REDACTED]".
Definition MAX_METADATA_BYTES : Z := 16384.
Definition MAX_METADATA_DEPTH : Z := 4.
Definition MAX_MAPPING_FIELDS : Z := 50.
Definition MAX_LIST_ITEMS : Z := 20.
Definition MAX_TOTAL_VALUES : Z := 100.
Definition MAX_STRING_LENGTH : nat := 500.

(** [^[a-z][a-z0-9]*(?:[._:-][a-z0-9]+)*$] *)
Definition SAFE_NAME_PATTERN : regex :=
  Seq (Cls [lower]) (Seq (Star (Cls [lower; digit]))
    (Star (Seq (Cls [chr "."; chr "_"; chr ":"; chr "-"]) (plus (Cls [lower; digit]))))).
(** [^[a-z][a-z0-9_]{0,99}$] *)
Definition METADATA_KEY_PATTERN : regex :=
  Seq (Cls [lower]) (between 0 99 (Cls [lower; digit; chr "_"])).
(** [^[A-Za-z0-9][A-Za-z0-9._:-]{0,127}$] *)
Definition CORRELATION_ID_PATTERN : regex :=
  Seq (Cls [upper; lower; digit])
    (between 0 127 (Cls [upper; lower; digit; chr "."; chr "_"; chr ":"; chr "-"])).

Definition SENSITIVE_METADATA_KEY_PARTS : list str :=
  lit <$> ["address"; "authorization"; "body"; "card"; "cardholder"; "connection"; "cookie";
           "credential"; "cvc"; "cvv"; "email"; "hash"; "ip"; "otp"; "pan"; "password"; "passwd";
           "payload"; "phone"; "secret"; "session"; "token"].

(** ** Sensitive keys *)

(** An underscore before every upper-case letter that follows a lower-case
    letter or a digit. *)
Fixpoint separate_camel (prev : bool) (s : str) : str :=
  match s with
  | [] => []
  | c :: s =>
      (if prev && in_cls [upper] c then [95%N] else [])
      ++ c :: separate_camel (in_cls [lower; digit] c) s
  end.

(** [re.findall(r"[a-z0-9]+", s)]. *)
Fixpoint alnum_runs (s : str) (run : str) : list str :=
  match s with
  | [] => if bool_decide (run = []) then [] else [run]
  | c :: s =>
      if in_cls [lower; digit] c then alnum_runs s (run ++ [c])
      else if bool_decide (run = []) then alnum_runs s []
      else run :: alnum_runs s []
  end.

Definition is_sensitive_key (key : str) : bool :=
  existsb (λ p, bool_decide (p ∈ SENSITIVE_METADATA_KEY_PARTS))
    (alnum_runs (casefold (separate_camel false key)) []).

(** ** Sanitising *)

Definition validate_depth (depth : Z) : res pyexn unit :=
  require (negb (MAX_METADATA_DEPTH <? depth))
    (ValueError "audit metadata exceeds the nesting limit").

Definition consume_budget (budget : Z) : res pyexn Z :=
  let budget := budget - 1 in
  require (negb (budget <? 0)) (ValueError "audit metadata contains too many values");;
  Ok budget.

(** One field of a mapping: dropped, redacted, or sanitised by [f]. *)
Definition sanitize_field (allowed : gset str)
    (f : pyval → Z → res pyexn (aval * Z)) (kv : pyval * pyval) (budget : Z)
    : res pyexn (option (str * aval) * Z) :=
  match kv.1 with
  | PStr key =>
      if negb (bool_decide (key ∈ allowed)) then Ok (None, budget)
      else
        budget ← consume_budget budget;
        if is_sensitive_key key then Ok (Some (key, AStr REDACTED_VALUE), budget)
        else '(a, budget) ← f kv.2 budget; Ok (Some (key, a), budget)
  | _ => Err (TypeError "audit metadata keys must be strings")
  end.

Definition kept_fields (fields : list (option (str * aval))) : list (str * aval) :=
  omap id fields.

Fixpoint sanitize_value (allowed : gset str) (value : pyval) (depth budget : Z) {struct value}
    : res pyexn (aval * Z) :=
  validate_depth depth;;
  match value with
  | PNone => Ok (ANull, budget)
  | PBool b => Ok (ABool b, budget)
  | PInt z => Ok (AInt z, budget)
  | PFloat f =>
      require (isfinite f) (ValueError "audit metadata numbers must be finite");;
      Ok (AFloat f, budget)
  | PStr s => Ok (AStr (take MAX_STRING_LENGTH s), budget)
  | PUUID i => Ok (AStr (uuid_str i), budget)
  | PDatetime d => s ← serialize_utc d; Ok (AStr s, budget)
  | PDict kvs =>
      validate_depth depth;;
      require (negb (MAX_MAPPING_FIELDS <? Z.of_nat (length kvs)))
        (ValueError "audit metadata mapping contains too many fields");;
      '(fields, budget) ← thread (λ kv budget,
          sanitize_field allowed (λ v b, sanitize_value allowed v (depth + 1) b) kv budget)
        kvs budget;
      Ok (ADict (kept_fields fields), budget)
  | PList l | PTuple l =>
      require (negb (MAX_LIST_ITEMS <? Z.of_nat (length l)))
        (ValueError "audit metadata list contains too many items");;
      '(xs, budget) ← thread (λ item budget,
          budget ← consume_budget budget;
          sanitize_value allowed item (depth + 1) budget) l budget;
      Ok (AList xs, budget)
  | _ => Err (TypeError "audit metadata contains an unsupported value")
  end.

Definition sanitize_mapping (allowed : gset str) (kvs : list (pyval * pyval)) (depth budget : Z)
    : res pyexn (list (str * aval) * Z) :=
  validate_depth depth;;
  require (negb (MAX_MAPPING_FIELDS <? Z.of_nat (length kvs)))
    (ValueError "audit metadata mapping contains too many fields");;
  '(fields, budget) ← thread (λ kv budget,
      sanitize_field allowed (λ v b, sanitize_value allowed v (depth + 1) b) kv budget)
    kvs budget;
  Ok (kept_fields fields, budget).

Definition validate_allowed_keys (allowed : gset str) : res pyexn unit :=
  require (negb (MAX_TOTAL_VALUES <? Z.of_nat (size allowed)))
    (ValueError "too many allowed audit metadata keys");;
  require (forallb (fullmatch METADATA_KEY_PATTERN) (elements allowed))
    (ValueError "allowed audit metadata keys must use safe snake case").

(** ** The stored JSON *)

Section dumps.
(** [float.__repr__] of a finite float. *)
Context (float_repr : pyfloat → str).

Definition escape_char (c : N) : str :=
  if bool_decide (c = 34%N) then lit "\" ++ [34%N]
  else if bool_decide (c = 92%N) then lit "\\"
  else if bool_decide (c = 10%N) then lit "\n"
  else if bool_decide (c = 13%N) then lit "\r"
  else if bool_decide (c = 9%N) then lit "\t"
  else if bool_decide (c = 12%N) then lit "\f"
  else if bool_decide (c = 8%N) then lit "\b"
  else if (c <? 32)%N then lit "\u" ++ hex 4 (Z.of_N c)
  else [c].

Definition json_str (s : str) : str := [34%N] ++ (s ≫= escape_char) ++ [34%N].

(** [json.dumps(..., ensure_ascii=False, separators=(",", ":"))]. *)
Definition join (xs : list str) : str :=
  match xs with [] => [] | x :: xs => x ++ (xs ≫= λ y, 44%N :: y) end.

Fixpoint json_dumps (a : aval) : str :=
  match a with
  | ANull => lit "null"
  | ABool true => lit "true"
  | ABool false => lit "false"
  | AInt z => int_str z
  | AFloat f => float_repr f
  | AStr s => json_str s
  | AList l => lit "[" ++ join (json_dumps <$> l) ++ lit "]"
  | ADict kvs =>
      lit "{" ++ join ((λ kv, json_str kv.1 ++ lit ":" ++ json_dumps kv.2) <$> kvs) ++ lit "}"
  end.

(** The number of bytes of [s.encode("utf-8")]; a lone surrogate raises. *)
Definition utf8_length (s : str) : res pyexn Z :=
  foldr (λ c n,
    n ← n;
    if (c <? 128)%N then Ok (n + 1)
    else if (c <? 2048)%N then Ok (n + 2)
    else if in_cls [(55296, 57343)%N] c then Err (ValueError "surrogates not allowed")
    else if (c <? 65536)%N then Ok (n + 3) else Ok (n + 4)) (Ok 0) s.

Definition sanitize_audit_metadata (metadata : pyval) (allowed_keys : gset str)
    : res pyexn (list (str * aval)) :=
  kvs ← match metadata with
        | PDict kvs => Ok kvs
        | _ => Err (TypeError "audit metadata must be a mapping")
        end;
  validate_allowed_keys allowed_keys;;
  '(sanitized, _) ← sanitize_mapping allowed_keys kvs 0 MAX_TOTAL_VALUES;
  bytes ← utf8_length (json_dumps (ADict sanitized));
  require (negb (MAX_METADATA_BYTES <? bytes)) (ValueError "audit metadata exceeds the byte limit");;
  Ok sanitized.

(** ** Recording *)

Record AuditActor := Actor { a_kind : ActorKind; a_id : option uuid }.

Definition audit_actor (kind : ActorKind) (actor_id : pyval) : res pyexn AuditActor :=
  match kind with
  | CUSTOMER | ADMINISTRATOR =>
      require (match actor_id with PNone => false | _ => true end)
        (ValueError "customer and administrator audit actors require actor_id")
  | _ =>
      require (match actor_id with PNone => true | _ => false end)
        (ValueError "system and anonymous audit actors cannot have actor_id")
  end;;
  match actor_id with
  | PNone => Ok (Actor kind None)
  | PUUID i => Ok (Actor kind (Some i))
  | _ => Err (TypeError "actor_id must be a UUID")
  end.

Definition validate_name (msg : string) : pyval → res pyexn str :=
  validate_pattern SAFE_NAME_PATTERN (Some 100%nat) msg.
Definition validate_correlation_id : pyval → res pyexn str :=
  validate_pattern CORRELATION_ID_PATTERN None "correlation_id must use 1-128 safe characters".

(** [record]: the staged row; its id comes from [uuid4()]. *)
Definition record (new_id : uuid) (clock : datetime) (actor : AuditActor)
    (action target_type target_id : pyval) (outcome : AuditOutcome) (metadata : pyval)
    (allowed_metadata_keys : gset str) (correlation_id : pyval) (occurred_at : option pydatetime)
    : res pyexn Audit.t :=
  action ← validate_name "action must use 1-100 safe lowercase characters" action;
  target_type ← validate_name "target_type must use 1-100 safe lowercase characters" target_type;
  target_id ← match target_id with
              | PUUID i => Ok i
              | _ => Err (TypeError "target_id must be a UUID")
              end;
  correlation_id ← validate_correlation_id correlation_id;
  occurred_at ← require_utc_datetime (or_default occurred_at (aware clock));
  metadata ← sanitize_audit_metadata metadata allowed_metadata_keys;
  Ok {| Audit.id := new_id; Audit.actor_kind := a_kind actor; Audit.actor_id := a_id actor;
        Audit.action := action; Audit.target_type := target_type; Audit.target_id := target_id;
        Audit.outcome := outcome; Audit.occurred_at := occurred_at;
        Audit.correlation_id := correlation_id; Audit.metadata := metadata |}.

(** [AuditData], and the class attributes that an event class declares. *)
Record AuditData := Data {
  d_actor : AuditActor;
  d_action : string;
  d_target_type : string;
  d_target_id : uuid;
  d_outcome : AuditOutcome;
  d_metadata : list (string * pyval);
  d_allowed : list string;
  d_correlation_id : str;
  d_occurred_at : datetime }.

(** [record_event]. *)
Definition record_event (new_id : uuid) (clock : datetime) (d : AuditData) : res pyexn Audit.t :=
  record new_id clock (d_actor d) (PStr (lit (d_action d))) (PStr (lit (d_target_type d)))
    (PUUID (d_target_id d)) (d_outcome d)
    (PDict ((λ kv, (PStr (lit kv.1), kv.2)) <$> d_metadata d))
    (list_to_set (lit <$> d_allowed d)) (PStr (d_correlation_id d))
    (Some (aware (d_occurred_at d))).
End dumps.

(** ** The append-only table *)

(** What a flush may ask of the table; the mapper's listeners refuse updates
    and deletes. *)
Inductive audit_change := AddRecord (r : Audit.t) | UpdateRecord (r : Audit.t) | DeleteRecord (k : uuid).

Definition flush_audit (c : audit_change) (t : table Audit.t) : res pyexn (table Audit.t) :=
  match c with
  | AddRecord r =>
      require (bool_decide (t !! Audit.id r = None)) (IntegrityError "pk_audit_records");;
      Ok (put r t)
  | UpdateRecord _ | DeleteRecord _ =>
      Err (InvalidRequestError "audit records are append-only")
  end.

(** ** Queries *)

Record AuditFilters := Filters {
  f_action : option str;
  f_actor_kind : option ActorKind;
  f_actor_id : option uuid;
  f_target_type : option str;
  f_target_id : option uuid;
  f_outcome : option AuditOutcome;
  f_correlation_id : option str;
  f_occurred_from : option datetime;
  f_occurred_to : option datetime }.

(** [AuditFilters.__post_init__], on typed fields. *)
Definition validate_filters (f : AuditFilters) : res pyexn AuditFilters :=
  match f_action f with
  | Some a => validate_name "action must use 1-100 safe lowercase characters" (PStr a);; Ok tt
  | None => Ok tt
  end;;
  match f_target_type f with
  | Some a => validate_name "target_type must use 1-100 safe lowercase characters" (PStr a);; Ok tt
  | None => Ok tt
  end;;
  match f_correlation_id f with
  | Some c => validate_correlation_id (PStr c);; Ok tt
  | None => Ok tt
  end;;
  match f_occurred_from f, f_occurred_to f with
  | Some a, Some b =>
      require (negb (b <? a)) (ValueError "occurred_from must not be after occurred_to")
  | _, _ => Ok tt
  end;;
  Ok f.

(** One condition per filter that is set. *)
Definition filter_by {A B} `{EqDecision B} (o : option B) (column : A → B) (r : A) : bool :=
  match o with None => true | Some x => bool_decide (column r = x) end.

Definition conditions (f : AuditFilters) (r : Audit.t) : bool :=
  filter_by (f_action f) Audit.action r
  && filter_by (f_actor_kind f) Audit.actor_kind r
  && match f_actor_id f with None => true | Some i => bool_decide (Audit.actor_id r = Some i) end
  && filter_by (f_target_type f) Audit.target_type r
  && filter_by (f_target_id f) Audit.target_id r
  && filter_by (f_outcome f) Audit.outcome r
  && filter_by (f_correlation_id f) Audit.correlation_id r
  && match f_occurred_from f with None => true | Some t => t <=? Audit.occurred_at r end
  && match f_occurred_to f with None => true | Some t => Audit.occurred_at r <=? t end.

(** ORDER BY occurred_at DESC, id DESC. *)
Definition newest_first (r : Audit.t) : list Z := [- Audit.occurred_at r; - Audit.id r].

Definition query_records (f : AuditFilters) (req : PageRequest) (t : table Audit.t)
    : res pyexn (Page Audit.t) :=
  let total := rowcount (conditions f) t in
  let records := limit_offset req (select (conditions f) newest_first t) in
  make_page records (PInt total) (PInt (page req)) (PInt (page_size req)).
