(* ===== verification/AuditSpecs.v ===== *)
(** * What the audit log guarantees

    Sanitised metadata is allowlisted, redacted and bounded, sanitising is
    idempotent, every declared kind of evidence can be recorded, and the pages
    of a query list exactly the matching records, newest first. *)

From S2P Require Import Prelude Regex PyValues CoreTypes AuditTrail.

(** ** Induction on audit values *)

Section aval_induction.
Context (P : aval → Prop).
Context (Hatom : ∀ a, (∀ l, a ≠ AList l) → (∀ kvs, a ≠ ADict kvs) → P a).
Context (Hlist : ∀ l, Forall P l → P (AList l)).
Context (Hdict : ∀ kvs, Forall (λ kv, P kv.2) kvs → P (ADict kvs)).

Fixpoint aval_nested_ind (a : aval) : P a.
Proof using All.
  destruct a; try (by apply Hatom).
  - apply Hlist. induction l; constructor; [apply aval_nested_ind|done].
  - apply Hdict. induction kvs as [|[k v] kvs]; constructor; [apply aval_nested_ind|done].
Qed.
End aval_induction.

(** ** The policy *)

(** Metadata that may be stored, from nesting depth [d] on: only allowlisted
    keys, every sensitive key redacted, bounded strings, lists and mappings,
    finite numbers, at most four levels. *)
Fixpoint clean (allowed : gset str) (d : Z) (a : aval) : Prop :=
  d ≤ MAX_METADATA_DEPTH ∧
  match a with
  | AFloat f => isfinite f = true
  | AStr s => (length s ≤ MAX_STRING_LENGTH)%nat
  | AList l =>
      Z.of_nat (length l) ≤ MAX_LIST_ITEMS ∧
      foldr (λ x P, clean allowed (d + 1) x ∧ P) True l
  | ADict kvs =>
      Z.of_nat (length kvs) ≤ MAX_MAPPING_FIELDS ∧
      foldr (λ kv P, (kv.1 ∈ allowed ∧
        if is_sensitive_key kv.1 then kv.2 = AStr REDACTED_VALUE
        else clean allowed (d + 1) kv.2) ∧ P) True kvs
  | _ => True
  end.

Definition clean_fields (allowed : gset str) (d : Z) (kvs : list (str * aval)) : Prop :=
  d ≤ MAX_METADATA_DEPTH ∧ Z.of_nat (length kvs) ≤ MAX_MAPPING_FIELDS ∧
  Forall (λ kv, kv.1 ∈ allowed ∧
    if is_sensitive_key kv.1 then kv.2 = AStr REDACTED_VALUE
    else clean allowed (d + 1) kv.2) kvs.

(** How many values a sanitised value holds below itself. *)
Fixpoint cost (a : aval) : Z :=
  match a with
  | AList l => foldr (λ x n, 1 + cost x + n) 0 l
  | ADict kvs => foldr (λ kv n, 1 + cost kv.2 + n) 0 kvs
  | _ => 0
  end.

Definition fields_cost (kvs : list (str * aval)) : Z :=
  foldr (λ kv n, 1 + cost kv.2 + n) 0 kvs.

(** A sanitised value as a Python value again. *)
Fixpoint plain (a : aval) : pyval :=
  match a with
  | ANull => PNone
  | ABool b => PBool b
  | AInt z => PInt z
  | AFloat f => PFloat f
  | AStr s => PStr s
  | AList l => PList (plain <$> l)
  | ADict kvs => PDict ((λ kv, (PStr kv.1, plain kv.2)) <$> kvs)
  end.

Definition plain_fields (kvs : list (str * aval)) : list (pyval * pyval) :=
  (λ kv, (PStr kv.1, plain kv.2)) <$> kvs.

Lemma foldr_and_Forall {A} (P : A → Prop) (l : list A) :
  foldr (λ x Q, P x ∧ Q) True l ↔ Forall P l.
Proof. induction l; cbn; [by split|]. rewrite Forall_cons. tauto. Qed.

Lemma cost_nonneg a : 0 ≤ cost a.
Proof.
  induction a as [a|l IH|kvs IH] using aval_nested_ind.
  - destruct a; cbn; try lia; naive_solver.
  - cbn. induction IH; cbn; lia.
  - cbn. induction IH; cbn; lia.
Qed.

Lemma fields_cost_nonneg kvs : 0 ≤ fields_cost kvs.
Proof. apply (cost_nonneg (ADict kvs)). Qed.

Lemma redacted_clean allowed d : d ≤ MAX_METADATA_DEPTH → clean allowed d (AStr REDACTED_VALUE).
Proof. intros Hd. split; [done|]. apply Nat.leb_le. reflexivity. Qed.

(** ** Strings the sanitiser builds *)

Lemma hex_length n i : length (hex n i) = n.
Proof. revert i. induction n; intros i; cbn; [done|]. rewrite length_app, IHn. cbn. lia. Qed.

Lemma digits_length n z : length (digits n z) = n.
Proof. revert z. induction n; intros z; cbn; [done|]. rewrite length_app, IHn. cbn. lia. Qed.

Lemma uuid_str_length i : length (uuid_str i) = 36%nat.
Proof. unfold uuid_str. by rewrite !length_app, !hex_length. Qed.

Lemma isoformat_length t : (length (isoformat_z t) ≤ 27)%nat.
Proof.
  unfold isoformat_z. destruct (civil _) as [[y m] d]. rewrite !length_app, !digits_length.
  cbn. case_match; rewrite ?length_app, ?digits_length; cbn; lia.
Qed.

Lemma hex_digit_cls d : 0 ≤ d < 16 → in_cls [lower; digit] (hex_digit d) = true.
Proof.
  intros Hd. assert (∃ n, d = Z.of_nat n ∧ (n < 16)%nat) as (n & -> & Hn) by (exists (Z.to_nat d); lia).
  do 16 (destruct n as [|n]; [by vm_compute|]). lia.
Qed.

Lemma hex_chars n i : Forall (λ c, in_cls [lower; digit] c = true) (hex n i).
Proof.
  revert i. induction n as [|n IH]; intros i; cbn; [done|]. apply Forall_app. split; [apply IH|].
  constructor; [|done]. apply hex_digit_cls, Z.mod_pos_bound. lia.
Qed.

Lemma uuid_str_chars i : Forall (λ c, in_cls [lower; digit; chr "-"] c = true) (uuid_str i).
Proof.
  unfold uuid_str. rewrite !Forall_app. split_and!;
    first [ apply (Forall_in_cls_incl [lower; digit]); [by vm_compute|apply hex_chars]
          | apply Forall_cons; split; [by vm_compute|apply Forall_nil_2] ].
Qed.

(** A UUID starts with a hexadecimal digit. *)
Lemma uuid_str_head i : ∃ c w, uuid_str i = c :: w ∧ in_cls [lower; digit] c = true.
Proof.
  unfold uuid_str. pose proof (hex_length 8 (i / 16 ^ 24)) as Hl.
  pose proof (hex_chars 8 (i / 16 ^ 24)) as Hc.
  destruct (hex 8 _) as [|c w]; [done|]. apply Forall_cons in Hc as [Hc _]. cbn [app]. eauto.
Qed.

(** A UUID is a valid correlation id. *)
Lemma uuid_correlation_id i : validate_correlation_id (PStr (uuid_str i)) = Ok (uuid_str i).
Proof.
  unfold validate_correlation_id. cbn [validate_pattern].
  assert (fullmatch CORRELATION_ID_PATTERN (uuid_str i) = true) as ->; [|done].
  apply fullmatch_matches. pose proof (uuid_str_length i) as Hl. pose proof (uuid_str_chars i) as Hc.
  destruct (uuid_str_head i) as (c & w & He & Hh). rewrite He in *.
  apply Forall_cons in Hc as [_ Hc]. cbn in Hl. apply (m_seq _ _ [c]).
  - constructor. eapply in_cls_incl; [|exact Hh]. by vm_compute.
  - apply matches_between_cls; [lia|]. eapply Forall_in_cls_incl; [|exact Hc]. by vm_compute.
Qed.

(** ** Budget-threading loops *)

(** A loop that spends from a budget never lets it go below zero, and what it
    builds satisfies what its body guarantees. *)
Lemma thread_spend {A B} (f : A → Z → res pyexn (B * Z)) (spent : B → Z) (P : B → Prop) xs :
  (∀ x b y b', x ∈ xs → 0 ≤ b → f x b = Ok (y, b') → P y ∧ 0 ≤ b' ∧ b' = b - spent y) →
  ∀ b ys b', 0 ≤ b → thread f xs b = Ok (ys, b') →
  Forall P ys ∧ 0 ≤ b' ∧ b' = b - foldr (λ y n, spent y + n) 0 ys ∧ length ys = length xs.
Proof.
  induction xs as [|x xs IH]; intros Hf b ys b' Hb H; cbn in H.
  - injection H as <- <-. split_and!; [constructor|done|cbn; lia|done].
  - apply bind_Ok in H as ([y b1] & Hy & H). apply bind_Ok in H as ([ys' b2] & Hys & [= <- <-]).
    destruct (Hf x b y b1) as (HP & Hb1 & ->); [by left|done|done|].
    destruct (IH ltac:(intros; eapply Hf; [by right|..]; done) _ _ _ Hb1 Hys)
      as (? & ? & -> & Hl).
    split_and!; [by constructor|done|cbn; lia|cbn; by rewrite Hl].
Qed.

Lemma consume_budget_Ok b b' : consume_budget b = Ok b' → b' = b - 1 ∧ 0 ≤ b'.
Proof. unfold consume_budget. intros H. res_inv. injection H as <-. bool_inv. lia. Qed.

Lemma validate_depth_Ok d u : validate_depth d = Ok u → d ≤ MAX_METADATA_DEPTH.
Proof. unfold validate_depth. rewrite require_Ok. intros. by bool_inv. Qed.

(** ** What comes out is clean *)

Definition cleans (allowed : gset str) (v : pyval) : Prop := ∀ d b a b',
  0 ≤ b → sanitize_value allowed v d b = Ok (a, b') →
  clean allowed d a ∧ 0 ≤ b' ∧ b' = b - cost a.

Definition field_spent (o : option (str * aval)) : Z := from_option (λ kv, 1 + cost kv.2) 0 o.

Lemma sanitize_field_clean allowed d kv b o b' :
  cleans allowed kv.2 → 0 ≤ b →
  sanitize_field allowed (λ v b, sanitize_value allowed v (d + 1) b) kv b = Ok (o, b') →
  (∀ k a, o = Some (k, a) → k ∈ allowed ∧
     if is_sensitive_key k then a = AStr REDACTED_VALUE else clean allowed (d + 1) a) ∧
  0 ≤ b' ∧ b' = b - field_spent o.
Proof.
  intros Hc Hb. unfold sanitize_field. destruct kv.1 as [| | | |key| | | | | | |]; try done.
  case_bool_decide as Hin; cbn [negb].
  2: { intros [= <- <-]. split_and!; [done|done|cbn; lia]. }
  intros (b1 & [-> Hb1]%consume_budget_Ok & H)%bind_Ok.
  destruct (is_sensitive_key key) eqn:Hs.
  - injection H as <- <-. split_and!; [|done|cbn; lia].
    intros k a [= <- <-]. by rewrite Hs.
  - apply bind_Ok in H as ([a b2] & H & [= <- <-]).
    apply Hc in H as (Hcl & ? & ->); [|done]. split_and!; [|done|cbn; lia].
    intros k a' [= <- <-]. by rewrite Hs.
Qed.

Lemma kept_fields_cost fs :
  foldr (λ o n, field_spent o + n) 0 fs = fields_cost (kept_fields fs).
Proof.
  induction fs as [|o fs IH]; [done|]. cbn [foldr]. rewrite IH. by destruct o as [[k a]|].
Qed.

Lemma kept_fields_length fs : (length (kept_fields fs) ≤ length fs)%nat.
Proof.
  induction fs as [|[kv|] fs IH]; [done| |].
  - change (kept_fields (Some kv :: fs)) with (kv :: kept_fields fs). cbn. lia.
  - change (kept_fields (None :: fs)) with (kept_fields fs). cbn. lia.
Qed.

Lemma sanitize_mapping_clean allowed kvs d b m b' :
  Forall (λ kv, cleans allowed kv.2) kvs → 0 ≤ b →
  sanitize_mapping allowed kvs d b = Ok (m, b') →
  clean_fields allowed d m ∧ 0 ≤ b' ∧ b' = b - fields_cost m.
Proof.
  intros Hall Hb. unfold sanitize_mapping.
  intros (u & Hd%validate_depth_Ok & (u' & Hn%require_Ok & H)%bind_Ok)%bind_Ok.
  apply bind_Ok in H as ([fs b1] & H & [= <- <-]). bool_inv.
  rewrite Forall_forall in Hall.
  apply (thread_spend _ field_spent (λ o, ∀ k a, o = Some (k, a) → k ∈ allowed ∧
     if is_sensitive_key k then a = AStr REDACTED_VALUE else clean allowed (d + 1) a))
    in H as (HP & ? & -> & Hl); [|intros; eapply sanitize_field_clean; eauto|done].
  rewrite kept_fields_cost in *. split; [|done].
  split_and!; [done|pose proof (kept_fields_length fs); lia|].
  apply Forall_forall. intros [k a] Hka. unfold kept_fields in Hka.
  apply list_elem_of_omap in Hka as (o & Ho & Hid). rewrite Forall_forall in HP.
  by apply (HP o Ho k a).
Qed.

Lemma clean_dict allowed d kvs : clean allowed d (ADict kvs) ↔ clean_fields allowed d kvs.
Proof. unfold clean_fields. cbn. by rewrite foldr_and_Forall. Qed.

Lemma clean_list allowed d l :
  clean allowed d (AList l) ↔
  d ≤ MAX_METADATA_DEPTH ∧ Z.of_nat (length l) ≤ MAX_LIST_ITEMS ∧
  Forall (clean allowed (d + 1)) l.
Proof. cbn. by rewrite foldr_and_Forall. Qed.

(** One lemma for the two kinds of sequence. *)
Lemma sanitize_seq_clean allowed l d b a b' :
  Forall (cleans allowed) l → 0 ≤ b →
  (validate_depth d;;
   require (negb (MAX_LIST_ITEMS <? Z.of_nat (length l)))
     (ValueError "audit metadata list contains too many items");;
   '(xs, b) ← thread (λ item b, b ← consume_budget b; sanitize_value allowed item (d + 1) b) l b;
   Ok (AList xs, b)) = Ok (a, b') →
  clean allowed d a ∧ 0 ≤ b' ∧ b' = b - cost a.
Proof.
  intros Hall Hb (u & Hd%validate_depth_Ok & (u' & Hn%require_Ok & H)%bind_Ok)%bind_Ok.
  apply bind_Ok in H as ([xs b1] & H & [= <- <-]). bool_inv. rewrite Forall_forall in Hall.
  apply (thread_spend _ (λ a, 1 + cost a) (clean allowed (d + 1))) in H
    as (HP & ? & -> & Hl); [| |done].
  - rewrite clean_list. split_and!; [done|lia|done|done|done].
  - intros x c y c' Hx Hc (c1 & [-> Hc1]%consume_budget_Ok & Hs)%bind_Ok.
    apply Hall in Hs as (? & ? & ->); [|done..]. split_and!; [done|done|lia].
Qed.

Lemma sanitize_dict allowed kvs d b :
  sanitize_value allowed (PDict kvs) d b
  = ('(m, b) ← sanitize_mapping allowed kvs d b; Ok (ADict m, b)).
Proof.
  cbn [sanitize_value]. unfold sanitize_mapping.
  destruct (validate_depth d); cbn [mbind res_bind]; [|done].
  destruct (require _ _); cbn [mbind res_bind]; [|done].
  by destruct (thread _ _ _) as [[fs c]|].
Qed.

Lemma sanitize_value_clean allowed v : cleans allowed v.
Proof.
  induction v as [v Hv1 Hv2 Hv3|l IH|l IH|kvs IH] using pyval_nested_ind; intros d b a b' Hb H.
  - assert (Hd : d ≤ MAX_METADATA_DEPTH).
    { destruct v; apply bind_Ok in H as (? & ?%validate_depth_Ok & _); done. }
    destruct v as [|x|z|f|s|i|t|t|l|l|kvs|]; try naive_solver;
      apply bind_Ok in H as (u & _ & H); try discriminate H;
      try (injection H as <- <-; split_and!; [split; [done|done]|done|cbn; lia]).
    + apply bind_Ok in H as (? & Hf%require_Ok & [= <- <-]).
      split_and!; [by split|done|cbn; lia].
    + injection H as <- <-. split_and!; [split; [done|]|done|cbn; lia].
      rewrite length_take. lia.
    + injection H as <- <-. split_and!; [split; [done|]|done|cbn; lia].
      rewrite uuid_str_length. by apply Nat.leb_le.
    + apply bind_Ok in H as (s & Hs & [= <- <-]).
      split_and!; [split; [done|]|done|cbn; lia].
      unfold serialize_utc in Hs. destruct (require_utc_datetime t); [|done].
      injection Hs as <-. pose proof (isoformat_length a). unfold MAX_STRING_LENGTH. lia.
  - eapply sanitize_seq_clean; eauto.
  - eapply sanitize_seq_clean; eauto.
  - rewrite sanitize_dict in H. apply bind_Ok in H as ([m c] & H & [= <- <-]).
    apply sanitize_mapping_clean in H as (? & ? & ->); [|done|done].
    by rewrite clean_dict.
Qed.

(** ** What is clean is kept *)

(** A loop whose body succeeds on every element within its cost. *)
Lemma thread_success {A B C} (f : A → Z → res pyexn (B * Z)) (g : C → A) (y : C → B)
    (c : C → Z) (xs : list C) :
  (∀ x, x ∈ xs → 0 ≤ c x) →
  (∀ x b, x ∈ xs → c x ≤ b → f (g x) b = Ok (y x, b - c x)) →
  ∀ b, foldr (λ x n, c x + n) 0 xs ≤ b →
  thread f (g <$> xs) b = Ok (y <$> xs, b - foldr (λ x n, c x + n) 0 xs).
Proof.
  induction xs as [|x xs IH]; intros Hc Hf b Hb; cbn in *; [by rewrite Z.sub_0_r|].
  assert (Hs : 0 ≤ foldr (λ x n, c x + n) 0 xs).
  { clear -Hc. induction xs as [|z xs IH]; cbn; [lia|].
    pose proof (Hc z ltac:(right; left)). assert (0 ≤ foldr (λ x n, c x + n) 0 xs); [|lia].
    apply IH. intros w Hw. apply Hc. apply elem_of_cons in Hw as [->|]; [by left|by right; right]. }
  rewrite (Hf x b) by (by left || lia). cbn [mbind res_bind].
  rewrite IH; [by rewrite Z.sub_add_distr| | |lia].
  - intros z Hz. apply Hc. by right.
  - intros z b' Hz. apply Hf. by right.
Qed.

Definition keeps (allowed : gset str) (a : aval) : Prop := ∀ d b,
  clean allowed d a → cost a ≤ b → sanitize_value allowed (plain a) d b = Ok (a, b - cost a).

Lemma validate_depth_le d : d ≤ MAX_METADATA_DEPTH → validate_depth d = Ok tt.
Proof. intros. unfold validate_depth. by rewrite (proj2 (Z.ltb_ge _ _)). Qed.

Lemma consume_budget_ge b : 1 ≤ b → consume_budget b = Ok (b - 1).
Proof. intros. unfold consume_budget. by rewrite (proj2 (Z.ltb_ge (b - 1) 0)) by lia. Qed.

Lemma kept_fields_some kvs : kept_fields (Some <$> kvs) = kvs.
Proof.
  induction kvs as [|kv kvs IH]; [done|].
  change (kept_fields (Some <$> (kv :: kvs))) with (kv :: kept_fields (Some <$> kvs)).
  by rewrite IH.
Qed.

Lemma sanitize_field_keeps allowed d kv b :
  keeps allowed kv.2 → kv.1 ∈ allowed →
  (if is_sensitive_key kv.1 then kv.2 = AStr REDACTED_VALUE else clean allowed (d + 1) kv.2) →
  1 + cost kv.2 ≤ b →
  sanitize_field allowed (λ v b, sanitize_value allowed v (d + 1) b) (PStr kv.1, plain kv.2) b
  = Ok (Some kv, b - (1 + cost kv.2)).
Proof.
  destruct kv as [k a]. cbn [fst snd]. intros Hk Hin Hs Hb. unfold sanitize_field. cbn [fst].
  rewrite bool_decide_eq_true_2 by done. cbn [negb].
  pose proof (cost_nonneg a). rewrite consume_budget_ge by lia. cbn [mbind res_bind].
  destruct (is_sensitive_key k); [by subst a|]. cbn [snd].
  rewrite Hk by (done || lia). cbn [mbind res_bind]. by rewrite Z.sub_add_distr.
Qed.

Lemma sanitize_mapping_keeps allowed kvs d b :
  Forall (λ kv, keeps allowed kv.2) kvs → clean_fields allowed d kvs → fields_cost kvs ≤ b →
  sanitize_mapping allowed (plain_fields kvs) d b = Ok (kvs, b - fields_cost kvs).
Proof.
  intros Hall (Hd & Hl & Hc) Hb. rewrite Forall_forall in Hall, Hc.
  unfold sanitize_mapping, plain_fields. rewrite validate_depth_le by done.
  cbn [mbind res_bind]. rewrite length_fmap, (proj2 (Z.ltb_ge _ _) Hl).
  cbn [negb require mbind res_bind].
  rewrite (thread_success _ (λ kv, (PStr kv.1, plain kv.2)) Some (λ kv, 1 + cost kv.2) kvs).
  - cbn [mbind res_bind]. by rewrite kept_fields_some.
  - intros kv _. pose proof (cost_nonneg kv.2). lia.
  - intros kv c Hkv Hle. destruct (Hc kv Hkv). apply sanitize_field_keeps; auto.
  - exact Hb.
Qed.

Lemma sanitize_value_keeps allowed a : keeps allowed a.
Proof.
  induction a as [a Hl Hd|l IH|kvs IH] using aval_nested_ind; intros d b Hc Hb.
  - destruct a as [|x|z|f|s|l|kvs]; try naive_solver; destruct Hc as [Hd' Hc];
      cbn [plain sanitize_value]; rewrite (validate_depth_le _ Hd'); cbn [mbind res_bind cost];
      rewrite Z.sub_0_r; try done.
    + cbn in Hc. by rewrite Hc.
    + by rewrite take_ge.
  - apply clean_list in Hc as (Hd & Hl & Hc). cbn [plain sanitize_value].
    rewrite validate_depth_le by done. cbn [mbind res_bind].
    rewrite length_fmap, (proj2 (Z.ltb_ge _ _) Hl). cbn [negb require mbind res_bind].
    rewrite Forall_forall in IH, Hc.
    rewrite (thread_success _ plain id (λ a, 1 + cost a) l); [by rewrite list_fmap_id|..].
    + intros x _. pose proof (cost_nonneg x). lia.
    + intros x c Hx Hle. pose proof (cost_nonneg x).
      rewrite consume_budget_ge by lia. cbn [mbind res_bind].
      rewrite IH; [by rewrite Z.sub_add_distr|done|by apply Hc|lia].
    + exact Hb.
  - cbn [plain]. change ((λ kv, (PStr kv.1, plain kv.2)) <$> kvs) with (plain_fields kvs).
    rewrite sanitize_dict. rewrite sanitize_mapping_keeps; [done|done|by apply clean_dict|done].
Qed.

(** ** Queries *)

Lemma length_filter_select {R} `{Keyed R} (p : R → bool) key (t : table R) :
  Z.of_nat (length (select p key t)) = rowcount p t.
Proof. unfold select, rowcount. by rewrite (Permutation_length (order_by_Permutation _ _)). Qed.

Lemma limit_offset_length {T} (r : PageRequest) (l : list T) :
  0 ≤ page_size r →
  Z.of_nat (length (limit_offset r l)) ≤ page_size r ∧
  (length (limit_offset r l) ≤ length l)%nat.
Proof. intros. unfold limit_offset. rewrite length_take, length_drop. lia. Qed.

Lemma newest_first_le a b :
  key_le newest_first a b →
  Audit.occurred_at b < Audit.occurred_at a ∨
  (Audit.occurred_at a = Audit.occurred_at b ∧ Audit.id b ≤ Audit.id a).
Proof. unfold key_le, newest_first. rewrite lexle_cons, lexle_cons. lia. Qed.

Lemma newest_sorted l :
  StronglySorted (key_le newest_first) l →
  StronglySorted (λ a b, Audit.occurred_at b < Audit.occurred_at a ∨
      (Audit.occurred_at a = Audit.occurred_at b ∧ Audit.id b ≤ Audit.id a)) l.
Proof.
  induction 1 as [|a l _ IH Ha]; [constructor|]. constructor; [done|].
  eapply Forall_impl; [exact Ha|]. intros b. apply newest_first_le.
Qed.

(** ** Properties *)

(** C37: Metadata that reaches the audit table is safe: whatever mapping is
    handed in, the sanitised result holds only allowlisted keys at every level,
    each sensitive key carries only the redaction marker, strings have at most
    500 characters, lists at most 20 items, mappings at most 50 fields, there
    are at most 100 values within four levels, numbers are finite, and its JSON
    takes at most 16384 bytes. Sanitising the result again under the same
    allowlist gives it back unchanged. *)
Theorem audit_metadata_safe float_repr metadata allowed m :
  sanitize_audit_metadata float_repr metadata allowed = Ok m →
  clean_fields allowed 0 m ∧ fields_cost m ≤ MAX_TOTAL_VALUES ∧
  (∃ n, utf8_length (json_dumps float_repr (ADict m)) = Ok n ∧ n ≤ MAX_METADATA_BYTES) ∧
  sanitize_audit_metadata float_repr (PDict (plain_fields m)) allowed = Ok m.
Proof.
  unfold sanitize_audit_metadata. intros (kvs & _ & H)%bind_Ok.
  apply bind_Ok in H as (u & Hallowed & H).
  apply bind_Ok in H as ([m' b] & Hm & H). apply bind_Ok in H as (n & Hn & H).
  apply bind_Ok in H as (u' & Hle & [= ->]).
  apply sanitize_mapping_clean in Hm as (Hc & Hb & ->);
    [|apply Forall_forall; intros; apply sanitize_value_clean|done].
  split_and!; [exact Hc|lia| |].
  - exists n. split; [done|]. apply require_Ok in Hle. by bool_inv.
  - cbn [mbind res_bind]. rewrite Hallowed. cbn [mbind res_bind].
    rewrite sanitize_mapping_keeps; [|by apply Forall_forall; intros; apply sanitize_value_keeps|done|lia].
    cbn [mbind res_bind]. rewrite Hn. cbn [mbind res_bind]. by rewrite Hle.
Qed.

Definition demo_metadata : pyval :=
  PDict [(PStr (lit "provider"), PStr (lit "google")); (PStr (lit "email"), PStr (lit "a@b.ng"));
         (PStr (lit "other"), PInt 1)].
Definition demo_allowed : gset str := {[lit "provider"; lit "email"]}.
Definition demo_clean : list (str * aval) :=
  [(lit "provider", AStr (lit "google")); (lit "email", AStr REDACTED_VALUE)].

Lemma audit_metadata_safe_witness :
  clean_fields demo_allowed 0 demo_clean ∧ fields_cost demo_clean ≤ MAX_TOTAL_VALUES ∧
  (∃ n, utf8_length (json_dumps (λ _, []) (ADict demo_clean)) = Ok n ∧ n ≤ MAX_METADATA_BYTES) ∧
  sanitize_audit_metadata (λ _, []) (PDict (plain_fields demo_clean)) demo_allowed
  = Ok demo_clean.
Proof.
  refine (audit_metadata_safe (λ _, []) demo_metadata demo_allowed demo_clean _).
  vm_compute. reflexivity.
Defined.

(** Querying always answers: for a validated page request the page holds at
    most page_size records, all matching every filter that is set, newest
    first (ties by descending id), the total counts all the matching records,
    and the pages laid end to end list every matching record of the table
    exactly once. *)
Theorem audit_query_complete f v1 v2 req t :
  table_ok t → page_request v1 v2 = Ok req →
  ∃ p l, query_records f req t = Ok p ∧
    items p = limit_offset req l ∧ total_items p = Z.of_nat (length l) ∧
    NoDup (Audit.id <$> l) ∧
    (∀ r, r ∈ l ↔ t !! Audit.id r = Some r ∧ conditions f r = true) ∧
    StronglySorted (λ a b, Audit.occurred_at b < Audit.occurred_at a ∨
      (Audit.occurred_at a = Audit.occurred_at b ∧ Audit.id b ≤ Audit.id a)) l.
Proof.
  intros Hok Hreq. pose proof Hreq as (_ & _ & Hp & Hs)%page_request_Ok.
  set (l := select (conditions f) newest_first t).
  destruct (limit_offset_length req l ltac:(lia)) as [Hl1 Hl2].
  exists (NewPage (limit_offset req l) (Z.of_nat (length l)) (page req) (page_size req)), l.
  split; [|split; [done|split; [done|split_and!]]].
  - unfold query_records, make_page.
    rewrite <-(length_filter_select _ newest_first). fold l.
    assert (page_request (PInt (page req)) (PInt (page_size req)) = Ok req) as ->
      by (by apply page_request_Ok).
    cbn [mbind res_bind require_integer as_int].
    rewrite (proj2 (Z.ltb_ge (Z.of_nat (length l)) 0)) by lia.
    rewrite (proj2 (Z.ltb_ge (page_size req) _)) by done.
    rewrite (proj2 (Z.ltb_ge (Z.of_nat (length l)) _)) by lia. done.
  - by apply select_NoDup.
  - intros r. unfold l. rewrite elem_of_select by done. tauto.
  - apply newest_sorted, select_Sorted.
Qed.

Definition demo_record : Audit.t :=
  Audit.New 3 SYSTEM None (lit "outbox.worker_resumed") (lit "worker_operation") 9 SUCCEEDED 50
    (lit "c1") [].

Definition no_filters : AuditFilters := Filters None None None None None None None None None.

Lemma audit_query_complete_witness :
  ∃ p l, query_records no_filters (NewPageRequest 1 20) {[3 := demo_record]} = Ok p ∧
    items p = limit_offset (NewPageRequest 1 20) l ∧ total_items p = Z.of_nat (length l) ∧
    NoDup (Audit.id <$> l) ∧
    (∀ r, r ∈ l ↔ ({[3 := demo_record]} : table Audit.t) !! Audit.id r = Some r ∧
                 conditions no_filters r = true) ∧
    StronglySorted (λ a b, Audit.occurred_at b < Audit.occurred_at a ∨
      (Audit.occurred_at a = Audit.occurred_at b ∧ Audit.id b ≤ Audit.id a)) l.
Proof.
  refine (audit_query_complete no_filters (PInt 1) (PInt 20) (NewPageRequest 1 20) _ _ _).
  - intros k r Hr. apply lookup_singleton_Some in Hr as [<- <-]. reflexivity.
  - reflexivity.
Defined.
