(* ===== verification/Outbox.v ===== *)
(** * The transactional outbox (outbox/model.py, outbox/repository.py)

    The outbox table and the ordinary repository: staging an event, claiming an
    aggregate-ordered batch, and the two transitions of a claim. The leased
    operations on the same table are in LeasedOutbox.v. *)

From S2P Require Import Prelude Regex PyValues Events Jsonb.

(** ** Data *)

Inductive OutboxStatus :=
| PENDING | PROCESSING | PUBLISHED | FAILED | DEAD | SKIPPED | UNCERTAIN | BLOCKED.

#[export] Instance OutboxStatus_eq_dec : EqDecision OutboxStatus.
Proof. solve_decision. Defined.

Module Msg.
Record t := New {
  id : uuid;
  event_id : uuid;
  idempotency_key : str;
  event_type : str;
  aggregate_type : str;
  aggregate_id : uuid;
  aggregate_version : Z;
  occurred_at : datetime;
  payload : list (pyval * pyval);
  status : OutboxStatus;
  attempts : Z;
  available_at : datetime;
  claimed_at : option datetime;
  published_at : option datetime;
  last_error_code : option str;
  claim_token : option uuid;
  lease_expires_at : option datetime;
  delivery_fingerprint : option str;
  delivery_receipts : gmap str str;
  retry_budget : Z;
  deadline_at : option datetime }.
End Msg.

#[export] Instance msg_keyed : Keyed Msg.t := Msg.id.
#[export] Instance msg_settable : Settable Msg.t := λ m,
  Msg.New (Msg.id m) (Msg.event_id m) (Msg.idempotency_key m) (Msg.event_type m)
    (Msg.aggregate_type m) (Msg.aggregate_id m) (Msg.aggregate_version m) (Msg.occurred_at m)
    (Msg.payload m) (Msg.status m) (Msg.attempts m) (Msg.available_at m) (Msg.claimed_at m)
    (Msg.published_at m) (Msg.last_error_code m) (Msg.claim_token m) (Msg.lease_expires_at m)
    (Msg.delivery_fingerprint m) (Msg.delivery_receipts m) (Msg.retry_budget m)
    (Msg.deadline_at m).

(** The row of a message once its payload went through its JSONB column. *)
Definition stores (m m' : Msg.t) : Prop :=
  ∃ kvs, jsonb (PDict (Msg.payload m)) (PDict kvs) ∧ m' = m <| Msg.payload := kvs |>.

(** The CHECK constraints of the table; the receipts are an object by type. *)
Definition outbox_checks (m : Msg.t) : bool :=
  (0 <? Msg.aggregate_version m) && (0 <=? Msg.attempts m) && (0 <? Msg.retry_budget m)
  && bool_decide (is_Some (Msg.claim_token m) ↔ is_Some (Msg.lease_expires_at m)).

(** INSERT: primary key, the two unique columns, the CHECK constraints. *)
Definition insert_message (m : Msg.t) (t : table Msg.t) : res pyexn (table Msg.t) :=
  require (bool_decide (t !! Msg.id m = None)) (IntegrityError "pk_outbox_messages");;
  require (negb (existsb (λ r, bool_decide (Msg.event_id r = Msg.event_id m)) (rows t)))
    (IntegrityError "uq_outbox_messages_event_id");;
  require (negb (existsb (λ r, bool_decide (Msg.idempotency_key r = Msg.idempotency_key m))
                   (rows t))) (IntegrityError "uq_outbox_messages_idempotency_key");;
  require (outbox_checks m) (IntegrityError "ck_outbox_messages");;
  Ok (put m t).

(** [OutboxMessage.to_event]. *)
Definition to_event (m : Msg.t) : res pyexn DomainEvent :=
  domain_event (PUUID (Msg.event_id m)) (PStr (Msg.event_type m)) (PStr (Msg.aggregate_type m))
    (PUUID (Msg.aggregate_id m)) (PInt (Msg.aggregate_version m))
    (PDatetime (aware (Msg.occurred_at m))) (PDict (Msg.payload m)).

(** ** Validators *)

Definition validate_idempotency_key : pyval → res pyexn str :=
  validate_pattern SAFE_KEY_PATTERN None "idempotency_key must use 1-255 safe characters".

Definition validate_error_code : pyval → res pyexn str :=
  validate_pattern SNAKE_CASE_PATTERN (Some 100%nat) "error_code must use lowercase snake case".

Definition validate_limit : pyval → res pyexn Z :=
  validate_int_range 1 100 "limit must be an integer" "limit must be between 1 and 100".

(** [OutboxRepository.__init__]. *)
Definition repository_max_attempts : pyval → res pyexn Z :=
  validate_int_range 1 100 "max_attempts must be an integer"
    "max_attempts must be between 1 and 100".

Definition validate_event_types (v : pyval) : res pyexn (option (list str)) :=
  match v with
  | PNone => Ok None
  | PTuple ((_ :: _) as vs) =>
      names ← traverse (validate_pattern SNAKE_CASE_PATTERN (Some 100%nat)
                          "event_types must contain safe event names") vs;
      Ok (Some names)
  | _ => Err (ValueError "event_types must be a non-empty tuple or None")
  end.

(** ** Operations *)

Definition EMAIL_CHALLENGE_REQUESTED : str := lit "email_challenge_requested".

Definition default_key (event : uuid) : str := lit "event:" ++ uuid_str event.

(** [OutboxRepository.add]; the row id comes from [uuid4()], the retry budget
    and the receipts take their column defaults. *)
Definition add (new_id : uuid) (event : DomainEvent) (idempotency_key : pyval)
    (available_at : option pydatetime) : res pyexn Msg.t :=
  resolved_key ← validate_idempotency_key
    (match idempotency_key with PNone => PStr (default_key (event_id event)) | k => k end);
  resolved_available_at ← require_utc_datetime
    (or_default available_at (aware (occurred_at event)));
  Ok {| Msg.id := new_id; Msg.event_id := event_id event;
        Msg.idempotency_key := resolved_key; Msg.event_type := event_type event;
        Msg.aggregate_type := aggregate_type event; Msg.aggregate_id := aggregate_id event;
        Msg.aggregate_version := aggregate_version event;
        Msg.occurred_at := occurred_at event; Msg.payload := payload_dict event;
        Msg.status := PENDING; Msg.attempts := 0; Msg.available_at := resolved_available_at;
        Msg.claimed_at := None; Msg.published_at := None; Msg.last_error_code := None;
        Msg.claim_token := None; Msg.lease_expires_at := None;
        Msg.delivery_fingerprint := None; Msg.delivery_receipts := ∅;
        Msg.retry_budget := 5; Msg.deadline_at := None |}.

(** The row [e] is an earlier event of the aggregate of [m]. *)
Definition earlier_event (m e : Msg.t) : bool :=
  bool_decide (Msg.aggregate_type e = Msg.aggregate_type m)
  && bool_decide (Msg.aggregate_id e = Msg.aggregate_id m)
  && (Msg.aggregate_version e <? Msg.aggregate_version m).

Definition earlier_unpublished (t : table Msg.t) (m : Msg.t) : bool :=
  existsb (λ e, earlier_event m e && bool_decide (Msg.status e ≠ PUBLISHED)) (rows t).

Definition waiting (s : OutboxStatus) : bool := bool_decide (s = PENDING ∨ s = FAILED).

Definition batch_claimable (max_attempts : Z) (types : option (list str)) (now : datetime)
    (t : table Msg.t) (m : Msg.t) : bool :=
  waiting (Msg.status m)
  && (Msg.attempts m <? max_attempts)
  && bool_decide (Msg.claim_token m = None)
  && bool_decide (Msg.event_type m ≠ EMAIL_CHALLENGE_REQUESTED)
  && (Msg.available_at m <=? now)
  && negb (earlier_unpublished t m)
  && match types with None => true | Some names => bool_decide (Msg.event_type m ∈ names) end.

Definition batch_order (m : Msg.t) : list Z := [Msg.available_at m; Msg.occurred_at m; Msg.id m].

Definition claim_ordinary (claimed_at : datetime) (m : Msg.t) : Msg.t :=
  m <| Msg.status := PROCESSING |> <| Msg.attempts ::= Z.succ |>
    <| Msg.claimed_at := Some claimed_at |> <| Msg.published_at := None |>
    <| Msg.last_error_code := None |>.

Definition claim_batch (max_attempts : Z) (clock : datetime) (locked : gset uuid)
    (limit : pyval) (now : option pydatetime) (event_types : pyval) (t : table Msg.t)
    : res pyexn (list Msg.t * table Msg.t) :=
  limit ← validate_limit limit;
  types ← validate_event_types event_types;
  claimed_at ← require_utc_datetime (or_default now (aware clock));
  let messages := select_for_update locked
    (batch_claimable max_attempts types claimed_at t) batch_order limit t in
  let messages := claim_ordinary claimed_at <$> messages in
  Ok (messages, put_all messages t).

(** The row is changed in the session before [published_at] is validated: a
    naive datetime raises with the changed row still in the session. *)
Definition mark_published (clock : datetime) (message_id : uuid)
    (published_at : option pydatetime) (t : table Msg.t) : res pyexn bool * table Msg.t :=
  match t !! message_id with
  | None => (Ok false, t)
  | Some m =>
      if bool_decide (Msg.status m = PUBLISHED) then (Ok false, t)
      else if bool_decide (Msg.claim_token m ≠ None) then (Ok false, t)
      else if bool_decide (Msg.status m ≠ PROCESSING) then (Ok false, t)
      else
        let m := m <| Msg.status := PUBLISHED |> <| Msg.claimed_at := None |> in
        match require_utc_datetime (or_default published_at (aware clock)) with
        | Err e => (Err e, put m t)
        | Ok at_ =>
            (Ok true,
             put (m <| Msg.published_at := Some at_ |> <| Msg.last_error_code := None |>) t)
        end
  end.

Definition fail_message (error_code : str) (next_available_at : datetime) (m : Msg.t) : Msg.t :=
  m <| Msg.status := FAILED |> <| Msg.claimed_at := None |> <| Msg.published_at := None |>
    <| Msg.last_error_code := Some error_code |> <| Msg.available_at := next_available_at |>.

Definition mark_failed (message_id : uuid) (error_code : pyval) (available_at : pydatetime)
    (t : table Msg.t) : res pyexn (bool * table Msg.t) :=
  error_code ← validate_error_code error_code;
  next_available_at ← require_utc_datetime available_at;
  match t !! message_id with
  | None => Ok (false, t)
  | Some m =>
      if bool_decide (Msg.status m ≠ PROCESSING) then Ok (false, t)
      else Ok (true, put (fail_message error_code next_available_at m) t)
  end.

Definition stale_claim (stale_before : datetime) (m : Msg.t) : bool :=
  bool_decide (Msg.status m = PROCESSING) && sql_le (Msg.claimed_at m) stale_before
  && bool_decide (Msg.claim_token m = None).

Definition stale_order (m : Msg.t) : list Z := [default 0 (Msg.claimed_at m); Msg.id m].

Definition recover_stale_claims (clock : datetime) (locked : gset uuid)
    (stale_before : pydatetime) (available_at : option pydatetime) (limit : pyval)
    (t : table Msg.t) : res pyexn (Z * table Msg.t) :=
  limit ← validate_limit limit;
  stale_before ← require_utc_datetime stale_before;
  available_at ← require_utc_datetime (or_default available_at (aware clock));
  let messages := select_for_update locked (stale_claim stale_before) stale_order limit t in
  Ok (Z.of_nat (length messages),
      put_all (fail_message (lit "claim_expired") available_at <$> messages) t).
