(* ===== verification/Delivery.v ===== *)
(** * Delivery results, retry policy and runner settings
    (outbox/outcomes.py, outbox/retry.py, outbox/settings.py)

    What a delivery attempt can end in, the status and the delay that follow
    from it, and the settings of a worker with their validation. *)

From S2P Require Import Prelude Regex PyValues Outbox.

(** ** Outcomes *)

Inductive OutcomeKind := ACCEPTED | RETRY | PERMANENT | OSKIPPED | OUNCERTAIN | OBLOCKED.

#[export] Instance OutcomeKind_eq_dec : EqDecision OutcomeKind.
Proof. solve_decision. Defined.

(** [OutcomeKind(value)], on a string. *)
Definition outcome_kind (s : str) : option OutcomeKind :=
  if bool_decide (s = lit "accepted") then Some ACCEPTED
  else if bool_decide (s = lit "retry") then Some RETRY
  else if bool_decide (s = lit "permanent") then Some PERMANENT
  else if bool_decide (s = lit "skipped") then Some OSKIPPED
  else if bool_decide (s = lit "uncertain") then Some OUNCERTAIN
  else if bool_decide (s = lit "blocked") then Some OBLOCKED
  else None.

(** A validated result; [retry_after] is a number of seconds, as a duration. *)
Record DeliveryOutcome := Outcome {
  kind : OutcomeKind;
  code : str;
  retry_after : timedelta;
  receipts : gmap str str }.

Definition NAME_PATTERN : regex :=
  Seq (Cls [lower]) (between 0 99 (Cls [lower; digit; chr "_"])).

Definition validate_retry_after (v : pyval) : res pyexn timedelta :=
  let bad := Err (ValueError "retry_after must be between 0 and 3600") in
  match v with
  | PInt z => if (0 <=? z) && (z <=? 3600) then Ok (seconds z) else bad
  | PFloat f =>
      match f with
      | FFin m e => if float_between_0 3600 f then Ok (float_seconds m e) else bad
      | _ => bad
      end
  | PBool _ => bad
  | _ => Err (TypeError "unorderable types")
  end.

(** [DeliveryOutcome.__post_init__]. *)
Definition delivery_outcome (kind_name : str) (code : str) (retry_after : pyval)
    (receipts : gmap str str) : res pyexn DeliveryOutcome :=
  kind ← match outcome_kind kind_name with
         | Some k => Ok k
         | None => Err (ValueError "not a valid OutcomeKind")
         end;
  require (fullmatch NAME_PATTERN code) (ValueError "use a safe delivery result code");;
  retry_after ← validate_retry_after retry_after;
  Ok (Outcome kind code retry_after receipts).

(** The results the workers build themselves. *)
Definition worker_outcome (k : OutcomeKind) (code : string) : DeliveryOutcome :=
  Outcome k (lit code) 0 ∅.

(** What a handler hands over for delivery (outbox/ports.py): the payload is
    opaque to the outbox. *)
Record PreparedDelivery (P : Type) := Prepared {
  prepared_payload : P;
  fingerprint : str;
  expires_at : datetime }.
Arguments Prepared {P}. Arguments prepared_payload {P}.
Arguments fingerprint {P}. Arguments expires_at {P}.

(** ** Settings *)

Record OutboxWorkerSettings := Settings {
  max_attempts : Z;
  poll_seconds : pyfloat;
  retry_base_seconds : Z;
  retry_max_seconds : Z;
  prepare_seconds : Z;
  send_seconds : Z;
  lease_seconds : Z;
  max_age_seconds : Z }.

(** [ge=0.1, le=60, allow_inf_nan=False]; the literal 0.1 is the double
    3602879701896397 * 2^-55. *)
Definition poll_in_range (f : pyfloat) : bool :=
  float_between_0 60 f
  && match f with
     | FFin m e =>
         if -55 <=? e then 3602879701896397 <=? m * 2 ^ (e + 55)
         else 3602879701896397 * 2 ^ (-55 - e) <=? m
     | _ => false
     end.

Definition in_range (lo hi x : Z) : bool := (lo <=? x) && (x <=? hi).

Definition validate_settings (s : OutboxWorkerSettings) : res pyexn OutboxWorkerSettings :=
  require (in_range 1 100 (max_attempts s)) (ValueError "max_attempts");;
  require (poll_in_range (poll_seconds s)) (ValueError "poll_seconds");;
  require (in_range 1 300 (retry_base_seconds s)) (ValueError "retry_base_seconds");;
  require (in_range 1 3600 (retry_max_seconds s)) (ValueError "retry_max_seconds");;
  require (in_range 1 30 (prepare_seconds s)) (ValueError "prepare_seconds");;
  require (in_range 1 60 (send_seconds s)) (ValueError "send_seconds");;
  require (in_range 30 300 (lease_seconds s)) (ValueError "lease_seconds");;
  require (in_range 60 82800 (max_age_seconds s)) (ValueError "max_age_seconds");;
  require (negb (retry_max_seconds s <? retry_base_seconds s))
    (ValueError "retry_max_seconds must be at least retry_base_seconds");;
  require (negb (lease_seconds s <=? prepare_seconds s + send_seconds s + 30))
    (ValueError "lease must cover bounded work and finalization margin");;
  Ok s.

Definition default_settings : OutboxWorkerSettings :=
  Settings 5 (FFin 1 0) 30 300 10 20 120 3600.

(** ** Retry policy *)

(** The random source of [next_delay]: [uniform c] is drawn from [0, c]
    seconds, as a duration. *)
Definition next_delay (uniform : Z → timedelta) (attempt : Z) (result : DeliveryOutcome)
    (settings : OutboxWorkerSettings) : res pyexn timedelta :=
  require (negb (attempt <? 1)) (ValueError "attempt starts at one");;
  let ceiling := Z.min (retry_max_seconds settings)
                   (retry_base_seconds settings * 2 ^ Z.min (attempt - 1) 20) in
  Ok (Z.max (Z.max (seconds 1) (uniform ceiling)) (retry_after result)).

Definition next_status (result : DeliveryOutcome) (attempt max_attempts : Z) : OutboxStatus :=
  match kind result with
  | ACCEPTED => PUBLISHED
  | OSKIPPED => SKIPPED
  | OBLOCKED => BLOCKED
  | PERMANENT => DEAD
  | RETRY => if max_attempts <=? attempt then DEAD else FAILED
  | OUNCERTAIN => if max_attempts <=? attempt then UNCERTAIN else FAILED
  end.

(** ** Lemmas *)

(** What the validated settings guarantee. *)
Definition settings_ok (s : OutboxWorkerSettings) : Prop :=
  1 ≤ max_attempts s ≤ 100 ∧ 1 ≤ retry_base_seconds s ≤ retry_max_seconds s ∧
  retry_max_seconds s ≤ 3600 ∧ 1 ≤ prepare_seconds s ≤ 30 ∧ 1 ≤ send_seconds s ≤ 60 ∧
  prepare_seconds s + send_seconds s + 30 < lease_seconds s ≤ 300 ∧
  60 ≤ max_age_seconds s ≤ 82800.

Lemma validate_settings_Ok s s' : validate_settings s = Ok s' → s' = s ∧ settings_ok s.
Proof.
  unfold validate_settings, in_range. intros H. res_inv. injection H as ->. bool_inv.
  unfold settings_ok. split; [done|lia].
Qed.

Lemma validate_retry_after_Ok v d : validate_retry_after v = Ok d → 0 ≤ d ≤ seconds 3600.
Proof.
  destruct v as [| |z|f| | | | | | | |]; try done.
  - cbn. destruct (_ && _) eqn:Hb; [|done]. intros [= <-]. bool_inv. unfold seconds. lia.
  - unfold validate_retry_after. destruct f as [| |m e]; try done.
    destruct (float_between_0 3600 (FFin m e)) eqn:Hb; [|done].
    intros [= <-]. by apply float_seconds_bounds.
Qed.

(** ** Properties *)

(** The retry delay: for a validated outcome and validated settings and any
    attempt of at least one, [next_delay] returns a delay that is at least one
    second and at least what the provider asked for, and at most one hour; and
    when the provider asked for nothing more, it does not exceed the configured
    cap nor the doubled base of that attempt. *)
Theorem next_delay_bounds uniform attempt kind_name code retry_after receipts r s s' :
  (∀ c, 0 ≤ c → 0 ≤ uniform c ≤ seconds c) →
  delivery_outcome kind_name code retry_after receipts = Ok r →
  validate_settings s = Ok s' → 1 ≤ attempt →
  ∃ d, next_delay uniform attempt r s' = Ok d ∧
    seconds 1 ≤ d ≤ seconds 3600 ∧ Delivery.retry_after r ≤ d ∧
    (Delivery.retry_after r ≤ seconds 1 →
     d ≤ seconds (retry_max_seconds s') ∧ d ≤ seconds (retry_base_seconds s' * 2 ^ (attempt - 1))).
Proof.
  intros Hu Hr Hs Ha. apply validate_settings_Ok in Hs as [-> (_ & Hbase & Hmax & _)].
  assert (Hra : 0 ≤ Delivery.retry_after r ≤ seconds 3600).
  { unfold delivery_outcome in Hr. res_inv. injection Hr as <-. by eapply validate_retry_after_Ok. }
  unfold next_delay. rewrite (proj2 (Z.ltb_ge _ _) Ha). cbn [negb require mbind res_bind].
  eexists. split; [reflexivity|].
  set (c := Z.min _ _).
  pose proof (Z.pow_pos_nonneg 2 (Z.min (attempt - 1) 20) ltac:(lia) ltac:(lia)).
  assert (2 ^ Z.min (attempt - 1) 20 ≤ 2 ^ (attempt - 1)) by (apply Z.pow_le_mono_r; lia).
  assert (1 ≤ c ≤ retry_max_seconds s) by (subst c; nia).
  assert (c ≤ retry_base_seconds s * 2 ^ (attempt - 1)) by (subst c; nia).
  specialize (Hu c ltac:(lia)).
  unfold seconds in *. split_and!; nia.
Qed.

Lemma next_delay_bounds_witness :
  ∃ d, next_delay (λ c, seconds c) 3 (worker_outcome RETRY "smtp_down") default_settings = Ok d ∧
    seconds 1 ≤ d ≤ seconds 3600 ∧ 0 ≤ d ∧
    (0 ≤ seconds 1 → d ≤ seconds 300 ∧ d ≤ seconds (30 * 2 ^ (3 - 1))).
Proof.
  refine (next_delay_bounds (λ c, seconds c) 3 (lit "retry") (lit "smtp_down") (PInt 0) ∅
    (worker_outcome RETRY "smtp_down") default_settings default_settings _ _ _ _).
  - unfold seconds. intros c Hc. lia.
  - vm_compute. reflexivity.
  - vm_compute. reflexivity.
  - lia.
Defined.
