(* ===== verification/LeasedOutbox.v ===== *)
(** * Leased delivery (outbox/model.py, outbox/leased_repository.py)

    The operations of [LeasedOutboxRepository] on the outbox table and on the
    worker controls: claiming one message under a fencing token, checking the
    lease, binding the content that is about to be sent, and recording the
    result. Each definition returns the state its transaction leaves; clock
    readings are the [clock_timestamp()] values of its queries, in order. *)

From S2P Require Import Prelude Regex PyValues Events Outbox Delivery.

(** ** State *)

Record WorkerControl := Control {
  worker_group : str;
  paused : bool;
  heartbeat_at : datetime }.

#[export] Instance control_settable : Settable WorkerControl := λ c,
  Control (worker_group c) (paused c) (heartbeat_at c).

(** The two tables of the outbox. *)
Record store := Store { messages : table Msg.t; controls : gmap str WorkerControl }.

#[export] Instance store_settable : Settable store := λ s, Store (messages s) (controls s).

Record Claim := NewClaim {
  message_id : uuid;
  token : uuid;
  event : option DomainEvent;
  attempts : Z;
  retry_budget : Z;
  deadline : datetime;
  receipts : gmap str str }.

(** ** Claiming *)

(** [INSERT ... ON CONFLICT DO NOTHING], then the locked row with its
    heartbeat set. *)
Definition touch_control (group : str) (now : datetime) (cs : gmap str WorkerControl)
    : WorkerControl * gmap str WorkerControl :=
  let control := default (Control group false now) (cs !! group) in
  let control := control <| heartbeat_at := now |> in
  (control, <[group := control]> cs).

Definition pause_control (group : str) (cs : gmap str WorkerControl) : gmap str WorkerControl :=
  alter (λ c, c <| paused := true |>) group cs.

(** Work whose attempt budget or deadline is used up. *)
Definition budget_expired (types : list str) (now : datetime) (m : Msg.t) : bool :=
  bool_decide (Msg.event_type m ∈ types)
  && ((bool_decide (Msg.status m = PROCESSING) && sql_le (Msg.lease_expires_at m) now)
      || waiting (Msg.status m))
  && ((Msg.retry_budget m <=? Msg.attempts m) || sql_le (Msg.deadline_at m) now).

(** Python's truth value of the nullable fingerprint. *)
Definition fingerprinted (m : Msg.t) : bool :=
  match Msg.delivery_fingerprint m with Some (_ :: _) => true | _ => false end.

(** Undelivered work is dead, or uncertain once its content was bound. *)
Definition dead_or_uncertain (m : Msg.t) : OutboxStatus :=
  if fingerprinted m then UNCERTAIN else DEAD.

Definition release (m : Msg.t) : Msg.t :=
  m <| Msg.claim_token := None |> <| Msg.lease_expires_at := None |>.

Definition expire_budget (m : Msg.t) : Msg.t :=
  release (m <| Msg.status := dead_or_uncertain m |>
             <| Msg.last_error_code := Some (lit "delivery_budget_expired") |>).

Definition settled (s : OutboxStatus) : bool := bool_decide (s = PUBLISHED ∨ s = SKIPPED).

Definition blocked_by_earlier (t : table Msg.t) (m : Msg.t) : bool :=
  existsb (λ e, earlier_event m e && negb (settled (Msg.status e))) (rows t).

Definition lease_claimable (types : list str) (now : datetime) (t : table Msg.t) (m : Msg.t)
    : bool :=
  bool_decide (Msg.event_type m ∈ types)
  && ((waiting (Msg.status m) && (Msg.available_at m <=? now))
      || (bool_decide (Msg.status m = PROCESSING) && sql_le (Msg.lease_expires_at m) now))
  && (Msg.attempts m <? Msg.retry_budget m)
  && negb (blocked_by_earlier t m).

Definition lease_order (m : Msg.t) : list Z := [Msg.available_at m; Msg.id m].

Definition claim_deadline (settings : OutboxWorkerSettings) (now : datetime) (m : Msg.t)
    : datetime :=
  Z.min (default (now + seconds (max_age_seconds settings)) (Msg.deadline_at m))
        (Msg.occurred_at m + seconds (max_age_seconds settings)).

Definition too_old (m : Msg.t) : Msg.t :=
  m <| Msg.status := dead_or_uncertain m |>
    <| Msg.last_error_code := Some (lit "delivery_too_old") |>.

Definition take_lease (settings : OutboxWorkerSettings) (now : datetime) (token : uuid)
    (m : Msg.t) : Msg.t :=
  m <| Msg.retry_budget ::= (λ b, if Msg.attempts m =? 0 then max_attempts settings else b) |>
    <| Msg.status := PROCESSING |>
    <| Msg.lease_expires_at := Some (now + seconds (lease_seconds settings)) |>
    <| Msg.claimed_at := Some now |>
    <| Msg.attempts ::= Z.succ |>
    <| Msg.claim_token := Some token |>.

(** The row that a claim looks at: its candidates, after the expired work has
    been retired. *)
Definition retire_expired (locked : gset uuid) (types : list str) (now : datetime)
    (t : table Msg.t) : table Msg.t :=
  put_all (expire_budget <$> select_for_update locked (budget_expired types now)
                               (λ m, [Msg.id m]) 100 t) t.

Definition claim_candidate (locked : gset uuid) (types : list str) (now : datetime)
    (t : table Msg.t) : option Msg.t :=
  head (select_for_update locked (lease_claimable types now t) lease_order 1 t).

Definition claim (group : str) (now : datetime) (locked : gset uuid) (fresh : uuid)
    (event_types : list str) (settings : OutboxWorkerSettings) (s : store)
    : res pyexn (option Claim * store) :=
  require (bool_decide (event_types ≠ [])
           && forallb (fullmatch NAME_PATTERN) event_types)
    (ValueError "register safe event types");;
  let '(control, cs) := touch_control group now (controls s) in
  let s := s <| controls := cs |> in
  if paused control then Ok (None, s)
  else
    let t := retire_expired locked event_types now (messages s) in
    match claim_candidate locked event_types now t with
    | None => Ok (None, s <| messages := t |>)
    | Some row =>
        let deadline := claim_deadline settings now row in
        let row := row <| Msg.deadline_at := Some deadline |> in
        if deadline <=? now then Ok (None, s <| messages := put (too_old row) t |>)
        else
          let row := take_lease settings now fresh row in
          let event := match to_event row with Ok e => Some e | Err _ => None end in
          Ok (Some (NewClaim (Msg.id row) fresh event (Msg.attempts row)
                      (Msg.retry_budget row) deadline (Msg.delivery_receipts row)),
              s <| messages := put row t |>)
    end.

(** ** Owning a claim *)

(** The row of a claim while its lease is live. *)
Definition owned (now : datetime) (c : Claim) (t : table Msg.t) : option Msg.t :=
  m ← t !! message_id c;
  if bool_decide (Msg.claim_token m = Some (token c))
     && bool_decide (Msg.status m = PROCESSING)
     && sql_gt (Msg.lease_expires_at m) now
  then Some m else None.

Definition FINGERPRINT_PATTERN : regex :=
  rep 64 (Cls [rng "a" "f"; digit]).

Definition bind (group : str) (clock now : datetime) (c : Claim) (fingerprint : str)
    (expires_at : datetime) (s : store) : res pyexn (bool * store) :=
  require (fullmatch FINGERPRINT_PATTERN fingerprint)
    (ValueError "invalid delivery fingerprint");;
  match owned clock c (messages s) with
  | None => Ok (false, s)
  | Some row =>
      if bool_decide (Msg.delivery_fingerprint row ≠ None
                      ∧ Msg.delivery_fingerprint row ≠ Some fingerprint)
      then
        let row := row <| Msg.status := BLOCKED |>
                       <| Msg.last_error_code := Some (lit "delivery_content_changed") |> in
        Ok (false, s <| messages := put (release row) (messages s) |>
                     <| controls := pause_control group (controls s) |>)
      else
        let deadline := Z.min (deadline c) expires_at in
        let row := row <| Msg.deadline_at := Some deadline |> in
        if deadline <=? now
        then
          let row := row <| Msg.status := if fingerprinted row
                                          then UNCERTAIN else SKIPPED |>
                         <| Msg.last_error_code := Some (lit "delivery_expired") |> in
          Ok (false, s <| messages := put (release row) (messages s) |>)
        else
          Ok (true, s <| messages :=
            put (row <| Msg.delivery_fingerprint := Some fingerprint |>) (messages s) |>)
  end.

(** The row after a result is recorded, before its lease is released. *)
Definition settle (now : datetime) (c : Claim) (result : DeliveryOutcome) (delay : timedelta)
    (m : Msg.t) : Msg.t :=
  let m := m <| Msg.delivery_receipts ::= (λ r, Delivery.receipts result ∪ r) |>
             <| Msg.status := next_status result (Msg.attempts m) (Msg.retry_budget m) |>
             <| Msg.available_at := now + delay |>
             <| Msg.last_error_code := Some (code result) |> in
  if bool_decide (Msg.status m = FAILED)
     && (default (deadline c) (Msg.deadline_at m) <=? Msg.available_at m)
  then m <| Msg.status := dead_or_uncertain m |>
  else m.

Definition finish_row (now : datetime) (c : Claim) (result : DeliveryOutcome)
    (delay : timedelta) (m : Msg.t) : Msg.t :=
  let m := settle now c result delay m in
  let m := m <| Msg.published_at := if bool_decide (Msg.status m = PUBLISHED)
                                    then Some now else None |> in
  release m <| Msg.claimed_at := None |>.

Definition finish (group : str) (clock now : datetime) (c : Claim) (result : DeliveryOutcome)
    (delay : timedelta) (s : store) : bool * store :=
  match owned clock c (messages s) with
  | None => (false, s)
  | Some row =>
      let cs := if bool_decide (Msg.status (settle now c result delay row) = BLOCKED)
                then pause_control group (controls s) else controls s in
      (true, Store (put (finish_row now c result delay row) (messages s)) cs)
  end.
