(* ===== verification/OutboxOperations.v ===== *)
(** * Operator recovery (outbox/operations.py)

    Replaying a dead or blocked message, resuming a paused worker group, both
    with audit evidence, and the health report. *)

From S2P Require Import Prelude Regex PyValues CoreTypes AuditTrail Events Outbox Delivery LeasedOutbox.

(** ** Evidence *)

Inductive RecoveryReason := CONFIGURATION_FIXED | TRANSIENT_RESOLVED.

Definition reason_value (r : RecoveryReason) : str :=
  match r with
  | CONFIGURATION_FIXED => lit "configuration_fixed"
  | TRANSIENT_RESOLVED => lit "transient_resolved"
  end.

Definition replay_requested (target_id : uuid) (correlation_id : str) (reason : RecoveryReason)
    (occurred_at : datetime) : AuditData :=
  {| d_actor := Actor SYSTEM None; d_action := "outbox.replay_requested";
     d_target_type := "outbox_message"; d_target_id := target_id; d_outcome := SUCCEEDED;
     d_metadata := [("reason", PStr (reason_value reason))]; d_allowed := ["reason"];
     d_correlation_id := correlation_id; d_occurred_at := occurred_at |}.

Definition worker_resumed (target_id : uuid) (correlation_id : str) (occurred_at : datetime)
    : AuditData :=
  {| d_actor := Actor SYSTEM None; d_action := "outbox.worker_resumed";
     d_target_type := "worker_operation"; d_target_id := target_id; d_outcome := SUCCEEDED;
     d_metadata := []; d_allowed := []; d_correlation_id := correlation_id;
     d_occurred_at := occurred_at |}.

(** ** Operations *)

Definition MAX_REPLAY_ATTEMPTS : Z := 100.

Definition reopen (now : datetime) (m : Msg.t) : Msg.t :=
  release (m <| Msg.retry_budget := Z.min MAX_REPLAY_ATTEMPTS (Msg.attempts m + 3) |>
             <| Msg.status := PENDING |> <| Msg.available_at := now |>).

(** The identifiers that [uuid4()] supplies to an operation, and the clock of
    the audit event. *)
Record supply := Supply { audit_id : uuid; fresh_target : uuid; fresh_correlation : uuid;
                          audit_clock : datetime }.

Section operations.
Context (float_repr : pyfloat → str) {P : Type}.
(** The registered handlers and what they prepare for an event, from whatever
    they read; a handler may raise. *)
Context (handlers : list str).
Context (prepare : str → DomainEvent → res pyexn (PreparedDelivery P + DeliveryOutcome)).

Definition replay (now : datetime) (sup : supply) (message_id : uuid) (reason : RecoveryReason)
    (s : store) : res pyexn (store * Audit.t) :=
  let ineligible := ValueError "message is not eligible for replay" in
  row ← match messages s !! message_id with Some m => Ok m | None => Err ineligible end;
  require (bool_decide (Msg.event_type row ∈ handlers)
           && bool_decide (Msg.status row = DEAD ∨ Msg.status row = BLOCKED)) ineligible;;
  require (from_option (λ d, now <? d) false (Msg.deadline_at row)
           && (Msg.attempts row <? MAX_REPLAY_ATTEMPTS))
    (ValueError "delivery window or lifetime attempt budget exhausted");;
  event ← to_event row;
  prepared ← prepare (Msg.event_type row) event;
  prepared ← match prepared with
             | inl p => Ok p
             | inr _ => Err (ValueError "domain no longer permits delivery")
             end;
  require (now <? expires_at prepared) (ValueError "domain no longer permits delivery");;
  require (bool_decide (Msg.delivery_fingerprint row = None
                        ∨ Msg.delivery_fingerprint row = Some (fingerprint prepared)))
    (ValueError "restore original delivery content before replay");;
  audit ← record_event float_repr (audit_id sup) (audit_clock sup)
    (replay_requested (Msg.id row) (uuid_str (fresh_correlation sup)) reason (audit_clock sup));
  Ok (s <| messages := put (reopen now row) (messages s) |>, audit).

Definition resume (sup : supply) (group : str) (s : store) : res pyexn (store * Audit.t) :=
  control ← match controls s !! group with
            | Some c => if paused c then Ok c
                        else Err (ValueError "worker group is not paused")
            | None => Err (ValueError "worker group is not paused")
            end;
  audit ← record_event float_repr (audit_id sup) (audit_clock sup)
    (worker_resumed (fresh_target sup) (uuid_str (fresh_correlation sup)) (audit_clock sup));
  Ok (s <| controls := <[group := control <| paused := false |>]> (controls s) |>, audit).
End operations.

(** ** Health *)

Record health_report := Report {
  healthy : bool;
  h_paused : option bool;
  oldest_due_seconds : Z;
  expired_claims : Z;
  counts : list (OutboxStatus * Z) }.

Definition due (types : list str) (now : datetime) (m : Msg.t) : bool :=
  bool_decide (Msg.event_type m ∈ types) && waiting (Msg.status m) && (Msg.available_at m <=? now).

Definition expired_lease (types : list str) (now : datetime) (m : Msg.t) : bool :=
  bool_decide (Msg.event_type m ∈ types) && bool_decide (Msg.status m = PROCESSING)
  && sql_le (Msg.lease_expires_at m) now.

Definition sql_min (xs : list Z) : option Z :=
  match xs with [] => None | x :: xs => Some (foldr Z.min x xs) end.

Definition all_statuses : list OutboxStatus :=
  [PENDING; PROCESSING; PUBLISHED; FAILED; DEAD; SKIPPED; UNCERTAIN; BLOCKED].

(** GROUP BY status: only the statuses that occur. *)
Definition status_counts (types : list str) (t : table Msg.t) : list (OutboxStatus * Z) :=
  filter (λ c, 0 < c.2)
    ((λ st, (st, rowcount (λ m, bool_decide (Msg.event_type m ∈ types)
                               && bool_decide (Msg.status m = st)) t)) <$> all_statuses).

Definition health (now : datetime) (group : str) (types : list str) (s : store) : health_report :=
  let control := controls s !! group in
  let oldest := sql_min (Msg.available_at <$>
    filter (λ m, Is_true (due types now m)) (rows (messages s))) in
  let stale := rowcount (expired_lease types now) (messages s) in
  let age := from_option (λ o, (now - o) / 1000000) 0 oldest in
  {| healthy := match control with
                | Some c => negb (paused c) && (now - seconds 180 <? heartbeat_at c)
                            && (age <? 60) && (stale =? 0)
                | None => false
                end;
     h_paused := paused <$> control;
     oldest_due_seconds := age;
     expired_claims := stale;
     counts := status_counts types (messages s) |}.
