(* ===== verification/OutboxLifecycle.v ===== *)
(** * Lifecycle of the outbox

    Every operation on the outbox (ordinary, leased and operator) as a step of
    one system: the table invariant, the fence of the leased claims, the
    per-aggregate order, and the content a message may be delivered with. *)

From S2P Require Import Prelude Regex PyValues CoreTypes Lease AuditTrail Events Jsonb Outbox Delivery LeasedOutbox OutboxOperations.

(** ** What one call does to one row *)

Definition bindable (m : Msg.t) (f : str) : Prop :=
  Msg.delivery_fingerprint m = None ∨ Msg.delivery_fingerprint m = Some f.

Definition owns (tok : uuid) (m : Msg.t) : Prop :=
  Msg.claim_token m = Some tok ∧ Msg.status m = PROCESSING.

(** Earlier events of the aggregate of [m] that still stand in the way. *)
Definition unblocked (ok : OutboxStatus → Prop) (t : table Msg.t) (m : Msg.t) : Prop :=
  ∀ k e, t !! k = Some e → earlier_event m e = true → ok (Msg.status e).

(** [grant] is the row and the token of the lease that the call hands out. *)
Inductive row_step (grant : option (uuid * uuid)) : Msg.t → Msg.t → Prop :=
| row_same m : row_step grant m m
| row_claim_ordinary m at_ :
    waiting (Msg.status m) = true → Msg.claim_token m = None → Msg.attempts m < 100 →
    row_step grant m (claim_ordinary at_ m)
| row_published m at_ :
    Msg.claim_token m = None → Msg.status m = PROCESSING →
    row_step grant m
      (m <| Msg.status := PUBLISHED |> <| Msg.claimed_at := None |>
         <| Msg.published_at := Some at_ |> <| Msg.last_error_code := None |>)
| row_failed m code at_ :
    Msg.status m = PROCESSING → row_step grant m (fail_message code at_ m)
| row_expired m :
    waiting (Msg.status m) = true ∨ Msg.status m = PROCESSING →
    row_step grant m (expire_budget m)
| row_too_old m d :
    waiting (Msg.status m) = true ∨ Msg.status m = PROCESSING →
    row_step grant m (too_old (m <| Msg.deadline_at := d |>))
| row_leased m d settings now tok :
    waiting (Msg.status m) = true ∨ Msg.status m = PROCESSING →
    Msg.attempts m < Msg.retry_budget m → 1 ≤ max_attempts settings ≤ 100 → grant = Some (Msg.id m, tok) →
    row_step grant m (take_lease settings now tok (m <| Msg.deadline_at := d |>))
| row_content_changed m tok :
    owns tok m →
    row_step grant m
      (release (m <| Msg.status := BLOCKED |>
                  <| Msg.last_error_code := Some (lit "delivery_content_changed") |>))
| row_bind_expired m tok d :
    owns tok m →
    row_step grant m
      (release (m <| Msg.deadline_at := d |>
                  <| Msg.status := if fingerprinted m then UNCERTAIN else SKIPPED |>
                  <| Msg.last_error_code := Some (lit "delivery_expired") |>))
| row_bound m tok d f :
    owns tok m → bindable m f →
    row_step grant m (m <| Msg.deadline_at := d |> <| Msg.delivery_fingerprint := Some f |>)
| row_finished m tok now c result delay :
    owns tok m → row_step grant m (finish_row now c result delay m)
| row_replayed m now :
    Msg.status m = DEAD ∨ Msg.status m = BLOCKED → Msg.attempts m < 100 →
    row_step grant m (reopen now m).

(** ** The system *)

Record world := World { db : store; issued : gset uuid }.

Definition outbox (w : world) : table Msg.t := messages (db w).

Inductive label :=
| LAdd
| LClaimed (ids : list uuid)
| LBound (k : uuid) (f : str)
| LSilent.

#[export] Instance label_eq_dec : EqDecision label.
Proof. solve_decision. Defined.

Definition claimed_token (c : option Claim) : gset uuid :=
  match c with Some c => {[token c]} | None => ∅ end.
Definition claimed_ids (c : option Claim) : list uuid :=
  match c with Some c => [message_id c] | None => [] end.

(** Any call, with any arguments, clocks and concurrently locked rows; the
    ordinary repository and the settings have been validated, and the lease
    grant come from [uuid4()]. *)
Inductive step : world → label → world → Prop :=
| step_add w new_id event key avail m stored t' :
    add new_id event key avail = Ok m → 0 < aggregate_version event → stores m stored →
    insert_message stored (outbox w) = Ok t' →
    step w LAdd (World (db w <| messages := t' |>) (issued w))
| step_batch w v max clock locked limit now types ms t' :
    repository_max_attempts v = Ok max →
    claim_batch max clock locked limit now types (outbox w) = Ok (ms, t') →
    step w (LClaimed (Msg.id <$> ms)) (World (db w <| messages := t' |>) (issued w))
| step_published w clock k at_ b t' :
    mark_published clock k at_ (outbox w) = (Ok b, t') →
    step w LSilent (World (db w <| messages := t' |>) (issued w))
| step_failed w k code at_ b t' :
    mark_failed k code at_ (outbox w) = Ok (b, t') →
    step w LSilent (World (db w <| messages := t' |>) (issued w))
| step_stale w clock locked before avail limit n t' :
    recover_stale_claims clock locked before avail limit (outbox w) = Ok (n, t') →
    step w LSilent (World (db w <| messages := t' |>) (issued w))
| step_lease w group now locked fresh types s0 settings c s' :
    fresh ∉ issued w → validate_settings s0 = Ok settings →
    claim group now locked fresh types settings (db w) = Ok (c, s') →
    step w (LClaimed (claimed_ids c)) (World s' (issued w ∪ claimed_token c))
| step_bind w group clock now c f e b s' :
    bind group clock now c f e (db w) = Ok (b, s') →
    step w (if b then LBound (message_id c) f else LSilent) (World s' (issued w))
| step_finish w group clock now c result delay b s' :
    finish group clock now c result delay (db w) = (b, s') →
    step w LSilent (World s' (issued w))
| step_replay w float_repr P handlers prepare now sup k reason s' audit :
    replay float_repr (P:=P) handlers prepare now sup k reason (db w) = Ok (s', audit) →
    step w LSilent (World s' (issued w))
| step_resume w float_repr sup group s' audit :
    resume float_repr sup group (db w) = Ok (s', audit) →
    step w LSilent (World s' (issued w)).

Definition initial : world := World (Store ∅ ∅) ∅.

(** ** Row-level reading of the operations *)

Create HintDb outbox.
#[export] Hint Constructors row_step : outbox.

(** A table after a call: each row made a step, and no row appeared. *)
Definition advances (grant : option (uuid * uuid)) (t t' : table Msg.t) : Prop :=
  ∀ k, match t !! k with
       | Some m => ∃ m', t' !! k = Some m' ∧ row_step grant m m'
       | None => t' !! k = None
       end.

Lemma row_step_id grant m m' : row_step grant m m' → Msg.id m' = Msg.id m.
Proof. destruct 1; try done. cbn. unfold settle. by destruct (_ && _). Qed.

Lemma advances_refl grant t : advances grant t t.
Proof. intros k. destruct (t !! k); eauto with outbox. Qed.

Lemma advances_put grant t k m m' :
  table_ok t → t !! k = Some m → row_step grant m m' → advances grant t (put m' t).
Proof.
  intros Hok Hk Hs i. pose proof (row_step_id _ _ _ Hs) as Hid. unfold put.
  change (row_id m') with (Msg.id m'). rewrite Hid, (Hok _ _ Hk : Msg.id m = k).
  destruct (decide (i = k)) as [->|Hne].
  - rewrite Hk, lookup_insert_eq. eauto.
  - rewrite lookup_insert_ne by done. destruct (t !! i); eauto with outbox.
Qed.

(** A batch of rows, each found by a query and changed in place. *)
Lemma advances_batch grant t f (sel : list Msg.t) :
  table_ok t → NoDup (row_id <$> sel) → (∀ m, m ∈ sel → t !! row_id m = Some m) →
  (∀ m, row_id (f m) = row_id m) → (∀ m, m ∈ sel → row_step grant m (f m)) →
  advances grant t (put_all (f <$> sel) t).
Proof.
  intros Hok Hnd Hin Hid Hs k. rewrite <-imap_const. destruct (t !! k) as [m|] eqn:Hk.
  - destruct (lookup_put_all_imap (const f) sel t k m Hok (λ _, Hid) Hnd Hin Hk)
      as [(i & Hi & ->)|[_ ->]]; [|eauto with outbox].
    apply list_elem_of_lookup_2 in Hi. eauto.
  - apply lookup_put_all_imap_None; [done| |done]. intros r Hr. by apply Hin.
Qed.

Lemma advances_select grant t f locked p key n :
  table_ok t → (∀ m, row_id (f m) = row_id m) → (∀ m, p m = true → row_step grant m (f m)) →
  advances grant t (put_all (f <$> select_for_update locked p key n t) t).
Proof.
  intros Hok Hid Hs. apply advances_batch; [done|by apply select_for_update_NoDup| |done|].
  - intros m Hm. by apply elem_of_select_for_update in Hm as (_ & ? & _).
  - intros m Hm. apply elem_of_select_for_update in Hm as (? & _); auto.
Qed.

Lemma table_ok_advances grant t t' : table_ok t → advances grant t t' → table_ok t'.
Proof.
  intros Hok Ha k m' Hk'. specialize (Ha k). destruct (t !! k) as [m|] eqn:Hk; [|congruence].
  destruct Ha as (m'' & ? & Hs). simplify_eq. apply row_step_id in Hs.
  rewrite <-(Hok _ _ Hk). exact Hs.
Qed.

Section operations.
Context (grant : option (uuid * uuid)) (t : table Msg.t) (Hok : table_ok t).

Lemma batch_advances v max clock locked limit now types ms t' :
  repository_max_attempts v = Ok max →
  claim_batch max clock locked limit now types t = Ok (ms, t') → advances grant t t'.
Proof using Hok.
  intros (_ & Hmax)%validate_int_range_Ok H. unfold claim_batch in H. res_inv.
  injection H as _ <-. apply advances_select; [done|done|].
  intros m Hm. unfold batch_claimable in Hm. bool_inv. apply row_claim_ordinary; done || lia.
Qed.

Lemma published_advances clock k at_ b t' :
  mark_published clock k at_ t = (Ok b, t') → advances grant t t'.
Proof using Hok.
  unfold mark_published. intros H. destruct (t !! k) as [m|] eqn:Hk;
    [|injection H as _ <-; apply advances_refl].
  repeat (case_bool_decide; [injection H as _ <-; apply advances_refl|]).
  destruct (require_utc_datetime _) as [d|]; [|done]. injection H as _ <-.
  eapply advances_put; [done..|]. by apply row_published.
Qed.

Lemma failed_advances k code at_ b t' :
  mark_failed k code at_ t = Ok (b, t') → advances grant t t'.
Proof using Hok.
  unfold mark_failed. intros H. res_inv. destruct (t !! k) as [m|] eqn:Hk;
    [|injection H as _ <-; apply advances_refl].
  case_bool_decide; injection H as _ <-; [apply advances_refl|].
  eapply advances_put; [done..|]. by apply row_failed.
Qed.

Lemma stale_advances clock locked before avail limit n t' :
  recover_stale_claims clock locked before avail limit t = Ok (n, t') → advances grant t t'.
Proof using Hok.
  unfold recover_stale_claims. intros H. res_inv. injection H as _ <-.
  apply advances_select; [done|done|]. intros m Hm. unfold stale_claim in Hm. bool_inv.
  by apply row_failed.
Qed.

(** *** Leased claims *)

Lemma in_flight types now m :
  budget_expired types now m = true → waiting (Msg.status m) = true ∨ Msg.status m = PROCESSING.
Proof.
  unfold budget_expired. intros H. bool_inv.
  match goal with H : _ || waiting _ = true |- _ => apply orb_true_iff in H as [H|H] end;
    [bool_inv; by right|by left].
Qed.

Lemma retire_advances locked types now : advances grant t (retire_expired locked types now t).
Proof using Hok.
  apply advances_select; [done|done|]. intros m Hm. apply row_expired. by eapply in_flight.
Qed.

Lemma lease_claimable_in_flight types now t1 m :
  lease_claimable types now t1 m = true →
  (waiting (Msg.status m) = true ∨ Msg.status m = PROCESSING) ∧
  Msg.attempts m < Msg.retry_budget m ∧
  (∀ k e, t1 !! k = Some e → earlier_event m e = true → settled (Msg.status e) = true).
Proof.
  unfold lease_claimable. intros H. bool_inv. split_and!; [|done|].
  - match goal with H : _ || _ = true |- _ => apply orb_true_iff in H as [H|H]; bool_inv; auto end.
  - intros k e Hk He. match goal with H : blocked_by_earlier _ _ = false |- _ => rename H into Hb end.
    apply not_true_iff_false in Hb. apply not_false_iff_true. intros Hs. apply Hb.
    apply existsb_exists. exists e. rewrite He, Hs. split; [|done].
    apply list_elem_of_In. unfold rows. apply list_elem_of_fmap. exists (k, e).
    by rewrite elem_of_map_to_list.
Qed.

(** The candidate of a claim was already there before the expired work was
    retired. *)
Lemma candidate_found locked types now m :
  claim_candidate locked types now (retire_expired locked types now t) = Some m →
  t !! Msg.id m = Some m ∧ retire_expired locked types now t !! Msg.id m = Some m ∧
  lease_claimable types now (retire_expired locked types now t) m = true ∧ Msg.id m ∉ locked.
Proof using Hok grant.
  intros Hc. assert (Hin : m ∈ select_for_update locked
    (lease_claimable types now (retire_expired locked types now t)) lease_order 1
    (retire_expired locked types now t)).
  { unfold claim_candidate in Hc. destruct (select_for_update _ _ _ _ _); [done|].
    injection Hc as ->. by left. }
  pose proof (table_ok_advances _ _ _ Hok (retire_advances locked types now)) as Hok1.
  apply elem_of_select_for_update in Hin as (Hcl & Hm & Hl); [|done].
  split_and!; [|done|done|done].
  unfold retire_expired in Hm. apply lookup_put_all_inv in Hm as [[Hin _]|Hm]; [|done].
  apply list_elem_of_fmap in Hin as (m0 & -> & _).
  apply lease_claimable_in_flight in Hcl as ([Hs|Hs] & _);
    cbn in Hs; unfold dead_or_uncertain in Hs; by destruct (fingerprinted m0).
Qed.

End operations.

Lemma owned_Some t now c m :
  owned now c t = Some m →
  t !! message_id c = Some m ∧ owns (token c) m ∧ sql_gt (Msg.lease_expires_at m) now = true.
Proof.
  unfold owned. intros (m' & Hm & H)%bind_Some. destruct (_ && _) eqn:Hb; [|done].
  injection H as ->. bool_inv. done.
Qed.

(** *** Operations on the store *)

(** A claim retires expired work and then changes at most its candidate. *)
Definition granted (c : option Claim) : option (uuid * uuid) :=
  (λ c, (message_id c, token c)) <$> c.

Lemma lease_advances (s : store) group now locked fresh types s0 settings c s' :
  table_ok (messages s) → validate_settings s0 = Ok settings →
  claim group now locked fresh types settings s = Ok (c, s') →
  advances (granted c) (messages s) (messages s').
Proof.
  intros Hok (-> & Hset)%validate_settings_Ok H. unfold claim in H.
  apply bind_Ok in H as (_ & _ & H). destruct (touch_control _ _ _) as [control cs].
  cbn -[put] in H.
  destruct (paused control); [injection H as <- <-; apply advances_refl|].
  set (t1 := retire_expired locked types now (messages s)) in *.
  destruct (claim_candidate locked types now t1) as [m|] eqn:Hc;
    [|injection H as <- <-; by apply retire_advances].
  pose proof (candidate_found None _ Hok _ _ _ _ Hc) as (Hm & Hm1 & Hcl & _). fold t1 in Hm1, Hcl.
  apply lease_claimable_in_flight in Hcl as (Hfl & Hbudget & _).
  assert (Hput : ∀ grant m', row_step grant m m' → advances grant (messages s) (put m' t1)).
  { intros grant m' Hs k. pose proof (row_step_id _ _ _ Hs) as Hid. unfold put.
    change (row_id m') with (Msg.id m'). rewrite Hid.
    destruct (decide (k = Msg.id m)) as [->|Hne].
    - rewrite Hm, lookup_insert_eq. eauto.
    - rewrite lookup_insert_ne by done. by apply retire_advances. }
  destruct (claim_deadline _ _ _ <=? now); injection H as <- <-.
  - exact (Hput _ _ (row_too_old None m (Some (claim_deadline s0 now m)) Hfl)).
  - refine (Hput _ _ (row_leased _ m (Some (claim_deadline s0 now m)) s0 now fresh
      Hfl Hbudget _ eq_refl)).
    by destruct Hset.
Qed.



Section store_operations.
Context (grant : option (uuid * uuid)) (s : store) (Hok : table_ok (messages s)).

Lemma bind_advances group clock now c f e b s' :
  bind group clock now c f e s = Ok (b, s') →
  advances grant (messages s) (messages s').
Proof using Hok.
  intros H. unfold bind in H. apply bind_Ok in H as (_ & _ & H).
  destruct (owned clock c (messages s)) as [m|] eqn:Ho; [|injection H as _ <-; apply advances_refl].
  apply owned_Some in Ho as (Hm & Hown & _).
  case_bool_decide as Hf.
  { injection H as _ <-.
    exact (advances_put _ _ _ _ _ Hok Hm (row_content_changed grant m (token c) Hown)). }
  assert (Hb : bindable m f).
  { unfold bindable. destruct (decide (Msg.delivery_fingerprint m = None)); [auto|].
    destruct (decide (Msg.delivery_fingerprint m = Some f)); [auto|]. by destruct Hf. }
  set (d := Z.min (deadline c) e) in *.
  destruct (d <=? now); injection H as _ <-.
  - exact (advances_put _ _ _ _ _ Hok Hm (row_bind_expired grant m (token c) (Some d) Hown)).
  - exact (advances_put _ _ _ _ _ Hok Hm (row_bound grant m (token c) (Some d) f Hown Hb)).
Qed.

Lemma finish_advances group clock now c result delay b s' :
  finish group clock now c result delay s = (b, s') →
  advances grant (messages s) (messages s').
Proof using Hok.
  intros H. unfold finish in H.
  destruct (owned clock c (messages s)) as [m|] eqn:Ho; [|injection H as _ <-; apply advances_refl].
  apply owned_Some in Ho as (Hm & Hown & _). injection H as _ <-.
  exact (advances_put _ _ _ _ _ Hok Hm (row_finished grant m (token c) now c result delay Hown)).
Qed.

Lemma replay_advances float_repr {P} handlers prepare now sup k reason s' audit :
  replay float_repr (P:=P) handlers prepare now sup k reason s = Ok (s', audit) →
  advances grant (messages s) (messages s').
Proof using Hok.
  intros H. unfold replay in H. destruct (messages s !! k) as [m|] eqn:Hk; [|discriminate H].
  cbn [mbind res_bind] in H. res_inv. injection H as <- _. bool_inv.
  match goal with Hd : Msg.status _ = DEAD ∨ _, Ha : Msg.attempts _ < _ |- _ =>
    exact (advances_put _ _ _ _ _ Hok Hk (row_replayed grant m now Hd Ha)) end.
Qed.
End store_operations.

(** ** The invariant *)

Record row_ok (m : Msg.t) : Prop := {
  ok_version : 0 < Msg.aggregate_version m;
  ok_attempts : 0 ≤ Msg.attempts m ≤ 100;
  ok_budget : 1 ≤ Msg.retry_budget m ≤ 100;
  ok_lease_pair : is_Some (Msg.claim_token m) ↔ is_Some (Msg.lease_expires_at m);
  ok_published : is_Some (Msg.published_at m) ↔ Msg.status m = PUBLISHED;
  ok_token : is_Some (Msg.claim_token m) →
             Msg.status m ∈ [PROCESSING; FAILED; DEAD; UNCERTAIN] }.

Lemma row_ok_checks m : row_ok m → outbox_checks m = true.
Proof.
  intros []. unfold outbox_checks. rewrite !andb_true_iff, !Z.ltb_lt, Z.leb_le.
  split_and!; [lia..|]. by apply bool_decide_eq_true.
Qed.

Lemma waiting_true s : waiting s = true ↔ s = PENDING ∨ s = FAILED.
Proof. unfold waiting. by rewrite bool_decide_eq_true. Qed.

Lemma settle_fields now c result delay m :
  Msg.aggregate_version (settle now c result delay m) = Msg.aggregate_version m ∧
  Msg.attempts (settle now c result delay m) = Msg.attempts m ∧
  Msg.retry_budget (settle now c result delay m) = Msg.retry_budget m ∧
  Msg.delivery_fingerprint (settle now c result delay m) = Msg.delivery_fingerprint m ∧
  Msg.aggregate_type (settle now c result delay m) = Msg.aggregate_type m ∧
  Msg.aggregate_id (settle now c result delay m) = Msg.aggregate_id m.
Proof. unfold settle. by destruct (_ && _). Qed.

(** A released row that is published exactly when it says so. *)
Lemma released_ok m m' :
  row_ok m → Msg.aggregate_version m' = Msg.aggregate_version m →
  0 ≤ Msg.attempts m' ≤ 100 → 1 ≤ Msg.retry_budget m' ≤ 100 →
  Msg.claim_token m' = None → Msg.lease_expires_at m' = None →
  (is_Some (Msg.published_at m') ↔ Msg.status m' = PUBLISHED) → row_ok m'.
Proof.
  intros [] Hv Ha Hb Ht Hl Hp. split; rewrite ?Hv, ?Ht, ?Hl; done || by intros [? ?].
Qed.

Lemma unpublished m : row_ok m → Msg.status m ≠ PUBLISHED → Msg.published_at m = None.
Proof.
  intros [] Hs. destruct (Msg.published_at m) eqn:Hp; [|done]. destruct Hs. apply ok_published0.
  by eexists.
Qed.

(** The clauses that a changed row settles by computation. *)
Ltac row_fields :=
  try done; try lia; try by intros [? ?];
  try (split; intros; by eexists);
  try (split; [by intros [? ?]|done]); try (split; [done|by intros [? ?]]).

Lemma msg_step_ok grant m m' : row_ok m → row_step grant m m' → row_ok m'.
Proof.
  intros Hok Hs. pose proof Hok as [].
  assert (Hflight : waiting (Msg.status m) = true ∨ Msg.status m = PROCESSING →
    Msg.published_at m = None).
  { intros Hf. apply unpublished; [done|]. rewrite waiting_true in Hf. intros Hp.
    rewrite Hp in Hf. by destruct Hf as [[]|]. }
  destruct Hs as [m|m at_ Hw Ht Ha|m at_ Ht Hst|m code at_ Hst|m Hf|m d Hf|m d st now tok Hf Hb Hm Htok
    |m tok Hown|m tok d Hown|m tok d f Hown Hb|m tok now c result delay Hown|m now Hd Ha].
  - done.
  - split; cbn; row_fields. rewrite Ht. by intros [? ?].
  - split; cbn; row_fields. rewrite Ht. by intros [? ?].
  - split; cbn; row_fields. intros _. set_solver.
  - apply (released_ok m); try done. cbn. rewrite (Hflight Hf).
    unfold dead_or_uncertain. split; [by intros [? ?]|]. by case_match.
  - split; cbn; row_fields; unfold dead_or_uncertain.
    + rewrite (Hflight Hf). split; [by intros [? ?]|]. by case_match.
    + intros _. case_match; set_solver.
  - split; cbn; rewrite ?(Hflight Hf); row_fields.
    + destruct (Msg.attempts m =? 0); lia.
    + intros _. set_solver.
  - destruct Hown as [_ Hst]. apply (released_ok m); try done. cbn.
    rewrite (unpublished m Hok) by (by rewrite Hst). row_fields.
  - destruct Hown as [_ Hst]. apply (released_ok m); try done. cbn.
    rewrite (unpublished m Hok) by (by rewrite Hst). split; [by intros [? ?]|]. by case_match.
  - by split.
  - destruct (settle_fields now c result delay m) as (Hv & Hatt & Hbud & _).
    apply (released_ok m); cbn; rewrite ?Hatt, ?Hbud; try done.
    case_bool_decide; row_fields.
  - apply (released_ok m); try done; cbn; [unfold MAX_REPLAY_ATTEMPTS; lia|].
    rewrite (unpublished m Hok) by (by destruct Hd as [-> | ->]). row_fields.
Qed.

Lemma lease_token group now locked fresh types settings s cl s' :
  claim group now locked fresh types settings s = Ok (Some cl, s') → token cl = fresh.
Proof.
  unfold claim. intros (_ & _ & H)%bind_Ok. destruct (touch_control _ _ _) as [control cs].
  cbn -[put] in H. destruct (paused control); [done|].
  destruct (claim_candidate _ _ _ _); [|done]. destruct (_ <=? now); [done|].
  by injection H as <- _.
Qed.

(** ** Steps *)

(** The lease that a step hands out. *)
Inductive step_grant : world → world → option (uuid * uuid) → Prop :=
| grant_none w w' : step_grant w w' None
| grant_some w w' k tok :
    tok ∉ issued w → tok ∈ issued w' → step_grant w w' (Some (k, tok)).

Lemma step_advances w l w' :
  table_ok (outbox w) → step w l w' → l ≠ LAdd →
  ∃ grant, step_grant w w' grant ∧ advances grant (outbox w) (outbox w').
Proof.
  intros Hok Hs Hl. destruct Hs as [| | | | |w group now locked fresh types s0 settings c s' Hf Hv Hc| | | |];
    [done|..];
    try (exists None; split; [constructor|];
      by eauto using batch_advances, published_advances, failed_advances, stale_advances,
        bind_advances, finish_advances, replay_advances).
  - exists (granted c). split; [|by eapply lease_advances].
    destruct c as [cl|]; [|constructor]. apply lease_token in Hc as Ht. cbn. rewrite Ht.
    constructor; [done|set_solver].
  - exists None. split; [constructor|]. 
    match goal with H : resume _ _ _ _ = _ |- _ => unfold resume in H; res_inv; injection H as <- _ end.
    apply advances_refl.
Qed.

(** ** The table over a history *)

Definition events_unique (t : table Msg.t) : Prop :=
  ∀ k1 k2 m1 m2, t !! k1 = Some m1 → t !! k2 = Some m2 →
    (Msg.event_id m1 = Msg.event_id m2 ∨ Msg.idempotency_key m1 = Msg.idempotency_key m2) → k1 = k2.

Definition world_ok (w : world) : Prop :=
  table_ok (outbox w) ∧ events_unique (outbox w) ∧
  ∀ k m, outbox w !! k = Some m → row_ok m.

(** What no call changes in a row. *)
Lemma msg_step_const grant m m' :
  row_step grant m m' →
  Msg.event_id m' = Msg.event_id m ∧ Msg.idempotency_key m' = Msg.idempotency_key m ∧
  Msg.event_type m' = Msg.event_type m ∧ Msg.payload m' = Msg.payload m ∧
  Msg.aggregate_type m' = Msg.aggregate_type m ∧ Msg.aggregate_id m' = Msg.aggregate_id m ∧
  Msg.aggregate_version m' = Msg.aggregate_version m.
Proof.
  destruct 1; try done. unfold finish_row. cbn. unfold settle. by destruct (_ && _).
Qed.

Lemma insert_message_Ok m t t' :
  insert_message m t = Ok t' →
  t' = put m t ∧ t !! Msg.id m = None ∧ outbox_checks m = true ∧
  ∀ k r, t !! k = Some r →
    Msg.event_id r ≠ Msg.event_id m ∧ Msg.idempotency_key r ≠ Msg.idempotency_key m.
Proof.
  unfold insert_message. intros H. res_inv. injection H as <-. bool_inv.
  split_and!; [done..|]. intros k r Hk.
  assert (Hin : r ∈ rows t).
  { unfold rows. apply list_elem_of_fmap. exists (k, r). by rewrite elem_of_map_to_list. }
  apply list_elem_of_In in Hin.
  split; intros Heq; match goal with
  | H : existsb ?f _ = false |- _ =>
      assert (existsb f (rows t) = true) as Ht
        by (apply existsb_exists; exists r; split; [done|by apply bool_decide_eq_true_2]);
      congruence
  end.
Qed.

Lemma add_Ok new_id event key avail m :
  add new_id event key avail = Ok m → 0 < aggregate_version event →
  row_ok m ∧ Msg.id m = new_id ∧ Msg.status m = PENDING ∧ Msg.event_id m = event_id event ∧
  Msg.delivery_fingerprint m = None ∧ Msg.claim_token m = None ∧ to_event m = rebuild event.
Proof.
  unfold add. intros H Hv. res_inv. injection H as <-. split_and!; try done.
  split; cbn; row_fields.
Qed.

(** The same of the row that is stored of it. *)
Lemma add_stored new_id event key avail m stored :
  add new_id event key avail = Ok m → 0 < aggregate_version event → stores m stored →
  row_ok stored ∧ Msg.id stored = new_id ∧ Msg.status stored = PENDING ∧ Msg.event_id stored = event_id event ∧
  Msg.delivery_fingerprint stored = None ∧ Msg.claim_token stored = None.
Proof.
  intros Ha Hv (kvs & _ & ->). destruct (add_Ok _ _ _ _ _ Ha Hv) as ([? ? ? ? ? ?] & ? & ? & ? & ? & ? & _). by split_and!.
Qed.

(** A row after a step: a row from before, transformed, or the staged one. *)
Lemma outbox_step_inv w l w' k m' :
  table_ok (outbox w) → step w l w' → outbox w' !! k = Some m' →
  (∃ grant m, step_grant w w' grant ∧ outbox w !! k = Some m ∧ row_step grant m m') ∨
  (outbox w !! k = None ∧ l = LAdd ∧ row_ok m' ∧ Msg.id m' = k ∧ Msg.status m' = PENDING ∧
   ∀ i r, outbox w !! i = Some r →
     Msg.event_id r ≠ Msg.event_id m' ∧ Msg.idempotency_key r ≠ Msg.idempotency_key m').
Proof.
  intros Hok Hs Hk. destruct (decide (l = LAdd)) as [->|Hl].
  - inversion Hs as [? new_id event key avail m stored t' Ha Hv Hsto Hi| | | | | | | | |]; subst;
      [|by destruct b].
    cbn in Hk. apply insert_message_Ok in Hi as (-> & Hnone & _ & Hu).
    destruct (add_stored _ _ _ _ _ _ Ha Hv Hsto) as (Hrow & Hid & Hst & _).
    unfold put in Hk. apply lookup_insert_Some in Hk as [[<- <-]|[_ Hk]].
    + right. split_and!; done.
    + left. exists None, m'. split_and!; [constructor|done|constructor].
  - left. destruct (step_advances _ _ _ Hok Hs Hl) as (grant & Hg & Ha).
    specialize (Ha k). destruct (outbox w !! k) as [m|]; [|congruence].
    destruct Ha as (m'' & ? & ?). simplify_eq. eauto.
Qed.

(** A step stages at most one message. *)
Lemma step_single_add w l w' k1 k2 :
  table_ok (outbox w) → step w l w' → outbox w !! k1 = None → outbox w !! k2 = None →
  is_Some (outbox w' !! k1) → is_Some (outbox w' !! k2) → k1 = k2.
Proof.
  intros Hok Hs H1 H2 [m1 Hm1] [m2 Hm2].
  destruct (outbox_step_inv _ _ _ _ _ Hok Hs Hm1) as [(? & ? & _ & ? & _)|(_ & -> & _)]; [congruence|].
  inversion Hs as [? new_id event key avail m stored t' Ha Hv Hsto Hi| | | | | | | | |]; subst;
    [|by destruct b].
  cbn in Hm1, Hm2. apply insert_message_Ok in Hi as (-> & _). unfold put in *.
  apply lookup_insert_Some in Hm1 as [[<- _]|[_ ?]]; [|congruence].
  apply lookup_insert_Some in Hm2 as [[<- _]|[_ ?]]; [done|congruence].
Qed.

Lemma outbox_ok_step w l w' : world_ok w → step w l w' → world_ok w'.
Proof.
  intros (Hok & Hu & Hm) Hs. split_and!.
  - intros k m' Hk. destruct (outbox_step_inv _ _ _ _ _ Hok Hs Hk)
      as [(g & m & _ & Hkm & Hr)|(_ & _ & _ & Hid & _)]; [|done].
    apply row_step_id in Hr. rewrite <-(Hok _ _ Hkm). exact Hr.
  - intros k1 k2 m1 m2 H1 H2 Heq.
    destruct (outbox_step_inv _ _ _ _ _ Hok Hs H1) as [(? & r1 & _ & Hr1 & Hs1)|(Hn1 & _ & _ & _ & _ & Hf1)],
             (outbox_step_inv _ _ _ _ _ Hok Hs H2) as [(? & r2 & _ & Hr2 & Hs2)|(Hn2 & _ & _ & _ & _ & Hf2)];
      repeat match goal with H : row_step _ _ _ |- _ =>
        apply msg_step_const in H as (?He & ?Hi & _) end.
    + apply (Hu k1 k2 r1 r2); [done..|]. destruct Heq; [left|right]; congruence.
    + destruct (Hf2 k1 r1 Hr1) as [? ?]. destruct Heq; congruence.
    + destruct (Hf1 k2 r2 Hr2) as [? ?]. destruct Heq; congruence.
    + eapply step_single_add; eauto.
  - intros k m' Hk. destruct (outbox_step_inv _ _ _ _ _ Hok Hs Hk)
      as [(g & m & _ & Hkm & Hr)|(_ & _ & Hrow & _)]; [|done].
    eapply msg_step_ok; eauto.
Qed.

Lemma outbox_ok_initial : world_ok initial.
Proof. by split_and!; repeat intro. Qed.

Lemma outbox_ok_runs w ls w' : runs step w ls w' → world_ok w → world_ok w'.
Proof. apply runs_invariant, outbox_ok_step. Qed.

(** ** The lease interface *)

Definition holder (m : Msg.t) : option uuid :=
  if bool_decide (Msg.status m = PROCESSING) then Msg.claim_token m else None.

Lemma msg_holder_Some m tok : holder m = Some tok ↔ owns tok m.
Proof. unfold holder, owns. case_bool_decide; naive_solver. Qed.

Lemma msg_step_holder grant m m' tok :
  row_step grant m m' → holder m' = Some tok →
  holder m = Some tok ∨ grant = Some (Msg.id m', tok).
Proof.
  intros Hs [Ht Hst]%msg_holder_Some. rewrite msg_holder_Some.
  destruct Hs; cbn in Ht, Hst; try (left; split; done); try congruence;
    try (unfold dead_or_uncertain in Hst; case_match; discriminate).
  right. by injection Ht as <-.
Qed.

Lemma step_origin_grant w l w' k tok :
  world_ok w → step w l w' → held_by outbox holder w' k = Some tok →
  held_by outbox holder w k = Some tok ∨ (tok ∉ issued w ∧ tok ∈ issued w').
Proof.
  intros (Hok & _) Hs (m' & Hk & Hh)%bind_Some. unfold held_by.
  destruct (outbox_step_inv _ _ _ _ _ Hok Hs Hk)
    as [(g & m & Hg & Hkm & Hr)|(_ & _ & _ & _ & Hp & _)].
  - destruct (msg_step_holder _ _ _ _ Hr Hh) as [?| ->]; [left; by rewrite Hkm|right].
    by inversion Hg.
  - apply msg_holder_Some in Hh as [_ ?]. congruence.
Qed.

Lemma outbox_step_distinct w l w' k1 k2 tok :
  world_ok w → step w l w' →
  held_by outbox holder w k1 ≠ Some tok → held_by outbox holder w k2 ≠ Some tok →
  held_by outbox holder w' k1 = Some tok → held_by outbox holder w' k2 = Some tok → k1 = k2.
Proof.
  intros (Hok & _) Hs Hn1 Hn2 (m1 & Hk1 & Hh1)%bind_Some (m2 & Hk2 & Hh2)%bind_Some.
  destruct (decide (l = LAdd)) as [->|Hl].
  - destruct (outbox_step_inv _ _ _ _ _ Hok Hs Hk1) as [(g & m & Hg & Hkm & Hr)|(_ & _ & _ & _ & Hp & _)].
    2: { apply msg_holder_Some in Hh1 as [_ ?]. congruence. }
    inversion Hs; subst; [|by destruct b].
    exfalso. apply Hn1. unfold held_by. cbn in Hk1.
    match goal with H : insert_message _ _ = _ |- _ => apply insert_message_Ok in H as (-> & Hno & _) end.
    unfold put in Hk1. apply lookup_insert_Some in Hk1 as [[<- <-]|[_ ->]]; [|done].
    unfold row_id, msg_keyed in Hkm. congruence.
  - destruct (step_advances _ _ _ Hok Hs Hl) as (grant & _ & Ha).
    assert (Hgrant : ∀ k m', outbox w' !! k = Some m' → holder m' = Some tok →
      held_by outbox holder w k ≠ Some tok → grant = Some (k, tok)).
    { intros k m' Hk Hh Hn. specialize (Ha k). unfold held_by in Hn.
      destruct (outbox w !! k) as [m|] eqn:Hm; [|congruence].
      destruct Ha as (m'' & ? & Hr). simplify_eq.
      destruct (msg_step_holder _ _ _ _ Hr Hh) as [?| ->]; [done|].
      by rewrite (row_step_id _ _ _ Hr), (Hok _ _ Hm : Msg.id m = k). }
    pose proof (Hgrant _ _ Hk1 Hh1 Hn1). pose proof (Hgrant _ _ Hk2 Hh2 Hn2). congruence.
Qed.

(** The leased outbox implements the lease interface. *)
#[export] Instance outbox_lease : LeaseSystem step outbox issued holder world_ok.
Proof.
  split; [exact outbox_ok_step| |exact step_origin_grant|exact outbox_step_distinct].
  intros w l w' Hs. destruct Hs; cbn; set_solver.
Qed.

(** ** Contents *)

(** Once bound, the content of a message never changes. *)
Lemma row_step_fingerprint grant m m' f :
  row_step grant m m' → Msg.delivery_fingerprint m = Some f → Msg.delivery_fingerprint m' = Some f.
Proof.
  destruct 1 as [| | | | | | | | |m tok d f' _ [Hb|Hb]| |]; cbn; try done; try congruence.
  intros Hf. by destruct (settle_fields now c result delay m) as (_ & _ & _ & -> & _).
Qed.

(** A row that is there stays there, and makes a step. *)
Lemma step_keeps_row w l w' k m :
  world_ok w → step w l w' → outbox w !! k = Some m →
  ∃ grant m', outbox w' !! k = Some m' ∧ row_step grant m m'.
Proof.
  intros Hok Hs Hk. destruct (decide (l = LAdd)) as [->|Hl].
  - inversion Hs; subst; [|by destruct b]. cbn.
    match goal with H : insert_message _ _ = _ |- _ => apply insert_message_Ok in H as (-> & Hno & _) end.
    exists None, m. split; [|constructor]. unfold put. rewrite lookup_insert_ne; [done|].
    intros Heq. unfold row_id, msg_keyed in Heq. congruence.
  - destruct (step_advances _ _ _ (proj1 Hok) Hs Hl) as (grant & _ & Ha).
    specialize (Ha k). rewrite Hk in Ha. destruct Ha as (m2 & ? & Hr). eauto.
Qed.

Lemma runs_fingerprint w ls w' k m f :
  runs step w ls w' → world_ok w → outbox w !! k = Some m → Msg.delivery_fingerprint m = Some f →
  ∃ m', outbox w' !! k = Some m' ∧ Msg.delivery_fingerprint m' = Some f.
Proof.
  intros Hr. revert m. induction Hr as [|w1 l w2 ls w3 Hs _ IH]; intros m Hok Hk Hf; [eauto|].
  pose proof (outbox_ok_step _ _ _ Hok Hs) as Hok2.
  destruct (step_keeps_row _ _ _ _ _ Hok Hs Hk) as (grant & m2 & Hk2 & Hrow).
  eauto using row_step_fingerprint.
Qed.
