(* ===== verification/OutboxSpecs.v ===== *)
(** * What the outbox guarantees

    The table invariant over every history, the fence of the leased claims,
    the order of the events of an aggregate, the single content a message can
    be delivered with, and what recording a result and replaying do. *)

From S2P Require Import Prelude Regex PyValues CoreTypes Lease AuditTrail Events Jsonb Outbox Delivery LeasedOutbox OutboxOperations OutboxLifecycle.

(** ** Settled rows *)

(** Nothing changes a published or skipped row. *)
Lemma row_step_settled grant m m' :
  row_step grant m m' → settled (Msg.status m) = true → m' = m.
Proof.
  intros Hs [Ht|Ht]%bool_decide_eq_true; destruct Hs; try done;
    repeat match goal with
    | H : owns _ _ |- _ => destruct H as [_ H]
    | H : _ ∨ _ |- _ => destruct H as [H|H]
    | H : waiting _ = true |- _ => apply waiting_true in H
    end; congruence.
Qed.

Lemma runs_settled w ls w' k m :
  runs step w ls w' → world_ok w → outbox w !! k = Some m → settled (Msg.status m) = true →
  outbox w' !! k = Some m.
Proof.
  induction 1 as [|w1 l w2 ls w3 Hs _ IH]; intros Hok Hk Hst; [done|].
  apply IH; [by eapply outbox_ok_step| |done].
  destruct (step_keeps_row _ _ _ _ _ Hok Hs Hk) as (grant & m2 & Hk2 & Hr).
  by rewrite <-(row_step_settled _ _ _ Hr Hst).
Qed.

(** ** Claims *)

(** A row that a query of the whole table finds nothing earlier for. *)
Lemma existsb_rows_false {A} (p : A → bool) (t : gmap Z A) :
  existsb p (rows t) = false → ∀ k r, t !! k = Some r → p r = false.
Proof.
  intros He k r Hk. apply not_true_iff_false. intros Hp.
  apply not_true_iff_false in He. apply He, existsb_exists. exists r. split; [|done].
  apply list_elem_of_In. unfold rows. apply list_elem_of_fmap. exists (k, r).
  by rewrite elem_of_map_to_list.
Qed.

Lemma batch_claimed v max clock locked limit now types t ms t' m :
  table_ok t → repository_max_attempts v = Ok max →
  claim_batch max clock locked limit now types t = Ok (ms, t') → m ∈ ms →
  t' !! Msg.id m = Some m ∧ Msg.status m = PROCESSING ∧
  ∀ k e, t' !! k = Some e → earlier_event m e = true → settled (Msg.status e) = true.
Proof.
  intros Hok Hmax H Hm. unfold claim_batch in H. res_inv. injection H as <- <-.
  apply list_elem_of_fmap in Hm as (m0 & -> & Hm0).
  set (sel := select_for_update _ _ _ _ _) in *.
  assert (Hnd : NoDup (row_id <$> sel)) by (by apply select_for_update_NoDup).
  assert (Hfound : ∀ r, r ∈ sel → t !! row_id r = Some r).
  { intros r Hr. by apply elem_of_select_for_update in Hr as (_ & ? & _). }
  apply elem_of_select_for_update in Hm0 as Hcl; [|done]. destruct Hcl as (Hcl & _ & _).
  split; [|split; [done|]].
  - apply (lookup_put_all (claim_ordinary _ <$> sel) t (claim_ordinary _ m0)).
    + by rewrite <-list_fmap_compose.
    + apply list_elem_of_fmap. eauto.
  - intros k e Hk He. unfold batch_claimable, earlier_unpublished in Hcl. bool_inv.
    match goal with H : existsb _ (rows t) = false |- _ => pose proof (existsb_rows_false _ _ H) as Hno end.
    apply lookup_put_all_inv in Hk as [[Hin _]|Hk].
    + apply list_elem_of_fmap in Hin as (e0 & -> & He0). pose proof (Hfound _ He0) as Hk0.
      apply Hno in Hk0. change (earlier_event m0 e0 = true) in He. rewrite He in Hk0.
      cbn in Hk0. bool_inv. apply dec_stable in Hk0.
      apply elem_of_select_for_update in He0 as (Hc0 & _ & _); [|done].
      unfold batch_claimable in Hc0. bool_inv.
      match goal with H : waiting (Msg.status e0) = true |- _ => rewrite Hk0 in H end. done.
    + apply Hno in Hk. change (earlier_event m0 e = true) in He. rewrite He in Hk.
      cbn in Hk. bool_inv. apply dec_stable in Hk. rewrite Hk. done.
Qed.

(** The claim that a call makes on its candidate. *)
Definition claim_of (settings : OutboxWorkerSettings) (now : datetime) (fresh : uuid)
    (m0 : Msg.t) : Msg.t :=
  take_lease settings now fresh (m0 <| Msg.deadline_at := Some (claim_deadline settings now m0) |>).

Lemma claim_of_fields settings now fresh m0 :
  let m := claim_of settings now fresh m0 in
  Msg.id m = Msg.id m0 ∧ Msg.status m = PROCESSING ∧ Msg.claim_token m = Some fresh ∧
  Msg.aggregate_type m = Msg.aggregate_type m0 ∧ Msg.aggregate_id m = Msg.aggregate_id m0 ∧
  Msg.aggregate_version m = Msg.aggregate_version m0 ∧ Msg.attempts m = Msg.attempts m0 + 1 ∧
  Msg.lease_expires_at m = Some (now + seconds (lease_seconds settings)) ∧
  Msg.retry_budget m = (if Msg.attempts m0 =? 0 then max_attempts settings else Msg.retry_budget m0) ∧
  Msg.delivery_receipts m = Msg.delivery_receipts m0 ∧ to_event m = to_event m0.
Proof. by split_and!. Qed.

Lemma claim_Some s group now locked fresh types settings c s' :
  claim group now locked fresh types settings s = Ok (Some c, s') →
  let t1 := retire_expired locked types now (messages s) in
  ∃ m0, let m := claim_of settings now fresh m0 in
    claim_candidate locked types now t1 = Some m0 ∧ now < claim_deadline settings now m0 ∧
    c = NewClaim (Msg.id m) fresh (match to_event m with Ok e => Some e | Err _ => None end)
          (Msg.attempts m) (Msg.retry_budget m) (claim_deadline settings now m0)
          (Msg.delivery_receipts m) ∧
    messages s' = put m t1.
Proof.
  intros H t1. unfold claim in H. apply bind_Ok in H as (_ & _ & H).
  destruct (touch_control _ _ _) as [control cs]. cbn zeta in H.
  destruct (paused control); [done|]. change (messages (s <| controls := cs |>)) with (messages s) in H.
  fold t1 in H. destruct (claim_candidate locked types now t1) as [m0|]; [|done].
  exists m0. cbn zeta. change (take_lease settings now fresh _) with (claim_of settings now fresh m0) in H.
  set (m := claim_of settings now fresh m0) in *. clearbody m.
  destruct (Z.leb_spec (claim_deadline settings now m0) now); [done|].
  injection H as <- <-. done.
Qed.

(** The lease a successful claim hands out. *)
Lemma lease_claimed s group now locked fresh types settings c s' :
  table_ok (messages s) →
  claim group now locked fresh types settings s = Ok (Some c, s') →
  ∃ m0, let m := claim_of settings now fresh m0 in
    messages s !! message_id c = Some m0 ∧ messages s' !! message_id c = Some m ∧
    message_id c ∉ locked ∧ now < deadline c ∧ Msg.attempts m0 < Msg.retry_budget m0 ∧
    (∀ k e, messages s' !! k = Some e → earlier_event m e = true → settled (Msg.status e) = true).
Proof.
  intros Hok H. apply claim_Some in H as (m0 & Hc & Hd & -> & ->).
  set (t1 := retire_expired locked types now (messages s)) in *.
  pose proof (candidate_found None _ Hok _ _ _ _ Hc) as (Hm & Hm1 & Hcl & Hl). fold t1 in Hm1, Hcl.
  apply lease_claimable_in_flight in Hcl as (_ & Hbudget & Hearly).
  destruct (claim_of_fields settings now fresh m0) as (Hid & _ & _ & Hat & Hai & Hv & _).
  exists m0. cbn zeta. set (m := claim_of settings now fresh m0) in *. clearbody m.
  cbn [message_id deadline]. rewrite Hid. split_and!; [done| |done..|].
  - unfold put. change (row_id m) with (Msg.id m). rewrite Hid. apply lookup_insert_eq.
  - intros k e Hk He. unfold put in Hk.
    apply lookup_insert_Some in Hk as [[_ <-]|[_ Hk]].
    + exfalso. unfold earlier_event in He. bool_inv. lia.
    + apply (Hearly k e Hk). unfold earlier_event in *. by rewrite Hat, Hai, Hv in He.
Qed.

(** Every row a step claims, by either repository. *)
Lemma step_claimed w ids w' k m :
  world_ok w → step w (LClaimed ids) w' → k ∈ ids → outbox w' !! k = Some m →
  Msg.status m = PROCESSING ∧ ∀ i e, outbox w' !! i = Some e →
    earlier_event m e = true → settled (Msg.status e) = true.
Proof.
  intros (Hok & _) Hs Hin Hk.
  inversion Hs as [|? v max clock locked limit now types ms t' Hmax Hc| | | |
    ? group now locked fresh types s0 settings c s' _ Hv Hc|? ? ? ? ? ? ? b| | |];
    subst; [| |by destruct b].
  - cbn in Hk. apply list_elem_of_fmap in Hin as (m' & -> & Hm').
    destruct (batch_claimed _ _ _ _ _ _ _ _ _ _ _ Hok Hmax Hc Hm') as (Hm & Hst & He).
    assert (m' = m) as -> by congruence. done.
  - destruct c as [c|]; [|by apply not_elem_of_nil in Hin].
    apply list_elem_of_singleton in Hin as ->. cbn in Hk.
    destruct (lease_claimed _ _ _ _ _ _ _ _ _ Hok Hc) as (m0 & _ & Hm' & _ & _ & _ & He).
    change (messages s' !! message_id c = Some m) in Hk.
    assert (claim_of settings now fresh m0 = m) as <- by congruence.
    by destruct (claim_of_fields settings now fresh m0) as (_ & -> & _).
Qed.

(** ** Binding *)

Lemma bind_true group clock now c f e s s' :
  bind group clock now c f e s = Ok (true, s') →
  ∃ m, messages s !! message_id c = Some m ∧ owns (token c) m ∧ bindable m f ∧
    (table_ok (messages s) →
     ∃ m', messages s' !! message_id c = Some m' ∧ Msg.delivery_fingerprint m' = Some f).
Proof.
  unfold bind. intros (_ & _ & H)%bind_Ok.
  destruct (owned clock c (messages s)) as [m|] eqn:Ho; [|done].
  apply owned_Some in Ho as (Hm & Hown & _). case_bool_decide as Hf; [done|].
  destruct (_ <=? now); [done|]. injection H as <-. exists m. split_and!; [done..| |].
  - unfold bindable. destruct (decide (Msg.delivery_fingerprint m = None)); [auto|].
    destruct (decide (Msg.delivery_fingerprint m = Some f)); [auto|]. by destruct Hf.
  - intros Hok. eexists. cbn [messages]. unfold put.
    rewrite <-(Hok _ _ Hm). split; [apply lookup_insert_eq|done].
Qed.

(** ** A small history *)

Definition demo_event (i : uuid) (version : Z) : DomainEvent :=
  {| Events.event_id := i; Events.event_type := lit "order_placed";
     Events.aggregate_type := lit "order"; Events.aggregate_id := 9;
     Events.aggregate_version := version; Events.occurred_at := seconds 100;
     Events.event_payload := [(lit "total", JInt 5)] |}.

Definition demo_msg (k i version : Z) : Msg.t :=
  match add k (demo_event i version) PNone None with
  | Ok m => m
  | Err _ => Msg.New 0 0 [] [] [] 0 0 0 [] PENDING 0 0 None None None None None None ∅ 0 None
  end.

Definition demo_types : list str := [lit "order_placed"].
Definition demo_fp : str := replicate 64 97%N.
Definition demo_control (now : datetime) : gmap str WorkerControl :=
  {[lit "mail" := Control (lit "mail") false now]}.
Definition demo_deadline : datetime := seconds (100 + 3600).
Definition demo_claim (k tok n : Z) : Claim :=
  NewClaim k tok (Some (demo_event (k + 10) k)) n 5 demo_deadline ∅.

Definition demo_m1 := demo_msg 1 11 1.
Definition demo_m2 := demo_msg 2 12 2.
Definition demo_m1_claimed := claim_of default_settings (seconds 200) 50 demo_m1.
Definition demo_m1_bound := demo_m1_claimed <| Msg.delivery_fingerprint := Some demo_fp |>.
Definition demo_m1_again := claim_of default_settings (seconds 400) 51 demo_m1_bound.
Definition demo_m1_done :=
  finish_row (seconds 405) (demo_claim 1 51 2) (worker_outcome ACCEPTED "accepted") 0 demo_m1_again.
Definition demo_m2_claimed := claim_of default_settings (seconds 500) 52 demo_m2.

Definition demo_world (m1 m2 : Msg.t) (now : datetime) (tokens : gset uuid) : world :=
  World (Store {[1 := m1; 2 := m2]} (demo_control now)) tokens.

Definition demo_w2 : world := World (Store {[1 := demo_m1; 2 := demo_m2]} ∅) ∅.
Definition demo_w3 := demo_world demo_m1_claimed demo_m2 (seconds 200) {[50]}.
Definition demo_w4 := demo_world demo_m1_bound demo_m2 (seconds 200) {[50]}.
Definition demo_w5 := demo_world demo_m1_again demo_m2 (seconds 400) {[50; 51]}.
Definition demo_w6 := demo_world demo_m1_done demo_m2 (seconds 400) {[50; 51]}.
Definition demo_w7 := demo_world demo_m1_done demo_m2_claimed (seconds 500) {[50; 51; 52]}.

Ltac demo_run :=
  first [ apply runs_nil | eapply runs_cons; [eassumption || solve [eauto with demo]|demo_run] ].

Create HintDb demo.

(** Payloads of one integer come back as they were. *)
Lemma demo_stores m key z : Msg.payload m = [(PStr key, PInt z)] → stores m m.
Proof.
  intros Hp. exists (Msg.payload m). split; [|by destruct m]. rewrite Hp. econstructor; [|reflexivity].
  constructor; [by split; [|constructor]|constructor].
Qed.

Lemma demo_add1 : step initial LAdd (World (Store {[1 := demo_m1]} ∅) ∅).
Proof.
  refine (step_add initial 1 (demo_event 11 1) PNone None demo_m1 demo_m1 {[1 := demo_m1]} _ _ _ _);
    [..|by eapply demo_stores|]; vm_compute; reflexivity.
Defined.

Lemma demo_add2 : step (World (Store {[1 := demo_m1]} ∅) ∅) LAdd demo_w2.
Proof.
  refine (step_add _ 2 (demo_event 12 2) PNone None demo_m2 demo_m2 {[1 := demo_m1; 2 := demo_m2]} _ _ _ _);
    [..|by eapply demo_stores|]; vm_compute; reflexivity.
Defined.

Lemma demo_claim1 : step demo_w2 (LClaimed [1]) demo_w3.
Proof.
  refine (step_lease demo_w2 (lit "mail") (seconds 200) ∅ 50 demo_types default_settings
    default_settings (Some (demo_claim 1 50 1)) (db demo_w3) _ _ _);
    [set_solver|vm_compute; reflexivity..].
Defined.

Lemma demo_bind1_ok :
  bind (lit "mail") (seconds 201) (seconds 202) (demo_claim 1 50 1) demo_fp demo_deadline
    (db demo_w3) = Ok (true, db demo_w4).
Proof. vm_compute. reflexivity. Defined.

Lemma demo_bind1 : step demo_w3 (LBound 1 demo_fp) demo_w4.
Proof. exact (step_bind demo_w3 _ _ _ _ _ _ true _ demo_bind1_ok). Defined.

(** The lease ran out: another worker takes the message over. *)
Lemma demo_takeover : step demo_w4 (LClaimed [1]) demo_w5.
Proof.
  refine (step_lease demo_w4 (lit "mail") (seconds 400) ∅ 51 demo_types default_settings
    default_settings (Some (demo_claim 1 51 2)) (db demo_w5) _ _ _);
    [set_solver|vm_compute; reflexivity..].
Defined.

Lemma demo_finish : step demo_w5 LSilent demo_w6.
Proof.
  refine (step_finish demo_w5 (lit "mail") (seconds 404) (seconds 405) (demo_claim 1 51 2)
    (worker_outcome ACCEPTED "accepted") 0 true (db demo_w6) _).
  vm_compute. reflexivity.
Defined.

Lemma demo_claim2 : step demo_w6 (LClaimed [2]) demo_w7.
Proof.
  refine (step_lease demo_w6 (lit "mail") (seconds 500) ∅ 52 demo_types default_settings
    default_settings (Some (demo_claim 2 52 1)) (db demo_w7) _ _ _);
    [set_solver|vm_compute; reflexivity..].
Defined.

#[export] Hint Resolve demo_add1 demo_add2 demo_claim1 demo_bind1 demo_takeover demo_finish
  demo_claim2 : demo.

Lemma demo_run3 : runs step initial [LAdd; LAdd; LClaimed [1]] demo_w3.
Proof. demo_run. Defined.

Lemma demo_run5 :
  runs step initial [LAdd; LAdd; LClaimed [1]; LBound 1 demo_fp; LClaimed [1]] demo_w5.
Proof. demo_run. Defined.

Lemma demo_run6 :
  runs step initial [LAdd; LAdd; LClaimed [1]; LBound 1 demo_fp; LClaimed [1]; LSilent] demo_w6.
Proof. demo_run. Defined.

(** ** Properties *)

(** C8: Over every history of ordinary, leased and operator calls, with any
    arguments, clocks and concurrently locked rows: rows are stored under
    their ids, events and idempotency keys are staged at most once, the CHECK
    constraints hold (so no flush is refused by them), attempts never exceed
    100, a row is published exactly when it has a publication time, and a
    claim token is only ever left on a processing, failed, dead or uncertain
    row. *)
Theorem outbox_invariant ls w : runs step initial ls w →
  world_ok w ∧ ∀ k m, outbox w !! k = Some m → outbox_checks m = true.
Proof.
  intros Hr. pose proof (outbox_ok_runs _ _ _ Hr outbox_ok_initial) as Hok.
  split; [done|]. intros k m Hk. by apply row_ok_checks, (proj2 (proj2 Hok) k).
Qed.

Lemma outbox_invariant_witness :
  world_ok demo_w5 ∧ ∀ k m, outbox demo_w5 !! k = Some m → outbox_checks m = true.
Proof. exact (outbox_invariant _ _ demo_run5). Defined.

(** C9: A worker whose lease on a message was lost is fenced off for good: once
    an issued token no longer holds the message, whatever happens later, with
    that claim binding content never succeeds and recording a result never
    applies; both leave the tables unchanged. *)
Theorem stale_claim_fenced ls1 w1 ls2 w2 c :
  runs step initial ls1 w1 → runs step w1 ls2 w2 → token c ∈ issued w1 →
  held_by outbox holder w1 (message_id c) ≠ Some (token c) →
  ∀ group clock now,
    (∀ f expires, fullmatch FINGERPRINT_PATTERN f = true →
       bind group clock now c f expires (db w2) = Ok (false, db w2)) ∧
    (∀ result delay, finish group clock now c result delay (db w2) = (false, db w2)).
Proof.
  intros Hr1 Hr2 Hin Hn group clock now.
  pose proof (outbox_ok_runs _ _ _ Hr1 outbox_ok_initial) as Hok1.
  pose proof (lease_fence _ _ _ _ _ Hr2 Hok1 Hin Hn) as Hn2.
  assert (Howned : owned clock c (messages (db w2)) = None).
  { destruct (owned clock c (messages (db w2))) as [m|] eqn:Ho; [|done].
    apply owned_Some in Ho as (Hm & Hown & _). destruct Hn2. unfold held_by, outbox.
    rewrite Hm. cbn. by apply msg_holder_Some. }
  split.
  - intros f expires Hf. unfold bind. by rewrite Hf, Howned.
  - intros result delay. unfold finish. by rewrite Howned.
Qed.

Lemma stale_claim_fenced_witness :
  held_by outbox holder demo_w5 1 ≠ Some 50 ∧
  bind (lit "mail") (seconds 410) (seconds 411) (demo_claim 1 50 1) demo_fp demo_deadline
    (db demo_w6) = Ok (false, db demo_w6).
Proof.
  split; [vm_compute; discriminate|].
  refine (proj1 (stale_claim_fenced _ demo_w5 [LSilent] demo_w6 (demo_claim 1 50 1)
    demo_run5 _ _ _ (lit "mail") (seconds 410) (seconds 411)) demo_fp demo_deadline _).
  - demo_run.
  - set_solver.
  - vm_compute. discriminate.
  - vm_compute. reflexivity.
Defined.

(** A message is only ever delivered with one content: if binding succeeds
    twice for the same message, at any two points of any history and under any
    claims, workers and handlers, it was with the same fingerprint; each time
    the binding claim held a live lease. *)
Theorem single_content ls w group clock now c f e w1 ls1 w2 group' clock' now' c' f' e' s' :
  runs step initial ls w →
  bind group clock now c f e (db w) = Ok (true, db w1) → issued w1 = issued w →
  runs step w1 ls1 w2 →
  bind group' clock' now' c' f' e' (db w2) = Ok (true, s') → message_id c' = message_id c →
  f' = f ∧ held_by outbox holder w (message_id c) = Some (token c) ∧
  held_by outbox holder w2 (message_id c) = Some (token c').
Proof.
  intros Hr Hb1 Hiss Hr1 Hb2 Hid.
  pose proof (outbox_ok_runs _ _ _ Hr outbox_ok_initial) as Hok.
  destruct (bind_true _ _ _ _ _ _ _ _ Hb1) as (m & Hm & Hown & _ & Hs1).
  destruct (bind_true _ _ _ _ _ _ _ _ Hb2) as (m' & Hm' & Hown' & Hbd & _).
  assert (Hstep : step w (LBound (message_id c) f) w1).
  { destruct w1 as [d1 i1]. cbn in Hiss, Hb1. subst i1. exact (step_bind _ _ _ _ _ _ _ true _ Hb1). }
  pose proof (outbox_ok_step _ _ _ Hok Hstep) as Hok1.
  destruct (Hs1 (proj1 Hok)) as (m1 & Hm1 & Hf1).
  destruct (runs_fingerprint _ _ _ _ _ _ Hr1 Hok1 Hm1 Hf1) as (m2 & Hm2 & Hf2).
  rewrite Hid in Hm'. unfold outbox in Hm2. assert (m' = m2) as -> by congruence.
  split_and!.
  - destruct Hbd as [Hbd|Hbd]; congruence.
  - unfold held_by, outbox. rewrite Hm. by apply msg_holder_Some.
  - unfold held_by, outbox. rewrite Hm2. by apply msg_holder_Some.
Qed.

Lemma single_content_witness : ∃ s',
  bind (lit "mail") (seconds 401) (seconds 402) (demo_claim 1 51 2) demo_fp demo_deadline
    (db demo_w5) = Ok (true, s') ∧
  demo_fp = demo_fp ∧ held_by outbox holder demo_w3 1 = Some 50 ∧
  held_by outbox holder demo_w5 1 = Some 51.
Proof.
  exists (db demo_w5). split; [vm_compute; reflexivity|].
  refine (single_content _ demo_w3 (lit "mail") (seconds 201) (seconds 202) (demo_claim 1 50 1)
    demo_fp demo_deadline demo_w4 [LClaimed [1]] demo_w5 (lit "mail") (seconds 401) (seconds 402)
    (demo_claim 1 51 2) demo_fp demo_deadline (db demo_w5) demo_run3 demo_bind1_ok _ _ _ _).
  - reflexivity.
  - demo_run.
  - vm_compute. reflexivity.
  - reflexivity.
Defined.

(** C13: Aggregate order: whenever a call claims a message, by the ordinary
    batch or under a lease, every earlier event of the same aggregate in the
    table is already published or skipped, and stays exactly as it is in every
    later history. *)
Theorem claims_in_aggregate_order ls w ids w' ls' w'' k m :
  runs step initial ls w → step w (LClaimed ids) w' → k ∈ ids → outbox w' !! k = Some m →
  runs step w' ls' w'' →
  Msg.status m = PROCESSING ∧
  ∀ i e, outbox w' !! i = Some e → earlier_event m e = true →
    settled (Msg.status e) = true ∧ outbox w'' !! i = Some e.
Proof.
  intros Hr Hs Hin Hk Hr2. pose proof (outbox_ok_runs _ _ _ Hr outbox_ok_initial) as Hok.
  pose proof (outbox_ok_step _ _ _ Hok Hs) as Hok'.
  assert (Hclaim : Msg.status m = PROCESSING ∧ ∀ i e, outbox w' !! i = Some e →
    earlier_event m e = true → settled (Msg.status e) = true).
  { exact (step_claimed w ids w' k m Hok Hs Hin Hk). }
  destruct Hclaim as [Hst Hearly]. split; [done|]. intros i e Hi He.
  split; [by eapply Hearly|]. eapply runs_settled; eauto.
Qed.

Lemma claims_in_aggregate_order_witness :
  Msg.status demo_m2_claimed = PROCESSING ∧
  ∀ i e, outbox demo_w7 !! i = Some e → earlier_event demo_m2_claimed e = true →
    settled (Msg.status e) = true ∧ outbox demo_w7 !! i = Some e.
Proof.
  refine (claims_in_aggregate_order _ demo_w6 [2] demo_w7 [] demo_w7 2 demo_m2_claimed
    demo_run6 demo_claim2 _ _ _).
  - by left.
  - vm_compute. reflexivity.
  - apply runs_nil.
Defined.
