(* ===== verification/OutboxResults.v ===== *)
(** * Recording results, replaying, and the event a message carries

    What [finish] and the operator's [replay] do on every branch, and that the
    event staged in a transaction is the event every later claim hands out, as
    far as JSONB keeps it. *)

From S2P Require Import Prelude Regex PyValues CoreTypes Lease AuditTrail AuditSpecs Events Jsonb Outbox Delivery LeasedOutbox OutboxOperations OutboxLifecycle OutboxSpecs.

(** ** Results *)

(** The documented outcome of a delivery attempt: accepted, skipped, blocked
    and permanent results are final; the others are retried while attempts are
    left and the next attempt comes before the deadline. *)
Definition result_status (k : OutcomeKind) (last in_time bound : bool) : OutboxStatus :=
  match k with
  | ACCEPTED => PUBLISHED
  | OSKIPPED => SKIPPED
  | OBLOCKED => BLOCKED
  | PERMANENT => DEAD
  | RETRY | OUNCERTAIN =>
      if last then (if bool_decide (k = RETRY) then DEAD else UNCERTAIN)
      else if in_time then FAILED
      else if bound then UNCERTAIN else DEAD
  end.

Lemma settle_status now c result delay m :
  Msg.status (settle now c result delay m) =
  result_status (kind result) (Msg.retry_budget m <=? Msg.attempts m)
    (now + delay <? default (deadline c) (Msg.deadline_at m)) (fingerprinted m).
Proof.
  unfold settle. cbn. unfold next_status, result_status.
  set (d := default _ _). destruct (Z.leb_spec d (now + delay)), (Z.ltb_spec (now + delay) d); try lia;
    destruct (kind result); cbn; destruct (Msg.retry_budget m <=? Msg.attempts m); cbn; try done.
Qed.

(** ** The event of a message *)

Lemma row_step_event grant m m' : row_step grant m m' → to_event m' = to_event m.
Proof. destruct 1; try done. unfold finish_row. cbn. unfold settle. by destruct (_ && _). Qed.

Lemma runs_event w ls w' k m :
  runs step w ls w' → world_ok w → outbox w !! k = Some m →
  ∃ m', outbox w' !! k = Some m' ∧ to_event m' = to_event m.
Proof.
  intros Hr. revert m. induction Hr as [|w1 l w2 ls w3 Hs _ IH]; intros m Hok Hk; [eauto|].
  pose proof (outbox_ok_step _ _ _ Hok Hs) as Hok2.
  destruct (step_keeps_row _ _ _ _ _ Hok Hs Hk) as (grant & m2 & Hk2 & Hrow).
  destruct (IH m2 Hok2 Hk2) as (m' & Hm' & He). exists m'. split; [done|].
  by rewrite He, (row_step_event _ _ _ Hrow).
Qed.

(** ** Audit evidence *)

Lemma replay_audit float_repr new_id clock target cor reason :
  record_event float_repr new_id clock (replay_requested target (uuid_str cor) reason clock) =
  Ok {| Audit.id := new_id; Audit.actor_kind := SYSTEM; Audit.actor_id := None;
        Audit.action := lit "outbox.replay_requested"; Audit.target_type := lit "outbox_message";
        Audit.target_id := target; Audit.outcome := SUCCEEDED; Audit.occurred_at := clock;
        Audit.correlation_id := uuid_str cor;
        Audit.metadata := [(lit "reason", AStr (reason_value reason))] |}.
Proof.
  unfold record_event, record. cbn [replay_requested d_correlation_id d_action d_target_type
    d_target_id d_actor d_outcome d_metadata d_allowed d_occurred_at].
  rewrite uuid_correlation_id.
  replace (validate_name _ (PStr (lit "outbox.replay_requested"))) with
    (Ok (E:=pyexn) (lit "outbox.replay_requested")) by (by vm_compute).
  replace (validate_name _ (PStr (lit "outbox_message"))) with
    (Ok (E:=pyexn) (lit "outbox_message")) by (by vm_compute).
  change (or_default (Some (aware clock)) (aware clock)) with (aware clock).
  rewrite require_utc_aware.
  replace (sanitize_audit_metadata _ _ _) with
    (Ok (E:=pyexn) [(lit "reason", AStr (reason_value reason))]); [done|].
  by destruct reason; vm_compute.
Qed.

(** ** Properties *)

(** Recording a result, by the worker that holds the lease, follows the
    decision table: the status is the one of the table above, the message is
    stamped published exactly then, its lease, claim time and token are cleared,
    it becomes available after the delay, the receipts of the provider are
    added, the worker group is paused exactly when the result is a block, no
    other row changes - and the same claim can record nothing a second time. *)
Theorem finish_correct s group clock now c result delay m :
  table_ok (messages s) → owned clock c (messages s) = Some m →
  ∃ s' m', finish group clock now c result delay s = (true, s') ∧
    messages s' = <[message_id c := m']> (messages s) ∧
    Msg.status m' = result_status (kind result) (Msg.retry_budget m <=? Msg.attempts m)
      (now + delay <? default (deadline c) (Msg.deadline_at m)) (fingerprinted m) ∧
    Msg.published_at m' = (if bool_decide (Msg.status m' = PUBLISHED) then Some now else None) ∧
    Msg.claim_token m' = None ∧ Msg.lease_expires_at m' = None ∧ Msg.claimed_at m' = None ∧
    Msg.available_at m' = now + delay ∧ Msg.last_error_code m' = Some (code result) ∧
    Msg.delivery_receipts m' = Delivery.receipts result ∪ Msg.delivery_receipts m ∧
    Msg.attempts m' = Msg.attempts m ∧ Msg.delivery_fingerprint m' = Msg.delivery_fingerprint m ∧
    controls s' = (if bool_decide (Msg.status m' = BLOCKED) then pause_control group (controls s)
                   else controls s) ∧
    ∀ clock' now' result' delay', finish group clock' now' c result' delay' s' = (false, s').
Proof.
  intros Hok Ho. pose proof (owned_Some _ _ _ _ Ho) as (Hm & _ & _).
  pose proof (Hok _ _ Hm : Msg.id m = message_id c) as Hid.
  unfold finish at 1. rewrite Ho. do 2 eexists. split; [reflexivity|].
  assert (Hput : put (finish_row now c result delay m) (messages s)
    = <[message_id c := finish_row now c result delay m]> (messages s)).
  { unfold put. f_equal. unfold finish_row. rewrite <-Hid. cbn. unfold settle. by destruct (_ && _). }
  split; [exact Hput|]. rewrite <-settle_status. split; [done|].
  split_and!; try done.
  1-5: unfold finish_row; cbn; unfold settle; by destruct (_ && _).
  intros clock' now' result' delay'. unfold finish, owned. cbn [messages]. rewrite Hput.
  by rewrite lookup_insert_eq.
Qed.

Lemma finish_correct_witness : ∃ s',
  finish (lit "mail") (seconds 404) (seconds 405) (demo_claim 1 51 2)
    (worker_outcome ACCEPTED "accepted") 0 (db demo_w5) = (true, s') ∧
  ∀ clock' now' result' delay',
    finish (lit "mail") clock' now' (demo_claim 1 51 2) result' delay' s' = (false, s').
Proof.
  destruct (finish_correct (db demo_w5) (lit "mail") (seconds 404) (seconds 405)
    (demo_claim 1 51 2) (worker_outcome ACCEPTED "accepted") 0 demo_m1_again)
    as (s' & _ & H & _ & _ & _ & _ & _ & _ & _ & _ & _ & _ & _ & _ & Hagain).
  - exact (proj1 (outbox_ok_runs _ _ _ demo_run5 outbox_ok_initial)).
  - vm_compute. reflexivity.
  - exists s'. split; [exact H|exact Hagain].
Defined.

(** The event of a stored row. *)
Lemma stored_event i ty aty ai av at_ p e new_id key avail m stored :
  domain_event i ty aty ai av at_ p = Ok e → add new_id e key avail = Ok m → stores m stored →
  ∃ e', to_event stored = Ok e' ∧ event_after e e'.
Proof.
  intros He Ha (kvs & Hj & ->). unfold add in Ha. res_inv. injection Ha as <-. cbn in *. unfold to_event. cbn.
  by apply (jsonb_event _ _ _ _ _ _ _ _ _ He).
Qed.

(** C14: The event a caller staged is the event that is delivered, as far as its
    JSONB column keeps it. Whatever history follows, the stored row rebuilds one
    and the same event, and every leased claim of the message hands this event
    to the worker. It has the id, the types, the aggregate, the version and the
    time of the staged event; its payload is the staged one but for the order of
    keys where all floats are below 10^16, and in any case but for floats from
    10^16 on, of which each comes back as an integer within the rounding error of
    its text - 1e23 as 10^23, which Python does not find equal. *)
Theorem staged_event_delivered i ty aty ai av at_ p e new_id key avail m stored ls w t' ls' w' :
  domain_event i ty aty ai av at_ p = Ok e →
  add new_id e key avail = Ok m → stores m stored →
  runs step initial ls w → insert_message stored (outbox w) = Ok t' →
  runs step (World (db w <| messages := t' |>) (issued w)) ls' w' →
  ∃ e', event_after e e' ∧
    (floats_small (PDict (payload_dict e)) = true → same_value (PDict (payload_dict e)) (PDict (payload_dict e'))) ∧
    (∃ m', outbox w' !! new_id = Some m' ∧ to_event m' = Ok e') ∧
    ∀ group now locked fresh types settings c s',
      claim group now locked fresh types settings (db w') = Ok (Some c, s') →
      message_id c = new_id → LeasedOutbox.event c = Some e'.
Proof.
  intros He Ha Hst Hr Hi Hr'. destruct (stored_event _ _ _ _ _ _ _ _ _ _ _ _ _ He Ha Hst) as (e' & Hev & Hafter).
  assert (0 < aggregate_version e) as Hv by (apply domain_event_iff in He; lia).
  destruct (add_stored _ _ _ _ _ _ Ha Hv Hst) as (_ & Hid & _).
  pose proof (outbox_ok_runs _ _ _ Hr outbox_ok_initial) as Hok.
  set (w1 := World _ _) in Hr'. assert (Hs : step w LAdd w1) by (by eapply step_add).
  pose proof (outbox_ok_step _ _ _ Hok Hs) as Hok1.
  assert (Hm : outbox w1 !! new_id = Some stored).
  { apply insert_message_Ok in Hi as (-> & _). cbn. unfold put. rewrite <-Hid. apply lookup_insert_eq. }
  destruct (runs_event _ _ _ _ _ Hr' Hok1 Hm) as (m' & Hm' & He'). rewrite Hev in He'. exists e'. split_and!.
  - exact Hafter.
  - intros Hsmall. apply jsonb_same; [apply Hafter|done].
  - eauto.
  - intros group now locked fresh types settings c s' Hc Hcid.
    pose proof (proj1 (outbox_ok_runs _ _ _ Hr' Hok1)) as Htok.
    apply claim_Some in Hc as (m1 & Hc1 & _ & Hc & _). destruct (candidate_found None _ Htok _ _ _ _ Hc1) as (Hm1 & _).
    destruct (claim_of_fields settings now fresh m1) as (Hid1 & _ & _ & _ & _ & _ & _ & _ & _ & _ & Hte).
    rewrite Hc in Hcid |- *. cbn [message_id LeasedOutbox.event] in *. rewrite Hid1 in Hcid.
    rewrite Hcid in Hm1. rewrite Hte. assert (m1 = m') as -> by (unfold outbox in *; congruence).
    by rewrite He'.
Qed.

Lemma staged_event_delivered_witness : ∃ e', event_after (demo_event 11 1) e' ∧
  same_value (PDict (payload_dict (demo_event 11 1))) (PDict (payload_dict e')) ∧
  LeasedOutbox.event (demo_claim 1 50 1) = Some e'.
Proof.
  destruct (staged_event_delivered (PUUID 11) (PStr (lit "order_placed")) (PStr (lit "order"))
    (PUUID 9) (PInt 1) (PDatetime (aware (seconds 100))) (PDict [(PStr (lit "total"), PInt 5)])
    (demo_event 11 1) 1 PNone None demo_m1 demo_m1 [] initial {[1 := demo_m1]} [LAdd] demo_w2)
    as (e' & Hafter & Hsame & _ & Hclaim).
  - vm_compute. reflexivity.
  - vm_compute. reflexivity.
  - by eapply demo_stores.
  - apply runs_nil.
  - vm_compute. reflexivity.
  - eapply runs_cons; [exact demo_add2|apply runs_nil].
  - exists e'. split; [exact Hafter|]. split; [by apply Hsame|].
    refine (Hclaim (lit "mail") (seconds 200) ∅ 50 demo_types default_settings
      (demo_claim 1 50 1) (db demo_w3) _ _); vm_compute; reflexivity.
Defined.

(** A float that does not survive: 1e23 is not the integer 10^23, as which it
    comes back. *)
Example large_float_changes :
  let f := FFin (99999999999999991611392 / 2 ^ 24) 24 in
  jsonb (PFloat f) (PInt (10 ^ 23)) ∧ whole f = Some 99999999999999991611392.
Proof.
  intros f. split; [|by vm_compute]. constructor. unfold jsonb_number.
  replace (below_1e16 f) with false by (by vm_compute).
  exists 99999999999999991611392, (10 ^ 23). split_and!; by vm_compute.
Qed.

(** An operator can replay a message exactly when it is dead or blocked, of
    a registered type, still before its deadline and under the lifetime limit of
    100 attempts, its stored event is valid, and the handler still prepares
    content for it that has not expired and is the content already bound, if
    any. Then the message is pending and due now, without a lease, with room for
    up to three more attempts and at least one; no other row or control
    changes, and the audit record names the message and the reason. *)
Theorem replay_correct {P} float_repr handlers (prepare : str → DomainEvent → res pyexn (PreparedDelivery P + DeliveryOutcome))
    now sup k reason s s' audit :
  replay float_repr handlers prepare now sup k reason s = Ok (s', audit) ↔
  ∃ m d e p, messages s !! k = Some m ∧ Msg.event_type m ∈ handlers ∧
    (Msg.status m = DEAD ∨ Msg.status m = BLOCKED) ∧
    Msg.deadline_at m = Some d ∧ now < d ∧ Msg.attempts m < 100 ∧
    to_event m = Ok e ∧ prepare (Msg.event_type m) e = Ok (inl p) ∧ now < expires_at p ∧
    (∀ f, Msg.delivery_fingerprint m = Some f → f = fingerprint p) ∧
    (∃ m', messages s' = put m' (messages s) ∧ m' = reopen now m ∧
       waiting (Msg.status m') = true ∧ Msg.available_at m' = now ∧ Msg.claim_token m' = None ∧
       Msg.retry_budget m' = Z.min 100 (Msg.attempts m + 3) ∧ Msg.attempts m' < Msg.retry_budget m') ∧
    controls s' = controls s ∧
    audit = {| Audit.id := audit_id sup; Audit.actor_kind := SYSTEM; Audit.actor_id := None;
        Audit.action := lit "outbox.replay_requested"; Audit.target_type := lit "outbox_message";
        Audit.target_id := Msg.id m; Audit.outcome := SUCCEEDED; Audit.occurred_at := audit_clock sup;
        Audit.correlation_id := uuid_str (fresh_correlation sup);
        Audit.metadata := [(lit "reason", AStr (reason_value reason))] |}.
Proof.
  unfold replay, MAX_REPLAY_ATTEMPTS. split.
  - intros H. apply bind_Ok in H as (m & Hm & H). destruct (messages s !! k) as [m1|]; [|done].
    injection Hm as ->. res_inv. bool_inv.
    match goal with H : match ?x with inl _ => _ | inr _ => _ end = Ok ?y |- _ =>
      destruct x as [p|]; [injection H as <-|done] end.
    rewrite replay_audit in *. simplify_eq.
    destruct (Msg.deadline_at m) as [d|] eqn:Hd; [|done]. cbn [from_option] in *. bool_inv.
    exists m, d. do 2 eexists. split_and!; try done.
    + intros f Hf. destruct Hx5 as [Hx5|Hx5]; congruence.
    + eexists. split_and!; try done. cbn. unfold MAX_REPLAY_ATTEMPTS. lia.
  - intros (m & d & e & p & Hm & Hh & Hst & Hdl & Hd & Ha & He & Hp & Hx & Hf
      & (m' & Hm' & -> & _) & Hc & ->).
    rewrite Hm. cbn [mbind res_bind]. rewrite !bool_decide_eq_true_2 by done.
    cbn [andb require mbind res_bind]. rewrite Hdl. cbn [from_option].
    rewrite !(proj2 (Z.ltb_lt _ _)) by done. cbn [andb require mbind res_bind].
    rewrite He. cbn [mbind res_bind]. rewrite Hp. cbn [mbind res_bind].
    rewrite !(proj2 (Z.ltb_lt _ _)) by done. cbn [require mbind res_bind].
    rewrite bool_decide_eq_true_2; [|destruct (Msg.delivery_fingerprint m); naive_solver].
    cbn [require mbind res_bind]. rewrite replay_audit.
    destruct s' as [t' c']. cbn in Hm', Hc. by subst.
Qed.

(** A dead message of the demonstration, and a handler for it. *)
Definition demo_dead : Msg.t :=
  demo_m1_bound <| Msg.status := DEAD |> <| Msg.attempts := 5 |>.
Definition demo_store : store := Store {[1 := demo_dead]} (demo_control 0).
Definition demo_prepare (_ : str) (_ : DomainEvent) : res pyexn (PreparedDelivery unit + DeliveryOutcome) :=
  Ok (inl (Prepared tt demo_fp (seconds 9000))).

Example demo_replay : ∃ s' audit,
  replay (λ _, []) demo_types demo_prepare (seconds 500) (Supply 70 71 72 (seconds 500)) 1
    CONFIGURATION_FIXED demo_store = Ok (s', audit) ∧
  (Msg.status <$> messages s' !! 1) = Some PENDING.
Proof. do 2 eexists. split; [vm_compute; reflexivity|reflexivity]. Qed.
