(* ===== verification/LeasedWorker.v ===== *)
(** * The leased worker (outbox/leased_worker.py)

    [process_one] as a machine: the local phase of each worker between its
    transactions, run beside the other workers and every other call on the
    outbox. What a handler answers, and when, comes from outside. *)

From S2P Require Import Prelude Regex PyValues CoreTypes Lease AuditTrail Events Outbox Delivery LeasedOutbox OutboxOperations OutboxLifecycle OutboxSpecs.

(** ** One worker *)

(** What awaiting a handler under [asyncio.timeout] ends in. *)
Inductive attempt (A : Type) :=
| Returns (a : A)
| TimedOut
| Raises (e : pyexn).
Arguments Returns {A}. Arguments TimedOut {A}. Arguments Raises {A}.

Section worker.
Context {P : Type} (handlers : list str) (settings : OutboxWorkerSettings).

(** Where a call of [process_one] stands between two transactions. *)
Inductive phase :=
| Preparing (c : Claim) (e : DomainEvent)
| Binding (c : Claim) (p : PreparedDelivery P)
| Delivering (c : Claim) (p : PreparedDelivery P)
| Finalizing (c : Claim) (r : DeliveryOutcome)
| Handled (b : bool)
| Raised (e : pyexn).

Definition after_claim (claim : option Claim) : phase :=
  match claim with
  | None => Handled false
  | Some c =>
      match event c with
      | None => Finalizing c (worker_outcome PERMANENT "invalid_event")
      | Some e => if bool_decide (event_type e ∈ handlers) then Preparing c e else Raised KeyError
      end
  end.

Definition after_prepare (c : Claim) (a : attempt (PreparedDelivery P + DeliveryOutcome)) : phase :=
  match a with
  | TimedOut => Finalizing c (worker_outcome RETRY "preparation_timeout")
  | Raises e => Raised e
  | Returns (inr outcome) => Finalizing c outcome
  | Returns (inl prepared) => Binding c prepared
  end.

Definition after_bind (now : datetime) (c : Claim) (p : PreparedDelivery P) (allowed : bool) : phase :=
  if negb allowed then Handled true
  else if Z.min (expires_at p) (deadline c) <=? now
  then Finalizing c (worker_outcome OSKIPPED "no_longer_eligible")
  else Delivering c p.

Definition after_deliver (c : Claim) (a : attempt DeliveryOutcome) : phase :=
  Finalizing c
    match a with
    | Returns result => result
    | TimedOut => worker_outcome OUNCERTAIN "submission_timeout"
    | Raises _ => worker_outcome OBLOCKED "handler_failure"
    end.

(** [_finalize]: the delay is computed before the claim is looked up. *)
Definition finalize (group : str) (uniform : Z → timedelta) (clock now : datetime) (c : Claim)
    (r : DeliveryOutcome) (s : store) : res pyexn (bool * store) :=
  delay ← next_delay uniform (attempts c) r settings;
  Ok (finish group clock now c r delay s).

(** ** Many workers and everything else *)

Record system := System { shared : world; workers : gmap nat phase }.

Definition set_phase (i : nat) (ph : phase) (s : system) : system :=
  System (shared s) (<[i := ph]> (workers s)).

(** A transaction of worker [i] that leaves the store [s']. *)
Definition transact (i : nat) (s' : store) (tokens : gset uuid) (ph : phase) (s : system) : system :=
  System (World s' (issued (shared s) ∪ tokens)) (<[i := ph]> (workers s)).

Inductive event_label :=
| Send (i : nat) (k : uuid) (fingerprint : str) (receipts : gmap str str)
| Local (i : nat)
| Other.

(** [Send] is the moment [handler.deliver] is called. *)
Inductive system_step : system → event_label → system → Prop :=
| sys_other s l w' :
    step (shared s) l w' → system_step s Other (System w' (workers s))
| sys_claim s i group now locked fresh c s' :
    match workers s !! i with None | Some (Handled _ | Raised _) => True | _ => False end →
    fresh ∉ issued (shared s) →
    claim group now locked fresh handlers settings (db (shared s)) = Ok (c, s') →
    system_step s (Local i) (transact i s' (claimed_token c) (after_claim c) s)
| sys_prepare s i c e a :
    workers s !! i = Some (Preparing c e) →
    system_step s (Local i) (set_phase i (after_prepare c a) s)
| sys_bind s i c p group clock now later b s' :
    workers s !! i = Some (Binding c p) →
    bind group clock now c (fingerprint p) (expires_at p) (db (shared s)) = Ok (b, s') →
    system_step s (Local i) (transact i s' ∅ (after_bind later c p b) s)
| sys_bind_error s i c p group clock now e :
    workers s !! i = Some (Binding c p) →
    bind group clock now c (fingerprint p) (expires_at p) (db (shared s)) = Err e →
    system_step s (Local i) (set_phase i (Raised e) s)
| sys_deliver s i c p a :
    workers s !! i = Some (Delivering c p) →
    system_step s (Send i (message_id c) (fingerprint p) (receipts c))
      (set_phase i (after_deliver c a) s)
| sys_finalize s i c r group uniform clock now b s' :
    workers s !! i = Some (Finalizing c r) →
    finalize group uniform clock now c r (db (shared s)) = Ok (b, s') →
    system_step s (Local i) (transact i s' ∅ (Handled true) s)
| sys_finalize_error s i c r group uniform clock now e :
    workers s !! i = Some (Finalizing c r) →
    finalize group uniform clock now c r (db (shared s)) = Err e →
    system_step s (Local i) (set_phase i (Raised e) s).

Definition system_start : system := System initial ∅.
End worker.

(** ** What the phases know *)

Definition bound (w : world) (k : uuid) (f : str) : Prop :=
  ∃ m, outbox w !! k = Some m ∧ Msg.delivery_fingerprint m = Some f.

Definition phase_ok {P} (w : world) (ph : phase (P:=P)) : Prop :=
  match ph with
  | Preparing c _ | Binding c _ | Finalizing c _ => 1 ≤ attempts c
  | Delivering c p => 1 ≤ attempts c ∧ bound w (message_id c) (fingerprint p)
  | Handled _ | Raised _ => True
  end.

Definition system_ok {P} (s : system (P:=P)) : Prop :=
  world_ok (shared s) ∧ ∀ i ph, workers s !! i = Some ph → phase_ok (shared s) ph.

Lemma bound_step w l w' k f : world_ok w → step w l w' → bound w k f → bound w' k f.
Proof.
  intros Hok Hs (m & Hk & Hf). destruct (step_keeps_row _ _ _ _ _ Hok Hs Hk) as (g & m' & Hk' & Hr).
  exists m'. eauto using row_step_fingerprint.
Qed.

Lemma phase_ok_step {P} w l w' (ph : phase (P:=P)) :
  world_ok w → step w l w' → phase_ok w ph → phase_ok w' ph.
Proof. intros Hok Hs. destruct ph; cbn; try done. intros [? ?]. split; [done|by eapply bound_step]. Qed.

(** What a worker gets from a claim: a fresh attempt of an event it handles. *)
Lemma claim_handled s group now locked fresh types settings c s' :
  table_ok (messages s) → (∀ k m, messages s !! k = Some m → row_ok m) →
  claim group now locked fresh types settings s = Ok (Some c, s') →
  1 ≤ attempts c ∧ ∀ e, event c = Some e → event_type e ∈ types.
Proof.
  intros Hok Hrow H. apply claim_Some in H as (m0 & Hc & _ & -> & _).
  pose proof (candidate_found None _ Hok _ _ _ _ Hc) as (Hm & _ & Hcl & _).
  destruct (claim_of_fields settings now fresh m0) as (_ & _ & _ & _ & _ & _ & Hatt & _ & _ & _ & Hev).
  cbn [attempts event]. rewrite Hatt, Hev. destruct (Hrow _ _ Hm). split; [lia|].
  intros e He. destruct (to_event m0) as [e'|] eqn:Hto; [|done]. injection He as ->.
  apply domain_event_iff in Hto as (_ & _ & Ht & _).
  apply type_name_iff in Ht as [[= <-] _].
  unfold lease_claimable in Hcl. by bool_inv.
Qed.

Section system.
Context {P : Type} (handlers : list str) (s0 settings : OutboxWorkerSettings).
Context (Hsettings : validate_settings s0 = Ok settings).
Local Abbreviation sys_step := (system_step (P:=P) handlers settings).

(** Each step of a worker is at most one call on the shared tables. *)
Lemma system_step_world s l s' :
  sys_step s l s' → shared s' = shared s ∨ ∃ l', step (shared s) l' (shared s').
Proof using Hsettings.
  destruct 1; cbn; auto; right; try rewrite union_empty_r_L.
  - eauto.
  - eexists. by eapply step_lease.
  - eexists. by eapply step_bind.
  - unfold finalize in *. res_inv. simplify_eq. eexists. eapply step_finish. eassumption.
Qed.

(** A worker that is set to a phase, the others keeping theirs. *)
Lemma phases_set w (ws : gmap nat (phase (P:=P))) i ph :
  (∀ j ph, ws !! j = Some ph → phase_ok w ph) → phase_ok w ph →
  ∀ j ph', <[i := ph]> ws !! j = Some ph' → phase_ok w ph'.
Proof. intros Hws Hph j ph' [[<- <-]|[_ ?]]%lookup_insert_Some; eauto. Qed.

Lemma system_ok_step s l s' : system_ok s → sys_step s l s' → system_ok s'.
Proof using Hsettings.
  intros [Hok Hph] Hs.
  assert (Hok' : world_ok (shared s') ∧ ∀ i ph, workers s !! i = Some ph → phase_ok (shared s') ph).
  { destruct (system_step_world _ _ _ Hs) as [-> |(l' & Hl)]; [done|].
    split; [by eapply outbox_ok_step|]. intros. eapply phase_ok_step; eauto. }
  destruct Hok' as [Hok' Hph']. split; [done|].
  destruct Hs as [s l w' Hs|s i group now locked fresh c s' Hidle Hf Hc|s i c e a Hi
    |s i c p group clock now later b s' Hi Hb|s i c p group clock now e Hi Hb|s i c p a Hi
    |s i c r group uniform clock now b s' Hi Hfin|s i c r group uniform clock now e Hi Hfin];
    cbn [workers set_phase transact] in *; [done|apply phases_set; [done|]..]; try done.
  - destruct c as [c|]; [|done]. destruct Hok as (Ht & _ & Hrow).
    destruct (claim_handled _ _ _ _ _ _ _ _ _ Ht Hrow Hc) as [Ha _].
    cbn. destruct (event c); [|done]. by case_bool_decide.
  - apply Hph in Hi. by destruct a as [[]| |].
  - apply Hph in Hi. unfold after_bind. destruct b; [|done]. cbn [negb].
    case_match; [done|]. split; [done|].
    apply bind_true in Hb as (m & Hm & _ & _ & Hset).
    destruct (Hset (proj1 Hok)) as (m' & Hm' & Hf). by exists m'.
  - apply Hph in Hi. by destruct Hi.
Qed.

Lemma system_ok_runs ls s : runs sys_step system_start ls s → system_ok s.
Proof using Hsettings.
  intros Hr. refine (runs_invariant _ _ system_ok_step _ _ _ Hr _).
  split; [exact outbox_ok_initial|by intros i ph ?].
Qed.

Lemma bound_runs s ls s' k f :
  runs sys_step s ls s' → system_ok s → bound (shared s) k f → bound (shared s') k f.
Proof using Hsettings.
  induction 1 as [|s1 l s2 ls s3 Hs _ IH]; intros Hok Hb; [done|].
  apply IH; [by eapply system_ok_step|].
  destruct (system_step_world _ _ _ Hs) as [-> |(l' & Hl)]; [done|].
  eapply bound_step; [exact (proj1 Hok)|done..].
Qed.

Lemma send_bound s i k f rc s' :
  system_ok s → sys_step s (Send i k f rc) s' → bound (shared s) k f.
Proof. intros [_ Hph] Hs. inversion Hs; subst. by apply (Hph i (Delivering c p)). Qed.

(** ** Properties *)

(** C12: However many workers run beside each other and beside every other call
    on the outbox, the provider is only ever asked to deliver one content per
    message: at each call of [deliver] the row already carries the fingerprint
    of that content, and a later call for the same message, by any worker, after
    any crash, timeout or takeover, has the same fingerprint. *)
Theorem workers_send_one_content ls1 s1 i k f rc s2 ls2 s3 j f' rc' s4 :
  runs sys_step system_start ls1 s1 → sys_step s1 (Send i k f rc) s2 →
  runs sys_step s2 ls2 s3 → sys_step s3 (Send j k f' rc') s4 →
  f' = f ∧ bound (shared s1) k f.
Proof using Hsettings.
  intros Hr1 Hs1 Hr2 Hs2. pose proof (system_ok_runs _ _ Hr1) as Hok1.
  pose proof (send_bound _ _ _ _ _ _ Hok1 Hs1) as Hb. split; [|done].
  assert (Hr : runs sys_step s1 (Send i k f rc :: ls2) s3) by (by econstructor).
  destruct (bound_runs _ _ _ _ _ Hr Hok1 Hb) as (m & Hm & Hf).
  assert (Hok3 : system_ok s3).
  { apply (system_ok_runs (ls1 ++ Send i k f rc :: ls2)). by eapply runs_app. }
  destruct (send_bound _ _ _ _ _ _ Hok3 Hs2) as (m' & Hm' & Hf').
  assert (m' = m) as -> by congruence. congruence.
Qed.

(** A call of [process_one] raises in two cases only: the handler's
    preparation raised, or it prepared a fingerprint that is not 64 lowercase
    hexadecimal digits. In particular the handler of a claimed message is always
    registered, and a result can always be recorded: the retry delay of a
    claimed message is defined, so every delivery reaches [finish]. *)
Theorem worker_raises_only_on_prepare ls s l s' i e :
  runs sys_step system_start ls s → sys_step s l s' →
  workers s' !! i = Some (Raised e) → workers s !! i ≠ Some (Raised e) →
  (∃ c ev, workers s !! i = Some (Preparing c ev)) ∨
  (∃ c p, workers s !! i = Some (Binding c p) ∧
     fullmatch FINGERPRINT_PATTERN (fingerprint p) = false ∧
     e = ValueError "invalid delivery fingerprint").
Proof using Hsettings.
  intros Hr Hs Hi' Hn. destruct (system_ok_runs _ _ Hr) as [Hok Hph].
  destruct Hs as [s l w' Hs|s j group now locked fresh c s' Hidle Hf Hc|s j c ev a Hi
    |s j c p group clock now later b s' Hi Hb|s j c p group clock now er Hi Hb|s j c p a Hi
    |s j c r group uniform clock now b s' Hi Hfin|s j c r group uniform clock now er Hi Hfin];
    cbn [workers set_phase transact] in Hi'; [done|
    apply lookup_insert_Some in Hi' as [[-> Hi']|[_ ?]]; [|done]..].
  - destruct c as [c|]; [|done]. destruct Hok as (Ht & _ & Hrow).
    destruct (claim_handled _ _ _ _ _ _ _ _ _ Ht Hrow Hc) as [_ He].
    cbn in Hi'. destruct (event c) as [ev|]; [|done].
    by rewrite bool_decide_eq_true_2 in Hi' by (by apply He).
  - eauto.
  - unfold after_bind in Hi'. repeat case_match; congruence.
  - right. exists c, p. split; [done|]. injection Hi' as ->. unfold bind in Hb.
    apply bind_Err in Hb as [[Hm ->]%require_Err|(_ & _ & Hb)]; [done|].
    repeat case_match; done.
  - done.
  - done.
  - apply Hph in Hi. cbn in Hi. unfold finalize, next_delay in Hfin.
    rewrite (proj2 (Z.ltb_ge _ _)) in Hfin by lia. done.
Qed.
End system.

(** ** A takeover *)

Definition demo_prepared : PreparedDelivery unit := Prepared tt demo_fp demo_deadline.
Definition demo_c1 : Claim := demo_claim 1 50 1.
Definition demo_c2 : Claim := demo_claim 1 51 2.

(** Worker 0 sends and is cut off; worker 1 takes the message over and sends. *)
Definition demo_q0 : system (P:=unit) := System demo_w2 ∅.
Definition demo_q1 := transact 0 (db demo_w3) {[50]} (Preparing demo_c1 (demo_event 11 1)) demo_q0.
Definition demo_q2 := set_phase 0 (Binding demo_c1 demo_prepared) demo_q1.
Definition demo_q3 := transact 0 (db demo_w4) ∅ (Delivering demo_c1 demo_prepared) demo_q2.
Definition demo_q4 :=
  set_phase 0 (Finalizing demo_c1 (worker_outcome OUNCERTAIN "submission_timeout")) demo_q3.
Definition demo_q5 := transact 1 (db demo_w5) {[51]} (Preparing demo_c2 (demo_event 11 1)) demo_q4.
Definition demo_q6 := set_phase 1 (Binding demo_c2 demo_prepared) demo_q5.
Definition demo_q7 := transact 1 (db demo_w5) ∅ (Delivering demo_c2 demo_prepared) demo_q6.
Definition demo_q8 := set_phase 1 (Finalizing demo_c2 (worker_outcome ACCEPTED "accepted")) demo_q7.

Local Abbreviation demo_step := (system_step (P:=unit) demo_types default_settings).

Lemma demo_q_start : runs demo_step system_start [Other; Other] demo_q0.
Proof.
  eapply runs_cons; [exact (sys_other _ _ system_start _ _ demo_add1)|].
  eapply runs_cons; [exact (sys_other _ _ (System _ ∅) _ _ demo_add2)|apply runs_nil].
Defined.

Lemma demo_q_claim1 : demo_step demo_q0 (Local 0) demo_q1.
Proof.
  refine (sys_claim _ _ demo_q0 0 (lit "mail") (seconds 200) ∅ 50 (Some demo_c1) (db demo_w3) _ _ _);
    [done|set_solver|vm_compute; reflexivity].
Defined.

Lemma demo_q_bind1 : demo_step demo_q2 (Local 0) demo_q3.
Proof.
  refine (sys_bind _ _ demo_q2 0 demo_c1 demo_prepared (lit "mail") (seconds 201) (seconds 202)
    (seconds 203) true (db demo_w4) _ _); [done|exact demo_bind1_ok].
Defined.

Lemma demo_q_send1 : demo_step demo_q3 (Send 0 1 demo_fp ∅) demo_q4.
Proof. refine (sys_deliver _ _ demo_q3 0 demo_c1 demo_prepared TimedOut _). done. Defined.

Lemma demo_q_claim2 : demo_step demo_q4 (Local 1) demo_q5.
Proof.
  refine (sys_claim _ _ demo_q4 1 (lit "mail") (seconds 400) ∅ 51 (Some demo_c2) (db demo_w5) _ _ _);
    [done|set_solver|vm_compute; reflexivity].
Defined.

Lemma demo_q_bind2 : demo_step demo_q6 (Local 1) demo_q7.
Proof.
  refine (sys_bind _ _ demo_q6 1 demo_c2 demo_prepared (lit "mail") (seconds 401) (seconds 402)
    (seconds 403) true (db demo_w5) _ _); [done|vm_compute; reflexivity].
Defined.

Lemma demo_q_send2 : demo_step demo_q7 (Send 1 1 demo_fp ∅) demo_q8.
Proof.
  refine (sys_deliver _ _ demo_q7 1 demo_c2 demo_prepared
    (Returns (worker_outcome ACCEPTED "accepted")) _). done.
Defined.

Lemma demo_q_prepare i c s :
  workers s !! i = Some (Preparing c (demo_event 11 1)) →
  demo_step s (Local i) (set_phase i (Binding c demo_prepared) s).
Proof. intros H. exact (sys_prepare _ _ s i c _ (Returns (inl demo_prepared)) H). Defined.

Lemma demo_q_run1 : runs demo_step system_start [Other; Other; Local 0; Local 0; Local 0] demo_q3.
Proof.
  refine (runs_app _ _ [Other; Other] _ [Local 0; Local 0; Local 0] _ demo_q_start _).
  eapply runs_cons; [exact demo_q_claim1|]. eapply runs_cons; [by apply demo_q_prepare|].
  eapply runs_cons; [exact demo_q_bind1|apply runs_nil].
Defined.

Lemma demo_q_run2 : runs demo_step demo_q4 [Local 1; Local 1; Local 1] demo_q7.
Proof.
  eapply runs_cons; [exact demo_q_claim2|]. eapply runs_cons; [by apply demo_q_prepare|].
  eapply runs_cons; [exact demo_q_bind2|apply runs_nil].
Defined.

Lemma workers_send_one_content_witness :
  demo_step demo_q7 (Send 1 1 demo_fp ∅) demo_q8 ∧ demo_fp = demo_fp ∧ bound (shared demo_q3) 1 demo_fp.
Proof.
  split; [exact demo_q_send2|].
  exact (workers_send_one_content demo_types default_settings default_settings eq_refl
    _ demo_q3 0 1 demo_fp ∅ demo_q4 _ demo_q7 1 demo_fp ∅ demo_q8
    demo_q_run1 demo_q_send1 demo_q_run2 demo_q_send2).
Defined.

Definition demo_bad : PreparedDelivery unit := Prepared tt (lit "abc") demo_deadline.
Definition demo_q2' := set_phase 0 (Binding demo_c1 demo_bad) demo_q1.

Lemma worker_raises_only_on_prepare_witness :
  (∃ c ev, workers demo_q2' !! 0%nat = Some (Preparing c ev)) ∨
  (∃ c p, workers demo_q2' !! 0%nat = Some (Binding c p) ∧
     fullmatch FINGERPRINT_PATTERN (fingerprint p) = false ∧
     ValueError "invalid delivery fingerprint" = ValueError "invalid delivery fingerprint").
Proof.
  refine (worker_raises_only_on_prepare demo_types default_settings default_settings eq_refl
    [Other; Other; Local 0; Local 0] demo_q2' (Local 0)
    (set_phase 0 (Raised (ValueError "invalid delivery fingerprint")) demo_q2') 0 _ _ _ _ _).
  - refine (runs_app _ _ [Other; Other] _ [Local 0; Local 0] _ demo_q_start _).
    eapply runs_cons; [exact demo_q_claim1|]. eapply runs_cons; [|apply runs_nil].
    exact (sys_prepare _ _ demo_q1 0 demo_c1 _ (Returns (inl demo_bad)) eq_refl).
  - refine (sys_bind_error _ _ demo_q2' 0 demo_c1 demo_bad (lit "mail") 0 0 _ _ _);
      [done|vm_compute; reflexivity].
  - done.
  - done.
Defined.
