(* ===== verification/InternalWorker.v ===== *)
(** * The internal worker (outbox/internal_worker.py)

    [process_one] for database-only handlers: claim, handler in a savepoint,
    transition and commit, in one transaction. *)

From S2P Require Import Prelude Regex PyValues AuditTrail Events Outbox Delivery LeasedOutbox OutboxOperations OutboxLifecycle.

Section internal.
(** [D] is the rest of the database, which handlers change; a handler works
    inside the worker's transaction and leaves the outbox rows alone. *)
Context {D : Type} (handle : str → DomainEvent → D → res pyexn D).

(** [InternalOutboxWorker.__init__]. *)
Definition worker_event_types (handlers : list str) : res pyexn (list str) :=
  require (bool_decide (handlers ≠ []) && forallb (fullmatch SNAKE_CASE_PATTERN) handlers)
    (ValueError "register at least one handler with a safe event name");;
  Ok handlers.

(** What the transaction leaves on commit; an exception rolls it back, so does
    an early return. [clock] is the claim's time, [retry_now] and [done_now] the
    times at which the transition is made. *)
Definition process_one (event_types : list str) (settings : OutboxWorkerSettings)
    (uniform : Z → timedelta) (clock retry_now done_now : datetime) (locked : gset uuid)
    (s : D * table Msg.t) : res pyexn (bool * (D * table Msg.t)) :=
  let '(d, t) := s in
  max ← repository_max_attempts (PInt (max_attempts settings));
  '(messages, t1) ← claim_batch max clock locked (PInt 1) None (PTuple (PStr <$> event_types)) t;
  match messages with
  | [] => Ok (false, s)
  | row :: _ =>
      '(changed, s') ←
        match event ← to_event row; handle (Msg.event_type row) event d with
        | Err _ =>
            delay ← next_delay uniform (Msg.attempts row)
                      (worker_outcome RETRY "internal_handler_failed") settings;
            '(changed, t2) ← mark_failed (Msg.id row) (PStr (lit "internal_handler_failed"))
                               (aware (retry_now + delay)) t1;
            Ok (changed, (d, t2))
        | Ok d' =>
            match mark_published done_now (Msg.id row) None t1 with
            | (Ok changed, t2) => Ok (changed, (d', t2))
            | (Err e, _) => Err e
            end
        end;
      require changed (RuntimeError "ordinary outbox transition was not applied");;
      Ok (true, s')
  end.

(** ** Lemmas *)

(** A row just claimed, marked in the same transaction. *)
Lemma mark_published_claimed clock now m t :
  Msg.claim_token m = None →
  mark_published clock (Msg.id m) None (put (claim_ordinary now m) t) =
  (Ok true, put (claim_ordinary now m <| Msg.status := PUBLISHED |> <| Msg.claimed_at := None |>
                   <| Msg.published_at := Some clock |> <| Msg.last_error_code := None |>)
              (put (claim_ordinary now m) t)).
Proof.
  intros Ht. unfold mark_published. unfold put at 1.
  change (row_id (claim_ordinary now m)) with (Msg.id m). rewrite lookup_insert_eq.
  rewrite (bool_decide_eq_false_2 (_ = PUBLISHED)) by done.
  rewrite (bool_decide_eq_false_2 (Msg.claim_token _ ≠ None)) by (rewrite <-Ht; tauto).
  rewrite bool_decide_eq_false_2 by tauto.
  change (or_default None (aware clock)) with (aware clock). by rewrite require_utc_aware.
Qed.

Lemma mark_failed_claimed code at_ now m t :
  Outbox.validate_error_code (PStr code) = Ok code →
  mark_failed (Msg.id m) (PStr code) (aware at_) (put (claim_ordinary now m) t) =
  Ok (true, put (fail_message code at_ (claim_ordinary now m)) (put (claim_ordinary now m) t)).
Proof.
  intros Hc. unfold mark_failed. rewrite Hc. cbn [mbind res_bind]. rewrite require_utc_aware.
  cbn [mbind res_bind]. unfold put at 1.
  change (row_id (claim_ordinary now m)) with (Msg.id m). rewrite lookup_insert_eq. done.
Qed.

Lemma put_put {R} `{Keyed R} (r r' : R) t : row_id r = row_id r' → put r (put r' t) = put r t.
Proof. intros He. unfold put. rewrite He. apply insert_insert_eq. Qed.

Lemma validate_types types :
  types ≠ [] → Forall (λ n, fullmatch SNAKE_CASE_PATTERN n = true ∧ (length n ≤ 100)%nat) types →
  validate_event_types (PTuple (PStr <$> types)) = Ok (Some types).
Proof.
  intros Hne Hall. unfold validate_event_types.
  destruct types as [|n ns]; [done|]. cbn [fmap list_fmap].
  match goal with |- traverse ?f ?l ≫= _ = _ => assert (traverse f l = Ok (n :: ns)) as -> end; [|done].
  apply traverse_Forall2. change (Forall2 (λ x y, validate_pattern SNAKE_CASE_PATTERN (Some 100%nat) "event_types must contain safe event names" x = Ok y) (PStr <$> (n :: ns)) (n :: ns)).
  apply Forall2_fmap_l, Forall_Forall2_diag. eapply Forall_impl; [exact Hall|].
  intros s Hs. apply type_name_iff. split; [done|exact Hs].
Qed.

(** The claim of a batch of one. *)
Lemma claim_one v max clock locked types t ms t1 :
  repository_max_attempts v = Ok max → table_ok t →
  claim_batch max clock locked (PInt 1) None (PTuple (PStr <$> types)) t = Ok (ms, t1) →
  types ≠ [] → Forall (λ n, fullmatch SNAKE_CASE_PATTERN n = true ∧ (length n ≤ 100)%nat) types →
  (ms = [] ∧ ∀ k m, t !! k = Some m → k ∉ locked →
     batch_claimable max (Some types) clock t m = false) ∨
  ∃ m, ms = [claim_ordinary clock m] ∧ t1 = put (claim_ordinary clock m) t ∧
    t !! Msg.id m = Some m ∧ Msg.id m ∉ locked ∧ batch_claimable max (Some types) clock t m = true.
Proof.
  intros Hmax Hok H Hne Hall. unfold claim_batch in H. rewrite (validate_types _ Hne Hall) in H.
  cbn [mbind res_bind or_default default] in H. rewrite require_utc_aware in H.
  cbn [mbind res_bind] in H. apply bind_Ok in H as (l & Hl & H).
  apply validate_int_range_Ok in Hl as [[= <-] _]. injection H as <- <-.
  remember (select_for_update _ _ _ _ _) as sel eqn:Hsel.
  pose proof (length_select_for_update locked (batch_claimable max (Some types) clock t)
    batch_order 1 t ltac:(lia)) as Hlen. rewrite <-Hsel in Hlen.
  assert (Hin : ∀ m, m ∈ sel → t !! Msg.id m = Some m ∧ Msg.id m ∉ locked ∧
    batch_claimable max (Some types) clock t m = true).
  { intros m Hm. rewrite Hsel in Hm. by apply elem_of_select_for_update in Hm as (? & ? & ?). }
  destruct sel as [|m [|? ?]]; [left|right|cbn in Hlen; lia].
  - split; [done|]. intros k m Hk Hl. apply not_true_iff_false. intros Hc.
    pose proof (Hok _ _ Hk) as <-.
    destruct (select_for_update_prefix locked _ batch_order 1 t m Hok Hc Hk Hl) as [Hm|[Hn _]];
      rewrite <-Hsel in *; [by apply not_elem_of_nil in Hm|done].
  - exists m. destruct (Hin m) as (? & ? & ?); [by left|]. by split_and!.
Qed.

(** ** Properties *)

(** One call of the internal worker is atomic and never fails: with
    validated settings and registered names of at most 100 characters it either
    finds nothing to do and changes nothing, or takes one waiting event of its
    types whose predecessors are published, and commits exactly one of two
    results - the handler's changes together with the published row, or, if the
    stored event is invalid or the handler raises, none of the handler's changes
    and the row failed with the stable error code, due again at least one second
    later. In both cases the attempt is counted. *)
Theorem internal_worker_atomic handlers types s0 settings uniform clock retry_now done_now locked d t :
  worker_event_types handlers = Ok types → Forall (λ n, (length n ≤ 100)%nat) types →
  validate_settings s0 = Ok settings → table_ok t → (∀ k m, t !! k = Some m → row_ok m) →
  let run := process_one types settings uniform clock retry_now done_now locked (d, t) in
  run = Ok (false, (d, t)) ∨
  ∃ m m' d', run = Ok (true, (d', <[Msg.id m := m']> t)) ∧ t !! Msg.id m = Some m ∧
    batch_claimable (max_attempts settings) (Some types) clock t m = true ∧
    Msg.attempts m' = Msg.attempts m + 1 ∧ Msg.claimed_at m' = None ∧
    match event ← to_event m; handle (Msg.event_type m) event d with
    | Ok d1 => d' = d1 ∧ Msg.status m' = PUBLISHED ∧ Msg.published_at m' = Some done_now
    | Err _ => d' = d ∧ Msg.status m' = FAILED ∧ retry_now + seconds 1 ≤ Msg.available_at m' ∧
               Msg.last_error_code m' = Some (lit "internal_handler_failed")
    end.
Proof.
  intros Hty Hlen (-> & Hset & _)%validate_settings_Ok Hok Hrow run.
  unfold worker_event_types in Hty. res_inv. injection Hty as ->. bool_inv.
  assert (Hall : Forall (λ n, fullmatch SNAKE_CASE_PATTERN n = true ∧ (length n ≤ 100)%nat) types).
  { apply Forall_and. split; [|done]. apply Forall_forall. intros n Hn.
    match goal with H : forallb _ _ = true |- _ => apply (proj1 (forallb_forall _ _) H) end.
    by apply list_elem_of_In. }
  unfold run, process_one.
  assert (Hmax : repository_max_attempts (PInt (max_attempts s0)) = Ok (max_attempts s0)).
  { unfold repository_max_attempts, validate_int_range. cbn [as_int].
    rewrite (proj2 (Z.leb_le 1 _)), (proj2 (Z.leb_le _ 100)) by lia. done. }
  rewrite Hmax. cbn [mbind res_bind].
  destruct (claim_batch _ _ _ _ _ _ t) as [[ms t1]|e] eqn:Hc.
  2: { exfalso. unfold claim_batch in Hc. rewrite validate_types in Hc by done.
       cbn [mbind res_bind] in Hc. change (or_default None (aware clock)) with (aware clock) in Hc.
       rewrite require_utc_aware in Hc. done. }
  destruct (claim_one _ _ _ _ _ _ _ _ Hmax Hok Hc) as [[-> _]|(m & -> & -> & Hm & _ & Hcl)]; [done..|by left|].
  right. exists m. cbn [mbind res_bind].
  assert (Htok : Msg.claim_token m = None) by (unfold batch_claimable in Hcl; by bool_inv).
  change (Msg.event_type (claim_ordinary clock m)) with (Msg.event_type m).
  change (Msg.id (claim_ordinary clock m)) with (Msg.id m).
  change (to_event (claim_ordinary clock m)) with (to_event m).
  destruct (to_event m ≫= _) as [d1|e].
  - rewrite (mark_published_claimed _ _ _ _ Htok), put_put by done.
    do 2 eexists. split_and!; done.
  - unfold next_delay. destruct (Hrow _ _ Hm) as [_ Hatt _ _ _ _].
    change (Msg.attempts (claim_ordinary clock m)) with (Z.succ (Msg.attempts m)).
    rewrite (proj2 (Z.ltb_ge _ _)) by lia. cbn [negb require mbind res_bind].
    rewrite mark_failed_claimed, put_put by done. cbn [mbind res_bind require].
    do 2 eexists. split_and!; try done. cbn. lia.
Qed.
End internal.

Definition demo_row : Msg.t :=
  Msg.New 1 11 (lit "k1") (lit "order_placed") (lit "order") 9 1 (seconds 100)
    [(PStr (lit "total"), PInt 5)] PENDING 0 (seconds 100) None None None None None None ∅ 5 None.

Lemma demo_row_ok : row_ok demo_row.
Proof. split; cbn; try lia; try (by split; intros []); try (split; [by intros []|done]). by intros []. Qed.

Lemma internal_worker_atomic_witness :
  ∃ m m' d', process_one (D:=Z) (λ _ _ d, Ok (d + 1)) [lit "order_placed"] default_settings
      (λ c, seconds c) (seconds 500) (seconds 501) (seconds 502) ∅ (0, {[1 := demo_row]})
    = Ok (true, (d', <[Msg.id m := m']> {[1 := demo_row]})) ∧ Msg.status m' = PUBLISHED.
Proof.
  destruct (internal_worker_atomic (D:=Z) (λ _ _ d, Ok (d + 1)) [lit "order_placed"]
    [lit "order_placed"] default_settings default_settings (λ c, seconds c) (seconds 500)
    (seconds 501) (seconds 502) ∅ 0 {[1 := demo_row]})
    as [H|(m & m' & d' & H & Hm & _ & _ & _ & Hres)].
  - vm_compute. reflexivity.
  - repeat constructor; cbn; lia.
  - vm_compute. reflexivity.
  - intros k r [<- <-]%lookup_singleton_Some. reflexivity.
  - intros k r [<- <-]%lookup_singleton_Some. apply demo_row_ok.
  - exfalso. revert H. vm_compute. discriminate.
  - exists m, m', d'. split; [exact H|]. apply lookup_singleton_Some in Hm as [_ <-].
    vm_compute in Hres. exact (proj1 (proj2 Hres)).
Defined.
