(* ===== verification/UnitOfWork.v ===== *)
(** * The unit of work (db/uow.py)

    One transaction boundary: the session's uncommitted work, the callbacks
    queued for the next successful commit, and what entering, committing,
    rolling back and leaving do to them. *)

From S2P Require Import Prelude.

Section uow.
(** [D] is the content of the database; a callback is known by a number. *)
Context {D : Type}.

(** What a call on the session or a callback does: it returns, or it raises. *)
Abbreviation answer := (option pyexn).

Record Session := NewSession { working : D; in_transaction : bool }.

Record uow := Uow {
  session : option Session;
  callbacks : list Z;
  used : bool;
  needs_rollback : bool;
  committed : D;
  log : list Z }.

#[local] Instance uow_settable : Settable uow := λ u,
  Uow (session u) (callbacks u) (used u) (needs_rollback u) (committed u) (log u).

(** A new instance on a database with the content [d]. *)
Definition new_uow (d : D) : uow := Uow None [] false false d [].

Definition not_active : pyexn := RuntimeError "unit of work is not active".

Definition get_session (u : uow) : res pyexn Session :=
  match session u with Some s => Ok s | None => Err not_active end.

(** [__aenter__]. *)
Definition enter (u : uow) : res pyexn unit * uow :=
  if used u then (Err (RuntimeError "unit of work instances cannot be reused"), u)
  else (Ok tt, u <| used := true |>
                 <| session := Some (NewSession (committed u) false) |>
                 <| needs_rollback := true |>).

(** The caller's own work through the session, inside its transaction. *)
Definition work (f : D → D) (u : uow) : res pyexn unit * uow :=
  match get_session u with
  | Err e => (Err e, u)
  | Ok s => (Ok tt, u <| session := Some (NewSession (f (working s)) true) |>)
  end.

Definition answered (a : answer) : res pyexn unit :=
  match a with None => Ok tt | Some e => Err e end.

(** [session.rollback()]: the uncommitted work is gone. *)
Definition discard (u : uow) : uow :=
  u <| session := (λ _, NewSession (committed u) false) <$> session u |>.

(** [__aexit__]. *)
Definition exit (rollback_answer close_answer : answer) (u : uow) : res pyexn unit * uow :=
  match get_session u with
  | Err e => (Err e, u)
  | Ok s =>
      let rolled := needs_rollback u || in_transaction s in
      let u := if rolled then discard u else u in
      let u := u <| callbacks := [] |> <| session := None |> <| needs_rollback := false |> in
      (match close_answer with
       | Some e => Err e
       | None => if rolled then answered rollback_answer else Ok tt
       end, u)
  end.

(** The queued callbacks, one after the other; the first that raises ends the
    loop. [fails] says which ones raise. *)
Fixpoint invoke (fails : Z → answer) (cs : list Z) (u : uow) : res pyexn unit * uow :=
  match cs with
  | [] => (Ok tt, u)
  | c :: cs =>
      let u := u <| log ::= λ l, l ++ [c] |> in
      match fails c with Some e => (Err e, u) | None => invoke fails cs u end
  end.

Definition commit (fails : Z → answer) (commit_answer : answer) (u : uow) : res pyexn unit * uow :=
  match get_session u with
  | Err e => (Err e, u)
  | Ok s =>
      match commit_answer with
      | Some e => (Err e, u)
      | None =>
          let u := u <| committed := working s |>
                     <| session := Some (NewSession (working s) false) |>
                     <| needs_rollback := false |> in
          let cs := callbacks u in
          invoke fails cs (u <| callbacks := [] |>)
      end
  end.

Definition rollback (rollback_answer : answer) (u : uow) : res pyexn unit * uow :=
  match get_session u with
  | Err e => (Err e, u)
  | Ok s =>
      let u := discard u <| callbacks := [] |> in
      match rollback_answer with
      | Some e => (Err e, u)
      | None => (Ok tt, u <| needs_rollback := false |>)
      end
  end.

Definition after_commit (is_callable : bool) (c : Z) (u : uow) : res pyexn unit * uow :=
  match session u with
  | None => (Err not_active, u)
  | Some _ =>
      if negb is_callable then (Err (TypeError "post-commit callback must be callable"), u)
      else (Ok tt, u <| callbacks ::= λ cs, cs ++ [c] |>)
  end.

(** ** Calls *)

Inductive call :=
| Enter
| Work (f : D → D)
| AfterCommit (is_callable : bool) (c : Z)
| Commit (commit_answer : answer)
| Rollback (rollback_answer : answer)
| Exit (rollback_answer close_answer : answer).

Context (fails : Z → answer).

Definition perform (x : call) (u : uow) : res pyexn unit * uow :=
  match x with
  | Enter => enter u
  | Work f => work f u
  | AfterCommit ok c => after_commit ok c u
  | Commit a => commit fails a u
  | Rollback a => rollback a u
  | Exit a b => exit a b u
  end.

(** The state after a sequence of calls; the caller may go on after an
    exception. *)
Definition performs (xs : list call) (u : uow) : uow := foldl (λ u x, (perform x u).2) u xs.

(** The callbacks registered, and the work done, by a sequence of calls. *)
Definition registered (xs : list call) : list Z :=
  omap (λ x, match x with AfterCommit true c => Some c | _ => None end) xs.
Definition worked (xs : list call) (d : D) : D :=
  foldl (λ d x, match x with Work f => f d | _ => d end) d xs.

(** The callbacks up to the first one that raises. *)
Fixpoint invoked (cs : list Z) : list Z :=
  match cs with
  | [] => []
  | c :: cs => c :: if fails c then [] else invoked cs
  end.

(** ** Lemmas *)

Definition logged (cs : list Z) (u : uow) : uow := u <| log ::= λ l, l ++ cs |>.

Lemma invoke_state cs u : (invoke fails cs u).2 = logged (invoked cs) u.
Proof.
  revert u. induction cs as [|c cs IH]; intros u; cbn.
  - destruct u. unfold logged. cbn. by rewrite app_nil_r.
  - destruct (fails c); [done|]. rewrite IH. destruct u. unfold logged. cbn. by rewrite <-app_assoc.
Qed.

Lemma invoked_prefix cs : invoked cs `sublist_of` cs.
Proof.
  induction cs as [|c cs IH]; cbn; [constructor|]. apply sublist_skip.
  destruct (fails c); [apply sublist_nil_l|done].
Qed.

Lemma performs_app xs ys u : performs (xs ++ ys) u = performs ys (performs xs u).
Proof. apply foldl_app. Qed.

(** What a call may do with the pending callbacks and the log. *)
Lemma perform_callbacks x u : let u' := (perform x u).2 in
  log u' ++ callbacks u' `sublist_of`
    (log u ++ callbacks u) ++ (match x with AfterCommit true c => [c] | _ => [] end).
Proof.
  assert (Hid : ∀ l, log u ++ callbacks u `sublist_of` (log u ++ callbacks u) ++ l)
    by (intros l; by apply sublist_inserts_r).
  assert (Hclear : ∀ l, log u ++ [] `sublist_of` (log u ++ callbacks u) ++ l).
  { intros l. apply sublist_inserts_r, sublist_app; [done|apply sublist_nil_l]. }
  destruct x as [|f|ok c|a|a|a b]; cbn.
  - unfold enter. by destruct (used u).
  - unfold work. by destruct (get_session u).
  - unfold after_commit. destruct (session u); [|apply Hid]. destruct ok; [|apply Hid].
    cbn. by rewrite app_assoc.
  - unfold commit. destruct (get_session u); [|apply Hid]. destruct a; [apply Hid|].
    rewrite invoke_state. cbn. rewrite !app_nil_r.
    apply sublist_app; [done|apply invoked_prefix].
  - unfold rollback. destruct (get_session u); [|apply Hid]. destruct a; apply Hclear.
  - unfold exit. destruct (get_session u); [|apply Hid]. by destruct (_ || _).
Qed.

(** The content of the database changes only at a successful commit. *)
Lemma perform_committed x u :
  (∀ a, x = Commit a → a ≠ None) →
  committed (perform x u).2 = committed u ∧ log (perform x u).2 = log u.
Proof.
  intros Hx. destruct x as [|f|ok c|a|a|a b]; cbn.
  - unfold enter. by destruct (used u).
  - unfold work. by destruct (get_session u).
  - unfold after_commit. destruct (session u); [|done]. by destruct ok.
  - unfold commit. destruct (get_session u); [|done]. destruct a; [done|]. by destruct (Hx None).
  - unfold rollback. destruct (get_session u); [|done]. by destruct a.
  - unfold exit. destruct (get_session u); [|done]. by destruct (_ || _).
Qed.

Definition uncommitting (x : call) : bool :=
  match x with Commit None => false | _ => true end.

Lemma performs_committed xs u :
  forallb uncommitting xs = true →
  committed (performs xs u) = committed u ∧ log (performs xs u) = log u.
Proof.
  revert u. induction xs as [|x xs IH]; intros u Hx; [done|]. cbn in Hx. bool_inv.
  unfold performs. cbn [foldl]. destruct (IH (perform x u).2) as [Hc Hl]; [done|].
  unfold performs in Hc, Hl. rewrite Hc, Hl. apply perform_committed. intros a -> ->. done.
Qed.

(** Work and registrations in an open unit of work only queue up. *)
Definition queueing (x : call) : bool :=
  match x with Work _ | AfterCommit _ _ => true | _ => false end.

Lemma perform_queueing x u s :
  queueing x = true → session u = Some s →
  ∃ b, (perform x u).2 =
    u <| session := Some (NewSession (worked [x] (working s)) b) |>
      <| callbacks ::= λ cs, cs ++ registered [x] |>.
Proof.
  destruct u as [se cs us nr co lo]. cbn. intros Hx ->.
  destruct x as [|f|[] c| | |]; try done; cbn.
  - exists true. by rewrite app_nil_r.
  - exists (in_transaction s). by destruct s.
  - exists (in_transaction s). rewrite app_nil_r. by destruct s.
Qed.

Lemma performs_queueing xs u s :
  forallb queueing xs = true → session u = Some s →
  ∃ b, performs xs u =
    u <| session := Some (NewSession (worked xs (working s)) b) |>
      <| callbacks ::= λ cs, cs ++ registered xs |>.
Proof.
  revert u s. induction xs as [|x xs IH]; intros u s Hx Hs.
  - exists (in_transaction s). destruct u, s. cbn in *. subst. cbn. by rewrite app_nil_r.
  - cbn in Hx. bool_inv. destruct (perform_queueing x u s) as [b Hb]; [done..|].
    unfold performs. cbn [foldl]. rewrite Hb.
    set (u2 := setter callbacks _ _).
    destruct (IH u2 (NewSession (worked [x] (working s)) b) ltac:(done) eq_refl) as [b' Hb'].
    unfold performs in Hb'. exists b'. rewrite Hb'. destruct u. cbn.
    f_equal. rewrite <-app_assoc. f_equal. by destruct x as [|f|[] c| | |].
Qed.

(** ** Properties *)

(** C18: All or nothing: the work done in a unit of work becomes durable, and its
    callbacks run, exactly when it is committed. Work and registrations followed
    by a successful commit make the work durable and run the callbacks in the
    order of registration up to the first that raises; whatever follows without
    another successful commit - more work, rollbacks, failing commits, leaving
    with or without an error - adds nothing. Without the commit, leaving
    changes nothing and runs nothing. *)
Theorem uow_all_or_nothing xs ys d ra ca :
  forallb queueing xs = true → forallb uncommitting ys = true →
  let kept := performs (Enter :: xs ++ Commit None :: ys ++ [Exit ra ca]) (new_uow d) in
  let lost := performs (Enter :: xs ++ ys ++ [Exit ra ca]) (new_uow d) in
  committed kept = worked xs d ∧ log kept = invoked (registered xs) ∧
  committed lost = d ∧ log lost = [].
Proof.
  intros Hx Hy. assert (Hend : forallb uncommitting (ys ++ [Exit ra ca]) = true)
    by (by rewrite forallb_app, Hy).
  set (u1 := (perform Enter (new_uow d)).2).
  destruct (performs_queueing xs u1 (NewSession d false) Hx eq_refl) as [b Hb].
  cbn zeta. change (performs (Enter :: ?l) (new_uow d)) with (performs l u1).
  rewrite !(performs_app xs), Hb. split_and!.
  - change (performs (Commit None :: ?l) ?u) with (performs l (perform (Commit None) u).2).
    rewrite (proj1 (performs_committed _ _ Hend)). cbn [perform commit].
    unfold commit. cbn [get_session session setter]. cbn. by rewrite invoke_state.
  - change (performs (Commit None :: ?l) ?u) with (performs l (perform (Commit None) u).2).
    rewrite (proj2 (performs_committed _ _ Hend)). unfold perform, commit. cbn.
    by rewrite invoke_state.
  - by rewrite (proj1 (performs_committed _ _ Hend)).
  - by rewrite (proj2 (performs_committed _ _ Hend)).
Qed.

(** Callbacks run at most once and in order: over any sequence of calls,
    successful or not, the callbacks that have run and those still queued are
    some of the registered ones, in the order of registration; and nothing but
    a successful commit runs any or changes the database. *)
Theorem uow_callbacks_once xs d :
  let u := performs xs (new_uow d) in
  log u ++ callbacks u `sublist_of` registered xs ∧
  (forallb uncommitting xs = true → log u = [] ∧ committed u = d).
Proof.
  split.
  - induction xs as [|x xs IH] using rev_ind; [done|].
    rewrite performs_app. unfold registered. rewrite omap_app.
    etrans; [apply perform_callbacks|]. apply sublist_app; [exact IH|].
    by destruct x as [|f|[] c| | |].
  - intros Hx. by destruct (performs_committed xs (new_uow d) Hx).
Qed.
End uow.

Lemma uow_all_or_nothing_witness :
  let raising (c : Z) := if c =? 8 then Some HandlerError else None in
  let body := [Work (Z.add 1); AfterCommit true 7; AfterCommit true 8; AfterCommit true 9] in
  let kept := performs raising (Enter :: body ++ Commit None :: [Work (Z.add 5)] ++ [Exit None None])
                (new_uow 10) in
  committed kept = 11 ∧ log kept = [7; 8].
Proof.
  cbn zeta. destruct (uow_all_or_nothing (λ c, if c =? 8 then Some HandlerError else None)
    [Work (Z.add 1); AfterCommit true 7; AfterCommit true 8; AfterCommit true 9] [Work (Z.add 5)]
    10 None None) as (H1 & H2 & _); [reflexivity|reflexivity|].
  split; [exact H1|exact H2].
Defined.

Lemma uow_callbacks_once_witness :
  log (performs (λ _, None) [Enter; Work (Z.add 1); AfterCommit true 7; Exit None None] (new_uow 10)) = [] ∧
  committed (performs (λ _, None) [Enter; Work (Z.add 1); AfterCommit true 7; Exit None None] (new_uow 10)) = 10.
Proof.
  apply (proj2 (uow_callbacks_once (λ _, None)
    [Enter; Work (Z.add 1); AfterCommit true 7; Exit None None] 10)). reflexivity.
Defined.
