(* ===== verification/Errors.v ===== *)
(** * Application errors and their HTTP rendering
    (core/errors.py, users/errors.py, api/errors.py, api/health_errors.py)

    The contract that each error class declares, the checks of its constructor,
    and the responses that the three exception handlers build. *)

From S2P Require Import Prelude Regex PyValues CoreTypes AuditTrail.

(** ** Error classes *)

(** The class attributes of a subclass of [ApplicationError]. *)
Record error_class := Class {
  class_name : string;
  status_code : pyval;
  code : pyval;
  message : pyval }.

Definition ApplicationError : error_class := Class "ApplicationError" (PInt 400) (PStr (lit "application_error"))
  (PStr (lit "The request could not be processed.")).
Definition NotFoundError : error_class := Class "NotFoundError" (PInt 404) (PStr (lit "not_found"))
  (PStr (lit "The requested resource was not found.")).
Definition ConflictError : error_class := Class "ConflictError" (PInt 409) (PStr (lit "conflict"))
  (PStr (lit "The request conflicts with the current state.")).
Definition ForbiddenError : error_class := Class "ForbiddenError" (PInt 403) (PStr (lit "permission_denied"))
  (PStr (lit "This operation is not permitted.")).
Definition AuthenticationError : error_class := Class "AuthenticationError" (PInt 401) (PStr (lit "authentication_required"))
  (PStr (lit "Authentication is required.")).
Definition ValidationError : error_class := Class "ValidationError" (PInt 422) (PStr (lit "validation_failed"))
  (PStr (lit "The request is invalid.")).
Definition RateLimitError : error_class := Class "RateLimitError" (PInt 429) (PStr (lit "rate_limit_exceeded"))
  (PStr (lit "Too many attempts. Please try again later.")).
Definition DependencyUnavailableError : error_class := Class "DependencyUnavailableError" (PInt 503) (PStr (lit "dependency_unavailable"))
  (PStr (lit "A required service is temporarily unavailable.")).
Definition InvalidEmailError : error_class := Class "InvalidEmailError" (PInt 422) (PStr (lit "invalid_email"))
  (PStr (lit "Enter a valid email address.")).
Definition AuthenticationRequiredError : error_class := Class "AuthenticationRequiredError" (PInt 401) (PStr (lit "authentication_required"))
  (PStr (lit "Authentication is required.")).
Definition InvalidPasswordLengthError : error_class := Class "InvalidPasswordLengthError" (PInt 422) (PStr (lit "invalid_password"))
  (PStr (lit "Use a password of 15 to 128 characters.")).
Definition InvalidChallengeError : error_class := Class "InvalidChallengeError" (PInt 401) (PStr (lit "invalid_challenge"))
  (PStr (lit "Verification could not be completed.")).
Definition EmailVerificationUnavailableError : error_class := Class "EmailVerificationUnavailableError" (PInt 503) (PStr (lit "email_unavailable"))
  (PStr (lit "Email verification is unavailable.")).
Definition CommonPasswordError : error_class := Class "CommonPasswordError" (PInt 422) (PStr (lit "unsafe_password"))
  (PStr (lit "Choose a less common password or a longer unique passphrase.")).
Definition BreachedPasswordError : error_class := Class "BreachedPasswordError" (PInt 422) (PStr (lit "unsafe_password"))
  (PStr (lit "Choose a password that has not appeared in known data breaches.")).
Definition InvalidPasswordEncodingError : error_class := Class "InvalidPasswordEncodingError" (PInt 422) (PStr (lit "invalid_password"))
  (PStr (lit "Use valid Unicode characters.")).
Definition PasswordCheckUnavailableError : error_class := Class "PasswordCheckUnavailableError" (PInt 503) (PStr (lit "password_check_unavailable"))
  (PStr (lit "Password safety checking is temporarily unavailable. Please try again.")).
Definition UntrustedOriginError : error_class := Class "UntrustedOriginError" (PInt 403) (PStr (lit "untrusted_origin"))
  (PStr (lit "This request origin is not allowed.")).
Definition InvalidCredentialsError : error_class := Class "InvalidCredentialsError" (PInt 401) (PStr (lit "invalid_credentials"))
  (PStr (lit "Sign-in could not be completed.")).
Definition IdentityRateLimitExceededError : error_class := Class "IdentityRateLimitExceededError" (PInt 429) (PStr (lit "rate_limit_exceeded"))
  (PStr (lit "Too many attempts. Please try again later.")).
Definition ProfileRateLimitExceededError : error_class := Class "ProfileRateLimitExceededError" (PInt 429) (PStr (lit "profile_rate_limit_exceeded"))
  (PStr (lit "Too many profile changes. Please try again later.")).
Definition IdentityUnavailableError : error_class := Class "IdentityUnavailableError" (PInt 503) (PStr (lit "identity_unavailable"))
  (PStr (lit "Authentication is temporarily unavailable.")).
Definition AuthenticationRequestTooLargeError : error_class := Class "AuthenticationRequestTooLargeError" (PInt 422) (PStr (lit "request_too_large"))
  (PStr (lit "Authentication request is too large.")).
Definition PermissionDeniedError : error_class := Class "PermissionDeniedError" (PInt 403) (PStr (lit "permission_denied"))
  (PStr (lit "This operation is not permitted.")).
Definition ReauthenticationRequiredError : error_class := Class "ReauthenticationRequiredError" (PInt 401) (PStr (lit "reauthentication_required"))
  (PStr (lit "Please authenticate again.")).
Definition UserNotFoundError : error_class := Class "UserNotFoundError" (PInt 404) (PStr (lit "user_not_found"))
  (PStr (lit "User not found.")).
Definition UnverifiedAdminError : error_class := Class "UnverifiedAdminError" (PInt 409) (PStr (lit "unverified_admin"))
  (PStr (lit "Verify this account before assigning administration.")).
Definition LastActiveAdminError : error_class := Class "LastActiveAdminError" (PInt 409) (PStr (lit "last_active_admin"))
  (PStr (lit "The final active administrator must remain.")).
Definition BootstrapConflictError : error_class := Class "BootstrapConflictError" (PInt 409) (PStr (lit "bootstrap_conflict"))
  (PStr (lit "Use the authenticated administration workflow.")).
Definition BootstrapCompleteError : error_class := Class "BootstrapCompleteError" (PInt 409) (PStr (lit "bootstrap_complete"))
  (PStr (lit "Initial administration already exists.")).
Definition AddressNotFoundError : error_class := Class "AddressNotFoundError" (PInt 404) (PStr (lit "address_not_found"))
  (PStr (lit "Address not found.")).
Definition AddressLimitReachedError : error_class := Class "AddressLimitReachedError" (PInt 409) (PStr (lit "address_limit"))
  (PStr (lit "The saved address limit has been reached.")).
Definition InvalidAuditFiltersError : error_class := Class "InvalidAuditFiltersError" (PInt 422) (PStr (lit "invalid_audit_filters"))
  (PStr (lit "Audit filters are invalid.")).
Definition ExternalLoginFailedError : error_class := Class "ExternalLoginFailedError" (PInt 401) (PStr (lit "external_login_failed"))
  (PStr (lit "External sign-in could not be completed.")).
Definition FinalLoginMethodError : error_class := Class "FinalLoginMethodError" (PInt 409) (PStr (lit "final_login_method"))
  (PStr (lit "The final login method cannot be removed.")).
Definition ProviderAlreadyLinkedError : error_class := Class "ProviderAlreadyLinkedError" (PInt 409) (PStr (lit "provider_already_linked"))
  (PStr (lit "This provider is already linked.")).
Definition ServiceNotReadyError : error_class := Class "ServiceNotReadyError" (PInt 503) (PStr (lit "service_not_ready"))
  (PStr (lit "Service is not ready")).

(** ** Details *)

Definition UNSAFE_DETAIL_KEY_PARTS : list str :=
  lit <$> ["authorization"; "body"; "connection"; "cookie"; "credential"; "password"; "payload";
           "raw"; "secret"; "token"].
Definition MAX_DETAIL_DEPTH : Z := 6.
Definition MAX_DETAIL_ITEMS : Z := 100.
Definition MAX_DETAIL_STRING_LENGTH : Z := 1000.

(** [part in text]. *)
Fixpoint starts_with (part text : str) : bool :=
  match part, text with
  | [], _ => true
  | _ :: _, [] => false
  | p :: ps, c :: cs => (p =? c)%N && starts_with ps cs
  end.

Fixpoint contains (part text : str) : bool :=
  starts_with part text || match text with [] => false | _ :: cs => contains part cs end.

Definition ends_with (part text : str) : bool := starts_with (reverse part) (reverse text).

Definition validate_detail_key (key : pyval) : res pyexn str :=
  match key with
  | PStr s =>
      let normalized := (λ c, if (c =? 45)%N then 95%N else c) <$> casefold s in
      require (negb (existsb (λ part, contains part normalized) UNSAFE_DETAIL_KEY_PARTS))
        (ValueError "error details contain a sensitive key");;
      Ok s
  | _ => Err (TypeError "error detail keys must be strings")
  end.

Fixpoint normalize_json_value (value : pyval) (depth budget : Z) {struct value}
    : res pyexn (aval * Z) :=
  require (negb (MAX_DETAIL_DEPTH <? depth))
    (ValueError "error details exceed the maximum nesting depth");;
  let budget := budget - 1 in
  require (negb (budget <? 0)) (ValueError "error details contain too many values");;
  match value with
  | PNone => Ok (ANull, budget)
  | PBool b => Ok (ABool b, budget)
  | PInt z => Ok (AInt z, budget)
  | PFloat f =>
      require (isfinite f) (ValueError "error details must contain finite numbers");;
      Ok (AFloat f, budget)
  | PStr s =>
      require (negb (MAX_DETAIL_STRING_LENGTH <? Z.of_nat (length s)))
        (ValueError "error detail strings must not exceed 1000 characters");;
      Ok (AStr s, budget)
  | PList l | PTuple l =>
      '(js, budget) ← thread (λ item budget, normalize_json_value item (depth + 1) budget) l budget;
      Ok (AList js, budget)
  | PDict kvs =>
      '(m, budget) ← thread (λ kv budget,
          key ← validate_detail_key kv.1;
          '(j, budget) ← normalize_json_value kv.2 (depth + 1) budget;
          Ok ((key, j), budget)) kvs budget;
      Ok (ADict m, budget)
  | _ => Err (TypeError "error details must contain only JSON-safe values")
  end.

Definition normalize_details (details : list (pyval * pyval)) : res pyexn (list (str * aval)) :=
  '(m, _) ← thread (λ kv budget,
      key ← validate_detail_key kv.1;
      '(j, budget) ← normalize_json_value kv.2 1 budget;
      Ok ((key, j), budget)) details MAX_DETAIL_ITEMS;
  Ok m.

(** ** Construction *)

(** An instance; [retry_after] is set by the two rate limit classes. *)
Record app_error := AppError {
  err_class : error_class;
  err_status : Z;
  err_code : str;
  err_message : str;
  err_details : list (str * aval);
  err_retry_after : option Z }.

Definition unsafe_line (s : str) : bool :=
  existsb (λ c, bool_decide (c ∈ [13; 10; 0]%N)) s.

(** [ApplicationError.__init__]. *)
Definition application_error (c : error_class) (details : pyval) : res pyexn app_error :=
  status ← match status_code c with
           | PInt z => Ok z
           | _ => Err (TypeError "error status_code must be an integer")
           end;
  require ((400 <=? status) && (status <=? 599))
    (ValueError "error status_code must be between 400 and 599");;
  code ← validate_pattern SNAKE_CASE_PATTERN None "error code must use lowercase snake case" (code c);
  message ← match message c with
            | PStr s => Ok s
            | _ => Err (TypeError "error message must be a string")
            end;
  require (negb (bool_decide (message = []) || (500 <? Z.of_nat (length message))
                 || unsafe_line message))
    (ValueError "error message must be a single safe line of at most 500 characters");;
  details ← match details with
            | PNone => Ok []
            | PDict kvs => Ok kvs
            | _ => Err (TypeError "error details must be a dictionary")
            end;
  details ← normalize_details details;
  Ok (AppError c status code message details None).

(** The constructor of the two rate limit errors. *)
Definition rate_limit_error (c : error_class) (retry_after : pyval) : res pyexn app_error :=
  retry ← match retry_after with
          | PInt z => Ok z
          | _ => Err (TypeError "retry_after must be an integer")
          end;
  require (negb (retry <? 1)) (ValueError "retry_after must be positive");;
  e ← application_error c (PDict [(PStr (lit "retry_after"), PInt retry)]);
  Ok (AppError (err_class e) (err_status e) (err_code e) (err_message e) (err_details e) (Some retry)).

Definition identity_rate_limit_error (retry_after : pyval) : res pyexn app_error :=
  rate_limit_error IdentityRateLimitExceededError retry_after.
Definition profile_rate_limit_error (retry_after : pyval) : res pyexn app_error :=
  rate_limit_error ProfileRateLimitExceededError retry_after.

(** [ServiceNotReadyError.__init__]; the checks are a dictionary of strings. *)
Definition service_not_ready_error (checks : gmap str str) : res pyexn app_error :=
  require (bool_decide (dom checks = {[lit "postgresql"; lit "redis"]})
           && forallb (λ r, bool_decide (r ∈ [lit "ok"; lit "failed"])) (map_to_list checks).*2)
    (ValueError "readiness checks require only known dependency outcomes");;
  require (existsb (λ r, bool_decide (r = lit "failed")) (map_to_list checks).*2)
    (ValueError "a readiness error requires a failed dependency");;
  application_error ServiceNotReadyError
    (PDict [(PStr (lit "checks"),
             PDict ((λ kv, (PStr kv.1, PStr kv.2)) <$> map_to_list checks))]).

(** [ApplicationError.headers], with its overrides. *)
Definition error_headers (e : app_error) : gmap str str :=
  match err_retry_after e with
  | Some n => {[lit "Retry-After" := int_str n]}
  | None => ∅
  end.

(** ** Responses *)

Definition REQUEST_ID_PATTERN : regex :=
  between 1 128 (Cls [upper; lower; digit; chr "."; chr "_"; chr "-"]).
Definition FIELD_SEGMENT_PATTERN : regex :=
  Seq (Cls [upper; lower; chr "_"]) (between 0 63 (Cls [upper; lower; digit; chr "_"])).

Record request := Request {
  state_request_id : pyval;
  header_request_id : option str;
  fresh_request_id : uuid }.

Definition request_id (r : request) : str :=
  match state_request_id r with
  | PStr s => if fullmatch REQUEST_ID_PATTERN s then s else
      match header_request_id r with
      | Some h => if fullmatch REQUEST_ID_PATTERN h then h else uuid_str (fresh_request_id r)
      | None => uuid_str (fresh_request_id r)
      end
  | _ =>
      match header_request_id r with
      | Some h => if fullmatch REQUEST_ID_PATTERN h then h else uuid_str (fresh_request_id r)
      | None => uuid_str (fresh_request_id r)
      end
  end.

Record response := Response {
  r_status : Z;
  r_code : str;
  r_message : str;
  r_details : list (str * aval);
  r_request_id : str;
  r_headers : gmap str str }.

Definition error_response (r : request) (status : Z) (code message : str)
    (details : list (str * aval)) (request_id_ : option str) : response :=
  let resolved_request_id :=
    match request_id_ with Some ((_ :: _) as s) => s | _ => request_id r end in
  Response status code message details resolved_request_id
    {[lit "X-Request-ID" := resolved_request_id]}.

Definition handle_application_error (r : request) (e : app_error) : response :=
  let response := error_response r (err_status e) (err_code e) (err_message e) (err_details e) None in
  Response (r_status response) (r_code response) (r_message response) (r_details response)
    (r_request_id response)
    (<[lit "Cache-Control" := lit "no-store"]> (error_headers e ∪ r_headers response)).

(** An issue of the framework: its type and its location. *)
Record issue := Issue { error_type : option str; loc : option pyval }.

Definition validation_code_and_message (error_type : str) : str * str :=
  if bool_decide (error_type = lit "missing") then (lit "required", lit "Field is required")
  else if bool_decide (error_type = lit "extra_forbidden")
  then (lit "unexpected_field", lit "Field is not allowed")
  else if ends_with (lit "_parsing") error_type || ends_with (lit "_type") error_type
  then (lit "invalid_type", lit "Value has an invalid type")
  else if existsb (λ part, contains part error_type)
            (lit <$> ["greater_than"; "less_than"; "too_long"; "too_short"])
  then (lit "out_of_range", lit "Value is outside the allowed range")
  else (lit "invalid_value", lit "Value is invalid").

Definition path_segment (segment : pyval) : str :=
  match segment with
  | PInt z => if 0 <=? z then int_str z else lit "field"
  | PStr s => if fullmatch FIELD_SEGMENT_PATTERN s then s else lit "field"
  | _ => lit "field"
  end.

(** ['.'.join(segments)]. *)
Definition dotted (segments : list str) : str :=
  match segments with
  | [] => []
  | s :: ss => s ++ (ss ≫= λ s, 46%N :: s)
  end.

Definition validation_path (location : pyval) : str :=
  match location with
  | PList l | PTuple l =>
      match dotted (path_segment <$> l) with [] => lit "request" | p => p end
  | _ => lit "request"
  end.

Record field_issue := FieldIssue { path : str; issue_code : str; issue_message : str }.

Definition normalize_validation_issue (i : issue) : field_issue :=
  let '(code, message) := validation_code_and_message (default (lit "invalid") (error_type i)) in
  FieldIssue (validation_path (default (PTuple []) (loc i))) code message.

(** Comparison of strings, and of the pairs that are sorted. *)
Definition str_le (a b : str) : bool := lexle (Z.of_N <$> a) (Z.of_N <$> b).
Definition issue_le (a b : field_issue) : Prop :=
  bool_decide (path a ≠ path b) && str_le (path a) (path b)
  || bool_decide (path a = path b) && str_le (issue_code a) (issue_code b).

#[export] Instance issue_le_dec a b : Decision (issue_le a b).
Proof. unfold issue_le. apply _. Defined.

Definition issue_value (i : field_issue) : aval :=
  ADict [(lit "path", AStr (path i)); (lit "code", AStr (issue_code i));
         (lit "message", AStr (issue_message i))].

Definition handle_request_validation_error (r : request) (issues : list issue) : response :=
  let issues := merge_sort issue_le (normalize_validation_issue <$> issues) in
  error_response r 422 (lit "request_validation_failed") (lit "Request validation failed")
    [(lit "fields", AList (issue_value <$> issues))] None.

(** The log line is left out: it holds the request id, the method and the name
    of the exception's type. *)
Definition handle_unexpected_error (r : request) : response :=
  let request_id := request_id r in
  error_response r 500 (lit "internal_error") (lit "An unexpected error occurred") []
    (Some request_id).

(** What the application may raise while it handles a request, and the
    registered handlers. *)
Inductive raised :=
| RaisedApplication (e : app_error)
| RaisedValidation (issues : list issue)
| RaisedOther (description : str).

Definition handle (r : request) (x : raised) : response :=
  match x with
  | RaisedApplication e => handle_application_error r e
  | RaisedValidation issues => handle_request_validation_error r issues
  | RaisedOther _ => handle_unexpected_error r
  end.
