(* ===== verification/ErrorSpecs.v ===== *)
(** * What the error responses expose

    Bounds on the details of an application error, and the contract that every
    response of the three handlers keeps. *)

From S2P Require Import Prelude Regex PyValues CoreTypes AuditTrail AuditSpecs Errors.

(** ** Details *)

Definition normalized_key (s : str) : str := (λ c, if (c =? 45)%N then 95%N else c) <$> casefold s.

Definition detail_key_ok (s : str) : Prop :=
  Forall (λ part, contains part (normalized_key s) = false) UNSAFE_DETAIL_KEY_PARTS.

(** JSON values of bounded depth and strings, without sensitive keys. *)
Fixpoint bounded (d : Z) (a : aval) : Prop :=
  d ≤ MAX_DETAIL_DEPTH ∧
  match a with
  | AFloat f => isfinite f = true
  | AStr s => Z.of_nat (length s) ≤ MAX_DETAIL_STRING_LENGTH
  | AList l => foldr (λ x P, bounded (d + 1) x ∧ P) True l
  | ADict kvs => foldr (λ kv P, (detail_key_ok kv.1 ∧ bounded (d + 1) kv.2) ∧ P) True kvs
  | _ => True
  end.

(** The number of values a value is made of, itself included. *)
Fixpoint values (a : aval) : Z :=
  match a with
  | AList l => 1 + foldr (λ x n, values x + n) 0 l
  | ADict kvs => 1 + foldr (λ kv n, values kv.2 + n) 0 kvs
  | _ => 1
  end.

Definition details_ok (kvs : list (str * aval)) : Prop :=
  Forall (λ kv, detail_key_ok kv.1 ∧ bounded 1 kv.2) kvs ∧
  foldr (λ kv n, values kv.2 + n) 0 kvs ≤ MAX_DETAIL_ITEMS.

Lemma validate_detail_key_Ok key s :
  validate_detail_key key = Ok s → key = PStr s ∧ detail_key_ok s.
Proof.
  destruct key as [| | | |k| | | | | | |]; try done. unfold validate_detail_key. intros H. res_inv. injection H as ->.
  bool_inv. split; [done|]. apply Forall_forall. intros part Hp. apply not_true_iff_false.
  intros Hc. match goal with H : existsb _ _ = false |- _ => apply not_true_iff_false in H; apply H end.
  apply existsb_exists. exists part. split; [by apply list_elem_of_In|exact Hc].
Qed.

Definition bounds (v : pyval) : Prop := ∀ d b a b',
  0 ≤ b → normalize_json_value v d b = Ok (a, b') → bounded d a ∧ 0 ≤ b' ∧ b' = b - values a.

Lemma bounded_list d l : bounded d (AList l) ↔ d ≤ MAX_DETAIL_DEPTH ∧ Forall (bounded (d + 1)) l.
Proof. cbn. by rewrite foldr_and_Forall. Qed.

Lemma bounded_dict d kvs :
  bounded d (ADict kvs) ↔
  d ≤ MAX_DETAIL_DEPTH ∧ Forall (λ kv, detail_key_ok kv.1 ∧ bounded (d + 1) kv.2) kvs.
Proof. cbn. by rewrite foldr_and_Forall. Qed.

(** The two checks that every value passes first. *)
Lemma normalize_guards v d b a b' :
  normalize_json_value v d b = Ok (a, b') → d ≤ MAX_DETAIL_DEPTH ∧ 1 ≤ b.
Proof.
  destruct v; intros H; apply bind_Ok in H as (? & Hd%require_Ok & H);
    apply bind_Ok in H as (? & Hb%require_Ok & _); bool_inv; lia.
Qed.

Lemma normalize_seq_bounds l d b a b' :
  Forall bounds l → 1 ≤ b → d ≤ MAX_DETAIL_DEPTH →
  ('(js, b) ← thread (λ item b, normalize_json_value item (d + 1) b) l (b - 1); Ok (AList js, b))
    = Ok (a, b') →
  bounded d a ∧ 0 ≤ b' ∧ b' = b - values a.
Proof.
  intros Hall Hb Hd H. apply bind_Ok in H as ([js b1] & H & [= <- <-]). rewrite Forall_forall in Hall.
  apply (thread_spend _ values (bounded (d + 1))) in H as (HP & ? & -> & _); [| |lia].
  - rewrite bounded_list. cbn. split_and!; [done..|lia].
  - intros x c y c' Hx Hc Hn. by eapply Hall.
Qed.

Lemma normalize_fields_bounds kvs d b m b' :
  Forall (λ kv, bounds kv.2) kvs → 0 ≤ b →
  thread (λ kv b, key ← validate_detail_key kv.1;
                  '(j, b) ← normalize_json_value kv.2 d b; Ok ((key, j), b)) kvs b = Ok (m, b') →
  Forall (λ kv, detail_key_ok kv.1 ∧ bounded d kv.2) m ∧ 0 ≤ b' ∧
  b' = b - foldr (λ kv n, values kv.2 + n) 0 m.
Proof.
  intros Hall Hb H. rewrite Forall_forall in Hall.
  apply (thread_spend _ (λ kv, values kv.2) (λ kv, detail_key_ok kv.1 ∧ bounded d kv.2)) in H
    as (HP & ? & -> & _); [by split_and!| |done].
  intros kv c [k y] c' Hx Hc Hf. apply bind_Ok in Hf as (k' & [_ Hk]%validate_detail_key_Ok & Hf).
  apply bind_Ok in Hf as ([j c1] & Hj & [= <- <- <-]).
  destruct (Hall _ Hx _ _ _ _ Hc Hj) as (? & ? & ->). done.
Qed.

Lemma normalize_value_bounds v : bounds v.
Proof.
  induction v as [v Hv1 Hv2 Hv3|l IH|l IH|kvs IH] using pyval_nested_ind; intros d b a b' Hb H;
    pose proof (normalize_guards _ _ _ _ _ H) as [Hd Hb1].
  - destruct v as [|x|z|f|s|i|t|t|l|l|kvs|]; try naive_solver;
      apply bind_Ok in H as (? & _ & H); apply bind_Ok in H as (? & _ & H); try discriminate H.
    1-3: injection H as <- <-; cbn; split_and!; done || lia.
    + apply bind_Ok in H as (? & Hf%require_Ok & [= <- <-]). cbn. split_and!; done || lia.
    + apply bind_Ok in H as (? & Hf%require_Ok & [= <- <-]). bool_inv.
      cbn. split_and!; done || lia.
  - apply bind_Ok in H as (? & _ & H); apply bind_Ok in H as (? & _ & H).
    by eapply normalize_seq_bounds.
  - apply bind_Ok in H as (? & _ & H); apply bind_Ok in H as (? & _ & H).
    by eapply normalize_seq_bounds.
  - apply bind_Ok in H as (? & _ & H); apply bind_Ok in H as (? & _ & H).
    apply bind_Ok in H as ([m b1] & H & [= <- <-]).
    apply normalize_fields_bounds in H as (Hm & ? & ->); [|done|lia].
    rewrite bounded_dict. cbn. split_and!; [done..|lia].
Qed.

Lemma normalize_details_ok kvs m : normalize_details kvs = Ok m → details_ok m.
Proof.
  intros H. apply bind_Ok in H as ([m' b'] & H & [= <-]).
  apply normalize_fields_bounds in H as (Hm & Hb & ->); [| |by unfold MAX_DETAIL_ITEMS].
  - split; [done|lia].
  - apply Forall_forall. intros kv _. apply normalize_value_bounds.
Qed.

(** ** Request ids and paths *)

Lemma uuid_request_id i : fullmatch REQUEST_ID_PATTERN (uuid_str i) = true.
Proof.
  apply fullmatch_matches. apply matches_between_cls; [rewrite uuid_str_length; lia|].
  eapply Forall_in_cls_incl; [|apply uuid_str_chars]. by vm_compute.
Qed.

Lemma request_id_safe r : fullmatch REQUEST_ID_PATTERN (request_id r) = true.
Proof.
  unfold request_id. pose proof (uuid_request_id (fresh_request_id r)).
  repeat (case_match; try done).
Qed.

Definition path_char (c : N) : Prop := in_cls [upper; lower; digit; chr "_"; chr "."] c = true.

Lemma digits_chars n z : Forall (λ c, in_cls [digit] c = true) (digits n z).
Proof.
  revert z. induction n as [|n IH]; intros z; cbn; [done|]. apply Forall_app. split; [apply IH|].
  constructor; [|done]. pose proof (Z.mod_pos_bound z 10 ltac:(lia)) as Hz.
  unfold in_cls. cbn [existsb]. rewrite orb_false_r. apply andb_true_iff.
  rewrite !N.leb_le. cbn. lia.
Qed.

Lemma path_segment_chars v : Forall path_char (path_segment v) ∧ path_segment v ≠ [].
Proof.
  assert (Hfield : Forall path_char (lit "field") ∧ lit "field" ≠ [])
    by (split; [repeat constructor; by vm_compute|done]).
  destruct v as [| |z| |s| | | | | | |]; try exact Hfield; unfold path_segment.
  - destruct (Z.leb_spec 0 z); [|exact Hfield]. unfold int_str.
    rewrite (proj2 (Z.ltb_ge z 0)) by lia. cbn [app]. split.
    + eapply Forall_in_cls_incl; [|apply digits_chars]. by vm_compute.
    + intros He. apply (f_equal length) in He. rewrite digits_length in He.
      destruct (Z.to_nat _); cbn in He; [done|]. by destruct (_ <? 10).
  - destruct (fullmatch FIELD_SEGMENT_PATTERN s) eqn:Hs; [|exact Hfield].
    split; [|by apply (fullmatch_nonempty FIELD_SEGMENT_PATTERN)].
    apply fullmatch_matches in Hs. revert Hs. apply matches_chars.
    cbn [all_cls FIELD_SEGMENT_PATTERN]. split.
    + intros c. apply in_cls_incl. by vm_compute.
    + unfold between. split; [apply all_cls_rep|apply all_cls_upto];
        intros c; apply in_cls_incl; by vm_compute.
Qed.

Lemma dotted_chars l : Forall path_char (dotted (path_segment <$> l)).
Proof.
  destruct l as [|v l]; [done|]. cbn. apply Forall_app. split; [apply path_segment_chars|].
  induction l as [|w l IH]; [done|]. cbn. constructor; [by vm_compute|].
  apply Forall_app. split; [apply path_segment_chars|exact IH].
Qed.

Lemma validation_path_chars v : Forall path_char (validation_path v) ∧ validation_path v ≠ [].
Proof.
  assert (Hr : Forall path_char (lit "request") ∧ lit "request" ≠ [])
    by (split; [repeat constructor; by vm_compute|done]).
  destruct v as [| | | | | | | |l|l| |]; try exact Hr; unfold validation_path;
    pose proof (dotted_chars l) as Hl; destruct (dotted _); done.
Qed.

(** ** Properties *)

(** The errors that the code can raise: built by one of the constructors. *)
Definition raisable (x : raised) : Prop :=
  match x with
  | RaisedApplication e =>
      (∃ c d, application_error c d = Ok e) ∨ (∃ c n, rate_limit_error c n = Ok e)
  | _ => True
  end.

Lemma application_error_Ok c d e :
  application_error c d = Ok e →
  400 ≤ err_status e ≤ 599 ∧ fullmatch SNAKE_CASE_PATTERN (err_code e) = true ∧
  (err_message e ≠ [] ∧ Z.of_nat (length (err_message e)) ≤ 500 ∧ unsafe_line (err_message e) = false) ∧
  details_ok (err_details e) ∧ err_retry_after e = None.
Proof.
  unfold application_error. intros H. res_inv. injection H as <-. bool_inv. cbn.
  match goal with H : validate_pattern _ _ _ _ = Ok _ |- _ => apply validate_pattern_Ok in H as (_ & ? & _) end.
  match goal with H : normalize_details _ = Ok _ |- _ => apply normalize_details_ok in H end.
  by split_and!.
Qed.

Lemma rate_limit_error_Ok c v e :
  rate_limit_error c v = Ok e →
  ∃ n e', v = PInt n ∧ 1 ≤ n ∧ application_error c (PDict [(PStr (lit "retry_after"), PInt n)]) = Ok e' ∧
    e = AppError (err_class e') (err_status e') (err_code e') (err_message e') (err_details e') (Some n).
Proof.
  unfold rate_limit_error. intros (n & Hn & H)%bind_Ok. res_inv. injection H as <-. bool_inv.
  destruct v; try done. injection Hn as ->. eauto 10.
Qed.

Lemma raisable_contract e :
  raisable (RaisedApplication e) →
  400 ≤ err_status e ≤ 599 ∧ fullmatch SNAKE_CASE_PATTERN (err_code e) = true ∧
  (err_message e ≠ [] ∧ Z.of_nat (length (err_message e)) ≤ 500 ∧ unsafe_line (err_message e) = false) ∧
  details_ok (err_details e) ∧ ∀ n, err_retry_after e = Some n → 1 ≤ n.
Proof.
  intros [(c & d & He)|(c & v & He)].
  - apply application_error_Ok in He as (? & ? & ? & ? & ->). split_and!; first [done|tauto].
  - apply rate_limit_error_Ok in He as (n & e' & -> & Hn & He & ->).
    apply application_error_Ok in He as (? & ? & ? & ? & _). cbn. split_and!; try done; try tauto.
    by intros ? [= <-].
Qed.

Lemma application_headers r e :
  let h := r_headers (handle_application_error r e) in
  h !! lit "X-Request-ID" = Some (request_id r) ∧
  h !! lit "Cache-Control" = Some (lit "no-store") ∧
  ∀ n, err_retry_after e = Some n → h !! lit "Retry-After" = Some (int_str n).
Proof.
  cbn zeta. unfold handle_application_error. cbn [r_headers error_response].
  assert (Hne : lit "Cache-Control" ≠ lit "X-Request-ID" ∧ lit "Cache-Control" ≠ lit "Retry-After" ∧
    lit "Retry-After" ≠ lit "X-Request-ID") by (by vm_compute).
  destruct Hne as (H1 & H2 & H3). split_and!.
  - rewrite lookup_insert_ne by done. rewrite lookup_union_r; [apply lookup_singleton_eq|].
    unfold error_headers. destruct (err_retry_after e); [by apply lookup_singleton_ne|done].
  - apply lookup_insert_eq.
  - intros n Hn. rewrite lookup_insert_ne by done. unfold error_headers. rewrite Hn.
    apply lookup_union_Some_l, lookup_singleton_eq.
Qed.

(** C40: Whatever the application raises while handling a request, the response
    keeps the public contract: a status from 400 to 599, a snake_case code, a
    single-line message, and a request id of safe characters that is also the
    X-Request-ID header (never an unsafe incoming one). The details of an
    application error hold no sensitive key, at most 100 values, depth 6 and
    strings of 1000 characters; it is not cacheable and a rate limit says when
    to retry. A rejected request is described by paths of safe characters only,
    one entry per issue; of an unexpected exception nothing is shown. *)
Theorem error_responses_safe r x :
  raisable x →
  let resp := handle r x in
  400 ≤ r_status resp ≤ 599 ∧ fullmatch SNAKE_CASE_PATTERN (r_code resp) = true ∧
  (r_message resp ≠ [] ∧ Z.of_nat (length (r_message resp)) ≤ 500 ∧ unsafe_line (r_message resp) = false) ∧
  fullmatch REQUEST_ID_PATTERN (r_request_id resp) = true ∧
  r_headers resp !! lit "X-Request-ID" = Some (r_request_id resp) ∧
  match x with
  | RaisedApplication e =>
      details_ok (r_details resp) ∧ r_headers resp !! lit "Cache-Control" = Some (lit "no-store") ∧
      ∀ n, err_retry_after e = Some n →
        1 ≤ n ∧ r_headers resp !! lit "Retry-After" = Some (int_str n)
  | RaisedValidation issues =>
      ∃ fields, r_details resp = [(lit "fields", AList (issue_value <$> fields))] ∧
        length fields = length issues ∧
        Forall (λ f, path f ≠ [] ∧ Forall path_char (path f)) fields
  | RaisedOther description => resp = handle r (RaisedOther []) ∧ r_details resp = []
  end.
Proof.
  intros Hx. destruct x as [e|issues|d]; cbn zeta.
  - apply raisable_contract in Hx as (Hs & Hc & Hm & Hd & Hn).
    destruct (application_headers r e) as (H1 & H2 & H3).
    split_and!; try exact H1; try exact H2; try tauto.
    + apply request_id_safe.
    + intros n Hr. split; [by apply Hn|by apply H3].
  - unfold handle, handle_request_validation_error, error_response. cbn.
    split_and!; try done; try lia.
    + apply request_id_safe.
    + eexists. split; [done|]. rewrite merge_sort_Permutation, length_fmap. split; [done|].
      apply Forall_fmap, Forall_forall. intros i _. cbn. unfold normalize_validation_issue.
      destruct (validation_code_and_message _) as [c m]. cbn.
      destruct (validation_path_chars (default (PTuple []) (loc i))). done.
  - unfold handle, handle_unexpected_error, error_response. pose proof (request_id_safe r) as Hr.
    destruct (request_id r) as [|c s]; [done|]. cbn. split_and!; try done; try lia.
Qed.

Lemma error_responses_safe_witness :
  ∃ e, rate_limit_error IdentityRateLimitExceededError (PInt 30) = Ok e ∧
    r_headers (handle (Request PNone (Some (lit "bad id")) 7) (RaisedApplication e))
      !! lit "Retry-After" = Some (lit "30").
Proof.
  eexists. split; [vm_compute; reflexivity|].
  match goal with |- context [RaisedApplication ?e] =>
    destruct (error_responses_safe (Request PNone (Some (lit "bad id")) 7) (RaisedApplication e))
      as (_ & _ & _ & _ & _ & _ & _ & H) end.
  - right. exists IdentityRateLimitExceededError, (PInt 30). vm_compute. reflexivity.
  - destruct (H 30 eq_refl) as [_ H']. rewrite H'. vm_compute. reflexivity.
Defined.

(** Every declared class can be raised as it stands. *)
Example declared_classes_valid :
  forallb (λ c, is_ok (application_error c PNone))
    [ApplicationError; NotFoundError; ConflictError; ForbiddenError; AuthenticationError;
     ValidationError; RateLimitError; DependencyUnavailableError; InvalidEmailError;
     AuthenticationRequiredError; InvalidPasswordLengthError; InvalidChallengeError;
     EmailVerificationUnavailableError; CommonPasswordError; BreachedPasswordError;
     InvalidPasswordEncodingError; PasswordCheckUnavailableError; UntrustedOriginError;
     InvalidCredentialsError; IdentityUnavailableError; AuthenticationRequestTooLargeError;
     PermissionDeniedError; ReauthenticationRequiredError; UserNotFoundError; UnverifiedAdminError;
     LastActiveAdminError; BootstrapConflictError; BootstrapCompleteError; AddressNotFoundError;
     AddressLimitReachedError; InvalidAuditFiltersError; ExternalLoginFailedError;
     FinalLoginMethodError; ProviderAlreadyLinkedError; ServiceNotReadyError] = true.
Proof. vm_compute. reflexivity. Qed.
