(* ===== verification/Texts.v ===== *)
(** * Texts of identifiers and integers

    [UUID(text)] as the standard library reads it - what it strips before it
    counts the characters, and the liberties of [int(text, 16)] - and that it
    reads back what [str] prints; and that distinct integers print differently. *)

From S2P Require Import Prelude Regex PyValues CoreTypes AuditTrail AuditSpecs Errors.

(** [s.replace(part, "")], scanning from the left; [skip] characters are left
    to drop of the occurrence being removed. *)
Fixpoint remove_from (part : str) (skip : nat) (s : str) : str :=
  match s with
  | [] => []
  | c :: s' =>
      match skip with
      | S skip => remove_from part skip s'
      | O => if starts_with part s then remove_from part (length part - 1) s'
             else c :: remove_from part 0 s'
      end
  end.

(** [s.lstrip(chars)] *)
Fixpoint strip_left (chars : list N) (s : str) : str :=
  match s with
  | c :: s' => if bool_decide (c ∈ chars) then strip_left chars s' else s
  | [] => []
  end.

Definition hex_value (c : N) : option Z :=
  if in_cls [digit] c then Some (Z.of_N c - 48)
  else if in_cls [rng "a" "f"] c then Some (Z.of_N c - 87)
  else if in_cls [rng "A" "F"] c then Some (Z.of_N c - 55) else None.

(** The digits of the integer, single underscores allowed between them and
    white space after them; [fresh] says that no digit precedes directly. *)
Fixpoint hex_digits (fresh : bool) (acc : Z) (s : str) : option Z :=
  match s with
  | [] => if fresh then None else Some acc
  | c :: s' =>
      match hex_value c with
      | Some d => hex_digits false (16 * acc + d) s'
      | None =>
          if fresh then None
          else if (c =? 95)%N then hex_digits true acc s'
          else if forallb (in_cls [(9, 13); (32, 32)]%N) s then Some acc else None
      end
  end.

(** Decimal digits and spaces of any script are read as the ASCII ones. *)
Definition ascii_char (c : N) : N :=
  if (c <? 127)%N then c
  else if is_space c then 32%N
  else match digit_value c with Some d => Z.to_N (48 + d) | None => 63%N end.

Fixpoint skip_space (s : str) : str :=
  match s with
  | c :: s' => if in_cls [(9, 13); (32, 32)]%N c then skip_space s' else s
  | [] => []
  end.

(** A plus sign and the base prefix; one underscore may follow the prefix. *)
Definition skip_prefix (s : str) : str :=
  let s := match s with 43%N :: s' => s' | _ => s end in
  match s with
  | 48%N :: (120 | 88)%N :: 95%N :: s' => s'
  | 48%N :: (120 | 88)%N :: s' => s'
  | _ => s
  end.

(** [int(s, 16)] of a text without a minus sign. *)
Definition int_16 (s : str) : option Z :=
  hex_digits true 0 (skip_prefix (skip_space (ascii_char <$> s))).

Definition uuid_of (text : str) : option uuid :=
  let hex := remove_from (lit "uuid:") 0 (remove_from (lit "urn:") 0 text) in
  let hex := reverse (strip_left [123; 125]%N (reverse (strip_left [123; 125]%N hex))) in
  let hex := filter (λ c, c ≠ 45%N) hex in
  if bool_decide (length hex = 32%nat) then int_16 hex else None.

Example uuid_prefixed : uuid_of (lit "{urn:uuid:0x0000000000-0000_0000000000000a}") = None.
Proof. by vm_compute. Qed.
Example uuid_0x : uuid_of (lit "0x_" ++ replicate 29 49%N) = uuid_of (lit "000" ++ replicate 29 49%N).
Proof. by vm_compute. Qed.
Example uuid_plus : uuid_of (lit "+" ++ replicate 31 65%N) = uuid_of (lit "0" ++ replicate 31 97%N).
Proof. by vm_compute. Qed.
Example uuid_wide : uuid_of (replicate 31 65297%N ++ [160%N]) = uuid_of (lit "0" ++ replicate 31 49%N).
Proof. by vm_compute. Qed.
Example uuid_double : uuid_of (lit "1__" ++ replicate 29 49%N) = None.
Proof. by vm_compute. Qed.

(** ** Reading back *)

Lemma remove_from_free p ps s : p ∉ s → remove_from (p :: ps) 0 s = s.
Proof.
  induction s as [|c s IH]; [done|]. intros [Hc Hs]%not_elem_of_cons. cbn [remove_from starts_with].
  rewrite (proj2 (N.eqb_neq p c)) by done. cbn [andb]. by rewrite IH.
Qed.

Lemma strip_left_free chars c s : c ∉ chars → strip_left chars (c :: s) = c :: s.
Proof. intros Hc. cbn. by rewrite bool_decide_eq_false_2. Qed.

Lemma hex_value_digit d : 0 ≤ d < 16 → hex_value (hex_digit d) = Some d.
Proof.
  intros Hd. assert (∃ n, d = Z.of_nat n ∧ (n < 16)%nat) as (n & -> & Hn) by (exists (Z.to_nat d); lia).
  do 16 (destruct n as [|n]; [by vm_compute|]). lia.
Qed.

Lemma hex_digits_hex n i fresh acc rest :
  hex_digits fresh acc (hex n i ++ rest)
  = hex_digits (match n with O => fresh | _ => false end) (16 ^ Z.of_nat n * acc + i mod 16 ^ Z.of_nat n) rest.
Proof.
  revert i fresh acc rest. induction n as [|n IH]; intros i fresh acc rest.
  - cbn [hex app]. f_equal. rewrite Z.mod_1_r. lia.
  - cbn [hex]. rewrite <-app_assoc, IH. cbn [app hex_digits].
    rewrite hex_value_digit by (apply Z.mod_pos_bound; lia). f_equal.
    rewrite Nat2Z.inj_succ, Z.pow_succ_r by lia.
    rewrite (Z.mul_comm 16 (16 ^ _)), (Z.mul_comm (16 ^ _) 16).
    rewrite (Z.rem_mul_r i 16 (16 ^ Z.of_nat n)) by lia. lia.
Qed.

Definition hex_lower : cls := [rng "a" "f"; digit].

Lemma hex_lower_chars n i : Forall (λ c, in_cls hex_lower c = true) (hex n i).
Proof.
  revert i. induction n as [|n IH]; intros i; cbn [hex]; [done|]. apply Forall_app. split; [apply IH|].
  constructor; [|done]. pose proof (Z.mod_pos_bound i 16 ltac:(lia)) as Hd.
  set (d := i mod 16) in *. assert (∃ n, d = Z.of_nat n ∧ (n < 16)%nat) as (m & -> & Hm) by (exists (Z.to_nat d); lia).
  do 16 (destruct m as [|m]; [by vm_compute|]). lia.
Qed.

Lemma hex_app m n i : hex (m + n) i = hex m (i / 16 ^ Z.of_nat n) ++ hex n i.
Proof.
  revert i. induction n as [|n IH]; intros i.
  - by rewrite Nat.add_0_r, Z.div_1_r, app_nil_r.
  - rewrite Nat.add_succ_r. cbn [hex]. rewrite IH, app_assoc. do 3 f_equal.
    rewrite Z.div_div by lia. f_equal. by rewrite Nat2Z.inj_succ, Z.pow_succ_r by lia.
Qed.

(** No character of a UUID text is one that [UUID] treats specially, the dash
    apart. *)
Lemma hex_lower_free n i c : in_cls hex_lower c = false → c ∉ hex n i.
Proof. intros Hc Hin. pose proof (proj1 (Forall_forall _ _) (hex_lower_chars n i) _ Hin) as H. congruence. Qed.

Lemma uuid_str_free i c : c ≠ 45%N → in_cls hex_lower c = false → c ∉ uuid_str i.
Proof.
  intros Hd Hc. unfold uuid_str. rewrite !not_elem_of_app. pose proof (λ n i, hex_lower_free n i c Hc) as Hf.
  split_and!; first [apply Hf | by intros [?|[]%elem_of_nil]%elem_of_cons].
Qed.

Lemma filter_hex n i : filter (λ c, c ≠ 45%N) (hex n i) = hex n i.
Proof.
  pose proof (hex_lower_free n i 45%N eq_refl) as Hf. revert Hf. generalize (hex n i).
  induction l as [|c l IH]; [done|]. intros [Hc Hl]%not_elem_of_cons.
  rewrite filter_cons_True, IH; auto.
Qed.

Lemma filter_uuid_str i : filter (λ c, c ≠ 45%N) (uuid_str i) = hex 32 i.
Proof.
  unfold uuid_str. rewrite !filter_app, !filter_hex.
  change (hex 32 i) with (hex (8 + 4 + 4 + 4 + 12) i). rewrite !hex_app, !Z.div_div by done.
  by rewrite <-!app_assoc.
Qed.

Lemma ascii_char_hex n i : ascii_char <$> hex n i = hex n i.
Proof.
  pose proof (hex_lower_chars n i) as Hc. induction Hc as [|x l Hx _ IH]; [done|].
  cbn. f_equal; [|done]. unfold ascii_char. replace (x <? 127)%N with true; [done|].
  symmetry. apply N.ltb_lt. apply existsb_exists in Hx as (r & Hr & Hb%andb_true_iff).
  destruct Hr as [<-|[<-|[]]]; destruct Hb as [_ Hb%N.leb_le]; cbn in Hb; lia.
Qed.

Lemma hex_char_cases c : in_cls hex_lower c = true → c ∈ hex_digit <$> seqZ 0 16.
Proof.
  intros Hc. assert (Hn : (c < 103)%N).
  { apply existsb_exists in Hc as (r & Hr & Hb%andb_true_iff).
    destruct Hr as [<-|[<-|[]]]; destruct Hb as [_ Hb%N.leb_le]; cbn in Hb; lia. }
  assert (Hall : Forall (λ n, in_cls hex_lower (N.of_nat n) = true →
                  bool_decide (N.of_nat n ∈ hex_digit <$> seqZ 0 16) = true) (List.seq 0 103)).
  { cbn [List.seq]. by repeat constructor. }
  rewrite Forall_forall in Hall. specialize (Hall (N.to_nat c)).
  rewrite N2Nat.id, bool_decide_eq_true in Hall. apply Hall; [|done].
  apply elem_of_seq. lia.
Qed.

(** Hexadecimal digits alone are not touched before they are read. *)
Lemma plain_digits s : Forall (λ c, in_cls hex_lower c = true) s → skip_prefix (skip_space s) = s.
Proof.
  intros Hs. destruct s as [|c [|c' s]]; [done|..].
  - apply Forall_cons in Hs as [Hc%hex_char_cases _]. revert c Hc.
    apply Forall_forall. by repeat constructor.
  - apply Forall_cons in Hs as [Hc%hex_char_cases [Hc'%hex_char_cases _]%Forall_cons]. revert c Hc.
    apply Forall_forall. repeat constructor; try done.
    revert c' Hc'. apply Forall_forall. by repeat constructor.
Qed.

(** The text of a UUID reads as that UUID. *)
Lemma uuid_of_str i : 0 ≤ i < 16 ^ 32 → uuid_of (uuid_str i) = Some i.
Proof.
  intros Hi. unfold uuid_of.
  change (lit "urn:") with (117%N :: lit "rn:"). change (lit "uuid:") with (117%N :: lit "uid:").
  rewrite (remove_from_free 117 (lit "rn:") (uuid_str i)) by (apply uuid_str_free; by vm_compute).
  rewrite (remove_from_free 117 (lit "uid:") (uuid_str i)) by (apply uuid_str_free; by vm_compute).
  assert (Hs : ∀ s : str, 123%N ∉ s → 125%N ∉ s → strip_left [123; 125]%N s = s).
  { intros [|c s] H1 H2; [done|]. apply strip_left_free. set_solver. }
  rewrite (Hs (uuid_str i)) by (apply uuid_str_free; by vm_compute).
  rewrite Hs by (rewrite elem_of_reverse; apply uuid_str_free; by vm_compute).
  rewrite reverse_involutive, filter_uuid_str, hex_length, bool_decide_eq_true_2 by done.
  unfold int_16. pose proof (hex_digits_hex 32 i true 0 []) as Hd.
  rewrite app_nil_r, Z.mod_small in Hd by done.
  by rewrite ascii_char_hex, plain_digits; [|apply hex_lower_chars].
Qed.

(** ** Decimal texts *)

Lemma digits_inj n a b : digits n a = digits n b → a mod 10 ^ Z.of_nat n = b mod 10 ^ Z.of_nat n.
Proof.
  revert a b. induction n as [|n IH]; intros a b; [by rewrite !Z.mod_1_r|].
  cbn [digits]. intros [H Hd]%app_inj_tail.
  rewrite Nat2Z.inj_succ, Z.pow_succ_r, !Z.rem_mul_r by lia.
  rewrite (IH _ _ H). f_equal.
  pose proof (Z.mod_pos_bound a 10). pose proof (Z.mod_pos_bound b 10). lia.
Qed.

Lemma digit_count_bound fuel z : 0 ≤ z < 10 ^ Z.of_nat (S fuel) → z < 10 ^ Z.of_nat (digit_count fuel z).
Proof.
  revert z. induction fuel as [|fuel IH]; intros z Hz; [apply Hz|].
  cbn [digit_count]. destruct (Z.ltb_spec z 10); [by cbn|].
  rewrite Nat2Z.inj_succ, Z.pow_succ_r in Hz by lia. rewrite Nat2Z.inj_succ, Z.pow_succ_r by lia.
  pose proof (Z.div_mod z 10) as Hd. pose proof (Z.mod_pos_bound z 10 ltac:(lia)).
  enough (z / 10 < 10 ^ Z.of_nat (digit_count fuel (z / 10))) by lia.
  apply IH. split; [|apply Z.div_lt_upper_bound; lia]. apply Z.div_pos; lia.
Qed.

Lemma int_str_count z : 0 ≤ z → z < 10 ^ Z.of_nat (digit_count (Z.to_nat (Z.log2 z)) z).
Proof.
  intros Hz. apply digit_count_bound. split; [done|].
  destruct (decide (z = 0)) as [->|Hne]; [done|].
  pose proof (Z.log2_spec z ltac:(lia)) as [_ Hlt]. pose proof (Z.log2_nonneg z).
  rewrite Nat2Z.inj_succ, Z2Nat.id by done. eapply Z.lt_le_trans; [exact Hlt|].
  apply Z.pow_le_mono_l. lia.
Qed.

Lemma int_str_inj a b : 0 ≤ a → 0 ≤ b → int_str a = int_str b → a = b.
Proof.
  intros Ha Hb. unfold int_str. rewrite !Z.abs_eq by done.
  replace (a <? 0) with false by lia. replace (b <? 0) with false by lia. cbn [app]. intros H.
  pose proof (f_equal length H) as Hl. rewrite !digits_length in Hl. rewrite <-Hl in H.
  apply digits_inj in H. rewrite !Z.mod_small in H; [done|split; [done|]..].
  - rewrite Hl. by apply int_str_count.
  - by apply int_str_count.
Qed.

(** The index of a recipient, as a key of the receipts. *)
#[export] Instance index_str_inj : Inj (=) (=) (λ i : nat, int_str (Z.of_nat i)).
Proof. intros i j H%int_str_inj; lia. Qed.

(** ** Separators *)

(** [c.join(ws)]. *)
Fixpoint join_on (c : N) (ws : list str) : str :=
  match ws with
  | [] => []
  | [w] => w
  | w :: ws => w ++ c :: join_on c ws
  end.

Lemma not_in c (s : str) : forallb (λ x, negb (x =? c)%N) s = true → c ∉ s.
Proof. rewrite forallb_forall. intros Hf Hin%list_elem_of_In. apply Hf in Hin. by rewrite N.eqb_refl in Hin. Qed.

Lemma join_on_snoc c ws w : ws ≠ [] → join_on c (ws ++ [w]) = join_on c ws ++ c :: w.
Proof.
  induction ws as [|w' ws IH]; [done|]. intros _. destruct ws as [|w'' ws]; [done|].
  change (join_on c ((w' :: w'' :: ws) ++ [w])) with (w' ++ c :: join_on c ((w'' :: ws) ++ [w])).
  rewrite IH by done. cbn. by rewrite <-app_assoc.
Qed.

Lemma split_on_cons c s : ∃ w ws, split_on c s = w :: ws.
Proof.
  destruct s as [|x s]; cbn; [by eexists _, _|]. destruct (x =? c)%N; [by eexists _, _|].
  destruct (split_on c s); by eexists _, _.
Qed.

Lemma split_on_free c s : c ∉ s → split_on c s = [s].
Proof.
  induction s as [|x s IH]; cbn; [done|]. intros [Hx Hs]%not_elem_of_cons. rewrite IH by done.
  by destruct (N.eqb_spec x c).
Qed.

Lemma split_on_app c w s : c ∉ w → split_on c (w ++ c :: s) = w :: split_on c s.
Proof.
  induction w as [|x w IH]; cbn; [by rewrite N.eqb_refl|]. intros [Hx Hs]%not_elem_of_cons. rewrite IH by done.
  by destruct (N.eqb_spec x c).
Qed.

Lemma split_join c ws : ws ≠ [] → Forall (λ w, c ∉ w) ws → split_on c (join_on c ws) = ws.
Proof.
  intros Hn Hf. induction Hf as [|w ws Hw Hf IH]; [done|]. destruct ws as [|w' ws].
  - by apply split_on_free.
  - change (join_on c (w :: w' :: ws)) with (w ++ c :: join_on c (w' :: ws)). rewrite split_on_app by done.
    by rewrite IH.
Qed.

Lemma join_split c s : join_on c (split_on c s) = s.
Proof.
  induction s as [|x s IH]; cbn; [done|]. destruct (split_on_cons c s) as (w & ws & He). rewrite He in *.
  destruct (N.eqb_spec x c) as [->|]; [by rewrite <-IH|]. by destruct ws; rewrite <-IH.
Qed.

(** [s.partition(c)], with no result where there is no separator. *)
Fixpoint partition_on (c : N) (s : str) : option (str * str) :=
  match s with
  | [] => None
  | x :: s => if (x =? c)%N then Some ([], s) else '(a, b) ← partition_on c s; Some (x :: a, b)
  end.

Lemma partition_on_Some c s a b : partition_on c s = Some (a, b) ↔ s = a ++ c :: b ∧ c ∉ a.
Proof.
  revert a b. induction s as [|x s IH]; intros a b; cbn; [split; [done|by intros [? _]; destruct a]|].
  destruct (N.eqb_spec x c) as [->|Hx].
  - split; [intros [= <- <-]; split; [done|apply not_elem_of_nil]|].
    intros [He Ha]. destruct a as [|y a]; [by injection He as ->|]. injection He as <- _.
    by apply not_elem_of_cons in Ha as [].
  - rewrite bind_Some. split.
    + intros ([a' b'] & Hp & [= <- <-]). apply IH in Hp as [-> Ha]. split; [done|].
      by apply not_elem_of_cons.
    + intros [He Ha]. destruct a as [|y a]; [by injection He|]. injection He as -> ->.
      apply not_elem_of_cons in Ha as [_ Ha]. exists (a, b). split; [by apply IH|done].
Qed.
