(* ===== verification/Identity.v ===== *)
(** * The identity database and its transactions
    (users/model.py, users/repository.py, users/address.py, auth/model.py,
    auth/challenge_model.py)

    The tables that the identity services share, and the state-and-error monad
    of a service call: what the session holds, what has been committed, and
    the exception that ended it. *)

From S2P Require Import Prelude Regex PyValues CoreTypes AuditTrail Events Outbox Errors.

(** ** Rows *)

Inductive Role := CUSTOMER_ROLE | ADMIN_ROLE.

#[export] Instance Role_eq_dec : EqDecision Role.
Proof. solve_decision. Defined.

Definition role_value (r : Role) : str :=
  match r with CUSTOMER_ROLE => lit "customer" | ADMIN_ROLE => lit "admin" end.

#[global] Arguments role_value : simpl never.

(** [Role(value)]. *)
Definition role_of (s : str) : option Role :=
  if bool_decide (s = lit "customer") then Some CUSTOMER_ROLE
  else if bool_decide (s = lit "admin") then Some ADMIN_ROLE else None.

Module User.
Record t := New {
  id : uuid;
  email : str;
  display_name : str;
  phone : option str;
  role : str;
  is_active : bool;
  email_verified_at : option datetime;
  created_at : datetime }.
End User.

Module AuthSession.
Record t := New {
  id : uuid;
  user_id : uuid;
  secret_hash : str;
  created_at : datetime;
  authenticated_at : datetime;
  expires_at : datetime;
  revoked_at : option datetime }.
End AuthSession.

Inductive ChallengePurpose := REGISTRATION | PASSWORD_RESET.

#[export] Instance ChallengePurpose_eq_dec : EqDecision ChallengePurpose.
Proof. solve_decision. Defined.

Definition purpose_value (p : ChallengePurpose) : str :=
  match p with REGISTRATION => lit "registration" | PASSWORD_RESET => lit "password_reset" end.

Module EmailChallenge.
Record t := New {
  id : uuid;
  email : str;
  purpose : str;
  key_version : str;
  code_hash : str;
  attempts : Z;
  created_at : datetime;
  expires_at : datetime;
  consumed_at : option datetime }.
End EmailChallenge.

Module Address.
Record t := New {
  id : uuid;
  user_id : uuid;
  kind : str;
  recipient : str;
  line1 : str;
  line2 : option str;
  city : str;
  region : str;
  postal_code : option str;
  country_code : str;
  phone : option str;
  is_default : bool;
  created_at : datetime }.
End Address.

Module ExternalIdentity.
Record t := New {
  id : uuid;
  user_id : uuid;
  provider : str;
  subject : str;
  email_snapshot : option str;
  email_verified : bool;
  last_login_at : datetime }.
End ExternalIdentity.

#[export] Instance user_keyed : Keyed User.t := User.id.
#[export] Instance session_keyed : Keyed AuthSession.t := AuthSession.id.
#[export] Instance challenge_keyed : Keyed EmailChallenge.t := EmailChallenge.id.
#[export] Instance address_keyed : Keyed Address.t := Address.id.
#[export] Instance external_keyed : Keyed ExternalIdentity.t := ExternalIdentity.id.

#[export] Instance user_settable : Settable User.t := λ u,
  User.New (User.id u) (User.email u) (User.display_name u) (User.phone u) (User.role u)
    (User.is_active u) (User.email_verified_at u) (User.created_at u).
#[export] Instance session_settable : Settable AuthSession.t := λ s,
  AuthSession.New (AuthSession.id s) (AuthSession.user_id s) (AuthSession.secret_hash s)
    (AuthSession.created_at s) (AuthSession.authenticated_at s) (AuthSession.expires_at s)
    (AuthSession.revoked_at s).
#[export] Instance challenge_settable : Settable EmailChallenge.t := λ c,
  EmailChallenge.New (EmailChallenge.id c) (EmailChallenge.email c) (EmailChallenge.purpose c)
    (EmailChallenge.key_version c) (EmailChallenge.code_hash c) (EmailChallenge.attempts c)
    (EmailChallenge.created_at c) (EmailChallenge.expires_at c) (EmailChallenge.consumed_at c).
#[export] Instance address_settable : Settable Address.t := λ a,
  Address.New (Address.id a) (Address.user_id a) (Address.kind a) (Address.recipient a)
    (Address.line1 a) (Address.line2 a) (Address.city a) (Address.region a) (Address.postal_code a)
    (Address.country_code a) (Address.phone a) (Address.is_default a) (Address.created_at a).

#[export] Instance external_settable : Settable ExternalIdentity.t := λ e,
  ExternalIdentity.New (ExternalIdentity.id e) (ExternalIdentity.user_id e) (ExternalIdentity.provider e)
    (ExternalIdentity.subject e) (ExternalIdentity.email_snapshot e) (ExternalIdentity.email_verified e)
    (ExternalIdentity.last_login_at e).

(** The tables; a password credential is found by its user. *)
Record db := Db {
  users : table User.t;
  sessions : table AuthSession.t;
  credentials : gmap uuid str;
  challenges : table EmailChallenge.t;
  addresses : table Address.t;
  externals : table ExternalIdentity.t;
  outbox : table Msg.t;
  audit : list Audit.t }.

#[export] Instance db_settable : Settable db := λ d,
  Db (users d) (sessions d) (credentials d) (challenges d) (addresses d) (externals d) (outbox d) (audit d).

Definition empty_db : db := Db ∅ ∅ ∅ ∅ ∅ ∅ ∅ [].

(** ** Service calls *)

Inductive exn :=
| App (c : error_class)
| Internal (e : pyexn).

(** What the session of a unit of work holds, and what is durable. *)
Record txn := Txn { pending : db; durable : db }.

Definition M (A : Type) : Type := txn → res exn A * txn.

#[export] Instance M_ret : MRet M := λ A a t, (Ok a, t).
#[export] Instance M_bind : MBind M := λ A B f m t,
  match m t with (Ok a, t) => f a t | (Err e, t) => (Err e, t) end.

Definition get : M db := λ t, (Ok (pending t), t).
Definition modify (f : db → db) : M unit := λ t, (Ok tt, Txn (f (pending t)) (durable t)).
Definition throw {A} (e : exn) : M A := λ t, (Err e, t).
Definition raise {A} (c : error_class) : M A := throw (App c).
Definition check (b : bool) (c : error_class) : M unit := if b then mret tt else raise c.
(** [uow.commit()]. *)
Definition commit : M unit := λ t, (Ok tt, Txn (pending t) (pending t)).

(** [uow.rollback()]. *)
Definition rollback : M unit := λ t, (Ok tt, Txn (durable t) (durable t)).

(** [try: m except C: h], for one error class. *)
Definition catching {A} (c : error_class) (m h : M A) : M A := λ t,
  match m t with
  | (Err (App c'), t') =>
      if bool_decide (class_name c' = class_name c) then h t' else (Err (App c'), t')
  | r => r
  end.

(** [except (C1, ...): h], for several classes. *)
Definition catching_any {A} (cs : list error_class) (m h : M A) : M A := λ t,
  match m t with
  | (Err (App c), t') =>
      if existsb (λ c', bool_decide (class_name c = class_name c')) cs then h t' else (Err (App c), t')
  | r => r
  end.

(** A value computed by code that raises built-in exceptions. *)
Definition lift {A} (r : res pyexn A) : M A := λ t,
  match r with Ok a => (Ok a, t) | Err e => (Err (Internal e), t) end.

(** A whole request: the unit of work is entered on the durable state, and
    whatever is not committed is gone when it ends. *)
Definition run {A} (m : M A) (d : db) : res exn A * db :=
  let '(r, t) := m (Txn d d) in (r, durable t).

(** [correlation_id or str(uuid4())]: an empty string counts as none. *)
Definition or_fresh (o : option str) (i : uuid) : str :=
  match o with Some ((_ :: _) as s) => s | _ => uuid_str i end.

(** The audit row is staged in the session of the call. *)
Definition record_audit (r : res pyexn Audit.t) : M unit :=
  row ← lift r; modify (λ d, d <| audit ::= λ l, l ++ [row] |>).

(** ** Repositories *)

(** A query that expects at most one row. *)
Definition find_row {R} (p : R → bool) (t : table R) : option R := find p (rows t).

Definition insert_user (u : User.t) (t : table User.t) : res pyexn (table User.t) :=
  require (bool_decide (t !! User.id u = None)) (IntegrityError "pk_users");;
  require (negb (existsb (λ r, bool_decide (User.email r = User.email u)) (rows t)))
    (IntegrityError "uq_users_email");;
  Ok (put u t).

Definition insert_session (s : AuthSession.t) (t : table AuthSession.t)
    : res pyexn (table AuthSession.t) :=
  require (bool_decide (t !! AuthSession.id s = None)) (IntegrityError "pk_auth_sessions");;
  require (negb (existsb (λ r, bool_decide (AuthSession.secret_hash r = AuthSession.secret_hash s))
                   (rows t))) (IntegrityError "uq_auth_sessions_secret_hash");;
  Ok (put s t).

Section repository.
(** [str(validate_email(value.strip(), ...).normalized).casefold()], or nothing
    when the address is not valid. *)
Context (normalize : str → option str).

Definition normalize_email (value : str) : M str :=
  match normalize value with Some e => mret e | None => raise InvalidEmailError end.

Definition find_user_by_email (email : str) : M (option User.t) :=
  email ← normalize_email email;
  d ← get;
  mret (find_row (λ u, bool_decide (User.email u = email)) (users d)).

(** Rows are locked by [SELECT ... FOR UPDATE] when asked; the calls of this
    model are serial, so the lock has no further effect. *)
Definition find_user_by_id (user_id : uuid) : M (option User.t) :=
  d ← get; mret (users d !! user_id).

Definition create_customer (new_id : uuid) (now : datetime) (email : str) : M User.t :=
  email ← normalize_email email;
  let user := User.New new_id email [] None (role_value CUSTOMER_ROLE) true None now in
  d ← get;
  t ← lift (insert_user user (users d));
  modify (λ d, d <| users := t |>);;
  mret user.
End repository.

(** ** Lemmas on calls *)

Lemma M_bind_Ok {A B} (m : M A) (f : A → M B) b t t' :
  (m ≫= f) t = (Ok b, t') ↔ ∃ a t1, m t = (Ok a, t1) ∧ f a t1 = (Ok b, t').
Proof.
  unfold mbind, M_bind. destruct (m t) as [[a|e] t1]; split; try naive_solver.
Qed.

Lemma check_Ok b c t u t' : check b c t = (Ok u, t') ↔ b = true ∧ t' = t.
Proof. unfold check, raise, throw, mret, M_ret. destruct b, u; naive_solver. Qed.

Lemma lift_Ok {A} (r : res pyexn A) a t t' : lift r t = (Ok a, t') ↔ r = Ok a ∧ t' = t.
Proof. unfold lift. destruct r; naive_solver. Qed.

(** Splits a successful call into its steps. *)
Ltac M_inv :=
  repeat match goal with
  | H : (_ ≫= _) _ = (Ok _, _) |- _ =>
      let x := fresh "x" in let t := fresh "t" in let Hx := fresh "Hx" in
      apply M_bind_Ok in H as (x & t & Hx & H)
  | H : check _ _ _ = (Ok _, _) |- _ => apply check_Ok in H as [H ->]
  | H : lift _ _ = (Ok _, _) |- _ => apply lift_Ok in H as [H ->]
  | H : mret _ _ = (Ok _, _) |- _ => first [injection H as <- <- | injection H as <-]
  | H : get _ = (Ok _, _) |- _ => first [injection H as <- <- | injection H as <-]
  | H : modify _ _ = (Ok _, _) |- _ => first [injection H as <- <- | injection H as <-]
  | H : commit _ = (Ok _, _) |- _ => first [injection H as <- <- | injection H as <-]
  | H : raise _ _ = (Ok _, _) |- _ => discriminate H
  | H : throw _ _ = (Ok _, _) |- _ => discriminate H
  end.

Lemma record_Ok float_repr new_id clock actor action type_ target outcome meta allowed corr at_ row :
  record float_repr new_id clock actor action type_ target outcome meta allowed corr at_ = Ok row →
  Audit.id row = new_id ∧ Audit.actor_kind row = a_kind actor ∧ Audit.actor_id row = a_id actor ∧
  PStr (Audit.action row) = action ∧ PUUID (Audit.target_id row) = target ∧
  Audit.outcome row = outcome ∧ PStr (Audit.correlation_id row) = corr.
Proof.
  unfold record, validate_name, validate_correlation_id. intros H. res_inv. injection H as <-. cbn.
  destruct target; try done.
  repeat match goal with H : validate_pattern _ _ _ _ = Ok _ |- _ => apply validate_pattern_Ok in H end.
  destruct_and!. by simplify_eq.
Qed.

(** A call that does not commit, and one that commits nothing when it raises. *)
Definition uncommitted {A} (m : M A) : Prop := ∀ t, durable (m t).2 = durable t.
Definition atomic {A} (m : M A) : Prop :=
  ∀ t e t', m t = (Err e, t') → durable t' = durable t.

Lemma uncommitted_ret {A} (a : A) : uncommitted (mret a). Proof. done. Qed.
Lemma uncommitted_throw {A} e : uncommitted (@throw A e). Proof. done. Qed.
Lemma uncommitted_raise {A} c : uncommitted (@raise A c). Proof. done. Qed.
Lemma uncommitted_check b c : uncommitted (check b c). Proof. by destruct b. Qed.
Lemma uncommitted_get : uncommitted get. Proof. done. Qed.
Lemma uncommitted_modify f : uncommitted (modify f). Proof. done. Qed.
Lemma uncommitted_lift {A} (r : res pyexn A) : uncommitted (lift r). Proof. by destruct r. Qed.
Lemma uncommitted_record r : uncommitted (record_audit r). Proof. by destruct r. Qed.

Lemma uncommitted_bind {A B} (m : M A) (f : A → M B) :
  uncommitted m → (∀ a, uncommitted (f a)) → uncommitted (m ≫= f).
Proof.
  intros Hm Hf t. unfold mbind, M_bind. pose proof (Hm t) as H1.
  destruct (m t) as [[a|e] t1]; cbn in *; [|done]. by rewrite Hf.
Qed.

Lemma uncommitted_catching {A} c (m h : M A) :
  uncommitted m → uncommitted h → uncommitted (catching c m h).
Proof.
  intros Hm Hh t. unfold catching. pose proof (Hm t) as H1.
  destruct (m t) as [[a|[c'|e]] t1]; cbn in *; [done| |done].
  case_bool_decide; [by rewrite Hh|done].
Qed.

Lemma uncommitted_atomic {A} (m : M A) : uncommitted m → atomic m.
Proof. intros Hm t e t' H. by rewrite <-(Hm t), H. Qed.

Lemma atomic_commit : atomic commit. Proof. done. Qed.

Lemma atomic_bind {A B} (m : M A) (f : A → M B) :
  uncommitted m → (∀ a, atomic (f a)) → atomic (m ≫= f).
Proof.
  intros Hm Hf t e t'. unfold mbind, M_bind. pose proof (Hm t) as H1.
  destruct (m t) as [[a|e'] t1]; cbn in *; [|by intros [= _ <-]].
  intros H. by rewrite (Hf _ _ _ _ H).
Qed.

(** What follows a commit cannot raise. *)
Lemma atomic_commit_ret {A} (a : A) : atomic (commit;; mret a). Proof. done. Qed.

Lemma atomic_run {A} (m : M A) d e d' : atomic m → run m d = (Err e, d') → d' = d.
Proof.
  intros Hm. unfold run. destruct (m (Txn d d)) as [r t] eqn:H. intros [= -> <-].
  apply (Hm _ _ _ H).
Qed.

(** How a call moves the database along a preorder: what it holds, and what it
    commits, if anything. *)
Definition evolves (R : relation db) (t : txn) {A} (m : M A) : Prop :=
  R (pending t) (pending (m t).2) ∧
  (durable (m t).2 = durable t ∨ R (pending t) (durable (m t).2)).

Section evolves.
Context (R : relation db) `{!PreOrder R}.

(** A step that leaves the transaction alone. *)
Lemma evolves_still {A} t (m : M A) : (m t).2 = t → evolves R t m.
Proof. intros Ht. unfold evolves. rewrite Ht. split; [reflexivity|by left]. Qed.

Lemma evolves_ret {A} t (a : A) : evolves R t (mret a).
Proof. by apply evolves_still. Qed.
Lemma evolves_throw {A} t e : evolves R t (@throw A e).
Proof. by apply evolves_still. Qed.
Lemma evolves_raise {A} t c : evolves R t (@raise A c).
Proof. by apply evolves_still. Qed.
Lemma evolves_check t b c : evolves R t (check b c).
Proof. apply evolves_still. by destruct b. Qed.
Lemma evolves_get t : evolves R t get.
Proof. by apply evolves_still. Qed.
Lemma evolves_lift {A} t (r : res pyexn A) : evolves R t (lift r).
Proof. apply evolves_still. by destruct r. Qed.
Lemma evolves_commit t : evolves R t commit.
Proof. split; [reflexivity|right; reflexivity]. Qed.
Lemma evolves_modify t f : R (pending t) (f (pending t)) → evolves R t (modify f).
Proof. intros H. split; [done|by left]. Qed.

Lemma evolves_bind {A B} t (m : M A) (f : A → M B) :
  evolves R t m → (∀ a t1, m t = (Ok a, t1) → evolves R t1 (f a)) → evolves R t (m ≫= f).
Proof using All.
  intros [H1 H2] Hf. unfold evolves, mbind, M_bind. destruct (m t) as [[a|e] t1]; cbn in *; [|done].
  destruct (Hf a t1 eq_refl) as [H3 H4]. split; [by etrans|].
  destruct H4 as [-> |H4]; [done|right; by etrans].
Qed.

Lemma evolves_catching {A} t c (m h : M A) :
  evolves R t m → (∀ e t1, m t = (Err e, t1) → evolves R t1 h) → evolves R t (catching c m h).
Proof using All.
  intros [H1 H2] Hh. unfold evolves, catching. destruct (m t) as [[a|[c'|e]] t1]; cbn in *; [done| |done].
  case_bool_decide; [|done]. destruct (Hh _ t1 eq_refl) as [H3 H4]. split; [by etrans|].
  destruct H4 as [-> |H4]; [done|right; by etrans].
Qed.

(** A handler that first rolls back, after a call that commits only when it
    answers. *)
Lemma evolves_undone {A} d cs (m h : M A) :
  evolves R (Txn d d) m → atomic m → (∀ t, h t = h (Txn (durable t) (durable t))) →
  evolves R (Txn d d) h → evolves R (Txn d d) (catching_any cs m h).
Proof using All.
  intros Hm Ha Hh He. unfold evolves in Hm |- *. unfold catching_any.
  pose proof (Ha (Txn d d)) as Hd. destruct (m (Txn d d)) as [[a|[c|e]] t1]; [done| |done].
  destruct (existsb _ cs); [|done]. rewrite Hh, (Hd _ _ eq_refl). exact He.
Qed.

Lemma evolves_run {A} (m : M A) d : evolves R (Txn d d) m → R d (run m d).2.
Proof using All.
  intros [_ H]. unfold run. destruct (m (Txn d d)) as [r t]. cbn in *.
  destruct H as [-> |?]; [reflexivity|done].
Qed.
End evolves.

Create HintDb service discriminated.
#[export] Hint Resolve uncommitted_ret uncommitted_throw uncommitted_raise uncommitted_check
  uncommitted_get uncommitted_modify uncommitted_lift uncommitted_record atomic_commit
  atomic_commit_ret : service.
#[export] Hint Resolve evolves_ret evolves_throw evolves_raise evolves_check evolves_get evolves_lift
  evolves_commit : service.
#[export] Hint Extern 0 (PreOrder _) => apply _ : service.

(** Follows the structure of a call: what is left are its own changes. *)
Ltac evolves_step :=
  match goal with
  | |- evolves _ _ (_ ≫= _) => apply evolves_bind; [apply _| |intros ? ? ?; M_inv; cbn [pending durable] in *]
  | |- evolves _ _ (catching _ _ _) => apply evolves_catching; [apply _| |intros ? ? ?]
  | |- evolves _ _ (match ?x with _ => _ end) => destruct x eqn:?
  | |- evolves _ _ _ => solve [auto with service]
  end.
Ltac evolves_auto := repeat evolves_step.

Ltac atomic_step :=
  match goal with
  | |- uncommitted _ => solve [auto with service]
  | |- atomic (commit;; _) => solve [auto with service]
  | |- atomic commit => apply atomic_commit
  | |- uncommitted (_ ≫= _) => apply uncommitted_bind; [|intros ?]
  | |- atomic (_ ≫= _) => apply atomic_bind; [|intros ?]
  | |- uncommitted (catching _ _ _) => apply uncommitted_catching
  | |- uncommitted (match ?x with _ => _ end) => destruct x
  | |- atomic (match ?x with _ => _ end) => destruct x
  | |- uncommitted (let '(_, _) := ?x in _) => destruct x
  | |- atomic _ => solve [apply uncommitted_atomic; auto with service]
  end.
Ltac atomic_auto := repeat atomic_step.
