(* ===== verification/Sessions.v ===== *)
(** * Sessions and permissions
    (auth/settings.py, auth/sessions.py, auth/permissions.py, auth/dependencies.py)

    Issuing, resolving and revoking sessions, and the authorisation of an actor
    against the durable rows. *)

From S2P Require Import Prelude Regex PyValues CoreTypes AuditTrail Events Outbox Errors Identity.

(** ** Settings *)

Record AuthSettings := NewAuthSettings {
  session_seconds : Z;
  cache_seconds : Z;
  challenge_seconds : Z;
  challenge_attempts : Z;
  resend_seconds : Z;
  recent_auth_seconds : Z;
  allowed_origins : list str;
  challenge_keys : gmap str str;
  active_challenge_key : str }.

Definition between_z (lo hi x : Z) : bool := (lo <=? x) && (x <=? hi).

(** The field bounds and [validate_keys]. *)
Definition validate_auth_settings (s : AuthSettings) : res pyexn AuthSettings :=
  require (between_z 300 2592000 (session_seconds s)) (ValueError "session_seconds");;
  require (between_z 1 300 (cache_seconds s)) (ValueError "cache_seconds");;
  require (between_z 120 900 (challenge_seconds s)) (ValueError "challenge_seconds");;
  require (between_z 1 10 (challenge_attempts s)) (ValueError "challenge_attempts");;
  require (between_z 30 300 (resend_seconds s)) (ValueError "resend_seconds");;
  require (between_z 60 900 (recent_auth_seconds s)) (ValueError "recent_auth_seconds");;
  require (bool_decide (challenge_keys s = ∅ ∨ is_Some (challenge_keys s !! active_challenge_key s)))
    (ValueError "active challenge key is missing");;
  require (negb (existsb (λ k, Z.of_nat (length k) <? 32) (map_to_list (challenge_keys s)).*2))
    (ValueError "challenge keys require at least 32 random characters");;
  require (negb (existsb (λ o, ends_with (lit "/") o || contains (lit "*") o) (allowed_origins s)))
    (ValueError "use exact origins without wildcards or trailing slashes");;
  Ok s.

(** ** Sessions *)

Record Actor := NewActor {
  actor_user : uuid;
  actor_session : uuid;
  actor_role : Role;
  actor_authenticated_at : datetime }.

(** [[A-Za-z0-9_-]{43}] *)
Definition SECRET_PATTERN : regex := rep 43 (Cls [upper; lower; digit; chr "_"; chr "-"]).

Definition active_verified (u : User.t) : bool :=
  User.is_active u && bool_decide (is_Some (User.email_verified_at u)).

Section sessions.
(** [hashlib.sha256(secret).hexdigest()]. *)
Context (digest : str → str).

Definition session_key (namespace secret_hash : str) : str :=
  lit "ekumidayomi:" ++ namespace ++ lit ":auth:v1:session:" ++ secret_hash.

(** The secret and the id come from [secrets.token_urlsafe] and [uuid4()]. *)
Definition issue (settings : AuthSettings) (now : datetime) (new_id : uuid) (secret : str)
    (user : User.t) : M str :=
  check (active_verified user) AuthenticationRequiredError;;
  let row := AuthSession.New new_id (User.id user) (digest secret) now now
               (now + seconds (session_seconds settings)) None in
  d ← get;
  t ← lift (insert_session row (sessions d));
  modify (λ d, d <| sessions := t |>);;
  mret secret.

(** The WHERE clause of [resolve], over the join of a session and its user. *)
Definition session_live (d : db) (secret_hash : str) (now : datetime) (s : AuthSession.t) : bool :=
  bool_decide (AuthSession.secret_hash s = secret_hash)
  && bool_decide (AuthSession.revoked_at s = None)
  && (now <? AuthSession.expires_at s)
  && match users d !! AuthSession.user_id s with Some u => active_verified u | None => false end.

(** [hint] is the session id that the cache holds for this secret; a cache that
    fails, or holds nothing or no UUID, gives none. The id is written back to
    the cache at the end, which may fail too. *)
Definition resolve (hint : option uuid) (now : datetime) (secret : option str) : M Actor :=
  match secret with
  | None => raise AuthenticationRequiredError
  | Some secret =>
      check (fullmatch SECRET_PATTERN secret) AuthenticationRequiredError;;
      d ← get;
      let live := session_live d (digest secret) now in
      let hinted := h ← hint; find_row (λ s, live s && bool_decide (AuthSession.id s = h)) (sessions d) in
      let result := match hinted with Some s => Some s | None => find_row live (sessions d) end in
      match (s ← result; u ← users d !! AuthSession.user_id s; Some (s, u)) with
      | None => raise AuthenticationRequiredError
      | Some (s, u) =>
          match role_of (User.role u) with
          | None => raise AuthenticationRequiredError
          | Some role => mret (NewActor (User.id u) (AuthSession.id s) role (AuthSession.authenticated_at s))
          end
      end
  end.

Definition revocable (user_id : uuid) (session_id : option uuid) (s : AuthSession.t) : bool :=
  bool_decide (AuthSession.user_id s = user_id) && bool_decide (AuthSession.revoked_at s = None)
  && match session_id with Some i => bool_decide (AuthSession.id s = i) | None => true end.

(** The result is the hashes of the revoked sessions, whose cache keys are
    deleted after the commit. *)
Definition revoke (now : datetime) (user_id : uuid) (session_id : option uuid) : M (list str) :=
  d ← get;
  let p := revocable user_id session_id in
  let hashes := AuthSession.secret_hash <$> filter (λ s, Is_true (p s)) (rows (sessions d)) in
  modify (λ d, d <| sessions := update_where p (λ s, s <| AuthSession.revoked_at := Some now |>)
                                  (sessions d) |>);;
  mret hashes.
End sessions.

(** ** Permissions *)

Inductive Permission := PROFILE_WRITE | USERS_READ | USERS_MANAGE | AUDIT_READ.

Definition permits (r : Role) (p : Permission) : bool :=
  match r, p with
  | ADMIN_ROLE, _ => true
  | CUSTOMER_ROLE, PROFILE_WRITE => true
  | CUSTOMER_ROLE, _ => false
  end.

Definition authorize (now later : datetime) (actor : Actor) (permission : Permission)
    (recent_seconds : option Z) : M User.t :=
  user ← find_user_by_id (actor_user actor);
  d ← get;
  match user, sessions d !! actor_session actor with
  | Some user, Some session =>
      check (active_verified user && bool_decide (AuthSession.user_id session = User.id user)
             && bool_decide (AuthSession.revoked_at session = None)
             && negb (AuthSession.expires_at session <=? now)) AuthenticationRequiredError;;
      match role_of (User.role user) with
      | None => raise PermissionDeniedError
      | Some role =>
          check (permits role permission) PermissionDeniedError;;
          check (match recent_seconds with
                 | Some n => negb (seconds n <? later - AuthSession.authenticated_at session)
                 | None => true
                 end) ReauthenticationRequiredError;;
          mret user
      end
  | _, _ => raise AuthenticationRequiredError
  end.

(** ** The browser boundary *)

Definition trusted_origin (origin : option str) (settings : AuthSettings) : M unit :=
  check (match origin with Some o => bool_decide (o ∈ allowed_origins settings) | None => false end)
    UntrustedOriginError.

(** [current_actor]: state-changing requests need a trusted origin. *)
Definition current_actor (digest : str → str) (method : str) (origin cookie : option str)
    (settings : AuthSettings) (hint : option uuid) (now : datetime) : M Actor :=
  (if bool_decide (method ∈ lit <$> ["GET"; "HEAD"; "OPTIONS"]) then mret tt
   else trusted_origin origin settings);;
  resolve digest hint now cookie.

(** ** Lemmas *)

Definition hashes_unique (t : table AuthSession.t) : Prop :=
  ∀ k1 k2 s1 s2, t !! k1 = Some s1 → t !! k2 = Some s2 →
    AuthSession.secret_hash s1 = AuthSession.secret_hash s2 → k1 = k2.

Lemma between_z_true lo hi x : between_z lo hi x = true ↔ lo ≤ x ≤ hi.
Proof. unfold between_z. by rewrite andb_true_iff, !Z.leb_le. Qed.

Lemma find_row_Some {R} (p : R → bool) (t : table R) r :
  find_row p t = Some r → (∃ k, t !! k = Some r) ∧ p r = true.
Proof.
  unfold find_row. intros [Hin Hp]%find_some. split; [|done]. apply list_elem_of_In in Hin.
  unfold rows in Hin. apply list_elem_of_fmap in Hin as ([k r'] & -> & Hk%elem_of_map_to_list). eauto.
Qed.

Lemma find_row_None {R} (p : R → bool) (t : table R) :
  find_row p t = None ↔ ∀ k r, t !! k = Some r → p r = false.
Proof.
  unfold find_row. split.
  - intros Hn k r Hk. apply (find_none _ _ Hn). apply list_elem_of_In. unfold rows.
    apply list_elem_of_fmap. exists (k, r). by rewrite elem_of_map_to_list.
  - intros Hp. destruct (find p (rows t)) as [r|] eqn:Hf; [|done].
    destruct (find_row_Some p t r Hf) as [[k Hk] Hr]. rewrite (Hp _ _ Hk) in Hr. done.
Qed.

(** A query that at most one row answers. *)
Lemma find_row_unique {R} `{Keyed R} (p : R → bool) (t : table R) k r :
  table_ok t → t !! k = Some r → p r = true → (∀ k' r', t !! k' = Some r' → p r' = true → k' = k) →
  find_row p t = Some r.
Proof.
  intros Hok Hk Hp Hu. destruct (find_row p t) as [r'|] eqn:Hf.
  - apply find_row_Some in Hf as [[k' Hk'] Hp']. rewrite (Hu _ _ Hk' Hp') in Hk'. congruence.
  - rewrite find_row_None in Hf. rewrite (Hf _ _ Hk) in Hp. done.
Qed.

Lemma revoke_Ok now user session t hashes t' :
  revoke now user session t = (Ok hashes, t') →
  t' = Txn (pending t <| sessions := update_where (revocable user session)
              (λ s, s <| AuthSession.revoked_at := Some now |>) (sessions (pending t)) |>) (durable t).
Proof. unfold revoke. intros H. by M_inv. Qed.

(** What makes a secret stand for an actor. *)
Definition authenticates (digest : str → str) (d : db) (now : datetime) (secret : str) (a : Actor) : Prop :=
  ∃ s u role, fullmatch SECRET_PATTERN secret = true ∧
    sessions d !! AuthSession.id s = Some s ∧ AuthSession.secret_hash s = digest secret ∧
    AuthSession.revoked_at s = None ∧ now < AuthSession.expires_at s ∧
    users d !! AuthSession.user_id s = Some u ∧ active_verified u = true ∧
    role_of (User.role u) = Some role ∧
    a = NewActor (User.id u) (AuthSession.id s) role (AuthSession.authenticated_at s).

Section lemmas.
Context (d : db) (now : datetime).
Context (Hok : table_ok (sessions d)) (Huniq : hashes_unique (sessions d)).

Lemma session_live_true h s :
  session_live d h now s = true ↔
  AuthSession.secret_hash s = h ∧ AuthSession.revoked_at s = None ∧ now < AuthSession.expires_at s ∧
  ∃ u, users d !! AuthSession.user_id s = Some u ∧ active_verified u = true.
Proof using Type.
  unfold session_live. rewrite !andb_true_iff, !bool_decide_eq_true, Z.ltb_lt.
  destruct (users d !! _) as [u|]; naive_solver.
Qed.

(** The hint only narrows a query that one row can answer. *)
Lemma hinted_row hint h :
  let live := session_live d h now in
  match i ← hint; find_row (λ s, live s && bool_decide (AuthSession.id s = i)) (sessions d) with
  | Some s => Some s
  | None => find_row live (sessions d)
  end = find_row live (sessions d).
Proof using Hok Huniq.
  cbn zeta. destruct (_ ≫= _) as [s|] eqn:Hh; [|done]. apply bind_Some in Hh as (i & _ & Hs).
  apply find_row_Some in Hs as [[k Hk] [Hl _]%andb_true_iff].
  symmetry. apply (find_row_unique _ _ k); [done..|]. intros k' s' Hk' Hl'.
  apply (Huniq _ _ _ _ Hk' Hk).
  apply session_live_true in Hl as (-> & _). by apply session_live_true in Hl' as (-> & _).
Qed.

Context (digest : str → str).

Lemma resolve_authenticates dd hint secret a t' :
  resolve digest hint now (Some secret) (Txn d dd) = (Ok a, t') ↔
  t' = Txn d dd ∧ authenticates digest d now secret a.
Proof using Hok Huniq.
  unfold resolve. split.
  - intros H. M_inv. cbn [pending] in *. rewrite hinted_row in H.
    destruct (find_row _ (sessions d)) as [s|] eqn:Hf; [|done]. cbn in H.
    destruct (users d !! AuthSession.user_id s) as [u|] eqn:Hu; [|done]. cbn in H.
    destruct (role_of (User.role u)) as [role|] eqn:Hr; [|done]. injection H as <- <-.
    apply find_row_Some in Hf as [[k Hk] (? & ? & ? & u' & Hu' & ?)%session_live_true].
    split; [done|]. exists s, u, role. rewrite Hu in Hu'. injection Hu' as <-.
    split_and!; try done. by rewrite (Hok _ _ Hk : AuthSession.id s = k).
  - intros (-> & s & u & role & Hm & Hs & Hh & Hr & He & Hu & Ha & Hrole & ->).
    unfold mbind, M_bind, check. rewrite Hm. cbn. rewrite hinted_row.
    rewrite (find_row_unique _ _ (AuthSession.id s) s Hok Hs).
    + cbn. rewrite Hu. cbn. by rewrite Hrole.
    + apply session_live_true. eauto 10.
    + intros k' s' Hk' (Hh' & _)%session_live_true. apply (Huniq _ _ _ _ Hk' Hs). congruence.
Qed.

Lemma resolve_refuses dd hint secret e t' :
  resolve digest hint now secret (Txn d dd) = (Err e, t') →
  e = App AuthenticationRequiredError ∧ t' = Txn d dd.
Proof using Type.
  unfold resolve. destruct secret as [secret|]; [|by intros [= <- <-]].
  unfold mbind, M_bind, check. destruct (fullmatch _ _); [|by intros [= <- <-]]. cbn.
  destruct (match _ with Some s => Some s | None => _ end) as [s|]; [|by intros [= <- <-]]. cbn.
  destruct (users d !! _) as [u|]; [|by intros [= <- <-]]. cbn.
  by destruct (role_of _); intros [= <- <-].
Qed.
End lemmas.

(** ** Properties *)

(** The database alone decides who is signed in: whatever the cache holds -
    the right session, another one, a stale or garbled entry, or nothing - a
    secret resolves exactly to the actor of the unrevoked, unexpired session
    with its digest whose user is active, verified and of a known role, and
    otherwise to the one authentication error; resolving changes nothing. And
    once all sessions of a user are revoked, no secret, at any time and with
    any cache content, resolves to that user. *)
Theorem resolve_correct digest d dd hint now secret :
  table_ok (sessions d) → table_ok (users d) → hashes_unique (sessions d) →
  (∀ a t', resolve digest hint now (Some secret) (Txn d dd) = (Ok a, t') ↔
     t' = Txn d dd ∧ authenticates digest d now secret a) ∧
  (∀ s e t', resolve digest hint now s (Txn d dd) = (Err e, t') →
     e = App AuthenticationRequiredError ∧ t' = Txn d dd) ∧
  (∀ revoked_at user hashes t1 later a t', revoke revoked_at user None (Txn d dd) = (Ok hashes, t1) →
     resolve digest hint later (Some secret) t1 = (Ok a, t') → actor_user a ≠ user).
Proof.
  intros Hok Huok Hu. split_and!.
  - intros a t'. by apply resolve_authenticates.
  - intros s e t'. apply resolve_refuses.
  - intros at_ user hashes t1 later a t' Hrev Hres Ha. unfold revoke in Hrev. M_inv. cbn [pending durable] in *.
    
    match type of Hres with resolve _ _ _ _ (Txn ?x _) = _ => set (d1 := x) in * end.
    assert (Hok1 : table_ok (sessions d1)).
    { subst d1. cbn. by apply table_ok_update_where. }
    assert (Hu1 : hashes_unique (sessions d1)).
    { intros k1 k2 s1 s2. subst d1. cbn. rewrite !lookup_update_where, !fmap_Some.
      intros (r1 & H1 & ->) (r2 & H2 & ->) He. apply (Hu k1 k2 r1 r2 H1 H2).
      revert He. by destruct (revocable user None r1), (revocable user None r2). }
    apply resolve_authenticates in Hres as (_ & s & u & role & _ & Hs & _ & Hr & _ & Hus & _ & _ & ->); [|done..].
    cbn in Ha. subst d1. cbn in Hs, Hus.
    rewrite (Huok _ _ Hus : User.id u = _) in Ha.
    rewrite lookup_update_where in Hs. apply fmap_Some in Hs as (r & Hr0 & ->).
    unfold revocable in Hr, Ha, Hus |- *.
    destruct (bool_decide (AuthSession.user_id r = user)) eqn:Hb; cbn in Hr, Ha.
    + destruct (bool_decide (AuthSession.revoked_at r = None)) eqn:Hb2; cbn in Hr; [done|].
      by apply bool_decide_eq_false in Hb2.
    + by apply bool_decide_eq_false in Hb.
Qed.

Definition demo_user : User.t :=
  User.New 1 (lit "ada@example.com") [] None (lit "admin") true (Some 0) 0.
Definition demo_secret : str := replicate 43 97%N.
Definition demo_session : AuthSession.t := AuthSession.New 5 1 demo_secret 0 0 (seconds 1000) None.
Definition demo_db : db := Db {[1 := demo_user]} {[5 := demo_session]} ∅ ∅ ∅ ∅ ∅ [].

Lemma demo_db_ok :
  table_ok (sessions demo_db) ∧ table_ok (users demo_db) ∧ hashes_unique (sessions demo_db).
Proof.
  unfold demo_db. cbn [sessions users].
  split_and!; [by intros k r [<- <-]%lookup_singleton_Some..|].
  by intros k1 k2 s1 s2 [<- _]%lookup_singleton_Some [<- _]%lookup_singleton_Some.
Qed.

Lemma resolve_correct_witness :
  resolve id (Some 99) (seconds 10) (Some demo_secret) (Txn demo_db demo_db)
  = (Ok (NewActor 1 5 ADMIN_ROLE 0), Txn demo_db demo_db).
Proof.
  destruct demo_db_ok as (H1 & H2 & H3).
  apply (proj1 (resolve_correct id demo_db demo_db (Some 99) (seconds 10) demo_secret H1 H2 H3)).
  split; [reflexivity|]. exists demo_session, demo_user, ADMIN_ROLE. by split_and!.
Defined.
