(* ===== verification/Passwords.v ===== *)
(** * Passwords (auth/passwords.py, auth/password_policy.py)

    The length and encoding rules, the screening of new passwords, and the
    parsing of a breach range response. Hashing and the network are
    parameters. *)

From S2P Require Import Prelude Regex PyValues CoreTypes AuditTrail Errors Identity.

Definition MIN_PASSWORD_LEN : Z := 15.
Definition MAX_PASSWORD_LEN : Z := 128.

Definition validate_password (value : str) : M str :=
  check ((MIN_PASSWORD_LEN <=? Z.of_nat (length value)) && (Z.of_nat (length value) <=? MAX_PASSWORD_LEN))
    InvalidPasswordLengthError;;
  mret value.

Section passwords.
(** Argon2: [PasswordHasher.hash] (with its random salt), [.verify] (false for
    what it raises on), [.check_needs_rehash], and the module's dummy hash. *)
Context (argon_hash : str → str) (argon_verify : str → str → bool) (argon_stale : str → bool).
Context (DUMMY_HASH : str).

Definition hash_password (value : str) : M str :=
  value ← validate_password value; mret (argon_hash value).

(** An empty stored hash counts as none for the comparison. *)
Definition verify_password (encoded : option str) (value : str) : bool :=
  let used := match encoded with Some ((_ :: _) as e) => e | _ => DUMMY_HASH end in
  bool_decide (encoded ≠ None) && argon_verify used value.

Definition needs_rehash (encoded : str) : bool := argon_stale encoded.
End passwords.

(** ** Breach ranges *)

Definition COMMON_PASSWORDS : list str :=
  lit <$> ["passwordpassword"; "123456789012345"; "12345678901234567890"; "qwertyuiopasdfgh"].

(** [str.splitlines] on ASCII text. *)
Definition line_break (c : N) : bool := bool_decide (c ∈ [10; 11; 12; 13; 28; 29; 30]%N).

Fixpoint splitlines_from (s line : str) : list str :=
  match s with
  | [] => match line with [] => [] | _ => [reverse line] end
  | 13%N :: 10%N :: s => reverse line :: splitlines_from s []
  | c :: s => if line_break c then reverse line :: splitlines_from s [] else splitlines_from s (c :: line)
  end.
Definition splitlines (s : str) : list str := splitlines_from s [].

Definition hex_upper : cls := [digit; rng "A" "F"].

(** [([0-9A-F]{35}):([0-9]{1,12})] *)
Definition RANGE_ROW : regex :=
  Seq (rep 35 (Cls hex_upper)) (Seq (Cls [chr ":"]) (between 1 12 (Cls [digit]))).
Definition MAX_RANGE_BYTES : Z := 128 * 1024.

(** [int(count)] of decimal digits. *)
Definition decimal_value (s : str) : Z := foldl (λ z c, 10 * z + (Z.of_N c - 48)) 0 s.

(** The two groups of a matching row. *)
Definition range_groups (row : str) : option (str * str) :=
  if fullmatch RANGE_ROW row then Some (take 35 row, drop 36 row) else None.

Fixpoint scan_rows (wanted : str) (rows : list str) (seen : list str) (found : bool)
    : res pyexn bool :=
  match rows with
  | [] => Ok found
  | row :: rows =>
      match range_groups row with
      | None => Err (ValueError "invalid range response")
      | Some (suffix, count) =>
          require (negb (bool_decide (suffix ∈ seen))) (ValueError "duplicate range suffix");;
          scan_rows wanted rows (suffix :: seen)
            (found || (bool_decide (suffix = wanted) && (0 <? decimal_value count)))
      end
  end.

(** What the provider answers: nothing within the time limit or an HTTP error,
    or a status and a body. *)
Definition parse_range (digest : str) (answer : option (Z * str)) : res pyexn bool :=
  match answer with
  | None => Err (ValueError "unavailable")
  | Some (status, body) =>
      require (status =? 200) (ValueError "unexpected range status");;
      require (negb (MAX_RANGE_BYTES <? Z.of_nat (length body)))
        (ValueError "range response exceeds limit");;
      require (forallb (λ c, (c <? 128)%N) body) (ValueError "ordinal not in range(128)");;
      let rows := splitlines body in
      require (bool_decide (rows ≠ [])) (ValueError "empty range response");;
      scan_rows (drop 5 digest) rows [] false
  end.

Section policy.
(** [hashlib.sha1(...).hexdigest().upper()], and the provider's answer for the
    five leading digits. *)
Context (sha1 : str → str) (range : str → option (Z * str)).

Definition is_breached (password : str) : M bool :=
  let digest := sha1 password in
  match parse_range digest (range (take 5 digest)) with
  | Ok b => mret b
  | Err _ => raise PasswordCheckUnavailableError
  end.

Definition validate_new_password (value : str) : M str :=
  validate_password value;;
  check (encodable value) InvalidPasswordEncodingError;;
  check (negb (bool_decide (length (remove_dups value) = 1%nat)
               || bool_decide (casefold value ∈ COMMON_PASSWORDS))) CommonPasswordError;;
  breached ← is_breached value;
  check (negb breached) BreachedPasswordError;;
  mret value.
End policy.

(** ** Lemmas *)

Lemma scan_rows_Ok wanted rows seen found b :
  scan_rows wanted rows seen found = Ok b →
  Forall (λ r, fullmatch RANGE_ROW r = true) rows ∧
  NoDup (take 35 <$> rows) ∧ (∀ r, r ∈ rows → take 35 r ∉ seen) ∧
  (b = true ↔ found = true ∨ ∃ r, r ∈ rows ∧ take 35 r = wanted ∧ 0 < decimal_value (drop 36 r)).
Proof.
  revert seen found. induction rows as [|row rows IH]; intros seen found H.
  - injection H as ->. split_and!; [done|constructor|by intros r ?%not_elem_of_nil|].
    split; [by left|]. intros [?|(r & ?%not_elem_of_nil & _)]; done.
  - cbn in H. unfold range_groups in H. destruct (fullmatch RANGE_ROW row) eqn:Hm; [|done].
    apply bind_Ok in H as (u & Hd%require_Ok & H). bool_inv.
    apply IH in H as (Hall & Hnd & Hns & Hb). split_and!.
    + by constructor.
    + rewrite fmap_cons. constructor; [|done]. intros (r & He & Hr)%list_elem_of_fmap.
      apply (Hns r Hr). rewrite <-He. by left.
    + intros r [-> |Hr]%elem_of_cons; [done|]. intros Hin. apply (Hns r Hr). by right.
    + rewrite Hb, orb_true_iff, andb_true_iff, bool_decide_eq_true, Z.ltb_lt.
      setoid_rewrite elem_of_cons. naive_solver.
Qed.
