(* ===== verification/AuthEvents.v ===== *)
(** * Authentication audit events (auth/events.py, audit/events.py)

    One constructor per event class: the class attributes it declares and the
    metadata it exposes. *)

From S2P Require Import Prelude Regex PyValues CoreTypes AuditTrail Events Outbox Errors Identity.

(** [BaseAuditEvent.to_record]: what a class declares, for an instance. *)
Definition to_record (action target_type : string) (outcome : AuditOutcome) (allowed : list string)
    (metadata : list (string * pyval)) (actor : AuditActor) (target_id : uuid)
    (correlation_id : str) (now : datetime) : AuditData :=
  {| d_actor := actor; d_action := action; d_target_type := target_type; d_target_id := target_id;
     d_outcome := outcome; d_metadata := metadata; d_allowed := allowed;
     d_correlation_id := correlation_id; d_occurred_at := now |}.

Definition RegistrationInitiatedEvent :=
  to_record "auth.registration_requested" "registration_attempt" SUCCEEDED [] [].

Definition EmailChallengeIssuedEvent (purpose : ChallengePurpose) (is_resend : bool) :=
  to_record "auth.challenge_issued" "email_challenge" SUCCEEDED ["purpose"; "is_resend"]
    [("purpose", PStr (purpose_value purpose)); ("is_resend", PBool is_resend)].

Definition EmailChallengeVerificationFailedEvent (purpose : ChallengePurpose) :=
  to_record "auth.challenge_verification_failed" "email_challenge" DENIED ["purpose"]
    [("purpose", PStr (purpose_value purpose))].

Definition RegistrationCompletedEvent :=
  to_record "auth.registration_completed" "user" SUCCEEDED [] [].

Definition ExternalIdentityLinkedEvent (provider : str) :=
  to_record "identity.provider_linked" "user" SUCCEEDED ["provider"] [("provider", PStr provider)].

Definition ExternalIdentityUnlinkedEvent (provider : str) :=
  to_record "identity.provider_unlinked" "user" SUCCEEDED ["provider"] [("provider", PStr provider)].

Definition ExternalLoginSucceededEvent (provider : str) :=
  to_record "identity.login_succeeded" "user" SUCCEEDED ["method"; "provider"]
    [("method", PStr (lit "oidc")); ("provider", PStr provider)].

Definition ExternalReauthenticationSucceededEvent (provider : str) :=
  to_record "identity.reauthentication_succeeded" "user" SUCCEEDED ["method"; "provider"]
    [("method", PStr (lit "oidc")); ("provider", PStr provider)].

Definition ExternalLoginFailedEvent (provider intent : str) :=
  to_record "identity.external_login_failed" "external_login_attempt" DENIED ["provider"; "intent"]
    [("provider", PStr provider); ("intent", PStr intent)].
