(* ===== verification/Administration.v ===== *)
(** * Administration
    (users/administration.py, auth/bootstrap.py, users/admin_repository.py)

    Changing the role and the state of an account, creating the first
    administrator, and listing accounts. The advisory lock serialises these
    calls; a model whose calls are serial has no further use for it. *)

From S2P Require Import Prelude Regex PyValues CoreTypes AuditTrail Events Outbox Errors Identity Sessions Passwords.

(** The condition that the code writes out three times. *)
Definition is_admin (u : User.t) : bool :=
  bool_decide (User.role u = role_value ADMIN_ROLE) && User.is_active u
  && bool_decide (is_Some (User.email_verified_at u)).

Section administration.
Context (float_repr : pyfloat → str).
(** The readings of [utc_now()] and of [uuid4()] in the order of the call. *)
Context (clock : nat → datetime) (ids : nat → uuid).

Definition change_access (settings : AuthSettings) (actor : Actor) (target_id : uuid)
    (role : option Role) (is_active : option bool) (correlation_id : str) : M unit :=
  authorize (clock 0%nat) (clock 1%nat) actor USERS_MANAGE (Some (recent_auth_seconds settings));;
  target ← find_user_by_id target_id;
  match target with
  | None => raise UserNotFoundError
  | Some target =>
      let new_role := match role with Some r => role_value r | None => User.role target end in
      let new_active := match is_active with None => User.is_active target | Some b => b end in
      if bool_decide (new_role = User.role target)
         && bool_decide (new_active = User.is_active target) then mret tt
      else
        d ← get;
        (if is_admin target
            && (negb (bool_decide (new_role = role_value ADMIN_ROLE)) || negb new_active)
         then let others := rowcount (λ u, is_admin u && negb (bool_decide (User.id u = User.id target)))
                              (users d) in
              check (negb (others =? 0)) LastActiveAdminError
         else mret tt);;
        check (negb (bool_decide (new_role = role_value ADMIN_ROLE)
                     && bool_decide (User.email_verified_at target = None))) UnverifiedAdminError;;
        let old_role := User.role target in
        let old_active := User.is_active target in
        modify (λ d, d <| users ::= put (target <| User.role := new_role |>
                                                <| User.is_active := new_active |>) |>);;
        revoke (clock 2%nat) (User.id target) None;;
        audit_by ← lift (audit_actor ADMINISTRATOR (PUUID (actor_user actor)));
        record_audit (record float_repr (ids 0%nat) (clock 3%nat) audit_by
          (PStr (lit "identity.access_changed")) (PStr (lit "user")) (PUUID (User.id target)) SUCCEEDED
          (PDict [(PStr (lit "old_role"), PStr old_role); (PStr (lit "new_role"), PStr new_role);
                  (PStr (lit "old_active"), PBool old_active);
                  (PStr (lit "new_active"), PBool new_active)])
          (list_to_set (lit <$> ["old_role"; "new_role"; "old_active"; "new_active"]))
          (PStr correlation_id) None);;
        commit
  end.

Context (normalize : str → option str).
Context (argon_hash : str → str) (sha1 : str → str) (range : str → option (Z * str)).

(** [session.add(PasswordCredential(...))]. *)
Definition add_credential (user_id : uuid) (password_hash : str) : M unit :=
  d ← get;
  lift (require (bool_decide (credentials d !! user_id = None)) (IntegrityError "pk_password_credentials"));;
  modify (λ d, d <| credentials ::= <[user_id := password_hash]> |>).

(** [bootstrap], and the commit of [run]. *)
Definition bootstrap (email password : str) : M unit :=
  existing ← find_user_by_email normalize email;
  match existing with
  | Some existing => check (is_admin existing) BootstrapConflictError
  | None =>
      d ← get;
      check (rowcount is_admin (users d) =? 0) BootstrapCompleteError;;
      validate_new_password sha1 range password;;
      user ← create_customer normalize (ids 0%nat) (clock 0%nat) email;
      modify (λ d, d <| users ::= put (user <| User.role := role_value ADMIN_ROLE |>
                                            <| User.email_verified_at := Some (clock 1%nat) |>) |>);;
      hash ← hash_password argon_hash password;
      add_credential (User.id user) hash;;
      audit_by ← lift (audit_actor SYSTEM PNone);
      record_audit (record float_repr (ids 1%nat) (clock 2%nat) audit_by
        (PStr (lit "identity.admin_bootstrapped")) (PStr (lit "user")) (PUUID (User.id user)) SUCCEEDED
        (PDict []) ∅ (PStr (lit "admin-bootstrap")) None)
  end.

Definition bootstrap_run (email password : str) : M unit := bootstrap email password;; commit.

(** ORDER BY created_at DESC, id DESC. *)
Definition newest_user (u : User.t) : list Z := [- User.created_at u; - User.id u].

Definition list_users (actor : Actor) (page : PageRequest) (role : option Role)
    (is_active : option bool) (email : option str) : M (Page User.t) :=
  authorize (clock 0%nat) (clock 1%nat) actor USERS_READ None;;
  email ← match email with
          | Some e => e ← normalize_email normalize e; mret (Some e)
          | None => mret None
          end;
  d ← get;
  let conditions u := filter_by (role_value <$> role) User.role u
                      && filter_by is_active User.is_active u && filter_by email User.email u in
  let total := rowcount conditions (users d) in
  let rows := limit_offset page (select conditions newest_user (users d)) in
  lift (make_page rows (PInt total) (PInt (CoreTypes.page page)) (PInt (page_size page))).
End administration.

(** ** Lemmas *)

Definition administered (d : db) : Prop := ∃ k u, users d !! k = Some u ∧ is_admin u = true.

Lemma is_admin_active u : is_admin u = true → active_verified u = true.
Proof. unfold is_admin, active_verified. by destruct (bool_decide _), (User.is_active u). Qed.

(** What a successful authorisation tells about the durable rows. *)
Definition authorized (d : db) (now later : datetime) (a : Actor) (p : Permission) (recent : option Z)
    (u : User.t) : Prop :=
  ∃ s role, users d !! actor_user a = Some u ∧ sessions d !! actor_session a = Some s ∧
    active_verified u = true ∧ AuthSession.user_id s = User.id u ∧ AuthSession.revoked_at s = None ∧
    now < AuthSession.expires_at s ∧ role_of (User.role u) = Some role ∧ permits role p = true ∧
    ∀ n, recent = Some n → later - AuthSession.authenticated_at s ≤ seconds n.

Lemma authorize_Ok now later a p recent u t t' :
  authorize now later a p recent t = (Ok u, t') →
  t' = t ∧ authorized (pending t) now later a p recent u.
Proof.
  unfold authorize, find_user_by_id. intros H. M_inv.
  destruct (users _ !! actor_user a) as [u'|] eqn:Hu; [|done].
  destruct (sessions _ !! actor_session a) as [s|] eqn:Hs; [|done].
  M_inv. destruct (role_of (User.role u')) as [role|] eqn:Hr; [|done]. M_inv. bool_inv.
  split; [done|]. exists s, role. split_and!; try done.
  intros n ->. bool_inv. lia.
Qed.

Lemma authorize_frame now later a p recent t :
  (authorize now later a p recent t).2 = t.
Proof.
  unfold authorize, find_user_by_id, mbind, M_bind. cbn.
  destruct (users _ !! _); [|done]. cbn. destruct (sessions _ !! _); [|done].
  unfold check. destruct (_ && _); [|done]. cbn. destruct (role_of _); [|done].
  destruct (permits _ _); [|done]. cbn. by destruct (match recent with Some _ => _ | None => _ end).
Qed.

Lemma uncommitted_authorize now later a p recent : uncommitted (authorize now later a p recent).
Proof. intros t. by rewrite authorize_frame. Qed.
Lemma uncommitted_find_user_by_id k : uncommitted (find_user_by_id k).
Proof. unfold find_user_by_id. atomic_auto. Qed.
Lemma uncommitted_find_user_by_email normalize e : uncommitted (find_user_by_email normalize e).
Proof. unfold find_user_by_email, normalize_email. atomic_auto. Qed.
Lemma uncommitted_revoke now u s : uncommitted (revoke now u s).
Proof. unfold revoke. atomic_auto. Qed.
#[export] Hint Resolve uncommitted_authorize uncommitted_find_user_by_id
  uncommitted_find_user_by_email uncommitted_revoke : service.

Lemma evolves_authorize R `{!PreOrder R} t now later a p recent :
  evolves R t (authorize now later a p recent).
Proof. by apply evolves_still, authorize_frame. Qed.
Lemma evolves_find_user_by_id R `{!PreOrder R} t k : evolves R t (find_user_by_id k).
Proof. by apply evolves_still. Qed.
Lemma find_user_by_email_frame normalize e t : (find_user_by_email normalize e t).2 = t.
Proof. unfold find_user_by_email, normalize_email, mbind, M_bind. by destruct (normalize e). Qed.
Lemma evolves_find_user_by_email R `{!PreOrder R} t normalize e :
  evolves R t (find_user_by_email normalize e).
Proof. by apply evolves_still, find_user_by_email_frame. Qed.
#[export] Hint Resolve evolves_authorize evolves_find_user_by_id evolves_find_user_by_email : service.

Lemma admin_permits u role p :
  role_of (User.role u) = Some role → permits role p = true → p ≠ PROFILE_WRITE →
  active_verified u = true → is_admin u = true.
Proof.
  unfold role_of, is_admin, active_verified.
  case_bool_decide; [intros [= <-]; by destruct p|]. case_bool_decide as Hr; [|done].
  intros _ _ _ Ha. by rewrite Hr.
Qed.

(** A check that only one branch makes. *)
Lemma guard_Ok (b c : bool) e t u t' :
  (if b then check c e else mret tt) t = (Ok u, t') → t' = t ∧ (b = true → c = true).
Proof. destruct b; intros H; M_inv; done. Qed.

Section change_access.
Context (float_repr : pyfloat → str) (clock : nat → datetime) (ids : nat → uuid).
Context (settings : AuthSettings) (actor : Actor) (target_id : uuid).
Context (role : option Role) (active : option bool) (correlation_id : str).
Context (d : db) (Hok : table_ok (users d)).

Notation call := (change_access float_repr clock ids settings actor target_id role active correlation_id).

Definition changed (target : User.t) : User.t :=
  target <| User.role := match role with Some r => role_value r | None => User.role target end |>
         <| User.is_active := match active with Some b => b | None => User.is_active target end |>.

(** An administrator among the others. *)
Lemma other_admin target :
  negb (rowcount (λ u, is_admin u && negb (bool_decide (User.id u = User.id target))) (users d) =? 0)
    = true ↔
  ∃ k u, users d !! k = Some u ∧ is_admin u = true ∧ k ≠ User.id target.
Proof using Hok.
  rewrite negb_true_iff, Z.eqb_neq. split.
  - intros Hn. unfold rowcount in Hn.
    destruct (filter _ (rows (users d))) as [|u l] eqn:Hf; [done|].
    assert (Hin : u ∈ u :: l) by left. rewrite <-Hf in Hin.
    apply list_elem_of_filter in Hin as [Hp Hin]. apply elem_of_rows in Hin; [|done].
    apply Is_true_true in Hp. bool_inv. eauto.
  - intros (k & u & Hu & Ha & Hk).
    enough (0 < rowcount (λ u, is_admin u && negb (bool_decide (User.id u = User.id target))) (users d)) by lia.
    assert (Hid : User.id u = k) by exact (Hok _ _ Hu). subst k.
    apply rowcount_pos; [done|]. exists u. split; [done|]. rewrite Ha. cbn.
    by apply negb_true_iff, bool_decide_eq_false.
Qed.

(** Every branch of a call: it changes nothing, or it does all of its work. *)
Lemma change_access_effect r d' :
  run call d = (r, d') →
  (d' = d ∧ (r = Ok tt → ∃ a t, users d !! target_id = Some t ∧ changed t = t ∧
     authorized d (clock 0%nat) (clock 1%nat) actor USERS_MANAGE
       (Some (recent_auth_seconds settings)) a)) ∨
  (r = Ok tt ∧ ∃ a t row, users d !! target_id = Some t ∧ changed t ≠ t ∧
     authorized d (clock 0%nat) (clock 1%nat) actor USERS_MANAGE
       (Some (recent_auth_seconds settings)) a ∧
     (is_admin t = true → is_admin (changed t) = false →
        ∃ k u, users d !! k = Some u ∧ is_admin u = true ∧ k ≠ target_id) ∧
     (User.role (changed t) = role_value ADMIN_ROLE → is_Some (User.email_verified_at t)) ∧
     Audit.actor_id row = Some (actor_user actor) ∧ Audit.target_id row = target_id ∧
     Audit.action row = lit "identity.access_changed" ∧
     d' = Db (<[target_id := changed t]> (users d))
             (update_where (revocable target_id None)
                (λ s, s <| AuthSession.revoked_at := Some (clock 2%nat) |>) (sessions d))
             (credentials d) (challenges d) (addresses d) (externals d) (outbox d) (audit d ++ [row])).
Proof using Hok.
  intros H. destruct r as [[]|e].
  2: { left. split; [|done]. revert H. apply atomic_run. unfold change_access. atomic_auto. }
  unfold run in H. destruct (call _) as [r t] eqn:Hc. injection H as -> <-.
  unfold change_access, find_user_by_id in Hc. M_inv.
  apply authorize_Ok in Hx as [-> Hauth]. cbn [pending durable] in *.
  destruct (users d !! target_id) as [target|] eqn:Ht; [|done].
  assert (Hid : User.id target = target_id) by exact (Hok _ _ Ht).
  destruct (bool_decide _ && bool_decide _) eqn:Hsame.
  - bool_inv. M_inv. left. split; [done|]. intros _. exists x, target. split_and!; [done| |done].
    destruct target; unfold changed; cbn in *; destruct role, active; cbn in *; congruence.
  - right. M_inv. cbn [pending durable] in *. apply revoke_Ok in Hx3 as ->.
    unfold record_audit in Hx5. M_inv. cbn [pending durable] in *.
    apply guard_Ok in Hx0 as [-> Hlast].
    split; [done|]. eexists _, target, _. split; [done|]. split_and!; try done.
    + intros Heq. unfold changed in Heq. destruct target. cbn in *. injection Heq as Hr Ha.
      by rewrite Hr, Ha, !bool_decide_eq_true_2 in Hsame.
    + intros Ha Hn. rewrite Ha in Hlast. rewrite <-Hid. apply other_admin, Hlast.
      unfold is_admin in Ha, Hn. bool_inv. cbn in Hn.
      rewrite (bool_decide_eq_true_2 (is_Some _)), andb_true_r in Hn by done. cbn in Hn.
      revert Hn. repeat case_bool_decide; cbn; try done; by intros ->.
    + intros Hr. rewrite bool_decide_eq_true_2 in Hx1 by exact Hr. cbn in Hx1. bool_inv.
      by apply not_eq_None_Some.
    + apply record_Ok in Hx as (_ & _ & -> & _). by injection Hx4 as <-.
    + apply record_Ok in Hx as (_ & _ & _ & _ & [= ->] & _). done.
    + apply record_Ok in Hx as (_ & _ & _ & [= ->] & _). done.
    + cbn. unfold put. cbn. by rewrite <-Hid.
Qed.
End change_access.

(** ** Properties *)

(** C27: A change of access does nothing or all of its work. Whoever changes
    anything is an active, verified administrator with a live session of
    theirs that authenticated within the configured window; then the target has
    exactly the role and state asked for, is not made administrator without a
    verified address, loses every open session, and one audit row naming actor
    and target is added, while no other account, credential or session changes.
    A call that raises leaves the database as it was. And an active, verified
    administrator always remains. *)
Theorem change_access_correct float_repr clock ids settings actor target_id role active correlation d r d' :
  table_ok (users d) →
  run (change_access float_repr clock ids settings actor target_id role active correlation) d = (r, d') →
  (administered d → administered d') ∧
  (∀ e, r = Err e → d' = d) ∧
  (r = Ok tt → ∃ t, users d !! target_id = Some t ∧
     users d' = <[target_id := changed role active t]> (users d) ∧
     (User.email_verified_at t = None → User.role t ≠ role_value ADMIN_ROLE →
      User.role (changed role active t) ≠ role_value ADMIN_ROLE)) ∧
  (d' ≠ d → ∃ a s row,
     users d !! actor_user actor = Some a ∧ is_admin a = true ∧
     sessions d !! actor_session actor = Some s ∧ AuthSession.user_id s = User.id a ∧
     AuthSession.revoked_at s = None ∧ clock 0%nat < AuthSession.expires_at s ∧
     clock 1%nat - AuthSession.authenticated_at s ≤ seconds (recent_auth_seconds settings) ∧
     audit d' = audit d ++ [row] ∧ Audit.actor_id row = Some (actor_user actor) ∧
     Audit.target_id row = target_id ∧
     (∀ k s', sessions d' !! k = Some s' → AuthSession.user_id s' = target_id →
        is_Some (AuthSession.revoked_at s')) ∧
     (∀ k s', sessions d !! k = Some s' → AuthSession.user_id s' ≠ target_id →
        sessions d' !! k = Some s') ∧
     credentials d' = credentials d ∧ addresses d' = addresses d ∧ challenges d' = challenges d).
Proof.
  intros Hok H.
  destruct (change_access_effect float_repr clock ids settings actor target_id role active
              correlation d Hok r d' H)
    as [[-> Hsame]|(-> & a & t & row & Ht & Hne & Hauth & Hlast & Hver & Hactor & Htarget & _ & ->)].
  - split_and!; [done|done| |done]. intros (a & t & Ht & Hc & _)%Hsame. exists t.
    split_and!; [done| |by rewrite Hc]. by rewrite Hc, insert_id.
  - pose proof Hauth as (s & ro & Ha & Hs & Hact & Hsu & Hsr & Hse & Hro & Hperm & Hrec).
    assert (Hadm : is_admin a = true) by (by eapply admin_permits).
    split_and!; [| done | |].
    + intros (k & u & Hu & Hua). destruct (decide (k = target_id)) as [-> |Hk].
      * assert (u = t) as -> by congruence.
        destruct (is_admin (changed role active t)) eqn:Hc.
        -- exists target_id, (changed role active t). cbn. by rewrite lookup_insert_eq.
        -- destruct (Hlast Hua eq_refl) as (k' & u' & Hu' & Hua' & Hk'). exists k', u'. cbn.
           by rewrite lookup_insert_ne.
      * exists k, u. cbn. by rewrite lookup_insert_ne.
    + intros _. exists t. split_and!; [done|done|]. intros Hn _ Hr. destruct (Hver Hr). congruence.
    + intros _. exists a, s, row. split_and!; try done; [by apply Hrec| |]; cbn; intros k s' Hk Hu;
        rewrite lookup_update_where in *.
      * apply fmap_Some in Hk as (s0 & Hk & ->). unfold revocable in *.
        destruct (bool_decide (AuthSession.user_id s0 = target_id)) eqn:Hb; cbn in Hu |- *;
          [|by apply bool_decide_eq_false in Hb].
        destruct (bool_decide (AuthSession.revoked_at s0 = None)) eqn:Hb2; cbn in *; [done|].
        by apply bool_decide_eq_false, not_eq_None_Some in Hb2.
      * rewrite Hk. cbn. unfold revocable. by rewrite bool_decide_eq_false_2.
Qed.

Definition second_user : User.t :=
  User.New 2 (lit "bob@example.com") [] None (lit "customer") true (Some 0) 0.
Definition demo_settings : AuthSettings := NewAuthSettings 604800 60 600 5 60 300 [] ∅ (lit "v1").
Definition two_users : db := demo_db <| users ::= put second_user |>.

Lemma two_users_ok : table_ok (users two_users).
Proof. apply table_ok_put. by destruct demo_db_ok as (_ & ? & _). Qed.

Lemma change_access_correct_witness :
  ∃ d', run (change_access (λ _, []) (λ _, seconds 10) (λ n, Z.of_nat n) demo_settings
               (NewActor 1 5 ADMIN_ROLE 0) 2 (Some ADMIN_ROLE) None (lit "r-1")) two_users = (Ok tt, d') ∧
    administered d' ∧ (User.role <$> users d' !! 2) = Some (lit "admin").
Proof.
  eexists. split; [vm_compute; reflexivity|].
  edestruct (change_access_correct (λ _, []) (λ _, seconds 10) (λ n, Z.of_nat n) demo_settings
    (NewActor 1 5 ADMIN_ROLE 0) 2 (Some ADMIN_ROLE) None (lit "r-1") two_users (Ok tt))
    as (H1 & _ & _ & _); [exact two_users_ok|vm_compute; reflexivity|].
  split; [|reflexivity]. apply H1. exists 1, demo_user. by split.
Defined.
