(* ===== verification/Challenges.v ===== *)
(** * Email challenges (auth/challenges.py)

    Issuing a challenge, and consuming it: a bounded number of comparisons
    against a code that is derived from the row and a key, never stored. *)

From S2P Require Import Prelude Regex PyValues CoreTypes AuditTrail Events Outbox Errors Identity Sessions Passwords AuthEvents.

(** [ChallengePurpose(value)]. *)
Definition purpose_of (s : str) : option ChallengePurpose :=
  if bool_decide (s = lit "registration") then Some REGISTRATION
  else if bool_decide (s = lit "password_reset") then Some PASSWORD_RESET else None.

Definition challenge_purpose (c : EmailChallenge.t) : M ChallengePurpose :=
  match purpose_of (EmailChallenge.purpose c) with
  | Some p => mret p
  | None => throw (Internal (ValueError "not a valid ChallengePurpose"))
  end.

Definition key_bytes (settings : AuthSettings) (version : str) : M (list N) :=
  match challenge_keys settings !! version with
  | Some key => mret (utf8 key)
  | None => raise EmailVerificationUnavailableError
  end.

(** The primary key, the pair that is unique, and the check of the table. *)
Definition insert_challenge (c : EmailChallenge.t) (t : table EmailChallenge.t)
    : res pyexn (table EmailChallenge.t) :=
  require (bool_decide (t !! EmailChallenge.id c = None)) (IntegrityError "pk_email_challenges");;
  require (negb (existsb (λ r, bool_decide (EmailChallenge.email r = EmailChallenge.email c)
                               && bool_decide (EmailChallenge.purpose r = EmailChallenge.purpose c))
                   (rows t))) (IntegrityError "uq_email_challenges_email");;
  require (0 <=? EmailChallenge.attempts c) (IntegrityError "ck_email_challenges_attempts");;
  Ok (put c t).

Section challenges.
(** [hmac.new(key, message, "sha256")], on bytes: the digest as a big-endian
    integer. *)
Context (hmac_sha256 : list N → list N → Z) (float_repr : pyfloat → str).

Definition derive_code (challenge : EmailChallenge.t) (settings : AuthSettings) : M str :=
  purpose ← challenge_purpose challenge;
  let message := lit "deliver:" ++ uuid_str (EmailChallenge.id challenge) ++ lit ":" ++ purpose_value purpose in
  key ← key_bytes settings (EmailChallenge.key_version challenge);
  mret (digits 6 (hmac_sha256 key (utf8 message) mod 1000000)).

Definition code_digest (challenge : EmailChallenge.t) (code : str) (settings : AuthSettings) : M str :=
  purpose ← challenge_purpose challenge;
  lift (require (encodable code) (ValueError "surrogates not allowed"));;
  let message := lit "verify:" ++ uuid_str (EmailChallenge.id challenge) ++ lit ":"
                 ++ purpose_value purpose ++ lit ":" ++ code in
  key ← key_bytes settings (EmailChallenge.key_version challenge);
  mret (hex 64 (hmac_sha256 key (utf8 message))).

Context (clock : nat → datetime) (ids : nat → uuid).

Definition challenge_for (email : str) (purpose : ChallengePurpose) (c : EmailChallenge.t) : bool :=
  bool_decide (EmailChallenge.email c = email)
  && bool_decide (EmailChallenge.purpose c = purpose_value purpose).

Definition issue_challenge (settings : AuthSettings) (email : str) (purpose : ChallengePurpose)
    (correlation_id : option str) : M uuid :=
  key_bytes settings (active_challenge_key settings);;
  d ← get;
  let previous := find_row (challenge_for email purpose) (challenges d) in
  let now := clock 0%nat in
  if match previous with
     | Some p => now - EmailChallenge.created_at p <? seconds (resend_seconds settings)
     | None => false
     end
  then mret (ids 0%nat)
  else
    match previous with
    | Some p => modify (λ d, d <| challenges ::= delete (EmailChallenge.id p) |>)
    | None => mret tt
    end;;
    let row := EmailChallenge.New (ids 0%nat) email (purpose_value purpose)
                 (active_challenge_key settings) [] 0 now
                 (now + seconds (challenge_seconds settings)) None in
    code ← derive_code row settings;
    hash ← code_digest row code settings;
    let row := row <| EmailChallenge.code_hash := hash |> in
    event ← lift (domain_event (PUUID (ids 1%nat)) (PStr EMAIL_CHALLENGE_REQUESTED)
                    (PStr (lit "email_challenge")) (PUUID (EmailChallenge.id row)) (PInt 1)
                    (PDatetime (aware now))
                    (PDict [(PStr (lit "challenge_id"), PStr (uuid_str (EmailChallenge.id row)))]));
    message ← lift (add (ids 2%nat) event PNone None);
    anonymous ← lift (audit_actor ANONYMOUS PNone);
    record_audit (record_event float_repr (ids 3%nat) (clock 1%nat)
      (EmailChallengeIssuedEvent purpose (bool_decide (is_Some previous)) anonymous
         (EmailChallenge.id row) (or_fresh correlation_id (ids 4%nat)) (clock 1%nat)));;
    d ← get;
    t ← lift (insert_challenge row (challenges d));
    o ← lift (insert_message message (outbox d));
    modify (λ d, d <| challenges := t |> <| outbox := o |>);;
    mret (EmailChallenge.id row).

Definition verification_failed (challenge_id : uuid) (purpose : ChallengePurpose)
    (correlation_id : option str) : M unit :=
  anonymous ← lift (audit_actor ANONYMOUS PNone);
  record_audit (record_event float_repr (ids 0%nat) (clock 1%nat)
    (EmailChallengeVerificationFailedEvent purpose anonymous challenge_id
       (or_fresh correlation_id (ids 1%nat)) (clock 1%nat))).

(** The row may be compared with a code. *)
Definition challenge_open (settings : AuthSettings) (purpose : ChallengePurpose) (now : datetime)
    (row : EmailChallenge.t) : bool :=
  bool_decide (EmailChallenge.purpose row = purpose_value purpose)
  && bool_decide (EmailChallenge.consumed_at row = None)
  && negb (EmailChallenge.expires_at row <=? now)
  && negb (challenge_attempts settings <=? EmailChallenge.attempts row).

Definition consume_challenge (settings : AuthSettings) (challenge_id : uuid) (code : str)
    (purpose : ChallengePurpose) (correlation_id : option str) : M EmailChallenge.t :=
  d ← get;
  match challenges d !! challenge_id with
  | Some row =>
      if challenge_open settings purpose (clock 0%nat) row then
        let row := row <| EmailChallenge.attempts ::= Z.add 1 |> in
        modify (λ d, d <| challenges ::= put row |>);;
        expected ← code_digest row code settings;
        if bool_decide (EmailChallenge.code_hash row = expected) then
          let row := row <| EmailChallenge.consumed_at := Some (clock 1%nat) |> in
          modify (λ d, d <| challenges ::= put row |>);;
          mret row
        else
          verification_failed challenge_id purpose correlation_id;;
          raise InvalidChallengeError
      else
        verification_failed challenge_id purpose correlation_id;;
        raise InvalidChallengeError
  | None =>
      verification_failed challenge_id purpose correlation_id;;
      raise InvalidChallengeError
  end.
End challenges.

(** ** Lemmas *)

Lemma uncommitted_code_digest h c code s : uncommitted (code_digest h c code s).
Proof. unfold code_digest, challenge_purpose, key_bytes. atomic_auto. Qed.
Lemma uncommitted_derive_code h c s : uncommitted (derive_code h c s).
Proof. unfold derive_code, challenge_purpose, key_bytes. atomic_auto. Qed.
#[export] Hint Resolve uncommitted_code_digest uncommitted_derive_code : service.

Lemma uncommitted_issue_challenge h fr clock ids s e p c :
  uncommitted (issue_challenge h fr clock ids s e p c).
Proof. unfold issue_challenge, key_bytes. atomic_auto. Qed.
Lemma uncommitted_verification_failed fr clock ids k p c :
  uncommitted (verification_failed fr clock ids k p c).
Proof. unfold verification_failed. atomic_auto. Qed.
#[export] Hint Resolve uncommitted_issue_challenge uncommitted_verification_failed : service.
Lemma uncommitted_consume_challenge h fr clock ids s k code p c :
  uncommitted (consume_challenge h fr clock ids s k code p c).
Proof. unfold consume_challenge. atomic_auto. Qed.
#[export] Hint Resolve uncommitted_consume_challenge : service.
