(* ===== verification/AuthService.v ===== *)
(** * Signing in and out, password reset and registration
    (auth/service.py, auth/registration.py)

    The use cases over sessions, passwords and challenges, each one transaction
    with its commits where the code has them. *)

From S2P Require Import Prelude Regex PyValues CoreTypes AuditTrail Events Outbox Errors Identity Sessions Passwords AuthEvents Challenges Administration.

(** What third-party code computes for the identity services. *)
Class Platform := {
  normalize : str → option str;            (** email-validator *)
  sha256_hex : str → str;                  (** hashlib *)
  sha1_hex : str → str;
  hmac_sha256 : list N → list N → Z;
  argon_hash : str → str;                  (** argon2-cffi *)
  argon_verify : str → str → bool;
  argon_stale : str → bool;
  dummy_hash : str;
  pwned_range : str → option (Z * str);    (** the breach range service *)
  float_text : pyfloat → str }.            (** [repr] of a float *)

Section services.
Context `{Platform}.
(** The readings of [utc_now()] and [uuid4()] of the call, and what the cache
    answers for a session. *)
Context (clock : nat → datetime) (ids : nat → uuid) (hint : option uuid).
Context (settings : AuthSettings).

(** [uow.session.get(PasswordCredential, user_id)]. *)
Definition get_credential (user_id : uuid) : M (option str) :=
  d ← get; mret (credentials d !! user_id).

Definition set_credential (user_id : uuid) (password_hash : str) : M unit :=
  modify (λ d, d <| credentials ::= <[user_id := password_hash]> |>).

(** The new session's secret comes from [secrets.token_urlsafe]. *)
Definition login (email password : str) (previous_secret : option str) (secret : str) : M str :=
  found ← catching InvalidEmailError (find_user_by_email normalize email) (mret None);
  user ← match found with Some u => find_user_by_id (User.id u) | None => mret None end;
  credential ← match user with Some u => get_credential (User.id u) | None => mret None end;
  let valid := verify_password argon_verify dummy_hash credential password in
  match user with
  | None => raise InvalidCredentialsError
  | Some user =>
      check (valid && active_verified user) InvalidCredentialsError;;
      match credential with
      | Some h =>
          if needs_rehash argon_stale h
          then hash ← hash_password argon_hash password; set_credential (User.id user) hash
          else mret tt
      | None => mret tt
      end;;
      secret ← issue sha256_hex settings (clock 0%nat) (ids 0%nat) secret user;
      match previous_secret with
      | None => mret tt
      | Some previous_secret =>
          previous_actor ← catching AuthenticationRequiredError
            (a ← resolve sha256_hex hint (clock 1%nat) (Some previous_secret); mret (Some a)) (mret None);
          match previous_actor with
          | Some a => revoke (clock 2%nat) (actor_user a) (Some (actor_session a));; mret tt
          | None => mret tt
          end
      end;;
      commit;; mret secret
  end.

Definition logout (secret : option str) : M unit :=
  actor ← catching AuthenticationRequiredError
    (a ← resolve sha256_hex hint (clock 0%nat) secret; mret (Some a)) (mret None);
  match actor with
  | None => mret tt
  | Some a => revoke (clock 1%nat) (actor_user a) (Some (actor_session a));; commit
  end.

Definition logout_all (actor : Actor) : M unit :=
  user ← find_user_by_id (actor_user actor);
  check (bool_decide (is_Some user)) AuthenticationRequiredError;;
  revoke (clock 0%nat) (actor_user actor) None;;
  commit.

Definition reauthenticate (actor : Actor) (password : str) : M unit :=
  user ← find_user_by_id (actor_user actor);
  credential ← get_credential (actor_user actor);
  let valid := verify_password argon_verify dummy_hash credential password in
  d ← get;
  match user, sessions d !! actor_session actor with
  | Some user, Some row =>
      check (valid && User.is_active user && bool_decide (AuthSession.revoked_at row = None)
             && negb (AuthSession.expires_at row <=? clock 0%nat)) AuthenticationRequiredError;;
      modify (λ d, d <| sessions ::= put (row <| AuthSession.authenticated_at := clock 1%nat |>) |>);;
      commit
  | _, _ => raise AuthenticationRequiredError
  end.

Definition begin_reset (email : str) : M uuid :=
  user ← find_user_by_email normalize email;
  d ← get;
  challenge_id ←
    match user with
    | Some user =>
        if active_verified user && bool_decide (is_Some (credentials d !! User.id user))
        then issue_challenge hmac_sha256 float_text clock ids settings (User.email user) PASSWORD_RESET None
        else mret (ids 0%nat)
    | None => mret (ids 0%nat)
    end;
  commit;;
  mret challenge_id.

(** [try: consume_challenge(...) except InvalidChallengeError: commit; raise]. *)
Definition consume_or_commit (challenge_id : uuid) (code : str) (purpose : ChallengePurpose)
    : M EmailChallenge.t :=
  catching InvalidChallengeError
    (consume_challenge hmac_sha256 float_text clock ids settings challenge_id code purpose None)
    (commit;; raise InvalidChallengeError).

Definition complete_reset (challenge_id : uuid) (code password : str) (correlation_id : str) : M unit :=
  validate_new_password sha1_hex pwned_range password;;
  challenge ← consume_or_commit challenge_id code PASSWORD_RESET;
  found ← find_user_by_email normalize (EmailChallenge.email challenge);
  user ← match found with Some u => find_user_by_id (User.id u) | None => mret None end;
  match user with
  | None => raise AuthenticationRequiredError
  | Some user =>
      check (active_verified user) AuthenticationRequiredError;;
      credential ← get_credential (User.id user);
      check (bool_decide (is_Some credential)) AuthenticationRequiredError;;
      hash ← hash_password argon_hash password;
      set_credential (User.id user) hash;;
      revoke (clock 2%nat) (User.id user) None;;
      anonymous ← lift (audit_actor ANONYMOUS PNone);
      record_audit (record float_text (ids 2%nat) (clock 3%nat) anonymous
        (PStr (lit "identity.password_reset")) (PStr (lit "user")) (PUUID (User.id user)) SUCCEEDED
        (PDict []) ∅ (PStr correlation_id) None);;
      commit
  end.

(** Ids 5 to 7 are taken before those of the challenge. *)
Definition begin_registration (email : str) (correlation_id : option str) : M uuid :=
  let correlation_id := or_fresh correlation_id (ids 5%nat) in
  anonymous ← lift (audit_actor ANONYMOUS PNone);
  record_audit (record_event float_text (ids 6%nat) (clock 2%nat)
    (RegistrationInitiatedEvent anonymous (ids 7%nat) correlation_id (clock 2%nat)));;
  email ← normalize_email normalize email;
  user ← find_user_by_email normalize email;
  challenge_id ←
    match user with
    | Some _ => mret (ids 0%nat)
    | None => issue_challenge hmac_sha256 float_text clock ids settings email REGISTRATION
                (Some correlation_id)
    end;
  commit;;
  mret challenge_id.

Definition complete_registration (challenge_id : uuid) (code password : str)
    (correlation_id : option str) : M unit :=
  let correlation_id := or_fresh correlation_id (ids 2%nat) in
  validate_new_password sha1_hex pwned_range password;;
  challenge ← consume_or_commit challenge_id code REGISTRATION;
  existing ← find_user_by_email normalize (EmailChallenge.email challenge);
  check (bool_decide (existing = None)) InvalidChallengeError;;
  user ← create_customer normalize (ids 3%nat) (clock 2%nat) (EmailChallenge.email challenge);
  modify (λ d, d <| users ::= put (user <| User.email_verified_at := Some (clock 3%nat) |>) |>);;
  hash ← hash_password argon_hash password;
  add_credential (User.id user) hash;;
  anonymous ← lift (audit_actor ANONYMOUS PNone);
  record_audit (record_event float_text (ids 4%nat) (clock 4%nat)
    (RegistrationCompletedEvent anonymous (User.id user) correlation_id (clock 4%nat)));;
  commit.
End services.
