(* ===== verification/Profile.v ===== *)
(** * Profiles and address books (users/service.py, users/schemas.py, users/address.py)

    A customer's own data: the validated inputs, and an address book with a
    bound on its size and at most one default address of each kind. *)

From S2P Require Import Prelude Regex PyValues CoreTypes AuditTrail Events Outbox Errors Identity Sessions Passwords Administration.

(** ** Inputs *)

Record ProfileInput := NewProfileInput { p_display_name : str; p_phone : option str }.

Record AddressInput := NewAddressInput {
  a_kind : str;
  a_recipient : str;
  a_line1 : str;
  a_line2 : option str;
  a_city : str;
  a_region : str;
  a_postal_code : option str;
  a_country_code : str;
  a_phone : option str;
  a_is_default : bool }.

Definition sized (lo hi : Z) (s : str) : bool := between_z lo hi (Z.of_nat (length s)).
Definition sized_opt (lo hi : Z) (o : option str) : bool := from_option (sized lo hi) true o.

(** [[A-Z]{2}] *)
Definition COUNTRY_PATTERN : regex := rep 2 (Cls [upper]).

Section inputs.
(** What pydantic strips from both ends of a string. *)
Context (trim : str → str).

Definition profile_input (display_name : str) (phone : option str) : res pyexn ProfileInput :=
  let display_name := trim display_name in
  let phone := trim <$> phone in
  require (sized 1 150 display_name) (ValueError "display_name");;
  require (sized_opt 5 32 phone) (ValueError "phone");;
  Ok (NewProfileInput display_name phone).

Definition address_input (i : AddressInput) : res pyexn AddressInput :=
  let i := NewAddressInput (a_kind i) (trim (a_recipient i)) (trim (a_line1 i)) (trim <$> a_line2 i)
             (trim (a_city i)) (trim (a_region i)) (trim <$> a_postal_code i) (trim (a_country_code i))
             (trim <$> a_phone i) (a_is_default i) in
  require (bool_decide (a_kind i ∈ [lit "shipping"; lit "billing"])) (ValueError "kind");;
  require (sized 1 150 (a_recipient i)) (ValueError "recipient");;
  require (sized 1 200 (a_line1 i)) (ValueError "line1");;
  require (sized_opt 0 200 (a_line2 i)) (ValueError "line2");;
  require (sized 1 100 (a_city i)) (ValueError "city");;
  require (sized 1 100 (a_region i)) (ValueError "region");;
  require (sized_opt 0 20 (a_postal_code i)) (ValueError "postal_code");;
  require (fullmatch COUNTRY_PATTERN (a_country_code i)) (ValueError "country_code");;
  require (sized_opt 5 32 (a_phone i)) (ValueError "phone");;
  Ok i.
End inputs.

(** [AccessInput.require_change]. *)
Definition access_input (role : option Role) (is_active : option bool)
    : res pyexn (option Role * option bool) :=
  require (negb (bool_decide (role = None) && bool_decide (is_active = None)))
    (ValueError "supply a role or active-state change");;
  Ok (role, is_active).

(** ** Operations *)

Definition owned_by (user_id : uuid) (a : Address.t) : bool := bool_decide (Address.user_id a = user_id).

Definition default_of (user_id : uuid) (kind : str) (a : Address.t) : bool :=
  owned_by user_id a && bool_decide (Address.kind a = kind) && Address.is_default a.

(** Writing a row, under the partial unique index on default addresses. *)
Definition flush_address (a : Address.t) (t : table Address.t) : res pyexn (table Address.t) :=
  require (negb (Address.is_default a
                 && existsb (λ r, default_of (Address.user_id a) (Address.kind a) r
                                  && negb (bool_decide (Address.id r = Address.id a))) (rows t)))
    (IntegrityError "ix_user_addresses_user_id_kind");;
  Ok (put a t).

Section profile.
Context (clock : nat → datetime) (ids : nat → uuid).

Definition update_profile (actor : Actor) (data : ProfileInput) : M User.t :=
  user ← authorize (clock 0%nat) (clock 1%nat) actor PROFILE_WRITE None;
  let user := user <| User.display_name := p_display_name data |> <| User.phone := p_phone data |> in
  modify (λ d, d <| users ::= put user |>);;
  commit;;
  mret user.

(** ORDER BY created_at, id. *)
Definition oldest_address (a : Address.t) : list Z := [Address.created_at a; Address.id a].

Definition list_addresses (actor : Actor) : M (list Address.t) :=
  authorize (clock 0%nat) (clock 1%nat) actor PROFILE_WRITE None;;
  d ← get;
  mret (select (owned_by (actor_user actor)) oldest_address (addresses d)).

(** [for name, value in data.model_dump().items(): setattr(row, name, value)]. *)
Definition assign (data : AddressInput) (a : Address.t) : Address.t :=
  Address.New (Address.id a) (Address.user_id a) (a_kind data) (a_recipient data) (a_line1 data)
    (a_line2 data) (a_city data) (a_region data) (a_postal_code data) (a_country_code data)
    (a_phone data) (a_is_default data) (Address.created_at a).

Definition own_address (actor : Actor) (address_id : uuid) (t : table Address.t) : option Address.t :=
  a ← t !! address_id; if owned_by (actor_user actor) a then Some a else None.

(** The second half of [save_address], once the row is found or made. *)
Definition write_address (actor : Actor) (data : AddressInput) (row : Address.t) : M Address.t :=
  (if a_is_default data
   then modify (λ d, d <| addresses ::= update_where (default_of (actor_user actor) (a_kind data))
                            (λ a, a <| Address.is_default := false |>) |>)
   else mret tt);;
  let row := assign data row in
  d ← get;
  t ← lift (flush_address row (addresses d));
  modify (λ d, d <| addresses := t |>);;
  commit;;
  mret row.

Definition save_address (actor : Actor) (data : AddressInput) (address_id : option uuid) : M Address.t :=
  authorize (clock 0%nat) (clock 1%nat) actor PROFILE_WRITE None;;
  d ← get;
  row ← match address_id with
        | Some i =>
            match own_address actor i (addresses d) with
            | Some a => mret a
            | None => raise AddressNotFoundError
            end
        | None =>
            check (negb (20 <=? rowcount (owned_by (actor_user actor)) (addresses d)))
              AddressLimitReachedError;;
            mret (Address.New (ids 0%nat) (actor_user actor) [] [] [] None [] [] None [] None false (clock 2%nat))
        end;
  write_address actor data row.

Definition delete_address (actor : Actor) (address_id : uuid) : M unit :=
  authorize (clock 0%nat) (clock 1%nat) actor PROFILE_WRITE None;;
  d ← get;
  match own_address actor address_id (addresses d) with
  | None => raise AddressNotFoundError
  | Some _ => modify (λ d, d <| addresses ::= delete address_id |>);; commit
  end.
End profile.

(** ** Lemmas *)

(** The invariant of the address table. *)
Definition one_default (t : table Address.t) : Prop :=
  ∀ k1 k2 a1 a2, t !! k1 = Some a1 → t !! k2 = Some a2 →
    Address.is_default a1 = true → Address.is_default a2 = true →
    Address.user_id a1 = Address.user_id a2 → Address.kind a1 = Address.kind a2 → k1 = k2.
Definition book_size (u : uuid) (t : table Address.t) : Z := rowcount (owned_by u) t.
Definition book_ok (t : table Address.t) : Prop :=
  table_ok t ∧ one_default t ∧ ∀ u, book_size u t ≤ 20.

(** The table as the row is written: with a default row to write, its owner has
    no other default of the kind. *)
Definition cleared (actor : Actor) (data : AddressInput) (t : table Address.t) : table Address.t :=
  if a_is_default data
  then update_where (default_of (actor_user actor) (a_kind data)) (λ a, a <| Address.is_default := false |>) t
  else t.

Lemma default_of_true u kind a :
  default_of u kind a = true ↔ Address.user_id a = u ∧ Address.kind a = kind ∧ Address.is_default a = true.
Proof. unfold default_of, owned_by. rewrite !andb_true_iff, !bool_decide_eq_true. tauto. Qed.

Section book.
Context (actor : Actor) (data : AddressInput) (t : table Address.t).
Context (Hbook : book_ok t).

Lemma lookup_cleared k :
  cleared actor data t !! k =
  (λ a, if a_is_default data && default_of (actor_user actor) (a_kind data) a
        then a <| Address.is_default := false |> else a) <$> t !! k.
Proof using Type.
  unfold cleared. destruct (a_is_default data); cbn; [apply lookup_update_where|].
  symmetry. apply option_fmap_id.
Qed.

Lemma cleared_inv k a :
  cleared actor data t !! k = Some a →
  ∃ a0, t !! k = Some a0 ∧ Address.user_id a = Address.user_id a0 ∧ Address.kind a = Address.kind a0 ∧
    Address.id a = Address.id a0 ∧ (Address.is_default a = true → Address.is_default a0 = true ∧
    (a_is_default data = true → default_of (actor_user actor) (a_kind data) a0 = false)).
Proof using Type.
  rewrite lookup_cleared. intros (a0 & Ha & ->)%fmap_Some. exists a0. split; [done|].
  destruct (a_is_default data), (default_of _ _ a0) eqn:Hd; cbn; split_and!; try done; by intros.
Qed.

Lemma cleared_book : book_ok (cleared actor data t).
Proof using Hbook.
  destruct Hbook as (Hok & Hone & Hsize). split_and!.
  - intros k a (a0 & Ha & _ & _ & Hid & _)%cleared_inv. change (Address.id a = k). rewrite Hid.
    by apply Hok.
  - intros k1 k2 a1 a2 (b1 & H1 & Hu1 & Hk1 & _ & Hd1)%cleared_inv
      (b2 & H2 & Hu2 & Hk2 & _ & Hd2)%cleared_inv Ha1 Ha2 Hu Hk.
    destruct (Hd1 Ha1), (Hd2 Ha2). apply (Hone k1 k2 b1 b2); congruence.
  - intros u. unfold book_size, cleared. destruct (a_is_default data); [|apply Hsize].
    rewrite rowcount_update_where by done. apply Hsize.
Qed.

(** The partial unique index never refuses the row. *)
Lemma flush_address_Ok a :
  Address.user_id a = actor_user actor → Address.kind a = a_kind data →
  Address.is_default a = a_is_default data →
  flush_address a (cleared actor data t) = Ok (put a (cleared actor data t)).
Proof using Hbook.
  intros Hu Hk Hd. unfold flush_address. destruct (require _ _) eqn:Hr; [done|].
  apply require_Err in Hr as [Hr _].
  apply negb_false_iff, andb_true_iff in Hr as [Hdef (r & Hin & Hr)%existsb_exists].
  apply list_elem_of_In, elem_of_rows in Hin; [|apply cleared_book].
  apply andb_true_iff in Hr as [(Hru & Hrk & Hrd)%default_of_true _].
  apply cleared_inv in Hin as (r0 & _ & Hu0 & Hk0 & _ & Hd0).
  destruct (Hd0 Hrd) as [Hdr Hno].
  assert (default_of (actor_user actor) (a_kind data) r0 = true); [|by rewrite Hno in * by congruence].
  apply default_of_true. by rewrite <-Hu0, <-Hk0, Hru, Hrk.
Qed.

(** Writing a row that replaces one of its owner, or is within the bound. *)
Lemma put_book a :
  Address.user_id a = actor_user actor → Address.kind a = a_kind data →
  Address.is_default a = a_is_default data →
  match t !! Address.id a with
  | Some a0 => Address.user_id a0 = actor_user actor
  | None => book_size (actor_user actor) t < 20
  end →
  book_ok (put a (cleared actor data t)).
Proof using Hbook.
  intros Hu Hk Hd Hroom. destruct cleared_book as (Hok & Hone & Hsize). split_and!.
  - by apply table_ok_put.
  - assert (Hnew : ∀ k b, k ≠ Address.id a → cleared actor data t !! k = Some b →
      Address.is_default a = true → Address.is_default b = true →
      Address.user_id b = Address.user_id a → Address.kind b = Address.kind a → False).
    { intros k b _ (b0 & Hb & Hub & Hkb & _ & Hdb)%cleared_inv Ha Hb1 He1 He2.
      destruct (Hdb Hb1) as [Hb0 Hno].
      assert (default_of (actor_user actor) (a_kind data) b0 = true);
        [apply default_of_true; split_and!; congruence|by rewrite Hno in * by congruence]. }
    intros k1 k2 a1 a2. unfold put.
    rewrite !lookup_insert_Some.
    intros [[<- <-]|[Hn1 H1]] [[<- <-]|[Hn2 H2]] D1 D2 E1 E2; [done| | |].
    + destruct (Hnew k2 a2); auto.
    + destruct (Hnew k1 a1); auto.
    + by apply (Hone k1 k2 a1 a2).
  - intros u. pose proof (Hsize u) as Hs. unfold book_size in *.
    destruct (t !! Address.id a) as [a0|] eqn:Ht.
    + unfold put. change (row_id a) with (Address.id a). rewrite (rowcount_replace _ _ _
        (if a_is_default data && default_of (actor_user actor) (a_kind data) a0
         then a0 <| Address.is_default := false |> else a0)); [done| |].
      * by rewrite lookup_cleared, Ht.
      * unfold owned_by. rewrite Hu. destruct (_ && _); cbn; by rewrite Hroom.
    + unfold put. change (row_id a) with (Address.id a). rewrite rowcount_insert; [|by rewrite lookup_cleared, Ht].
      unfold owned_by at 1. case_bool_decide as He; [|lia].
      assert (rowcount (owned_by u) (cleared actor data t) = rowcount (owned_by u) t) as ->; [|rewrite Hu in He; subst u; lia].
      unfold cleared. destruct (a_is_default data); [|done]. by apply rowcount_update_where.
Qed.
End book.

Lemma authorize_Err now later a p recent t e t' :
  authorize now later a p recent t = (Err e, t') → ∃ c, e = App c.
Proof.
  unfold authorize, find_user_by_id, mbind, M_bind, check, raise, throw. cbn. intros H.
  repeat (case_match; simplify_eq/=); eauto.
Qed.

Lemma own_address_Some actor i t a :
  own_address actor i t = Some a → t !! i = Some a ∧ Address.user_id a = actor_user actor.
Proof.
  unfold own_address, owned_by. intros (b & Hb & Ha)%bind_Some. case_bool_decide; [|done]. by simplify_eq.
Qed.

Lemma write_address_Ok actor data a d d0 :
  book_ok (addresses d) → Address.user_id a = actor_user actor →
  write_address actor data a (Txn d d0) =
  (Ok (assign data a),
   let d' := d <| addresses := put (assign data a) (cleared actor data (addresses d)) |> in Txn d' d').
Proof.
  intros Hbook Hu.
  pose proof (flush_address_Ok actor data (addresses d) Hbook (assign data a) Hu eq_refl eq_refl) as Hf.
  unfold write_address, cleared in *. unfold mbind, M_bind, get, modify, commit, mret, M_ret.
  destruct (a_is_default data); cbn -[flush_address update_where assign put] in *;
    unfold lift; by rewrite Hf.
Qed.

(** Every branch of a call that saves an address. *)
Lemma save_address_effect clock ids actor data address_id d r d' :
  book_ok (addresses d) → (address_id = None → addresses d !! ids 0%nat = None) →
  run (save_address clock ids actor data address_id) d = (r, d') →
  ((∃ c, r = Err (App c)) ∧ d' = d) ∨
  ∃ a, r = Ok (assign data a) ∧ Address.id a = default (ids 0%nat) address_id ∧
    Address.user_id a = actor_user actor ∧
    match addresses d !! Address.id a with
    | Some a0 => Address.user_id a0 = actor_user actor
    | None => book_size (actor_user actor) (addresses d) < 20
    end ∧
    d' = d <| addresses := put (assign data a) (cleared actor data (addresses d)) |>.
Proof.
  intros Hbook Hfresh H. unfold run, save_address in H.
  unfold mbind at 1, M_bind at 1 in H.
  pose proof (authorize_frame (clock 0%nat) (clock 1%nat) actor PROFILE_WRITE None (Txn d d)) as Hf.
  destruct (authorize _ _ _ _ _ _) as [[u|e] t] eqn:Ha; cbn [snd] in Hf; subst t.
  2: { apply authorize_Err in Ha as [c ->]. injection H as <- <-. left. eauto. }
  unfold mbind at 1, M_bind at 1, get at 1 in H. cbn [pending] in H. destruct address_id as [i|].
  - destruct (own_address actor i (addresses d)) as [a|] eqn:Ho.
    2: { injection H as <- <-. left. eauto. }
    apply own_address_Some in Ho as [Hi Hu].
    assert (Hid : Address.id a = i) by (destruct Hbook as [Hok _]; exact (Hok _ _ Hi)). subst i.
    unfold mbind, M_bind, mret, M_ret in H. rewrite write_address_Ok in H by done. injection H as <- <-.
    right. exists a. by rewrite Hi.
  - unfold mbind, M_bind, check, mret, M_ret, raise, throw in H.
    destruct (negb _) eqn:Hroom; [|injection H as <- <-; left; eauto].
    rewrite write_address_Ok in H by done. injection H as <- <-. bool_inv.
    right. eexists. split; [done|]. cbn. rewrite Hfresh by done. by split_and!.
Qed.

Lemma delete_address_effect clock actor address_id d r d' :
  run (delete_address clock actor address_id) d = (r, d') →
  ((∃ c, r = Err (App c)) ∧ d' = d) ∨
  ∃ a, r = Ok tt ∧ addresses d !! address_id = Some a ∧ Address.user_id a = actor_user actor ∧
    d' = d <| addresses := delete address_id (addresses d) |>.
Proof.
  unfold run, delete_address. unfold mbind at 1, M_bind at 1. intros H.
  pose proof (authorize_frame (clock 0%nat) (clock 1%nat) actor PROFILE_WRITE None (Txn d d)) as Hf.
  destruct (authorize _ _ _ _ _ _) as [[u|e] t] eqn:Ha; cbn [snd] in Hf; subst t.
  2: { apply authorize_Err in Ha as [c ->]. injection H as <- <-. left. eauto. }
  unfold mbind at 1, M_bind at 1, get at 1 in H. cbn [pending] in H.
  destruct (own_address actor address_id (addresses d)) as [a|] eqn:Ho.
  2: { injection H as <- <-. left. eauto. }
  apply own_address_Some in Ho as [Hi Hu]. injection H as <- <-. right. eauto.
Qed.

Lemma delete_book k t : book_ok t → book_ok (delete k t).
Proof.
  intros (Hok & Hone & Hsize). split_and!.
  - intros i a [_ Hi]%lookup_delete_Some. by apply Hok.
  - intros k1 k2 a1 a2 [_ H1]%lookup_delete_Some [_ H2]%lookup_delete_Some. by apply Hone.
  - intros u. specialize (Hsize u). unfold book_size in *. destruct (t !! k) as [a|] eqn:Hk.
    + rewrite (rowcount_delete _ _ _ _ Hk) in Hsize. destruct (owned_by u a); lia.
    + by rewrite delete_id.
Qed.

(** ** Properties *)

(** C39: Saving and deleting keep the address book in order: no user ever has
    more than 20 addresses or two default addresses of one kind, so the unique
    index of the table never refuses a write that the code makes - every
    refusal is a declared application error, and then nothing changes. A saved
    address has exactly the fields of the input, keeps its owner, and changes no
    other address except that a new default clears the previous default of its
    kind of the same user; deletion removes only an address of the actor. *)
Theorem address_book_correct clock ids actor data address_id d :
  book_ok (addresses d) → (address_id = None → addresses d !! ids 0%nat = None) →
  (∀ r d', run (save_address clock ids actor data address_id) d = (r, d') →
     book_ok (addresses d') ∧
     (∀ e, r = Err e → d' = d ∧ ∃ c, e = App c) ∧
     (∀ a, r = Ok a →
        Address.id a = default (ids 0%nat) address_id ∧ Address.user_id a = actor_user actor ∧
        assign data a = a ∧ addresses d' !! Address.id a = Some a ∧
        ∀ k b, k ≠ Address.id a → addresses d !! k = Some b →
          addresses d' !! k =
            Some (if a_is_default data && default_of (actor_user actor) (a_kind data) b
                  then b <| Address.is_default := false |> else b))) ∧
  (∀ k r d', run (delete_address clock actor k) d = (r, d') →
     book_ok (addresses d') ∧
     (∀ e, r = Err e → d' = d ∧ ∃ c, e = App c) ∧
     (r = Ok tt → addresses d' = delete k (addresses d) ∧
        ∃ a, addresses d !! k = Some a ∧ Address.user_id a = actor_user actor)).
Proof.
  intros Hbook Hfresh. split.
  - intros r d' H. apply save_address_effect in H; [|done..].
    destruct H as [[[c ->] ->]|(a & -> & Hid & Hu & Hroom & ->)].
    + split_and!; [done| |done]. intros e [= <-]. eauto.
    + split_and!; [by apply put_book|done|]. intros a' [= <-]. split_and!; try done.
      * apply lookup_insert_eq.
      * intros k b Hk Hb. cbn in Hk |- *. unfold put. rewrite lookup_insert_ne by done.
        by rewrite lookup_cleared, Hb.
  - intros k r d' [[[c ->] ->]|(a & -> & Ha & Hu & ->)]%delete_address_effect.
    + split_and!; [done| |done]. intros e [= <-]. eauto.
    + split_and!; [by apply delete_book|done|]. eauto.
Qed.

Definition demo_address (i : Z) (default : bool) : Address.t :=
  Address.New i 1 (lit "shipping") (lit "Ada") (lit "1 Road") None (lit "Lagos") (lit "LA") None
    (lit "NG") None default 0.
Definition demo_input : AddressInput :=
  NewAddressInput (lit "shipping") (lit "Ada") (lit "2 Road") None (lit "Lagos") (lit "LA") None
    (lit "NG") None true.
Definition address_db : db := demo_db <| addresses := {[7 := demo_address 7 true]} |>.

Lemma address_db_book : book_ok (addresses address_db).
Proof.
  change (addresses address_db) with ({[7 := demo_address 7 true]} : table Address.t). split_and!.
  - by intros k r [<- <-]%lookup_singleton_Some.
  - by intros k1 k2 a1 a2 [<- _]%lookup_singleton_Some [<- _]%lookup_singleton_Some.
  - intros u. unfold book_size, rowcount.
    etrans; [apply Nat2Z.inj_le, length_filter|]. by vm_compute.
Qed.

(** The new default takes over from the old one. *)
Lemma address_book_correct_witness :
  ∃ a d', run (save_address (λ _, seconds 10) (λ _, 8) (NewActor 1 5 ADMIN_ROLE 0) demo_input None) address_db
          = (Ok a, d') ∧
    book_ok (addresses d') ∧ addresses d' !! 7 = Some (demo_address 7 false).
Proof.
  do 2 eexists. split; [vm_compute; reflexivity|].
  edestruct (address_book_correct (λ _, seconds 10) (λ _, 8) (NewActor 1 5 ADMIN_ROLE 0) demo_input None
               address_db address_db_book (λ _, eq_refl)) as [H _].
  edestruct H as (H1 & _ & H2); [vm_compute; reflexivity|]. split; [exact H1|].
  edestruct (H2 _ eq_refl) as (_ & _ & _ & _ & H3). by rewrite (H3 7 (demo_address 7 true)).
Defined.
