(* ===== verification/ExternalSignIn.v ===== *)
(** * External sign-in (auth/oidc/contracts.py, auth/oidc/attempts.py,
    auth/oidc/service.py, and the callback of api/v1/auth_oidc.py)

    Verified subjects of identity providers, mapped to local users and sessions:
    the attempts that bind a browser to a handshake, signing in, linking,
    reauthenticating and unlinking. *)

From S2P Require Import Prelude Regex PyValues CoreTypes AuditTrail Events Outbox Errors Identity Sessions Passwords AuthEvents Challenges Administration AuthService.

Inductive ProviderName := GOOGLE | YAHOO.

#[export] Instance ProviderName_eq_dec : EqDecision ProviderName.
Proof. solve_decision. Defined.

Definition provider_name (p : ProviderName) : str :=
  match p with GOOGLE => lit "google" | YAHOO => lit "yahoo" end.
(** [ProviderName(value)]. *)
Definition provider_of (s : str) : option ProviderName :=
  if bool_decide (s = lit "google") then Some GOOGLE
  else if bool_decide (s = lit "yahoo") then Some YAHOO else None.

Inductive Intent := LOGIN | LINK | REAUTHENTICATE.
Inductive ReturnPath := TO_ROOT | TO_PROFILE | TO_SHOP.

#[export] Instance Intent_eq_dec : EqDecision Intent.
Proof. solve_decision. Defined.

Definition intent_name (i : Intent) : str :=
  match i with LOGIN => lit "login" | LINK => lit "link" | REAUTHENTICATE => lit "reauthenticate" end.

Record Attempt := NewAttempt {
  attempt_id : uuid;
  attempt_provider : ProviderName;
  intent : Intent;
  browser_hash : str;
  nonce : str;
  verifier : str;
  redirect_uri : str;
  return_path : ReturnPath;
  attempt_actor : option uuid;
  attempt_session : option uuid;
  started_at : Z }.

(** [Attempt.validate_actor_binding]. *)
Definition validate_actor_binding (a : Attempt) : res pyexn Attempt :=
  let has_actor := bool_decide (is_Some (attempt_actor a)) in
  let has_session := bool_decide (is_Some (attempt_session a)) in
  require (negb (bool_decide (intent a = LOGIN) && (has_actor || has_session)))
    (ValueError "login attempts must not carry a local actor");;
  require (negb (negb (bool_decide (intent a = LOGIN)) && negb (has_actor && has_session)))
    (ValueError "link and reauthentication attempts require a local actor");;
  Ok a.

(** The verified claims of an ID token. *)
Record Claims := Identity {
  claims_provider : ProviderName;
  subject : str;
  claims_email : option str;
  email_verified : bool;
  auth_time : option Z }.

(** ** Rows *)

Definition by_subject (provider : ProviderName) (subject : str) (e : ExternalIdentity.t) : bool :=
  bool_decide (ExternalIdentity.provider e = provider_name provider)
  && bool_decide (ExternalIdentity.subject e = subject).
Definition by_user (user_id : uuid) (e : ExternalIdentity.t) : bool :=
  bool_decide (ExternalIdentity.user_id e = user_id).
Definition by_user_provider (user_id : uuid) (provider : str) (e : ExternalIdentity.t) : bool :=
  by_user user_id e && bool_decide (ExternalIdentity.provider e = provider).

(** The primary key and the two unique constraints. *)
Definition insert_external (e : ExternalIdentity.t) (t : table ExternalIdentity.t)
    : res pyexn (table ExternalIdentity.t) :=
  require (bool_decide (t !! ExternalIdentity.id e = None)) (IntegrityError "pk_external_identities");;
  require (negb (existsb (λ r, bool_decide (ExternalIdentity.provider r = ExternalIdentity.provider e)
                               && bool_decide (ExternalIdentity.subject r = ExternalIdentity.subject e))
                   (rows t))) (IntegrityError "uq_external_identities_provider");;
  require (negb (existsb (by_user_provider (ExternalIdentity.user_id e) (ExternalIdentity.provider e)) (rows t)))
    (IntegrityError "uq_external_identities_user_id");;
  Ok (put e t).

(** The advisory lock itself only serialises; its key is hashed from UTF-8. *)
Definition lock_email (text : str) : M unit :=
  lift (require (encodable text) (ValueError "surrogates not allowed")).

Section external.
Context `{Platform}.
Context (clock : nat → datetime) (ids : nat → uuid) (hint : option uuid).
Context (settings : AuthSettings).

Definition kind_of (role : Role) : ActorKind :=
  match role with ADMIN_ROLE => ADMINISTRATOR | CUSTOMER_ROLE => CUSTOMER end.

(** [_audit_actor] and [_actor_from_session]. *)
Definition user_audit_actor (user : User.t) : M AuditActor :=
  match role_of (User.role user) with
  | None => raise ExternalLoginFailedError
  | Some role => lift (audit_actor (kind_of role) (PUUID (User.id user)))
  end.
Definition session_audit_actor (actor : Actor) : M AuditActor :=
  lift (audit_actor (kind_of (actor_role actor)) (PUUID (actor_user actor))).

Definition record_failed_handshake (attempt : Attempt) (correlation_id : str) : M unit :=
  rollback;;
  anonymous ← lift (audit_actor ANONYMOUS PNone);
  record_audit (record_event float_text (ids 0%nat) (clock 0%nat)
    (ExternalLoginFailedEvent (provider_name (attempt_provider attempt)) (intent_name (intent attempt))
       anonymous (attempt_id attempt) correlation_id (clock 0%nat)));;
  commit.

(** ** Who the subject stands for *)

(** [identity.email] of an unknown subject: it must be verified and unused. *)
Definition new_external_user (identity : Claims) : M User.t :=
  email ← match claims_email identity with
          | Some ((_ :: _) as email) =>
              check (email_verified identity) ExternalLoginFailedError;;
              catching InvalidEmailError (normalize_email normalize email) (raise ExternalLoginFailedError)
          | _ => raise ExternalLoginFailedError
          end;
  lock_email email;;
  existing ← find_user_by_email normalize email;
  check (bool_decide (existing = None)) ExternalLoginFailedError;;
  user ← create_customer normalize (ids 0%nat) (clock 0%nat) email;
  let user := user <| User.email_verified_at := Some (clock 1%nat) |> in
  modify (λ d, d <| users ::= put user |>);;
  mret user.

Definition signing_user (identity : Claims) (external : option ExternalIdentity.t) : M User.t :=
  match external with
  | None => new_external_user identity
  | Some e =>
      user ← find_user_by_id (ExternalIdentity.user_id e);
      match user with
      | None => raise ExternalLoginFailedError
      | Some user => check (active_verified user) ExternalLoginFailedError;; mret user
      end
  end.

(** Linking gives the user to link; a reauthentication is complete here and
    gives none. *)
Definition linking_user (identity : Claims) (attempt : Attempt) (actor : option Actor)
    (correlation_id : str) (external : option ExternalIdentity.t) : M (option User.t) :=
  match actor with
  | None => raise ExternalLoginFailedError
  | Some actor =>
      check (bool_decide (Some (actor_user actor) = attempt_actor attempt)
             && bool_decide (Some (actor_session actor) = attempt_session attempt))
        ExternalLoginFailedError;;
      user ← authorize (clock 0%nat) (clock 1%nat) actor PROFILE_WRITE
               (if bool_decide (intent attempt = LINK) then Some (recent_auth_seconds settings) else None);
      if bool_decide (intent attempt = REAUTHENTICATE) then
        match external with
        | None => raise ExternalLoginFailedError
        | Some e =>
            check (bool_decide (ExternalIdentity.user_id e = actor_user actor)
                   && bool_decide (is_Some (auth_time identity))) ExternalLoginFailedError;;
            d ← get;
            match sessions d !! actor_session actor with
            | None => raise ExternalLoginFailedError
            | Some session =>
                check (bool_decide (AuthSession.revoked_at session = None)
                       && negb (AuthSession.expires_at session <=? clock 2%nat)) ExternalLoginFailedError;;
                modify (λ d, d <| sessions ::= put (session <| AuthSession.authenticated_at := clock 3%nat |>) |>
                               <| externals ::= put (e <| ExternalIdentity.last_login_at := clock 4%nat |>) |>);;
                by_actor ← session_audit_actor actor;
                record_audit (record_event float_text (ids 0%nat) (clock 5%nat)
                  (ExternalReauthenticationSucceededEvent (provider_name (claims_provider identity))
                     by_actor (User.id user) correlation_id (clock 5%nat)));;
                commit;;
                mret None
            end
        end
      else
        match external with
        | Some e =>
            check (negb (bool_decide (ExternalIdentity.user_id e = User.id user))) ProviderAlreadyLinkedError;;
            raise ExternalLoginFailedError
        | None =>
            d ← get;
            check (bool_decide (find_row (by_user_provider (User.id user) (provider_name (claims_provider identity)))
                                  (externals d) = None)) ProviderAlreadyLinkedError;;
            mret (Some user)
        end
  end.

(** ** Linking, signing in *)

Definition attach (identity : Claims) (external : option ExternalIdentity.t) (user : User.t)
    (correlation_id : str) : M unit :=
  match external with
  | Some e => modify (λ d, d <| externals ::= put (e <| ExternalIdentity.last_login_at := clock 6%nat |>) |>)
  | None =>
      let row := ExternalIdentity.New (ids 1%nat) (User.id user) (provider_name (claims_provider identity))
                   (subject identity)
                   match claims_email identity with Some ((_ :: _) as e) => Some (take 320 e) | _ => None end
                   (email_verified identity) (clock 6%nat) in
      by_user ← user_audit_actor user;
      record_audit (record_event float_text (ids 2%nat) (clock 7%nat)
        (ExternalIdentityLinkedEvent (provider_name (claims_provider identity)) by_user (User.id user)
           correlation_id (clock 7%nat)));;
      d ← get;
      t ← lift (insert_external row (externals d));
      modify (λ d, d <| externals := t |>)
  end.

(** The new session does not count as recent authentication. *)
Definition open_session (identity : Claims) (user : User.t) (secret correlation_id : str) : M str :=
  secret ← issue sha256_hex settings (clock 8%nat) (ids 3%nat) secret user;
  d ← get;
  match find_row (λ s, bool_decide (AuthSession.secret_hash s = sha256_hex secret)) (sessions d) with
  | None => raise ExternalLoginFailedError
  | Some session =>
      modify (λ d, d <| sessions ::= put (session <| AuthSession.authenticated_at :=
                          clock 9%nat - seconds (recent_auth_seconds settings + 1) |>) |>);;
      by_user ← user_audit_actor user;
      record_audit (record_event float_text (ids 4%nat) (clock 10%nat)
        (ExternalLoginSucceededEvent (provider_name (claims_provider identity)) by_user (User.id user)
           correlation_id (clock 10%nat)));;
      mret secret
  end.

Definition finish (identity : Claims) (attempt : Attempt) (actor : option Actor)
    (secret correlation_id : str) : M (option str) :=
  check (bool_decide (claims_provider identity = attempt_provider attempt)) ExternalLoginFailedError;;
  lock_email (lit "external:" ++ provider_name (claims_provider identity) ++ lit ":" ++ subject identity);;
  d ← get;
  let external := find_row (by_subject (claims_provider identity) (subject identity)) (externals d) in
  resolved ← match intent attempt with
             | LOGIN => user ← signing_user identity external; mret (Some user)
             | _ => linking_user identity attempt actor correlation_id external
             end;
  match resolved with
  | None => mret None
  | Some user =>
      attach identity external user correlation_id;;
      match intent attempt with
      | LOGIN =>
          secret ← open_session identity user secret correlation_id;
          commit;; mret (Some secret)
      | _ => commit;; mret None
      end
  end.

(** The callback route: [identity] is what the exchange of the code gives, or
    nothing when the provider refused or the exchange failed. Each refusal
    leaves its evidence, and nothing else. *)
Definition callback (attempt : Attempt) (cookie : option str) (identity : option Claims)
    (secret correlation_id : str) : M (option str) :=
  let refuse := (record_failed_handshake attempt correlation_id;; raise ExternalLoginFailedError) in
  catching_any [AuthenticationRequiredError; ExternalLoginFailedError]
    (actor ← match intent attempt with
             | LOGIN => mret None
             | _ => a ← resolve sha256_hex hint (clock 11%nat) cookie; mret (Some a)
             end;
     identity ← match identity with Some i => mret i | None => raise ExternalLoginFailedError end;
     finish identity attempt actor secret correlation_id)
    refuse.

(** ** Listing and unlinking *)

Definition oldest_provider (e : ExternalIdentity.t) : list Z := Z.of_N <$> ExternalIdentity.provider e.

Definition list_identities (actor : Actor) : M (list ProviderName) :=
  authorize (clock 0%nat) (clock 1%nat) actor PROFILE_WRITE None;;
  d ← get;
  lift (traverse (λ e, match provider_of (ExternalIdentity.provider e) with
                       | Some p => Ok p
                       | None => Err (ValueError "not a valid ProviderName")
                       end)
          (select (by_user (actor_user actor)) oldest_provider (externals d))).

Definition unlink (actor : Actor) (provider : ProviderName) (correlation_id : str) : M unit :=
  d ← get;
  let owned := by_user_provider (actor_user actor) (provider_name provider) in
  match find_row owned (externals d) with
  | None => raise ExternalLoginFailedError
  | Some e =>
      lock_email (lit "external:" ++ ExternalIdentity.provider e ++ lit ":" ++ ExternalIdentity.subject e);;
      authorize (clock 0%nat) (clock 1%nat) actor PROFILE_WRITE (Some (recent_auth_seconds settings));;
      d ← get;
      match find_row owned (externals d) with
      | None => raise ExternalLoginFailedError
      | Some existing =>
          let identity_count := rowcount (by_user (actor_user actor)) (externals d) in
          check (negb ((identity_count <=? 1) && bool_decide (credentials d !! actor_user actor = None)))
            FinalLoginMethodError;;
          modify (λ d, d <| externals ::= delete (ExternalIdentity.id existing) |>);;
          by_actor ← session_audit_actor actor;
          record_audit (record_event float_text (ids 0%nat) (clock 2%nat)
            (ExternalIdentityUnlinkedEvent (provider_name provider) by_actor (actor_user actor)
               correlation_id (clock 2%nat)));;
          commit
      end
  end.
End external.

(** ** Attempts *)

(** The Redis keys of the attempts, each with its text and the time it expires. *)
Abbreviation attempts := (gmap str (str * datetime)).

Section attempts.
Context `{Platform}.
(** [model_dump_json] and [model_validate_json] (pydantic). *)
Context (dump : Attempt → str) (load : str → option Attempt) (namespace : str) (ttl : Z).

Definition attempt_key (state : str) : str :=
  lit "ekumidayomi:" ++ namespace ++ lit ":auth:v1:oidc:" ++ sha256_hex state.

Definition stored (now : datetime) (key : str) (s : attempts) : option str :=
  '(raw, expires) ← s !! key; if now <? expires then Some raw else None.

(** [SET key ... EX ttl NX]; [state] is drawn by [secrets.token_urlsafe]. The
    server is down when [up] is false. *)
Definition create_attempt (up : bool) (now : datetime) (state : str) (attempt : Attempt) (s : attempts)
    : (str + error_class) * attempts :=
  if negb up then (inr IdentityUnavailableError, s)
  else match stored now (attempt_key state) s with
       | Some _ => (inr IdentityUnavailableError, s)
       | None => (inl state, <[attempt_key state := (dump attempt, now + seconds ttl)]> s)
       end.

Definition token_length (s : str) : bool := (20 <=? Z.of_nat (length s)) && (Z.of_nat (length s) <=? 128).

Definition consume_attempt (up : bool) (now : datetime) (state browser : str) (provider : ProviderName)
    (s : attempts) : (Attempt + error_class) * attempts :=
  if negb (token_length state && token_length browser) then (inr ExternalLoginFailedError, s)
  else if negb up then (inr IdentityUnavailableError, s)
  else
    let raw := stored now (attempt_key state) s in
    let s := delete (attempt_key state) s in
    match r ← raw; load r with
    | None => (inr ExternalLoginFailedError, s)
    | Some attempt =>
        if negb (bool_decide (attempt_provider attempt = provider))
           || negb (bool_decide (browser_hash attempt = sha256_hex browser))
        then (inr ExternalLoginFailedError, s)
        else (inl attempt, s)
    end.
End attempts.

(** ** What commits *)

Lemma uncommitted_lock_email s : uncommitted (lock_email s).
Proof. apply uncommitted_lift. Qed.
#[export] Hint Resolve uncommitted_lock_email : service.

Lemma uncommitted_user_audit_actor user : uncommitted (user_audit_actor user).
Proof. unfold user_audit_actor. atomic_auto. Qed.
Lemma uncommitted_session_audit_actor actor : uncommitted (session_audit_actor actor).
Proof. unfold session_audit_actor. atomic_auto. Qed.
#[export] Hint Resolve uncommitted_user_audit_actor uncommitted_session_audit_actor : service.

Section commits.
Context `{Platform} (clock : nat → datetime) (ids : nat → uuid) (hint : option uuid) (settings : AuthSettings).

Lemma uncommitted_signing_user identity external : uncommitted (signing_user clock ids identity external).
Proof. unfold signing_user, new_external_user, create_customer, normalize_email. atomic_auto. Qed.

Lemma uncommitted_attach identity external user corr : uncommitted (attach clock ids identity external user corr).
Proof. unfold attach. atomic_auto. Qed.

Lemma uncommitted_open_session identity user secret corr :
  uncommitted (open_session clock ids settings identity user secret corr).
Proof. unfold open_session, issue. atomic_auto. Qed.
#[local] Hint Resolve uncommitted_signing_user uncommitted_attach uncommitted_open_session : service.

(** Linking commits only what it completes: a reauthentication. *)
Lemma linking_user_commits identity attempt actor corr external t r t' :
  linking_user clock ids settings identity attempt actor corr external t = (r, t') →
  r = Ok None ∨ durable t' = durable t.
Proof.
  unfold linking_user. destruct actor as [actor|]; [|intros [= _ <-]; by right].
  set (m := authorize _ _ _ _ _). intros Hr.
  assert (Hu : ∀ A (m : M A), uncommitted m → ∀ t r t', m t = (r, t') → durable t' = durable t).
  { intros A m0 Hm t0 r0 t0' He. by rewrite <-(Hm t0), He. }
  unfold mbind at 1, M_bind at 1 in Hr. destruct (check _ _ t) as [[u|e] t1] eqn:Hc.
  2: { right. injection Hr as _ <-. by eapply Hu, Hc; auto with service. }
  apply check_Ok in Hc as [_ ->]. unfold mbind at 1, M_bind at 1 in Hr.
  destruct (m t) as [[user|e] t1] eqn:Hm; apply (f_equal snd) in Hm as Hm1;
    unfold m in Hm1; rewrite authorize_frame in Hm1; cbn in Hm1; subst t1; [|right; by injection Hr as _ <-].
  destruct (bool_decide (intent attempt = REAUTHENTICATE)).
  - match type of Hr with ?f t = _ => assert (Ha : atomic f) end.
    { atomic_auto. }
    destruct r as [[u'|]|e]; [|by left|right; by eapply Ha].
    exfalso. clear Ha. destruct external as [e|]; [|done]. M_inv.
    destruct (sessions _ !! _); [|done]. M_inv. done.
  - right. eapply (Hu _ _ _ _ _ _ Hr). Unshelve. atomic_auto.
Qed.

Lemma atomic_finish identity attempt actor secret corr :
  atomic (finish clock ids settings identity attempt actor secret corr).
Proof.
  unfold finish. apply atomic_bind; [auto with service|intros _].
  apply atomic_bind; [auto with service|intros _]. apply atomic_bind; [auto with service|intros d].
  set (external := find_row _ _).
  assert (Hrest : ∀ user, atomic (attach clock ids identity external user corr;;
    match intent attempt with
    | LOGIN => secret ← open_session clock ids settings identity user secret corr; commit;; mret (Some secret)
    | _ => commit;; mret None
    end)) by (intros user; atomic_auto).
  intros t e t' Hr. unfold mbind at 1, M_bind at 1 in Hr.
  match type of Hr with (match ?m t with _ => _ end) = _ => destruct (m t) as [[[user|]|e1] t1] eqn:Hm end.
  - rewrite (Hrest _ _ _ _ Hr). destruct (intent attempt).
    + apply M_bind_Ok in Hm as (u & t2 & Hu & [= <- <-]). by rewrite <-(uncommitted_signing_user identity external t), Hu.
    + by apply linking_user_commits in Hm as [?|?].
    + by apply linking_user_commits in Hm as [?|?].
  - done.
  - injection Hr as _ <-. destruct (intent attempt).
    + eapply uncommitted_atomic; [|exact Hm]. atomic_auto.
    + by apply linking_user_commits in Hm as [?|?].
    + by apply linking_user_commits in Hm as [?|?].
Qed.
End commits.
