(* ===== verification/Histories.v ===== *)
(** * Histories of identity calls

    Every call that the identity routes and the command line make, as one
    labelled step over the durable database, and what holds along any history
    of them. *)

From S2P Require Import Prelude Regex PyValues CoreTypes AuditTrail Events Outbox Errors Identity Sessions Passwords AuthEvents Challenges Administration AuthService Profile ExternalSignIn.

Inductive call :=
| Login (email password : str) (previous_secret : option str) (secret : str)
| Logout (secret : option str)
| LogoutAll (actor : Actor)
| Reauthenticate (actor : Actor) (password : str)
| BeginReset (email : str)
| CompleteReset (challenge_id : uuid) (code password correlation_id : str)
| BeginRegistration (email : str) (correlation_id : option str)
| CompleteRegistration (challenge_id : uuid) (code password : str) (correlation_id : option str)
| ChangeAccess (actor : Actor) (target_id : uuid) (role : option Role) (is_active : option bool)
    (correlation_id : str)
| Bootstrap (email password : str)
| UpdateProfile (actor : Actor) (data : ProfileInput)
| SaveAddress (actor : Actor) (data : AddressInput) (address_id : option uuid)
| DeleteAddress (actor : Actor) (address_id : uuid)
| Callback (attempt : Attempt) (cookie : option str) (identity : option Claims)
    (secret correlation_id : str)
| Unlink (actor : Actor) (provider : ProviderName) (correlation_id : str).

(** What a call reads besides the database. *)
Record env := Env {
  e_clock : nat → datetime;
  e_ids : nat → uuid;
  e_hint : option uuid;
  e_settings : AuthSettings }.

Section histories.
Context `{Platform}.

Definition perform_call (e : env) (c : call) : M unit :=
  let clock := e_clock e in let ids := e_ids e in let settings := e_settings e in
  match c with
  | Login email password previous secret =>
      login clock ids (e_hint e) settings email password previous secret;; mret tt
  | Logout secret => logout clock (e_hint e) secret
  | LogoutAll actor => logout_all clock actor
  | Reauthenticate actor password => reauthenticate clock actor password
  | BeginReset email => begin_reset clock ids settings email;; mret tt
  | CompleteReset i code password correlation =>
      complete_reset clock ids settings i code password correlation
  | BeginRegistration email correlation =>
      begin_registration clock ids settings email correlation;; mret tt
  | CompleteRegistration i code password correlation =>
      complete_registration clock ids settings i code password correlation
  | ChangeAccess actor target role active correlation =>
      change_access float_text clock ids settings actor target role active correlation
  | Bootstrap email password =>
      bootstrap_run float_text clock ids normalize argon_hash sha1_hex pwned_range email password
  | UpdateProfile actor data => update_profile clock actor data;; mret tt
  | SaveAddress actor data i => save_address clock ids actor data i;; mret tt
  | DeleteAddress actor i => delete_address clock actor i
  | Callback attempt cookie identity secret correlation =>
      callback clock ids (e_hint e) settings attempt cookie identity secret correlation;; mret tt
  | Unlink actor provider correlation => unlink clock ids settings actor provider correlation
  end.

(** One request, and its answer. *)
Definition served (d : db) (l : env * call * res exn unit) (d' : db) : Prop :=
  run (perform_call l.1.1 l.1.2) d = (l.2, d').

Definition history : db → list (env * call * res exn unit) → db → Prop := runs served.
End histories.

(** ** What every step keeps *)

Definition emails_unique (t : table User.t) : Prop :=
  ∀ k1 k2 u1 u2, t !! k1 = Some u1 → t !! k2 = Some u2 → User.email u1 = User.email u2 → k1 = k2.

Definition identity_ok (d : db) : Prop :=
  table_ok (users d) ∧ emails_unique (users d) ∧ table_ok (sessions d) ∧ hashes_unique (sessions d).

Record kept (d d' : db) : Prop := {
  kept_ok : identity_ok d';
  kept_users : ∀ k u, users d !! k = Some u →
    ∃ u', users d' !! k = Some u' ∧ User.email u' = User.email u;
  kept_sessions : ∀ k s, sessions d !! k = Some s →
    ∃ s', sessions d' !! k = Some s' ∧ AuthSession.user_id s' = AuthSession.user_id s ∧
      AuthSession.secret_hash s' = AuthSession.secret_hash s ∧
      AuthSession.expires_at s' = AuthSession.expires_at s ∧
      ∀ at_, AuthSession.revoked_at s = Some at_ → AuthSession.revoked_at s' = Some at_;
  kept_audit : audit d `prefix_of` audit d';
  kept_admin : administered d → administered d' }.

Definition later (d d' : db) : Prop := identity_ok d → kept d d'.

#[export] Instance later_preorder : PreOrder later.
Proof.
  split.
  - intros d Hok. split; [done| | |done|done].
    + eauto.
    + intros k s Hs. exists s. by split_and!.
  - intros d1 d2 d3 H12 H23 Hok. destruct (H12 Hok) as [Hok2 Hu Hs Ha Hm].
    destruct (H23 Hok2) as [Hok3 Hu' Hs' Ha' Hm']. split; [done| | |by etrans|auto].
    + intros k u (u' & Hu1 & He)%Hu. destruct (Hu' _ _ Hu1) as (u'' & ? & ?). exists u''. split; congruence.
    + intros k s (s' & H1 & H2 & H3 & H4 & H5)%Hs. destruct (Hs' _ _ H1) as (s'' & G1 & G2 & G3 & G4 & G5).
      exists s''. split_and!; try congruence. auto.
Qed.

(** A change of the other tables only. *)
Lemma later_same d d' :
  users d' = users d → sessions d' = sessions d → audit d `prefix_of` audit d' → later d d'.
Proof.
  intros Hu Hs Ha Hok. split; try done.
  - unfold identity_ok. by rewrite Hu, Hs.
  - rewrite Hu. eauto.
  - rewrite Hs. intros k s Hk. exists s. by split_and!.
  - unfold administered. by rewrite Hu.
Qed.

(** A user row written under its own key: a new one with an unused address, or
    one that keeps its address and does not end the last administration. *)
Lemma later_put_user d u :
  (identity_ok d →
   match users d !! User.id u with
   | Some u0 => User.email u = User.email u0 ∧
       (is_admin u0 = true → is_admin u = true ∨
          ∃ k a, users d !! k = Some a ∧ is_admin a = true ∧ k ≠ User.id u)
   | None => ∀ k a, users d !! k = Some a → User.email a ≠ User.email u
   end) →
  later d (d <| users ::= put u |>).
Proof.
  intros Hput Hok. pose proof (Hput Hok) as Hu. destruct Hok as (Hu1 & Hu2 & Hs1 & Hs2).
  assert (Hnew : ∀ k a, k ≠ User.id u → users d !! k = Some a → User.email a ≠ User.email u).
  { intros k a Hk Ha He. destruct (users d !! User.id u) as [u0|] eqn:H0.
    - destruct Hu as [Hue _]. apply Hk. apply (Hu2 _ _ _ _ Ha H0). congruence.
    - by apply (Hu k a Ha). }
  split; cbn.
  - split_and!; cbn; [by apply table_ok_put| |done|done].
    intros k1 k2 u1 u2. unfold put.
    rewrite !lookup_insert_Some.
    intros [[<- <-]|[Hn1 H1]] [[<- <-]|[Hn2 H2]] He; [done| | |by eapply Hu2].
    + destruct (Hnew k2 u2); auto.
    + destruct (Hnew k1 u1); auto.
  - intros k a Ha. unfold put. destruct (decide (row_id u = k)) as [<-|Hk].
    + rewrite lookup_insert_eq. change (row_id u) with (User.id u) in Ha. rewrite Ha in Hu.
      destruct Hu as [He _]. eauto.
    + rewrite lookup_insert_ne by done. eauto.
  - intros k s Hk. exists s. by split_and!.
  - done.
  - intros (k & a & Ha & Hadm). unfold administered. cbn. unfold put.
    destruct (decide (row_id u = k)) as [<-|Hk].
    + change (row_id u) with (User.id u) in Ha. rewrite Ha in Hu. destruct Hu as [_ Hu].
      destruct (Hu Hadm) as [Hn|(k' & a' & Ha' & Hadm' & Hk')].
      * exists (row_id u), u. by rewrite lookup_insert_eq.
      * exists k', a'. by rewrite lookup_insert_ne.
    + exists k, a. by rewrite lookup_insert_ne.
Qed.

(** Sessions changed row by row, without reviving any. *)
Lemma later_sessions d (f : AuthSession.t → AuthSession.t) :
  (∀ s, AuthSession.id (f s) = AuthSession.id s ∧ AuthSession.user_id (f s) = AuthSession.user_id s ∧
     AuthSession.secret_hash (f s) = AuthSession.secret_hash s ∧
     AuthSession.expires_at (f s) = AuthSession.expires_at s ∧
     ∀ at_, AuthSession.revoked_at s = Some at_ → AuthSession.revoked_at (f s) = Some at_) →
  later d (d <| sessions ::= fmap f |>).
Proof.
  intros Hf (Hu1 & Hu2 & Hs1 & Hs2). split; try done; cbn.
  - split_and!; try done; cbn.
    + intros k s (s0 & <- & Hs)%lookup_fmap_Some. destruct (Hf s0) as (Hid & _).
      change (AuthSession.id (f s0) = k). rewrite Hid. by apply Hs1.
    + intros k1 k2 s1 s2 (r1 & <- & H1)%lookup_fmap_Some (r2 & <- & H2)%lookup_fmap_Some He.
      apply (Hs2 _ _ _ _ H1 H2). destruct (Hf r1) as (_ & _ & <- & _), (Hf r2) as (_ & _ & <- & _). done.
  - eauto.
  - intros k s Hs. rewrite lookup_fmap, Hs. cbn. exists (f s). destruct (Hf s) as (_ & ? & ? & ? & ?).
    by split_and!.
Qed.

Lemma later_put_session d s :
  (identity_ok d →
   match sessions d !! AuthSession.id s with
   | Some s0 => AuthSession.user_id s = AuthSession.user_id s0 ∧
       AuthSession.secret_hash s = AuthSession.secret_hash s0 ∧
       AuthSession.expires_at s = AuthSession.expires_at s0 ∧
       AuthSession.revoked_at s = AuthSession.revoked_at s0
   | None => ∀ k r, sessions d !! k = Some r → AuthSession.secret_hash r ≠ AuthSession.secret_hash s
   end) →
  later d (d <| sessions ::= put s |>).
Proof.
  intros Hput Hok. pose proof (Hput Hok) as Hs. destruct Hok as (Hu1 & Hu2 & Hs1 & Hs2).
  assert (Hnew : ∀ k r, k ≠ AuthSession.id s → sessions d !! k = Some r →
    AuthSession.secret_hash r ≠ AuthSession.secret_hash s).
  { intros k r Hk Hr He. destruct (sessions d !! AuthSession.id s) as [s0|] eqn:H0.
    - destruct Hs as (_ & Hh & _). apply Hk. apply (Hs2 _ _ _ _ Hr H0). congruence.
    - by apply (Hs k r Hr). }
  split; try done; cbn.
  - split_and!; cbn; [done|done|by apply table_ok_put|].
    intros k1 k2 s1 s2. unfold put. rewrite !lookup_insert_Some.
    intros [[<- <-]|[Hn1 H1]] [[<- <-]|[Hn2 H2]] He; [done| | |by eapply Hs2].
    + destruct (Hnew k2 s2); auto.
    + destruct (Hnew k1 s1); auto.
  - eauto.
  - intros k r Hr. unfold put. destruct (decide (row_id s = k)) as [<-|Hk].
    + rewrite lookup_insert_eq. change (row_id s) with (AuthSession.id s) in Hr. rewrite Hr in Hs.
      destruct Hs as (? & ? & ? & He). exists s. split_and!; try done. intros at_. by rewrite He.
    + rewrite lookup_insert_ne by done. exists r. by split_and!.
Qed.

(** ** What each operation keeps *)

Lemma resolve_frame digest hint now secret t : (resolve digest hint now secret t).2 = t.
Proof.
  unfold resolve, mbind, M_bind, check. destruct secret as [s|]; [|done].
  destruct (fullmatch _ _); [|done]. cbn. by repeat case_match.
Qed.

Lemma evolves_resolve t digest hint now secret : evolves later t (resolve digest hint now secret).
Proof. apply evolves_still; [apply _|apply resolve_frame]. Qed.

Lemma evolves_record t r : evolves later t (record_audit r).
Proof.
  unfold record_audit. apply evolves_bind; [apply _|by apply evolves_lift; apply _|].
  intros row t1 _. apply evolves_modify, later_same; [done..|]. by eexists.
Qed.

Lemma evolves_revoke t now user session : evolves later t (revoke now user session).
Proof.
  unfold revoke. apply evolves_bind; [apply _|apply evolves_get; apply _|]. intros d t1 _.
  apply evolves_bind; [apply _| |intros; apply evolves_ret; apply _].
  apply evolves_modify.
  apply (later_sessions _ (λ s, if revocable user session s then s <| AuthSession.revoked_at := Some now |> else s)).
  intros s. unfold revocable. repeat case_bool_decide; cbn; try (by split_and!);
    destruct session; repeat case_bool_decide; cbn; split_and!; congruence.
Qed.

Lemma existsb_false {A} (f : A → bool) l x : existsb f l = false → x ∈ l → f x = false.
Proof.
  intros He Hx. destruct (f x) eqn:Hf; [|done]. rewrite <-He. symmetry. apply existsb_exists.
  exists x. split; [by apply list_elem_of_In|done].
Qed.

Lemma elem_of_rows_2 {R} (t : table R) k r : t !! k = Some r → r ∈ rows t.
Proof.
  intros Hk. unfold rows. apply list_elem_of_fmap. exists (k, r). by rewrite elem_of_map_to_list.
Qed.

Lemma insert_session_Ok s t t' :
  insert_session s t = Ok t' →
  t' = put s t ∧ t !! AuthSession.id s = None ∧
  ∀ k r, t !! k = Some r → AuthSession.secret_hash r ≠ AuthSession.secret_hash s.
Proof.
  unfold insert_session. intros H. res_inv. bool_inv. injection H as <-. split_and!; [done..|].
  intros k r Hk%elem_of_rows_2. exact (proj1 (bool_decide_eq_false _) (existsb_false _ _ _ Hx0 Hk)).
Qed.

Lemma insert_user_Ok u t t' :
  insert_user u t = Ok t' →
  t' = put u t ∧ t !! User.id u = None ∧ ∀ k r, t !! k = Some r → User.email r ≠ User.email u.
Proof.
  unfold insert_user. intros H. res_inv. bool_inv. injection H as <-. split_and!; [done..|].
  intros k r Hk%elem_of_rows_2. exact (proj1 (bool_decide_eq_false _) (existsb_false _ _ _ Hx0 Hk)).
Qed.

Lemma evolves_issue t digest settings now new_id secret user :
  evolves later t (issue digest settings now new_id secret user).
Proof.
  unfold issue. evolves_auto. apply insert_session_Ok in H0 as (-> & Hk & Hh).
  apply evolves_modify. apply (later_put_session (pending t)). intros _. by rewrite Hk.
Qed.

Lemma create_customer_Ok normalize new_id now email t u t' :
  create_customer normalize new_id now email t = (Ok u, t') →
  ∃ e, normalize email = Some e ∧
    u = User.New new_id e [] None (role_value CUSTOMER_ROLE) true None now ∧
    users (pending t) !! new_id = None ∧
    (∀ k r, users (pending t) !! k = Some r → User.email r ≠ e) ∧
    t' = Txn (pending t <| users ::= put u |>) (durable t).
Proof.
  unfold create_customer, normalize_email. intros H. M_inv.
  destruct (normalize email) as [e|] eqn:He; [|done]. M_inv.
  match goal with H : insert_user _ _ = Ok _ |- _ => apply insert_user_Ok in H as (-> & ? & ?) end.
  exists e. by split_and!.
Qed.

Lemma create_customer_frame normalize new_id now email t e t' :
  create_customer normalize new_id now email t = (Err e, t') → t' = t.
Proof.
  unfold create_customer, normalize_email, mbind, M_bind. destruct (normalize email); cbn; [|by intros [= _ <-]].
  unfold lift. destruct (insert_user _ _); cbn; [done|by intros [= _ <-]].
Qed.

Lemma evolves_create_customer t normalize new_id now email :
  evolves later t (create_customer normalize new_id now email).
Proof.
  destruct (create_customer normalize new_id now email t) as [[u|e] t'] eqn:Hc; unfold evolves; rewrite Hc; cbn.
  - apply create_customer_Ok in Hc as (e & _ & -> & Hn & He & ->). cbn. split; [|by left].
    apply later_put_user. intros _. cbn. rewrite Hn. intros k a Ha. by apply (He k a Ha).
  - apply create_customer_frame in Hc as ->. split; [reflexivity|by left].
Qed.

Lemma evolves_other t f :
  (∀ d, users (f d) = users d ∧ sessions (f d) = sessions d ∧ audit (f d) = audit d) →
  evolves later t (modify f).
Proof.
  intros Hf. destruct (Hf (pending t)) as (? & ? & Ha). apply evolves_modify, later_same; [done..|]. by rewrite Ha.
Qed.

#[export] Hint Resolve evolves_resolve evolves_record evolves_revoke evolves_issue
  evolves_create_customer : service.
#[export] Hint Extern 1 (evolves later _ (modify _)) => apply evolves_other; by intros ? : service.

Lemma evolves_hash_password t argon pw : evolves later t (hash_password argon pw).
Proof. unfold hash_password, validate_password. evolves_auto. Qed.
Lemma evolves_validate_new_password t sha1 range pw :
  evolves later t (validate_new_password sha1 range pw).
Proof. unfold validate_new_password, is_breached, validate_password. evolves_auto. Qed.
Lemma evolves_add_credential t u h : evolves later t (add_credential u h).
Proof. unfold add_credential. evolves_auto. Qed.
#[export] Hint Resolve evolves_hash_password evolves_validate_new_password evolves_add_credential : service.

Lemma evolves_derive_code t h c settings : evolves later t (derive_code h c settings).
Proof. unfold derive_code, challenge_purpose, key_bytes. evolves_auto. Qed.
Lemma evolves_code_digest t h c code settings : evolves later t (code_digest h c code settings).
Proof. unfold code_digest, challenge_purpose, key_bytes. evolves_auto. Qed.
#[export] Hint Resolve evolves_derive_code evolves_code_digest : service.

Lemma evolves_issue_challenge t h fr clock ids settings email purpose corr :
  evolves later t (issue_challenge h fr clock ids settings email purpose corr).
Proof.
  unfold issue_challenge, key_bytes. evolves_auto.
Qed.

Lemma evolves_verification_failed t fr clock ids k purpose corr :
  evolves later t (verification_failed fr clock ids k purpose corr).
Proof. unfold verification_failed. evolves_auto. Qed.
#[export] Hint Resolve evolves_issue_challenge evolves_verification_failed : service.

Lemma evolves_consume_challenge t h fr clock ids settings k code purpose corr :
  evolves later t (consume_challenge h fr clock ids settings k code purpose corr).
Proof. unfold consume_challenge. evolves_auto. Qed.
#[export] Hint Resolve evolves_consume_challenge : service.

(** A user that was just created gets its verification, and its role. *)
Lemma evolves_promote t t' normalize new_id now email u f :
  create_customer normalize new_id now email t = (Ok u, t') →
  User.id (f u) = User.id u → User.email (f u) = User.email u →
  evolves later t' (modify (λ d, d <| users ::= put (f u) |>)).
Proof.
  intros (e & _ & -> & _ & _ & ->)%create_customer_Ok Hid He. apply evolves_modify, later_put_user.
  intros _. rewrite Hid. cbn [User.id pending users]. unfold put. cbn.
  rewrite lookup_insert_eq. split; [done|].
  unfold is_admin. cbn. rewrite bool_decide_eq_false_2; [done|by vm_compute].
Qed.

(** ** What each call keeps *)

Section calls.
Context `{Platform}.

Lemma evolves_consume_or_commit t clock ids settings k code purpose :
  evolves later t (consume_or_commit clock ids settings k code purpose).
Proof. unfold consume_or_commit. evolves_auto. Qed.
#[local] Hint Resolve evolves_consume_or_commit : service.

Lemma evolves_login t clock ids hint settings email password previous secret :
  evolves later t (login clock ids hint settings email password previous secret).
Proof. unfold login, get_credential, set_credential. evolves_auto. Qed.

Lemma evolves_logout t clock hint secret : evolves later t (logout clock hint secret).
Proof. unfold logout. evolves_auto. Qed.

Lemma evolves_logout_all t clock actor : evolves later t (logout_all clock actor).
Proof. unfold logout_all. evolves_auto. Qed.

Lemma evolves_reauthenticate t clock actor password :
  evolves later t (reauthenticate clock actor password).
Proof.
  unfold reauthenticate, get_credential. evolves_auto. bool_inv.
  apply evolves_modify, later_put_session. intros (_ & _ & Hs & _). cbn.
  pose proof (Hs _ _ Heqo0) as Hid. change (AuthSession.id t2 = actor_session actor) in Hid.
  by rewrite Hid, Heqo0.
Qed.

Lemma evolves_begin_reset t clock ids settings email :
  evolves later t (begin_reset clock ids settings email).
Proof. unfold begin_reset. evolves_auto. Qed.

Lemma evolves_complete_reset t clock ids settings k code password corr :
  evolves later t (complete_reset clock ids settings k code password corr).
Proof. unfold complete_reset, get_credential, set_credential. evolves_auto. Qed.

Lemma evolves_begin_registration t clock ids settings email corr :
  evolves later t (begin_registration clock ids settings email corr).
Proof. unfold begin_registration, normalize_email. evolves_auto. Qed.

Lemma evolves_complete_registration t clock ids settings k code password corr :
  evolves later t (complete_registration clock ids settings k code password corr).
Proof.
  unfold complete_registration. evolves_auto.
  by eapply (evolves_promote _ _ _ _ _ _ _ (λ u, u <| User.email_verified_at := Some (clock 3%nat) |>)).
Qed.

Lemma evolves_bootstrap t fr clock ids email password :
  evolves later t (bootstrap_run fr clock ids normalize argon_hash sha1_hex pwned_range email password).
Proof.
  unfold bootstrap_run, bootstrap. evolves_auto.
  by eapply (evolves_promote _ _ _ _ _ _ _ (λ u, u <| User.role := role_value ADMIN_ROLE |>
                                                    <| User.email_verified_at := Some (clock 1%nat) |>)).
Qed.

Lemma evolves_update_profile t clock actor data : evolves later t (update_profile clock actor data).
Proof.
  unfold update_profile. evolves_auto.
  match goal with H : authorize _ _ _ _ _ _ = _ |- _ => apply authorize_Ok in H as [-> (s & role & Hu & _)] end.
  apply evolves_modify, later_put_user. intros (Hok & _). cbn.
  pose proof (Hok _ _ Hu) as Hid. change (User.id a = actor_user actor) in Hid. rewrite Hid, Hu.
  split; [done|]. by left.
Qed.

Lemma evolves_write_address t actor data a : evolves later t (write_address actor data a).
Proof. unfold write_address. evolves_auto. Qed.
#[local] Hint Resolve evolves_write_address : service.

Lemma evolves_save_address t clock ids actor data i :
  evolves later t (save_address clock ids actor data i).
Proof. unfold save_address. evolves_auto. Qed.

Lemma evolves_delete_address t clock actor i : evolves later t (delete_address clock actor i).
Proof. unfold delete_address. evolves_auto. Qed.

(** A change of access keeps everything, because it counts the others. *)
Lemma later_change_access fr clock ids settings actor target role active corr d :
  later d (run (change_access fr clock ids settings actor target role active corr) d).2.
Proof.
  destruct (run _ d) as [r d'] eqn:Hr. cbn. intros Hid. pose proof Hid as (Hok & _).
  apply change_access_effect in Hr; [|done].
  destruct Hr as [[-> _]|(_ & a & t & row & Ht & _ & _ & Hlast & _ & _ & _ & _ & ->)];
    [by apply later_preorder|].
  revert Hid. change (later d (Db (<[target := changed role active t]> (users d))
    (update_where (revocable target None) (λ s, s <| AuthSession.revoked_at := Some (clock 2%nat) |>) (sessions d))
    (credentials d) (challenges d) (addresses d) (externals d) (outbox d) (audit d ++ [row]))).
  assert (Htid : User.id t = target) by exact (Hok _ _ Ht).
  transitivity (d <| users ::= put (changed role active t) |>).
  { apply later_put_user. intros _. cbn. rewrite Htid, Ht. split; [done|]. intros Ha.
    destruct (is_admin (changed role active t)) eqn:Hc; [by left|right]. by apply Hlast. }
  etrans.
  { apply (later_sessions _ (λ s, if revocable target None s
                                  then s <| AuthSession.revoked_at := Some (clock 2%nat) |> else s)).
    intros s. unfold revocable. repeat case_bool_decide; cbn; split_and!; congruence. }
  apply later_same; cbn; [|done|by eexists]. unfold put. cbn. by rewrite <-Htid.
Qed.

(** ** External sign-in *)

Lemma evolves_new_external_user t clock ids identity : evolves later t (new_external_user clock ids identity).
Proof.
  unfold new_external_user, normalize_email, lock_email. evolves_auto.
  by eapply (evolves_promote _ _ _ _ _ _ _ (λ u, u <| User.email_verified_at := Some (clock 1%nat) |>)).
Qed.

Lemma evolves_attach t clock ids identity external user corr :
  evolves later t (attach clock ids identity external user corr).
Proof. unfold attach, user_audit_actor. evolves_auto. Qed.

Lemma evolves_open_session t clock ids settings identity user secret corr :
  evolves later t (open_session clock ids settings identity user secret corr).
Proof.
  unfold open_session, user_audit_actor. evolves_auto.
  match goal with H : find_row _ _ = Some _ |- _ => apply find_row_Some in H as [[k Hk] _] end.
  apply evolves_modify, later_put_session. intros (_ & _ & Hok & _). cbn.
  pose proof (Hok _ _ Hk) as Hid. change (AuthSession.id t0 = k) in Hid. by rewrite Hid, Hk.
Qed.
#[local] Hint Resolve evolves_new_external_user evolves_attach evolves_open_session : service.

(** A reauthentication moves one session's authentication time. *)
Lemma evolves_reauthenticated t i at_ f session :
  sessions (pending t) !! i = Some session → (∀ d, users (f d) = users d ∧ audit (f d) = audit d ∧
    sessions (f d) = put (session <| AuthSession.authenticated_at := at_ |>) (sessions d)) →
  evolves later t (modify f).
Proof.
  intros Hs Hf. destruct (Hf (pending t)) as (Hu & Ha & Hse). apply evolves_modify.
  transitivity (pending t <| sessions ::= put (session <| AuthSession.authenticated_at := at_ |>) |>).
  - apply later_put_session. intros (_ & _ & Hok & _). cbn.
    pose proof (Hok _ _ Hs) as Hid. change (AuthSession.id session = i) in Hid. by rewrite Hid, Hs.
  - apply later_same; cbn; [done|done|by rewrite Ha].
Qed.

Lemma evolves_linking_user t clock ids settings identity attempt actor corr external :
  evolves later t (linking_user clock ids settings identity attempt actor corr external).
Proof.
  unfold linking_user, session_audit_actor. evolves_auto.
  by eapply (evolves_reauthenticated _ _ (clock 3%nat)).
Qed.
#[local] Hint Resolve evolves_linking_user : service.

Lemma evolves_finish t clock ids settings identity attempt actor secret corr :
  evolves later t (finish clock ids settings identity attempt actor secret corr).
Proof. unfold finish, signing_user, lock_email. evolves_auto. Qed.

(** A callback moves the database as its parts do. *)
Lemma callback_evolves (R : relation db) `{!PreOrder R} d clock ids hint settings attempt cookie identity secret corr :
  (∀ t identity actor, evolves R t (finish clock ids settings identity attempt actor secret corr)) →
  (∀ t r, evolves R t (record_audit r)) →
  evolves R (Txn d d) (callback clock ids hint settings attempt cookie identity secret corr).
Proof.
  intros Hf Hr. unfold callback. assert (Hres : ∀ t now, evolves R t (resolve sha256_hex hint now cookie)).
  { intros t now. apply evolves_still; [apply _|apply resolve_frame]. }
  apply evolves_undone; [apply _| | |done|].
  - evolves_auto.
  - apply atomic_bind; [atomic_auto; intros t; by rewrite resolve_frame|intros actor].
    apply atomic_bind; [atomic_auto|intros i]. apply atomic_finish.
  - unfold record_failed_handshake. apply evolves_bind; [apply _| |intros; apply evolves_raise, _].
    apply evolves_bind; [apply _|by apply evolves_still; [apply _|]|intros ? ? [= <- <-]].
    evolves_auto.
Qed.

Lemma evolves_callback d clock ids hint settings attempt cookie identity secret corr :
  evolves later (Txn d d) (callback clock ids hint settings attempt cookie identity secret corr).
Proof. apply callback_evolves; [apply _|intros; apply evolves_finish|intros; apply evolves_record]. Qed.

Lemma evolves_unlink t clock ids settings actor provider corr :
  evolves later t (unlink clock ids settings actor provider corr).
Proof. unfold unlink, lock_email, session_audit_actor. evolves_auto. Qed.

(** Every answered request moves the database along [later]. *)
Lemma served_later d l d' : served d l d' → later d d'.
Proof.
  destruct l as [[e c] r]. unfold served. cbn [fst snd]. intros Hs.
  replace d' with (run (perform_call e c) d).2 by (by rewrite Hs). clear Hs.
  assert (He : ∀ A (m : M A), evolves later (Txn d d) m → evolves later (Txn d d) (m;; mret tt)).
  { intros A m Hm. apply evolves_bind; [apply _|done|intros; apply evolves_ret; apply _]. }
  destruct c; cbn [perform_call]; try apply (later_change_access float_text); apply (evolves_run later); try apply He;
    eauto using evolves_login, evolves_logout, evolves_logout_all, evolves_reauthenticate,
    evolves_begin_reset, evolves_complete_reset, evolves_begin_registration,
    evolves_complete_registration, evolves_bootstrap, evolves_update_profile, evolves_save_address,
    evolves_delete_address, evolves_callback, evolves_unlink.
Qed.
End calls.

(** ** Properties *)

(** C3: Along any history of identity calls - sign-ins, sign-outs, resets,
    registrations, access changes, bootstraps and profile changes, each
    answered or refused, with any clock, identifiers and cache content -
    identifiers, addresses and session secrets stay unique, an account never
    disappears or changes its address, the audit trail only grows, an active
    verified administrator remains once there is one, and a session that was
    revoked can never be used again: its secret resolves to nobody. *)
Theorem identity_history_safe `{Platform} d ls d' :
  identity_ok d → history d ls d' →
  identity_ok d' ∧
  (administered d → administered d') ∧
  (∀ k u, users d !! k = Some u → ∃ u', users d' !! k = Some u' ∧ User.email u' = User.email u) ∧
  audit d `prefix_of` audit d' ∧
  (∀ k s secret hint now, sessions d !! k = Some s → is_Some (AuthSession.revoked_at s) →
     sha256_hex secret = AuthSession.secret_hash s →
     resolve sha256_hex hint now (Some secret) (Txn d' d')
     = (Err (App AuthenticationRequiredError), Txn d' d')).
Proof.
  intros Hok Hrun.
  assert (Hl : later d d').
  { induction Hrun as [|d1 l d2 ls d3 Hstep _ IH]; [reflexivity|].
    pose proof (served_later _ _ _ Hstep) as Hl. transitivity d2; [done|]. apply IH.
    apply (Hl Hok). }
  destruct (Hl Hok) as [Hok' Hu Hs Ha Hm]. split_and!; [done..|].
  intros k s secret hint now Hk [at_ Hr] Hh. destruct Hok' as (_ & _ & Hs1 & Hs2).
  destruct (resolve _ _ _ _ _) as [[a|e] t'] eqn:He.
  - apply resolve_authenticates in He as (_ & s' & u & role & _ & Hs' & Hh' & Hr' & _); [|done..].
    destruct (Hs _ _ Hk) as (s'' & Hk'' & _ & Hh'' & _ & Hr''). specialize (Hr'' _ Hr).
    assert (k = AuthSession.id s') as -> by (apply (Hs2 _ _ _ _ Hk'' Hs'); congruence). congruence.
  - by apply resolve_refuses in He as [-> ->].
Qed.

(** A platform to evaluate calls on. *)
Definition demo_platform : Platform := {|
  normalize := Some; sha256_hex := id; sha1_hex := id; hmac_sha256 := λ _ _, 0;
  argon_hash := id; argon_verify := λ h p, bool_decide (h = p); argon_stale := λ _, false;
  dummy_hash := lit "none"; pwned_range := λ _, Some (200, replicate 35 48%N ++ lit ":0"); float_text := λ _, [] |}.

Definition demo_env : env := Env (λ _, seconds 10) (λ n, 50 + Z.of_nat n) None demo_settings.
Definition promote_call : call := ChangeAccess (NewActor 1 5 ADMIN_ROLE 0) 2 (Some ADMIN_ROLE) None (lit "r-1").

Lemma two_users_unique : emails_unique (users two_users).
Proof.
  change (users two_users) with (<[2 := second_user]> {[1 := demo_user]} : table User.t).
  intros k1 k2 u1 u2.
  intros [[<- <-]|[_ [<- <-]%lookup_singleton_Some]]%lookup_insert_Some
    [[<- <-]|[_ [<- <-]%lookup_singleton_Some]]%lookup_insert_Some; by vm_compute.
Qed.

(** The administrator promotes a colleague, then signs out. *)
Lemma identity_history_safe_witness :
  let _ := demo_platform in
  ∃ d', history two_users [(demo_env, promote_call, Ok tt); (demo_env, Logout (Some demo_secret), Ok tt)] d' ∧
    identity_ok d' ∧ administered d'.
Proof.
  cbn zeta. eexists.
  match goal with |- ?h ∧ _ => assert (Hh : h) end.
  { eapply runs_cons; [vm_compute; reflexivity|]. eapply runs_cons; [vm_compute; reflexivity|].
    apply runs_nil. }
  split; [exact Hh|]. destruct demo_db_ok as (H1 & H2 & H3).
  edestruct (@identity_history_safe demo_platform) as (Ho & Ha & _); [|exact Hh|].
  - split_and!; [exact two_users_ok|exact two_users_unique|exact H1|exact H3].
  - split; [exact Ho|]. apply Ha. exists 1, demo_user. by split.
Defined.
