(* ===== verification/ExternalSpecs.v ===== *)
(** * What external sign-in guarantees

    Along any history an account keeps a way to sign in and a subject of a
    provider stands for one account; a sign-in never takes over an account that
    has not linked the subject; an attempt is consumed at most once. *)

From S2P Require Import Prelude Regex PyValues CoreTypes AuditTrail AuditSpecs Events Outbox Errors Identity Sessions Passwords AuthEvents Challenges Administration AuthService Profile ExternalSignIn Histories.

(** ** Login methods *)

(** The constraints of the table. *)
Definition linked_ok (t : table ExternalIdentity.t) : Prop :=
  table_ok t ∧
  (∀ k1 k2 e1 e2, t !! k1 = Some e1 → t !! k2 = Some e2 →
     ExternalIdentity.provider e1 = ExternalIdentity.provider e2 →
     ExternalIdentity.subject e1 = ExternalIdentity.subject e2 → k1 = k2) ∧
  (∀ k1 k2 e1 e2, t !! k1 = Some e1 → t !! k2 = Some e2 →
     ExternalIdentity.provider e1 = ExternalIdentity.provider e2 →
     ExternalIdentity.user_id e1 = ExternalIdentity.user_id e2 → k1 = k2).

Definition has_method (u : uuid) (d : db) : Prop :=
  is_Some (credentials d !! u) ∨
  ∃ k e, externals d !! k = Some e ∧ ExternalIdentity.user_id e = u.

Definition methods_kept (d d' : db) : Prop :=
  linked_ok (externals d) → linked_ok (externals d') ∧ ∀ u, has_method u d → has_method u d'.

#[export] Instance methods_kept_preorder : PreOrder methods_kept.
Proof.
  split; [done|]. intros d1 d2 d3 H12 H23 Hok. destruct (H12 Hok) as [Hok2 G12].
  destruct (H23 Hok2) as [Hok3 G23]. auto.
Qed.

(** Calls that leave the links alone and remove no password. *)
Definition same_methods (d d' : db) : Prop :=
  externals d' = externals d ∧ ∀ u, is_Some (credentials d !! u) → is_Some (credentials d' !! u).

#[export] Instance same_methods_preorder : PreOrder same_methods.
Proof.
  split; [done|]. intros d1 d2 d3 [H1 H1'] [H2 H2']. split; [congruence|auto].
Qed.

Lemma same_methods_kept d d' : same_methods d d' → methods_kept d d'.
Proof.
  intros [He Hc] Hok. rewrite He. split; [done|]. intros u [Hu|Hu]; [left; auto|right; by rewrite He].
Qed.

Lemma evolves_unlinked t f :
  (∀ d, externals (f d) = externals d ∧ credentials (f d) = credentials d) →
  evolves same_methods t (modify f).
Proof. intros Hf. destruct (Hf (pending t)) as [He Hc]. apply evolves_modify. split; [done|by rewrite Hc]. Qed.

Lemma evolves_password t u (h : str) :
  evolves same_methods t (modify (λ d, d <| credentials ::= <[u := h]> |>)).
Proof.
  apply evolves_modify. split; [done|]. intros u' Hu. cbn. rewrite lookup_insert_is_Some.
  destruct (decide (u = u')); auto.
Qed.
#[export] Hint Resolve evolves_password : service.
#[export] Hint Extern 1 (evolves same_methods _ (modify _)) => apply evolves_unlinked; by intros ? : service.

Section calls.
Context `{Platform}.

Lemma unlinked_resolve t hint now secret : evolves same_methods t (resolve sha256_hex hint now secret).
Proof. apply evolves_still; [apply _|apply resolve_frame]. Qed.
Lemma unlinked_record t r : evolves same_methods t (record_audit r).
Proof. unfold record_audit. evolves_auto. Qed.
Lemma unlinked_revoke t now u s : evolves same_methods t (revoke now u s).
Proof. unfold revoke. evolves_auto. Qed.
Lemma unlinked_hash t pw : evolves same_methods t (hash_password argon_hash pw).
Proof. unfold hash_password, validate_password. evolves_auto. Qed.
Lemma unlinked_validate t pw : evolves same_methods t (validate_new_password sha1_hex pwned_range pw).
Proof. unfold validate_new_password, is_breached, validate_password. evolves_auto. Qed.
Lemma unlinked_create t i now e : evolves same_methods t (create_customer normalize i now e).
Proof. unfold create_customer, normalize_email. evolves_auto. Qed.
Lemma unlinked_credential t u h : evolves same_methods t (add_credential u h).
Proof. unfold add_credential. evolves_auto. Qed.
Lemma unlinked_issue t settings now i secret u : evolves same_methods t (issue sha256_hex settings now i secret u).
Proof. unfold issue. evolves_auto. Qed.
Lemma unlinked_derive t c s : evolves same_methods t (derive_code hmac_sha256 c s).
Proof. unfold derive_code, challenge_purpose, key_bytes. evolves_auto. Qed.
Lemma unlinked_digest t c code s : evolves same_methods t (code_digest hmac_sha256 c code s).
Proof. unfold code_digest, challenge_purpose, key_bytes. evolves_auto. Qed.
#[local] Hint Resolve unlinked_resolve unlinked_record unlinked_revoke unlinked_hash unlinked_validate
  unlinked_create unlinked_credential unlinked_issue unlinked_derive unlinked_digest : service.

Lemma unlinked_failed t clock ids k p c : evolves same_methods t (verification_failed float_text clock ids k p c).
Proof. unfold verification_failed. evolves_auto. Qed.
#[local] Hint Resolve unlinked_failed : service.
Lemma unlinked_issue_challenge t clock ids s e p c :
  evolves same_methods t (issue_challenge hmac_sha256 float_text clock ids s e p c).
Proof. unfold issue_challenge, key_bytes. evolves_auto. Qed.
Lemma unlinked_consume t clock ids s k code p :
  evolves same_methods t (consume_or_commit clock ids s k code p).
Proof. unfold consume_or_commit, consume_challenge. evolves_auto. Qed.
#[local] Hint Resolve unlinked_issue_challenge unlinked_consume : service.

(** Every call but the external ones. *)
Definition internal_call (c : call) : bool :=
  match c with Callback _ _ _ _ _ | Unlink _ _ _ => false | _ => true end.

Lemma unlinked_perform t e c : internal_call c = true → evolves same_methods t (perform_call e c).
Proof using Type.
  destruct c; try done; intros _; cbn [perform_call];
    unfold login, logout, logout_all, reauthenticate, begin_reset, complete_reset, begin_registration,
      complete_registration, change_access, bootstrap_run, bootstrap, update_profile, save_address,
      write_address, delete_address, get_credential, set_credential, normalize_email;
    evolves_auto.
Qed.

(** ** External calls *)

Lemma evolves_mono_same t {A} (m : M A) : evolves same_methods t m → evolves methods_kept t m.
Proof using Type. intros [H1 [H2|H2]]; split; auto using same_methods_kept. Qed.

(** A sign-in stamps the row it found. *)
Lemma evolves_stamp t e at_ f :
  (linked_ok (externals (pending t)) → externals (pending t) !! ExternalIdentity.id e = Some e) →
  (∀ d, credentials (f d) = credentials d ∧
     externals (f d) = put (e <| ExternalIdentity.last_login_at := at_ |>) (externals d)) →
  evolves methods_kept t (modify f).
Proof using Type.
  intros He Hf. destruct (Hf (pending t)) as [Hc Hx]. apply evolves_modify. intros Hok.
  pose proof (He Hok) as Hrow. destruct Hok as (Hok & Hps & Hpu). rewrite Hx.
  set (e' := e <| ExternalIdentity.last_login_at := at_ |>).
  assert (Hput : ∀ k r, put e' (externals (pending t)) !! k = Some r →
    ∃ r0, externals (pending t) !! k = Some r0 ∧ ExternalIdentity.provider r = ExternalIdentity.provider r0 ∧
      ExternalIdentity.subject r = ExternalIdentity.subject r0 ∧ ExternalIdentity.user_id r = ExternalIdentity.user_id r0).
  { intros k r. unfold put. rewrite lookup_insert_Some. intros [[<- <-]|[_ Hr]]; [by exists e|by exists r]. }
  split; [split_and!|].
  - by apply table_ok_put.
  - intros k1 k2 e1 e2 (r1 & ? & ? & ? & ?)%Hput (r2 & ? & ? & ? & ?)%Hput ? ?. eapply Hps; eauto; congruence.
  - intros k1 k2 e1 e2 (r1 & ? & ? & ? & ?)%Hput (r2 & ? & ? & ? & ?)%Hput ? ?. eapply Hpu; eauto; congruence.
  - intros u [Hu|(k & r & Hk & Hu)]; [left; by rewrite Hc|right]. rewrite Hx. unfold put.
    destruct (decide (row_id e' = k)) as [<-|Hne].
    + exists (row_id e'), e'. rewrite lookup_insert_eq. split; [done|].
      change (row_id e') with (ExternalIdentity.id e) in Hk. rewrite Hrow in Hk. by injection Hk as <-.
    + exists k, r. by rewrite lookup_insert_ne.
Qed.

Lemma insert_external_Ok e t t' :
  insert_external e t = Ok t' →
  t' = put e t ∧ t !! ExternalIdentity.id e = None ∧
  (∀ k r, t !! k = Some r → ExternalIdentity.provider r = ExternalIdentity.provider e →
     ExternalIdentity.subject r = ExternalIdentity.subject e → False) ∧
  ∀ k r, t !! k = Some r → ExternalIdentity.provider r = ExternalIdentity.provider e →
     ExternalIdentity.user_id r = ExternalIdentity.user_id e → False.
Proof using Type.
  unfold insert_external. intros Hi. res_inv. bool_inv. injection Hi as <-. split_and!; [done..| |].
  - intros k r Hk%elem_of_rows_2 Hp Hs. pose proof (existsb_false _ _ _ Hx0 Hk) as Hf.
    cbn in Hf. rewrite !bool_decide_eq_true_2 in Hf by done. done.
  - intros k r Hk%elem_of_rows_2 Hp Hu. pose proof (existsb_false _ _ _ Hx1 Hk) as Hf.
    unfold by_user_provider, by_user in Hf. rewrite !bool_decide_eq_true_2 in Hf by done. done.
Qed.

Lemma methods_insert d e t' :
  insert_external e (externals d) = Ok t' → methods_kept d (d <| externals := t' |>).
Proof using Type.
  intros (-> & Hn & Hps & Hpu)%insert_external_Ok (Hok & Gps & Gpu). split; [split_and!|]; cbn.
  - by apply table_ok_put.
  - intros k1 k2 e1 e2. unfold put. rewrite !lookup_insert_Some.
    intros [[<- <-]|[? ?]] [[<- <-]|[? ?]] ? ?; [done| | |by eapply Gps]; exfalso; eapply Hps; eauto.
  - intros k1 k2 e1 e2. unfold put. rewrite !lookup_insert_Some.
    intros [[<- <-]|[? ?]] [[<- <-]|[? ?]] ? ?; [done| | |by eapply Gpu]; exfalso; eapply Hpu; eauto.
  - intros u [Hu|(k & r & Hk & Hu)]; [by left|right]. exists k, r. cbn. unfold put.
    rewrite lookup_insert_ne; [done|]. intros He. change (row_id e) with (ExternalIdentity.id e) in He. congruence.
Qed.

(** What [find_row] gives is the row under its own key. *)
Definition found (external : option ExternalIdentity.t) (d : db) : Prop :=
  ∀ e, external = Some e → linked_ok (externals d) → externals d !! ExternalIdentity.id e = Some e.

Lemma find_row_found p d : found (find_row p (externals d)) d.
Proof using Type.
  intros e [[k Hk] _]%find_row_Some (Hok & _). pose proof (Hok _ _ Hk) as Hid.
  change (ExternalIdentity.id e = k) in Hid. by rewrite Hid.
Qed.

Lemma unlinked_new_user t clock ids identity : evolves same_methods t (new_external_user clock ids identity).
Proof using Type. unfold new_external_user, normalize_email, lock_email. evolves_auto. Qed.
#[local] Hint Resolve unlinked_new_user : service.

Lemma unlinked_signing_user t clock ids identity external :
  evolves same_methods t (signing_user clock ids identity external).
Proof using Type. unfold signing_user. evolves_auto. Qed.

Lemma unlinked_audit_actor t user : evolves same_methods t (user_audit_actor user).
Proof using Type. unfold user_audit_actor. evolves_auto. Qed.

Lemma kept_attach t clock ids identity external user corr :
  found external (pending t) → evolves methods_kept t (attach clock ids identity external user corr).
Proof using Type.
  intros Hf. unfold attach. destruct external as [e|].
  - eapply evolves_stamp; [by apply Hf|by intros].
  - apply evolves_bind; [apply _|apply evolves_mono_same, unlinked_audit_actor|intros a t1 _].
    apply evolves_bind; [apply _|apply evolves_mono_same, unlinked_record|intros ? t2 _].
    apply evolves_bind; [apply _|apply evolves_get, _|intros d t3 [= <- <-]].
    apply evolves_bind; [apply _|apply evolves_lift, _|intros t' t4 [Hi ->]%lift_Ok].
    apply evolves_modify. by eapply methods_insert.
Qed.

Lemma kept_open_session t clock ids settings identity user secret corr :
  evolves methods_kept t (open_session clock ids settings identity user secret corr).
Proof using Type. apply evolves_mono_same. unfold open_session, user_audit_actor. evolves_auto. Qed.

Lemma kept_linking_user t clock ids settings identity attempt actor corr external :
  found external (pending t) →
  evolves methods_kept t (linking_user clock ids settings identity attempt actor corr external) ∧
  ∀ user t', linking_user clock ids settings identity attempt actor corr external t = (Ok (Some user), t') → external = None.
Proof using Type.
  intros Hf. unfold linking_user. destruct actor as [actor|]; [|split; [apply evolves_raise, _|done]].
  split.
  - apply evolves_bind; [apply _|apply evolves_check, _|intros ? ? [_ ->]%check_Ok].
    apply evolves_bind; [apply _|apply evolves_authorize, _|].
    intros user t1 Ha. apply (f_equal snd) in Ha. rewrite authorize_frame in Ha. cbn in Ha. subst t1.
    destruct (bool_decide (intent attempt = REAUTHENTICATE)).
    + destruct external as [e|]; [|apply evolves_raise, _].
      apply evolves_bind; [apply _|apply evolves_check, _|intros ? ? [_ ->]%check_Ok].
      apply evolves_bind; [apply _|apply evolves_get, _|intros d t1 [= <- <-]].
      destruct (sessions _ !! _) as [session|]; [|apply evolves_raise, _].
      apply evolves_bind; [apply _|apply evolves_check, _|intros ? ? [_ ->]%check_Ok].
      apply evolves_bind; [apply _| |intros ? ? _].
      { eapply evolves_stamp; [by apply Hf|by intros]. }
      apply evolves_mono_same. unfold session_audit_actor. evolves_auto.
    + apply evolves_mono_same. evolves_auto.
  - intros user t' Hl. M_inv. destruct (bool_decide (intent attempt = REAUTHENTICATE)).
    + destruct external as [e|]; [|done]. M_inv. destruct (sessions _ !! _); [|done]. M_inv. done.
    + destruct external as [e|]; [|done]. by M_inv.
Qed.

Lemma kept_finish t clock ids settings identity attempt actor secret corr :
  evolves methods_kept t (finish clock ids settings identity attempt actor secret corr).
Proof using Type.
  unfold finish. apply evolves_bind; [apply _|apply evolves_check, _|intros ? ? [_ ->]%check_Ok].
  apply evolves_bind; [apply _|apply evolves_lift, _|intros ? ? [_ ->]%lift_Ok].
  apply evolves_bind; [apply _|apply evolves_get, _|intros d t1 [= <- <-]].
  set (external := find_row _ _). assert (Hf : found external (pending t)) by apply find_row_found.
  assert (Hres : ∀ resolved t1,
    (resolved ≠ None → found external (pending t1)) →
    evolves methods_kept t1 match resolved with
    | Some user => attach clock ids identity external user corr;;
        match intent attempt with
        | LOGIN => secret ← open_session clock ids settings identity user secret corr; commit;; mret (Some secret)
        | _ => commit;; mret None
        end
    | None => mret None end).
  { intros [user|] t1 Hf1; [|apply evolves_ret, _].
    apply evolves_bind; [apply _|by apply kept_attach, Hf1|intros ? t2 _].
    destruct (intent attempt); [apply evolves_bind; [apply _|apply kept_open_session|intros ? ? _]|..]; evolves_auto. }
  apply evolves_bind; [apply _| |].
  - destruct (intent attempt); [|by apply kept_linking_user..].
    apply evolves_bind; [apply _|apply evolves_mono_same, unlinked_signing_user|intros; apply evolves_ret, _].
  - intros resolved t1 Hr. apply Hres. intros Hne e He. destruct (intent attempt).
    + rewrite He in Hr. apply M_bind_Ok in Hr as (u & t2 & Hu & [= _ <-]).
      unfold signing_user, find_user_by_id in Hu. M_inv. destruct (users _ !! _); [|done]. M_inv. by apply Hf.
    + destruct resolved as [u|]; [|done]. apply (kept_linking_user t) in Hr; [|done]. congruence.
    + destruct resolved as [u|]; [|done]. apply (kept_linking_user t) in Hr; [|done]. congruence.
Qed.

Lemma kept_callback d clock ids hint settings attempt cookie identity secret corr :
  evolves methods_kept (Txn d d) (callback clock ids hint settings attempt cookie identity secret corr).
Proof using Type.
  apply callback_evolves; [apply _|intros; apply kept_finish|intros; apply evolves_mono_same, unlinked_record].
Qed.

(** Unlinking counts what is left. *)
Lemma methods_unlink d user e :
  linked_ok (externals d) → externals d !! ExternalIdentity.id e = Some e → ExternalIdentity.user_id e = user →
  (rowcount (by_user user) (externals d) <=? 1) && bool_decide (credentials d !! user = None) = false →
  methods_kept d (d <| externals ::= delete (ExternalIdentity.id e) |>).
Proof using Type.
  intros Hok He Hu Hg _. pose proof Hok as (Htok & Hps & Hpu). split; [split_and!|]; cbn.
  - intros k r [_ Hr]%lookup_delete_Some. by apply Htok.
  - intros k1 k2 e1 e2 [_ H1]%lookup_delete_Some [_ H2]%lookup_delete_Some. by eapply Hps.
  - intros k1 k2 e1 e2 [_ H1]%lookup_delete_Some [_ H2]%lookup_delete_Some. by eapply Hpu.
  - intros u [Hc|(k & r & Hk & Hr)]; [by left|]. destruct (decide (k = ExternalIdentity.id e)) as [->|Hne].
    2: { right. exists k, r. cbn. by rewrite lookup_delete_ne. }
    rewrite He in Hk. injection Hk as <-. subst u user.
    apply andb_false_iff in Hg as [Hg|Hg].
    + right. rewrite (rowcount_delete _ _ _ _ He) in Hg. unfold by_user at 1 in Hg. rewrite bool_decide_eq_true_2 in Hg by done.
      assert (Hpos : 0 < rowcount (by_user (ExternalIdentity.user_id e)) (delete (ExternalIdentity.id e) (externals d))) by lia.
      apply rowcount_pos in Hpos as (r & Hr & Hb); [|intros j x [_ Hx]%lookup_delete_Some; by apply Htok].
      exists (row_id r), r. split; [done|]. by apply bool_decide_eq_true in Hb.
    + left. apply bool_decide_eq_false in Hg. by apply not_eq_None_Some.
Qed.

Lemma kept_unlink t clock ids settings actor provider corr :
  evolves methods_kept t (unlink clock ids settings actor provider corr).
Proof using Type.
  unfold unlink. apply evolves_bind; [apply _|apply evolves_get, _|intros d t1 [= <- <-]].
  destruct (find_row _ _) as [e0|]; [|apply evolves_raise, _].
  apply evolves_bind; [apply _|apply evolves_lift, _|intros ? ? [_ ->]%lift_Ok].
  apply evolves_bind; [apply _|apply evolves_authorize, _|].
  intros user t1 Ha. apply (f_equal snd) in Ha. rewrite authorize_frame in Ha. cbn in Ha. subst t1.
  apply evolves_bind; [apply _|apply evolves_get, _|intros d t1 [= <- <-]].
  destruct (find_row _ _) as [e|] eqn:Hf; [|apply evolves_raise, _].
  apply evolves_bind; [apply _|apply evolves_check, _|intros ? ? [Hg%negb_true_iff ->]%check_Ok].
  apply evolves_bind; [apply _| |intros ? ? _].
  - apply evolves_modify. intros Hok. pose proof (find_row_found _ _ _ Hf Hok) as He.
    apply find_row_Some in Hf as [_ Hf]. unfold by_user_provider, by_user in Hf.
    apply andb_true_iff in Hf as [Hu%bool_decide_eq_true _]. by eapply (methods_unlink _ (actor_user actor)).
  - apply evolves_mono_same. unfold session_audit_actor. evolves_auto.
Qed.

(** Every answered request keeps the login methods. *)
Lemma served_methods d l d' : served d l d' → methods_kept d d'.
Proof using Type.
  destruct l as [[e c] r]. unfold served. cbn [fst snd]. intros Hs.
  replace d' with (run (perform_call e c) d).2 by (by rewrite Hs). clear Hs.
  apply (evolves_run methods_kept). destruct (internal_call c) eqn:Hc; [by apply evolves_mono_same, unlinked_perform|].
  destruct c; try done; cbn [perform_call].
  - apply evolves_bind; [apply _|apply kept_callback|intros; apply evolves_ret, _].
  - apply kept_unlink.
Qed.
End calls.

(** ** What a sign-in does *)

Section sign_in.
Context `{Platform} (clock : nat → datetime) (ids : nat → uuid) (settings : AuthSettings).

(** A new account: its address is verified by the provider and nobody's yet. *)
Definition newcomer (identity : Claims) (u : User.t) (d : db) : Prop :=
  email_verified identity = true ∧ users d !! User.id u = None ∧
  (∃ raw email, claims_email identity = Some raw ∧ normalize raw = Some email ∧
     normalize email = Some (User.email u)) ∧
  ∀ k a, users d !! k = Some a → User.email a ≠ User.email u.

Lemma signing_user_Ok identity external t u t' :
  signing_user clock ids identity external t = (Ok u, t') →
  active_verified u = true ∧
  match external with
  | Some e => t' = t ∧ users (pending t) !! ExternalIdentity.user_id e = Some u
  | None => newcomer identity u (pending t) ∧ t' = Txn (pending t <| users ::= put u |>) (durable t)
  end.
Proof using Type.
  unfold signing_user. destruct external as [e|]; intros Hs.
  - unfold find_user_by_id in Hs. M_inv. destruct (users _ !! _) as [u0|] eqn:Hu; [|done]. by M_inv.
  - unfold new_external_user, lock_email in Hs. M_inv.
    match goal with H : match claims_email identity with _ => _ end _ = _ |- _ => rename H into He end.
    destruct (claims_email identity) as [[|c raw]|] eqn:Hc; [done| |done]. M_inv.
    unfold catching, normalize_email in He. destruct (normalize (c :: raw)) as [email|] eqn:Hn; [|done].
    injection He as <- <-.
    match goal with H : find_user_by_email _ _ _ = _ |- _ =>
      pose proof (f_equal snd H) as Hf; rewrite find_user_by_email_frame in Hf; cbn in Hf; subst; clear H end.
    match goal with H : create_customer _ _ _ _ _ = _ |- _ =>
      apply create_customer_Ok in H as (email' & Hn' & -> & Hnew & Hno & ->) end.
    split; [done|]. split.
    + split_and!; [done|done|by exists (c :: raw), email|done].
    + f_equal. cbn. unfold put. cbn. by rewrite insert_insert_eq.
Qed.

Lemma attach_Ok identity external user corr t u t' :
  attach clock ids identity external user corr t = (Ok u, t') →
  users (pending t') = users (pending t) ∧ sessions (pending t') = sessions (pending t) ∧
  ∃ e, externals (pending t') = put e (externals (pending t)) ∧
    match external with
    | Some e0 => e = e0 <| ExternalIdentity.last_login_at := clock 6%nat |>
    | None => ExternalIdentity.user_id e = User.id user ∧
        ExternalIdentity.provider e = provider_name (claims_provider identity) ∧
        ExternalIdentity.subject e = subject identity
    end.
Proof using Type.
  unfold attach. destruct external as [e|]; intros Ha.
  - M_inv. split_and!; [done..|]. by eexists.
  - unfold record_audit in Ha. M_inv.
    match goal with H : user_audit_actor _ ?t0 = _ |- _ => 
      unfold user_audit_actor in H; destruct (role_of _); [|done] end. M_inv.
    match goal with H : insert_external _ _ = _ |- _ => apply insert_external_Ok in H as (-> & _) end.
    split_and!; [done..|]. by eexists.
Qed.

Lemma open_session_Ok identity user secret corr t secret' t' :
  open_session clock ids settings identity user secret corr t = (Ok secret', t') →
  secret' = secret ∧ users (pending t') = users (pending t) ∧ externals (pending t') = externals (pending t) ∧
  sessions (pending t) !! ids 3%nat = None ∧
  sessions (pending t') = put (AuthSession.New (ids 3%nat) (User.id user) (sha256_hex secret) (clock 8%nat)
    (clock 9%nat - seconds (recent_auth_seconds settings + 1))
    (clock 8%nat + seconds (session_seconds settings)) None) (sessions (pending t)).
Proof using Type.
  unfold open_session, issue. intros Ho. M_inv.
  match goal with H : insert_session _ _ = _ |- _ => apply insert_session_Ok in H as (-> & Hn & Hh) end.
  cbn [pending] in Ho. destruct (find_row _ _) as [s|] eqn:Hf; [|done].
  apply find_row_Some in Hf as [[k Hk] Hb%bool_decide_eq_true].
  cbn in Hk. unfold put in Hk. cbn in Hk. apply lookup_insert_Some in Hk as [[<- <-]|[_ Hk]]; [|by destruct (Hh _ _ Hk)].
  unfold record_audit, user_audit_actor in Ho. M_inv. destruct (role_of _); [|done]. M_inv.
  split_and!; try done. cbn. unfold put. cbn. by rewrite insert_insert_eq.
Qed.

(** The subject of the claims is linked to an account. *)
Definition linked (identity : Claims) (user : uuid) (d : db) : Prop :=
  ∃ k e, externals d !! k = Some e ∧ by_subject (claims_provider identity) (subject identity) e = true ∧
    ExternalIdentity.user_id e = user.

Definition signed_in (identity : Claims) (secret : str) (u : User.t) (d d' : db) : Prop :=
  active_verified u = true ∧ users d' !! User.id u = Some u ∧ linked identity (User.id u) d' ∧
  (linked identity (User.id u) d ∧ users d' = users d ∨
   (∀ v, ¬ linked identity v d) ∧ newcomer identity u d ∧ users d' = put u (users d)) ∧
  sessions d !! ids 3%nat = None ∧
  sessions d' = put (AuthSession.New (ids 3%nat) (User.id u) (sha256_hex secret) (clock 8%nat)
    (clock 9%nat - seconds (recent_auth_seconds settings + 1))
    (clock 8%nat + seconds (session_seconds settings)) None) (sessions d).

Definition linked_by (attempt : Attempt) (identity : Claims) (d d' : db) : Prop :=
  users d' = users d ∧ ∃ user session, attempt_actor attempt = Some user ∧ attempt_session attempt = Some session ∧
  linked identity user d' ∧
  ∀ k e, externals d' !! k = Some e → externals d !! k = None → ExternalIdentity.user_id e = user.

Lemma by_subject_linked identity (e : ExternalIdentity.t) k d :
  externals d !! k = Some e → by_subject (claims_provider identity) (subject identity) e = true →
  linked identity (ExternalIdentity.user_id e) d.
Proof using Type. intros. by exists k, e. Qed.

Lemma finish_login identity attempt actor secret corr d r t' :
  intent attempt = LOGIN → table_ok (users d) → linked_ok (externals d) →
  finish clock ids settings identity attempt actor secret corr (Txn d d) = (Ok r, t') →
  claims_provider identity = attempt_provider attempt ∧
  ∃ u, r = Some secret ∧ signed_in identity secret u d (durable t').
Proof using Type.
  intros Hi Huok Hlok Hf. unfold finish in Hf. rewrite Hi in Hf. unfold lock_email in Hf. M_inv.
  cbn [pending] in *. apply bool_decide_eq_true in Hx. split; [done|].
  set (external := find_row _ _) in *.
  match goal with H : signing_user _ _ _ _ _ = _ |- _ => apply signing_user_Ok in H as [Ha Hs] end.
  match goal with H : attach _ _ _ _ _ _ _ = _ |- _ => apply attach_Ok in H as (Hu & Hss & e & He & Hrow) end.
  match goal with H : open_session _ _ _ _ _ _ _ _ = _ |- _ => apply open_session_Ok in H as (-> & Hu2 & He2 & Hn & Hs2) end.
  rename x3 into u. exists u. split; [done|]. unfold signed_in. cbn [durable]. rewrite Hu2, Hu, Hs2, Hss.
  rewrite Hss in Hn. destruct external as [e0|] eqn:Hfr.
  - destruct Hs as [-> Hs]. cbn [pending] in *. apply find_row_Some in Hfr as [[k Hk] Hb].
    assert (Hid : User.id u = ExternalIdentity.user_id e0) by exact (Huok _ _ Hs).
    rewrite Hid. split_and!; try done.
    + exists (row_id e), e. rewrite He2, He. unfold put. rewrite lookup_insert_eq. by subst e.
    + left. split; [by eapply by_subject_linked|done].
  - destruct Hs as [Hnew ->]. cbn [pending] in *. split_and!; try done.
    + cbn. unfold put. apply lookup_insert_eq.
    + exists (row_id e), e. rewrite He2, He. unfold put. rewrite lookup_insert_eq.
      destruct Hrow as (? & Hp & Hsu). split_and!; [done| |done].
      unfold by_subject. by rewrite Hp, Hsu, !bool_decide_eq_true_2.
    + right. split_and!; [|done|done]. intros v (k & e1 & Hk & Hb & _).
      pose proof (proj1 (find_row_None _ _) Hfr _ _ Hk) as Hn'. by rewrite Hn' in Hb.
Qed.

Lemma linking_user_Ok identity attempt actor corr external d r t' :
  linking_user clock ids settings identity attempt actor corr external (Txn d d) = (Ok r, t') →
  found external d → linked_ok (externals d) → table_ok (users d) →
  users (pending t') = users d ∧ (∀ k, externals (pending t') !! k = None ↔ externals d !! k = None) ∧
  ∃ user session, attempt_actor attempt = Some user ∧ attempt_session attempt = Some session ∧
  match r with
  | Some u => external = None ∧ User.id u = user ∧ t' = Txn d d
  | None => durable t' = pending t' ∧ ∃ e, external = Some e ∧ ExternalIdentity.user_id e = user ∧
      externals (pending t') = put (e <| ExternalIdentity.last_login_at := clock 4%nat |>) (externals d)
  end.
Proof using Type.
  unfold linking_user. intros Hl Hf Hok Huok. destruct actor as [actor|]; [|done]. M_inv.
  apply andb_true_iff in Hx as [Ha%bool_decide_eq_true Hs%bool_decide_eq_true].
  match goal with H : authorize _ _ _ _ _ _ = _ |- _ => apply authorize_Ok in H as [-> (? & ? & Hu & _)] end.
  cbn [pending] in *. destruct (bool_decide (intent attempt = REAUTHENTICATE)).
  - destruct external as [e|]; [|done]. M_inv. cbn [pending] in *. destruct (sessions d !! _); [|done].
    unfold session_audit_actor, record_audit in Hl. M_inv. bool_inv. split; [done|]. split.
    2: { exists (actor_user actor), (actor_session actor). split_and!; try done. by exists e. }
    intros k. cbn. unfold put. rewrite lookup_insert_None. split; [tauto|]. intros Hk. split; [done|].
    intros <-. pose proof (Hf _ eq_refl Hok) as He. cbn in Hk. congruence.
  - destruct external as [e|]; M_inv. split; [done|]. split; [done|].
    exists (actor_user actor), (actor_session actor). split_and!; try done. exact (Huok _ _ Hu).
Qed.

Lemma finish_linked identity attempt actor secret corr d r t' :
  intent attempt ≠ LOGIN → table_ok (users d) → linked_ok (externals d) →
  finish clock ids settings identity attempt actor secret corr (Txn d d) = (Ok r, t') →
  r = None ∧ linked_by attempt identity d (durable t').
Proof using Type.
  intros Hi Huok Hlok Hf. unfold finish in Hf. unfold lock_email in Hf. M_inv. cbn [pending] in *.
  set (external := find_row _ _) in *.
  assert (Hl : ∃ resolved t1, linking_user clock ids settings identity attempt actor corr external (Txn d d) = (Ok resolved, t1) ∧
    match resolved with None => r = None ∧ t1 = t' | Some user =>
      (attach clock ids identity external user corr;; commit;; mret None) t1 = (Ok r, t') end).
  { destruct (intent attempt); [done|..]; (exists x2, t2; split; [done|]; destruct x2 as [u|]; [done|by injection Hf as <- <-]). }
  clear Hf. destruct Hl as ([u|] & t3 & Hl & Hr).
  - apply linking_user_Ok in Hl as (Hu & Hk & user & session & Ha & Hs & Hn & Hid & ->); [|apply find_row_found|done..].
    rewrite Hn in Hr. M_inv.
    match goal with H : attach _ _ _ _ _ _ _ = _ |- _ => apply attach_Ok in H as (Hu' & _ & e & He & Hrow) end.
    split; [done|]. split; [done|]. exists user, session. cbn [durable]. split_and!; try done.
    + destruct Hrow as (Hru & Hp & Hsu). exists (row_id e), e. rewrite He. unfold put. rewrite lookup_insert_eq.
      split_and!; [done| |congruence]. unfold by_subject. by rewrite Hp, Hsu, !bool_decide_eq_true_2.
    + intros k e' Hk' Hnone. rewrite He in Hk'. cbn [pending] in Hk'. unfold put in Hk'.
    apply lookup_insert_Some in Hk' as [[_ <-]|[_ Hk']]; [destruct Hrow; congruence|congruence].
  - destruct Hr as [-> <-].
    apply linking_user_Ok in Hl as (Hu & Hk & user & session & Ha & Hs & Hd & e0 & Hfr & He & Hput);
      [|apply find_row_found|done..].
    split; [done|]. rewrite Hd. split; [done|]. exists user, session. split_and!; try done.
    { apply find_row_Some in Hfr as [_ Hb]. exists (ExternalIdentity.id e0). eexists. rewrite Hput. unfold put.
      split_and!; [apply lookup_insert_eq|done|done]. }
    intros k e Hke Hn. apply Hk in Hn. congruence.
Qed.
End sign_in.

(** ** The callback *)

Lemma callback_Ok `{Platform} clock ids hint settings attempt cookie identity secret corr d r t :
  callback clock ids hint settings attempt cookie identity secret corr (Txn d d) = (Ok r, t) →
  ∃ actor i, identity = Some i ∧ finish clock ids settings i attempt actor secret corr (Txn d d) = (Ok r, t).
Proof.
  unfold callback, catching_any.
  match goal with |- (match ?m (Txn d d) with _ => _ end) = _ → _ =>
    destruct (m (Txn d d)) as [[x|[c|e1]] t1] eqn:Hm end; [|intros Hc|done].
  - intros [= <- <-]. M_inv. destruct identity as [i|]; [|done]. M_inv.
    match goal with H : match intent attempt with _ => _ end (Txn d d) = (Ok ?a, ?t0) |- _ =>
      assert (t0 = Txn d d) as ->; [|by exists a, i] end.
    destruct (intent attempt); M_inv; try done;
      match goal with H : resolve _ _ _ _ ?t = (_, ?t0) |- _ =>
        pose proof (f_equal snd H) as Hs; rewrite resolve_frame in Hs; by cbn in Hs end.
  - destruct (existsb _ _); [|done]. by M_inv.
Qed.

(** ** Attempts *)

Section attempts.
Context `{Platform} (dump : Attempt → str) (load : str → option Attempt) (namespace : str) (ttl : Z).

Inductive attempt_op :=
| Created (now : datetime) (key : str) (a : Attempt)
| Consumed (now : datetime) (key browser : str) (provider : ProviderName) (a : Attempt)
| Declined.

Inductive attempt_step : attempts → attempt_op → attempts → Prop :=
| step_created s up now state a s' :
    validate_actor_binding a = Ok a →
    create_attempt dump namespace ttl up now state a s = (inl state, s') →
    attempt_step s (Created now (attempt_key namespace state) a) s'
| step_create_declined s up now state a c s' :
    create_attempt dump namespace ttl up now state a s = (inr c, s') → attempt_step s Declined s'
| step_consumed s up now state browser provider a s' :
    consume_attempt load namespace up now state browser provider s = (inl a, s') →
    attempt_step s (Consumed now (attempt_key namespace state) browser provider a) s'
| step_consume_declined s up now state browser provider c s' :
    consume_attempt load namespace up now state browser provider s = (inr c, s') → attempt_step s Declined s'.

Definition is_created (key : str) (l : attempt_op) : Prop := ∃ now a, l = Created now key a.
Definition is_consumed (key : str) (l : attempt_op) : Prop :=
  ∃ now browser provider a, l = Consumed now key browser provider a.

#[export] Instance is_created_dec key l : Decision (is_created key l).
Proof.
  destruct l as [now k a|now k browser provider a|]; [destruct (decide (k = key)) as [->|]; [left; by eexists _, _|]| |];
    right; by intros (? & ? & [=]).
Defined.
#[export] Instance is_consumed_dec key l : Decision (is_consumed key l).
Proof.
  destruct l as [now k a|now k browser provider a|]; [|destruct (decide (k = key)) as [->|]; [left; by eexists _, _, _, _|]|];
    right; by intros (? & ? & ? & ? & [=]).
Defined.

Definition creations (key : str) (ls : list attempt_op) : nat := length (filter (is_created key) ls).
Definition consumptions (key : str) (ls : list attempt_op) : nat := length (filter (is_consumed key) ls).

(** What is stored was created. *)
Definition traced (ls : list attempt_op) (s : attempts) : Prop :=
  ∀ key raw expires, s !! key = Some (raw, expires) →
    ∃ now a, Created now key a ∈ ls ∧ validate_actor_binding a = Ok a ∧ raw = dump a ∧ expires = now + seconds ttl.

Lemma create_Ok up now state a s r s' :
  create_attempt dump namespace ttl up now state a s = (r, s') →
  s' = s ∨ ∃ st, r = inl st ∧ s' = <[attempt_key namespace state := (dump a, now + seconds ttl)]> s.
Proof using Type load. unfold create_attempt. destruct up; cbn; [|naive_solver]. destruct (stored _ _ _); naive_solver. Qed.

Lemma consume_Ok up now state browser provider s a s' :
  consume_attempt load namespace up now state browser provider s = (inl a, s') →
  s' = delete (attempt_key namespace state) s ∧ attempt_provider a = provider ∧
  browser_hash a = sha256_hex browser ∧
  ∃ raw expires, s !! attempt_key namespace state = Some (raw, expires) ∧ now < expires ∧ load raw = Some a.
Proof using Type dump.
  unfold consume_attempt. destruct (negb _); [done|]. destruct up; cbn; [|done].
  destruct (r ← stored _ _ _; load r) as [a'|] eqn:Hl; [|done].
  destruct (negb (bool_decide (attempt_provider a' = provider)) || _) eqn:Hg; [done|]. intros [= -> <-].
  apply orb_false_iff in Hg as [Hp%negb_false_iff Hb%negb_false_iff].
  apply bool_decide_eq_true in Hp, Hb. split_and!; [done..|].
  apply bind_Some in Hl as (raw & Hs & Hl). unfold stored in Hs.
  apply bind_Some in Hs as ([raw' expires] & Hk & Hs). destruct (now <? expires) eqn:Hx; [|done].
  injection Hs as ->. exists raw, expires. split_and!; [done|lia|done].
Qed.

Lemma consume_shrinks up now state browser provider s r s' :
  consume_attempt load namespace up now state browser provider s = (r, s') →
  s' = s ∨ s' = delete (attempt_key namespace state) s.
Proof using Type dump.
  unfold consume_attempt. destruct (negb _); [naive_solver|]. destruct up; cbn; [|naive_solver].
  destruct (r0 ← stored _ _ _; load r0); [|naive_solver]. destruct (_ || _); naive_solver.
Qed.

Lemma traced_step s l s' pre : traced pre s → attempt_step s l s' → traced (pre ++ [l]) s'.
Proof using Type.
  assert (Hmono : ∀ l s, traced pre s → traced (pre ++ [l]) s).
  { intros l0 s0 Ht key raw expires (now & a & Hin & Hr)%Ht. exists now, a. split; [set_solver|done]. }
  assert (Hdel : ∀ l key s, traced pre s → traced (pre ++ [l]) (delete key s)).
  { intros l0 key s0 Ht k raw expires [_ Hk]%lookup_delete_Some. by eapply Hmono. }
  intros Ht Hs. destruct Hs as [s up now state a s' Hv Hc|s up now state a c s' Hc
    |s up now state browser provider a s' Hc|s up now state browser provider c s' Hc].
  - apply create_Ok in Hc as [->|(st & _ & ->)]; [by apply Hmono|].
    intros key raw expires [[<- [= <- <-]]|[_ Hk]]%lookup_insert_Some; [exists now, a; set_solver|by eapply Hmono].
  - apply create_Ok in Hc as [->|(st & [=] & _)]. by apply Hmono.
  - apply consume_Ok in Hc as (-> & _). by apply Hdel.
  - apply consume_shrinks in Hc as [->| ->]; [by apply Hmono|by apply Hdel].
Qed.

(** One more creation than consumptions at most, where something is stored. *)
Definition pending_key (key : str) (s : attempts) : nat := if decide (is_Some (s !! key)) then 1 else 0.

Lemma consumptions_step key s l s' :
  attempt_step s l s' →
  (consumptions key [l] + pending_key key s' ≤ creations key [l] + pending_key key s)%nat.
Proof using Type.
  assert (Hdel : ∀ k s, (pending_key key (delete k s) ≤ pending_key key s)%nat).
  { intros k s0. unfold pending_key. destruct (decide (is_Some (delete k s0 !! key))) as [[x Hx]|]; [|case_decide; lia].
    apply lookup_delete_Some in Hx as [_ Hx]. rewrite decide_True by eauto. lia. }
  assert (Hother : ∀ k v s, key ≠ k → (pending_key key (<[k:=v]> s) = pending_key key s)%nat).
  { intros k v s0 Hk. unfold pending_key. by rewrite lookup_insert_ne by done. }
  intros Hs. unfold consumptions, creations. rewrite !filter_cons, !filter_nil.
  destruct Hs as [s up now state a s' Hv Hc|s up now state a c s' Hc
    |s up now state browser provider a s' Hc|s up now state browser provider c s' Hc].
  - rewrite (decide_False (P:=is_consumed _ _)) by (by intros (? & ? & ? & ? & [=])).
    case_decide as Hk; cbn [length]; [unfold pending_key; repeat case_decide; lia|].
    apply create_Ok in Hc as [->|(st & _ & ->)]; [done|]. rewrite Hother; [done|]. intros ->. apply Hk. by eexists _, _.
  - rewrite !decide_False by (by intros (? & ? & [=]) || by intros (? & ? & ? & ? & [=])).
    apply create_Ok in Hc as [->|(st & [=] & _)]. done.
  - rewrite (decide_False (P:=is_created _ _)) by (by intros (? & ? & [=])).
    apply consume_Ok in Hc as (-> & _ & _ & raw & expires & Hk & _). case_decide as Hd; [|apply Hdel].
    destruct Hd as (? & ? & ? & ? & [= _ <- _ _ _]). unfold pending_key. rewrite lookup_delete_eq, Hk.
    rewrite decide_False by (by intros []). by rewrite decide_True by eauto.
  - rewrite !decide_False by (by intros (? & ? & [=]) || by intros (? & ? & ? & ? & [=])).
    apply consume_shrinks in Hc as [->| ->]; [done|apply Hdel].
Qed.

Lemma consumptions_runs key s ls s' :
  runs attempt_step s ls s' →
  (consumptions key ls + pending_key key s' ≤ creations key ls + pending_key key s)%nat.
Proof using Type.
  induction 1 as [|s1 l s2 ls s3 Hs _ IH]; [done|]. apply (consumptions_step key) in Hs.
  unfold consumptions, creations in *. change (l :: ls) with ([l] ++ ls). rewrite !filter_app, !length_app. lia.
Qed.

(** An attempt is validated when it is made, and again when it is read. *)
Context (load_dump : ∀ a, validate_actor_binding a = Ok a → load (dump a) = Some a).

Lemma consumed_traced pre s ls s' :
  runs attempt_step s ls s' → traced pre s →
  ∀ l1 l2 now key browser provider a, ls = l1 ++ Consumed now key browser provider a :: l2 →
    attempt_provider a = provider ∧ browser_hash a = sha256_hex browser ∧
    ∃ t, Created t key a ∈ pre ++ l1 ∧ now < t + seconds ttl.
Proof using load_dump.
  intros Hr. revert pre. induction Hr as [|s1 l s2 ls s3 Hs _ IH]; intros pre Ht l1 l2 now key browser provider a He;
    [by destruct l1|].
  destruct l1 as [|l' l1]; injection He as -> ->.
  - inversion Hs as [| |? up ? state ? ? ? ? Hc|]; subst. apply consume_Ok in Hc as (_ & Hp & Hb & raw & expires & Hk & Hx & Hl).
    split_and!; [done..|]. destruct (Ht _ _ _ Hk) as (t & a' & Hin & Hv & -> & ->).
    rewrite load_dump in Hl by done. injection Hl as ->. exists t. by rewrite app_nil_r.
  - destruct (IH (pre ++ [l']) ltac:(by eapply traced_step) l1 l2 now key browser provider a eq_refl) as (? & ? & t & ? & ?).
    split_and!; [done..|]. exists t. by rewrite <-app_assoc in *.
Qed.
End attempts.

(** ** Properties *)

(** *** A database, attempts and a codec to evaluate on *)

Definition google_identity : ExternalIdentity.t := ExternalIdentity.New 7 1 (lit "google") (lit "g-1") None false 0.
Definition linked_db : db := two_users <| externals := {[7 := google_identity]} |>.

Lemma linked_db_ok : table_ok (users linked_db) ∧ linked_ok (externals linked_db).
Proof.
  split; [exact two_users_ok|].
  change (externals linked_db) with ({[7 := google_identity]} : table ExternalIdentity.t). split_and!.
  - by intros k r [<- <-]%lookup_singleton_Some.
  - by intros k1 k2 e1 e2 [<- _]%lookup_singleton_Some [<- _]%lookup_singleton_Some.
  - by intros k1 k2 e1 e2 [<- _]%lookup_singleton_Some [<- _]%lookup_singleton_Some.
Qed.

Definition demo_attempt (i : Intent) (p : ProviderName) (actor session : option uuid) : Attempt :=
  NewAttempt 70 p i demo_secret (lit "n") (lit "v") (lit "https://x") TO_ROOT actor session 0.
Definition demo_claims (p : ProviderName) (s : str) : Claims := Identity p s None false None.
Definition link_yahoo : call :=
  Callback (demo_attempt LINK YAHOO (Some 1) (Some 5)) (Some demo_secret) (Some (demo_claims YAHOO (lit "y-1")))
    demo_secret (lit "r-1").
Definition unlink_google : call := Unlink (NewActor 1 5 ADMIN_ROLE 0) GOOGLE (lit "r-2").

Definition attempt_fields (a : Attempt) : uuid * (bool * (nat * nat)) * (list str * (option uuid * (option uuid * Z))) :=
  ((attempt_id a,
    (bool_decide (attempt_provider a = GOOGLE),
     (match intent a with LOGIN => 0 | LINK => 1 | REAUTHENTICATE => 2 end,
      match return_path a with TO_ROOT => 0 | TO_PROFILE => 1 | TO_SHOP => 2 end)))%nat,
   ([browser_hash a; nonce a; verifier a; redirect_uri a],
    (attempt_actor a, (attempt_session a, started_at a)))).
Definition attempt_of_fields (x : uuid * (bool * (nat * nat)) * (list str * (option uuid * (option uuid * Z)))) : option Attempt :=
  match x with
  | ((i, (p, (n, m))), ([b; no; v; r], (actor, (session, started)))) =>
      Some (NewAttempt i (if p then GOOGLE else YAHOO) (match n with 0%nat => LOGIN | 1%nat => LINK | _ => REAUTHENTICATE end)
              b no v r (match m with 0%nat => TO_ROOT | 1%nat => TO_PROFILE | _ => TO_SHOP end) actor session started)
  | _ => None
  end.

Definition demo_dump (a : Attempt) : str := [N.pos (encode (attempt_fields a))].
Definition demo_load (s : str) : option Attempt :=
  match s with [N.pos p] => x ← decode p; attempt_of_fields x | _ => None end.

Lemma demo_load_dump a : validate_actor_binding a = Ok a → demo_load (demo_dump a) = Some a.
Proof.
  intros _. unfold demo_load, demo_dump. rewrite decode_encode. cbn.
  by destruct a as [? [] [] ? ? ? ? [] ? ? ?].
Qed.

(** C24: Nobody is locked out and nobody is confused: along any history of
    identity calls an account that has a way to sign in - a password or a linked
    subject - keeps one, because unlinking counts what is left; and each subject
    of a provider stays linked to at most one account, each account to at most
    one subject of a provider. *)
Theorem login_methods_kept `{Platform} d ls d' :
  linked_ok (externals d) → history d ls d' →
  linked_ok (externals d') ∧ ∀ u, has_method u d → has_method u d'.
Proof.
  intros Hok Hrun. revert Hok.
  assert (Hm : methods_kept d d'); [|done].
  induction Hrun as [|d1 l d2 ls d3 Hstep _ IH]; [reflexivity|].
  etrans; [by eapply served_methods|done].
Qed.

Lemma login_methods_kept_witness :
  let _ := demo_platform in
  ∃ d', history linked_db [(demo_env, unlink_google, Err (App FinalLoginMethodError));
                           (demo_env, link_yahoo, Ok tt); (demo_env, unlink_google, Ok tt)] d' ∧
    has_method 1 d'.
Proof.
  cbn zeta. eexists.
  match goal with |- ?h ∧ _ => assert (Hh : h) end.
  { eapply runs_cons; [vm_compute; reflexivity|]. eapply runs_cons; [vm_compute; reflexivity|].
    eapply runs_cons; [vm_compute; reflexivity|]. apply runs_nil. }
  split; [exact Hh|].
  apply (@login_methods_kept demo_platform _ _ _ (proj2 linked_db_ok) Hh).
  right. exists 7, google_identity. split; vm_compute; reflexivity.
Defined.

(** A call of the callback that is refused leaves at most its evidence. *)
Lemma refused_callback `{Platform} clock ids hint settings attempt cookie identity secret corr d e d' :
  run (callback clock ids hint settings attempt cookie identity secret corr) d = (Err e, d') →
  d' = d ∨ e = App ExternalLoginFailedError ∧
    ∃ row, d' = d <| audit ::= λ l, l ++ [row] |> ∧ Audit.outcome row = DENIED ∧
      PUUID (Audit.target_id row) = PUUID (attempt_id attempt).
Proof.
  unfold run. destruct (callback _ _ _ _ _ _ _ _ _ _) as [r t] eqn:Hc. intros [= -> <-].
  unfold callback, catching_any in Hc.
  match type of Hc with (match ?m (Txn d d) with _ => _ end) = _ =>
    assert (Ha : atomic m); [|destruct (m (Txn d d)) as [[x|[c|e1]] t1] eqn:Hm] end.
  - apply atomic_bind; [atomic_auto; intros t0; by rewrite resolve_frame|intros actor].
    apply atomic_bind; [atomic_auto|intros i]. apply atomic_finish.
  - done.
  - apply Ha in Hm. cbn in Hm. destruct (existsb _ _); [|left; injection Hc as _ <-; done].
    unfold record_failed_handshake in Hc. unfold mbind at 1, M_bind at 1 in Hc.
    unfold mbind at 1, M_bind at 1, rollback in Hc. rewrite Hm in Hc. unfold mbind at 1, M_bind at 1 in Hc.
    destruct (lift _ _) as [[a|e2] t2] eqn:Hl; [apply lift_Ok in Hl as [Hact ->]|by vm_compute in Hl].
    unfold mbind at 1, M_bind at 1, record_audit in Hc. unfold mbind at 1, M_bind at 1 in Hc.
    destruct (record_event _ _ _ _) as [row|e2] eqn:Hr; cbn in Hc.
    + injection Hc as <- <-. right. split; [done|]. exists row. split; [done|].
      unfold record_event in Hr. apply record_Ok in Hr as (_ & _ & _ & _ & Ht & Ho & _). by split.
    + left. by injection Hc as _ <-.
  - apply Ha in Hm. injection Hc as _ <-. by left.
Qed.

(** C23: What an external callback can do, and nothing else. Answered with a
    session, it was a sign-in, and the session belongs to the account that had
    linked exactly this provider's subject, active and verified, its row
    untouched - or, for a subject nobody had linked, to a new account whose
    address the provider verified and no account had: an existing account is
    never taken over by its address. The session does not count as recent
    authentication. Answered without one, it linked or reauthenticated the
    account that began the attempt: the subject now stands for it, no account
    changed and no other was linked.
    Refused, it changed nothing, or only left the evidence of the denial. *)
Theorem external_callback_correct `{Platform} clock ids hint settings attempt cookie identity secret corr d r d' :
  table_ok (users d) → linked_ok (externals d) →
  run (callback clock ids hint settings attempt cookie identity secret corr) d = (r, d') →
  match r with
  | Ok (Some secret') => secret' = secret ∧ intent attempt = LOGIN ∧ ∃ i u, identity = Some i ∧
      claims_provider i = attempt_provider attempt ∧ signed_in clock ids settings i secret u d d' ∧
      ∀ s later, sessions d' !! ids 3%nat = Some s → clock 9%nat ≤ later →
        seconds (recent_auth_seconds settings) < later - AuthSession.authenticated_at s
  | Ok None => intent attempt ≠ LOGIN ∧ ∃ i, identity = Some i ∧ linked_by attempt i d d'
  | Err e => d' = d ∨ e = App ExternalLoginFailedError ∧
      ∃ row, d' = d <| audit ::= λ l, l ++ [row] |> ∧ Audit.outcome row = DENIED ∧
        PUUID (Audit.target_id row) = PUUID (attempt_id attempt)
  end.
Proof.
  intros Huok Hlok Hrun. destruct r as [o|e]; [|by eapply refused_callback].
  unfold run in Hrun. destruct (callback _ _ _ _ _ _ _ _ _ _) as [r t] eqn:Hc. injection Hrun as -> <-.
  apply callback_Ok in Hc as (actor & i & -> & Hf).
  destruct (decide (intent attempt = LOGIN)) as [Hi|Hi].
  - apply finish_login in Hf as (Hp & u & -> & Hs); [|done..].
    split_and!; [done..|]. exists i, u. split_and!; [done..|].
    destruct Hs as (_ & _ & _ & _ & _ & ->). intros s later. unfold put. cbn.
    rewrite lookup_insert_eq. intros [= <-]. cbn. unfold seconds. lia.
  - apply finish_linked in Hf as (-> & Hl); [|done..]. split; [done|]. by exists i.
Qed.

Lemma external_callback_correct_witness :
  let _ := demo_platform in
  let attempt := demo_attempt LOGIN GOOGLE None None in
  let i := demo_claims GOOGLE (lit "g-1") in
  ∃ d', run (callback (e_clock demo_env) (e_ids demo_env) None demo_settings attempt None (Some i) (lit "new") (lit "r-1"))
          linked_db = (Ok (Some (lit "new")), d') ∧
    ∃ u, signed_in (e_clock demo_env) (e_ids demo_env) demo_settings i (lit "new") u linked_db d'.
Proof.
  cbn zeta. eexists.
  match goal with |- ?h ∧ _ => assert (Hh : h) by (vm_compute; reflexivity) end.
  split; [exact Hh|]. destruct linked_db_ok as [H1 H2].
  edestruct (@external_callback_correct demo_platform _ _ _ _ _ _ _ _ _ _ _ _ H1 H2 Hh)
    as (_ & _ & i & u & [= <-] & _ & Hs & _).
  exists u. exact Hs.
Defined.

(** What a browser gets that comes back in time. *)
Lemma create_then_consume `{Platform} (dump : Attempt → str) (load : str → option Attempt) namespace ttl
    now now' state browser a state' s s' :
  (∀ a, validate_actor_binding a = Ok a → load (dump a) = Some a) →
  validate_actor_binding a = Ok a → token_length state = true → token_length browser = true → now' < now + seconds ttl →
  create_attempt dump namespace ttl true now state a s = (inl state', s') →
  consume_attempt load namespace true now' state browser (attempt_provider a) s' =
    (if bool_decide (browser_hash a = sha256_hex browser) then inl a else inr ExternalLoginFailedError,
     delete (attempt_key namespace state) s').
Proof.
  intros load_dump Hv Hs Hb Hx Hc. unfold create_attempt in Hc. cbn [negb] in Hc.
  destruct (stored _ _ s); [done|]. injection Hc as _ <-. unfold consume_attempt. rewrite Hs, Hb. cbn [negb andb].
  unfold stored. rewrite lookup_insert_eq. cbn [mbind option_bind]. replace (now' <? _) with true by lia.
  cbn [mbind option_bind]. rewrite load_dump by done. rewrite bool_decide_eq_true_2 by done.
  by destruct (bool_decide (browser_hash a = _)).
Qed.

(** C26: A handshake is answered once: in any run over the cache, however the
    callbacks interleave, the consumptions of a state never outnumber its
    creations, and whoever consumes an attempt gets the very attempt somebody
    created under that state, before it expired, for the same provider and with
    the browser secret it was bound to. The secret of its own browser does get
    it back; another one gets nothing and burns it. *)
Theorem attempt_consumed_once `{Platform} (dump : Attempt → str) (load : str → option Attempt) namespace ttl
    (load_dump : ∀ a, validate_actor_binding a = Ok a → load (dump a) = Some a) ls s :
  runs (attempt_step dump load namespace ttl) ∅ ls s →
  (∀ key, (consumptions key ls ≤ creations key ls)%nat) ∧
  (∀ l1 now key browser provider a l2, ls = l1 ++ Consumed now key browser provider a :: l2 →
     attempt_provider a = provider ∧ browser_hash a = sha256_hex browser ∧
     ∃ t, Created t key a ∈ l1 ∧ now < t + seconds ttl) ∧
  ∀ now now' state browser a state' s', validate_actor_binding a = Ok a → token_length state = true →
    token_length browser = true → now' < now + seconds ttl →
    create_attempt dump namespace ttl true now state a s = (inl state', s') →
    consume_attempt load namespace true now' state browser (attempt_provider a) s' =
      (if bool_decide (browser_hash a = sha256_hex browser) then inl a else inr ExternalLoginFailedError,
       delete (attempt_key namespace state) s').
Proof.
  intros Hr. split_and!.
  - intros key. pose proof (consumptions_runs dump load namespace ttl key _ _ _ Hr) as Hc.
    unfold pending_key in Hc. rewrite lookup_empty, (decide_False (P:=is_Some None)) in Hc by (by intros []). lia.
  - intros l1 now key browser provider a l2 ->.
    by eapply (consumed_traced dump load namespace ttl load_dump []).
  - intros. by eapply create_then_consume.
Qed.

Lemma attempt_consumed_once_witness :
  let _ := demo_platform in
  let a := demo_attempt LOGIN GOOGLE None None in
  let key := attempt_key (lit "test") demo_secret in
  let ls := [Created 0 key a; Consumed 1 key demo_secret GOOGLE a; Declined] in
  ∃ s, runs (attempt_step demo_dump demo_load (lit "test") 600) ∅ ls s ∧ (consumptions key ls ≤ creations key ls)%nat.
Proof.
  cbn zeta. eexists.
  match goal with |- ?h ∧ _ => assert (Hh : h) end.
  { eapply runs_cons; [apply (step_created _ _ _ _ _ true 0 demo_secret); vm_compute; reflexivity|].
    eapply runs_cons; [apply (step_consumed _ _ _ _ _ true 1 demo_secret); vm_compute; reflexivity|].
    eapply runs_cons; [eapply (step_consume_declined _ _ _ _ _ true 2 demo_secret demo_secret GOOGLE);
      vm_compute; reflexivity|].
    apply runs_nil. }
  split; [exact Hh|].
  apply (@attempt_consumed_once demo_platform demo_dump demo_load (lit "test") 600 demo_load_dump _ _ Hh).
Defined.
