(* ===== verification/ChallengeSpecs.v ===== *)
(** * What challenges guarantee

    The code that is delivered is the code that is accepted, and over any
    history of calls a challenge withstands a bounded number of wrong guesses
    and is accepted at most once. *)

From S2P Require Import Prelude Regex PyValues CoreTypes AuditTrail AuditSpecs Events Outbox Errors Identity Sessions Passwords AuthEvents Challenges Administration AuthService Profile ExternalSignIn Histories.

(** ** Calls that leave the challenges alone *)

Definition same_challenges (d d' : db) : Prop := challenges d' = challenges d.

#[export] Instance same_challenges_preorder : PreOrder same_challenges.
Proof. split; [done|]. intros d1 d2 d3 H1 H2. unfold same_challenges in *. congruence. Qed.

Lemma evolves_same t f : (∀ d, challenges (f d) = challenges d) → evolves same_challenges t (modify f).
Proof. intros Hf. apply evolves_modify, Hf. Qed.
#[export] Hint Extern 1 (evolves same_challenges _ (modify _)) => apply evolves_same; by intros ? : service.

Lemma same_resolve t digest hint now secret : evolves same_challenges t (resolve digest hint now secret).
Proof. apply evolves_still; [apply _|apply resolve_frame]. Qed.
Lemma same_record t r : evolves same_challenges t (record_audit r).
Proof. unfold record_audit. evolves_auto. Qed.
Lemma same_revoke t now u s : evolves same_challenges t (revoke now u s).
Proof. unfold revoke. evolves_auto. Qed.
Lemma same_hash t argon pw : evolves same_challenges t (hash_password argon pw).
Proof. unfold hash_password, validate_password. evolves_auto. Qed.
Lemma same_validate t sha1 range pw : evolves same_challenges t (validate_new_password sha1 range pw).
Proof. unfold validate_new_password, is_breached, validate_password. evolves_auto. Qed.
Lemma same_create t normalize i now e : evolves same_challenges t (create_customer normalize i now e).
Proof. unfold create_customer, normalize_email. evolves_auto. Qed.
Lemma same_credential t u h : evolves same_challenges t (add_credential u h).
Proof. unfold add_credential. evolves_auto. Qed.
Lemma same_issue t digest settings now i secret u :
  evolves same_challenges t (issue digest settings now i secret u).
Proof. unfold issue. evolves_auto. Qed.
#[export] Hint Resolve same_resolve same_record same_revoke same_hash same_validate same_create
  same_credential same_issue : service.

Lemma same_failed t fr clock ids k p c : evolves same_challenges t (verification_failed fr clock ids k p c).
Proof. unfold verification_failed. evolves_auto. Qed.
Lemma same_derive t h c s : evolves same_challenges t (derive_code h c s).
Proof. unfold derive_code, challenge_purpose, key_bytes. evolves_auto. Qed.
Lemma same_digest t h c code s : evolves same_challenges t (code_digest h c code s).
Proof. unfold code_digest, challenge_purpose, key_bytes. evolves_auto. Qed.
#[export] Hint Resolve same_failed same_derive same_digest : service.

(** A call that does not touch challenges, by its constructor. *)
Definition no_challenge (c : call) : bool :=
  match c with
  | BeginReset _ | CompleteReset _ _ _ _ | BeginRegistration _ _ | CompleteRegistration _ _ _ _ => false
  | _ => true
  end.

Lemma same_finish `{Platform} t clock ids settings identity attempt actor secret corr :
  evolves same_challenges t (finish clock ids settings identity attempt actor secret corr).
Proof.
  unfold finish, signing_user, new_external_user, normalize_email, linking_user, attach, open_session,
    lock_email, user_audit_actor, session_audit_actor. evolves_auto.
Qed.

Lemma same_perform `{Platform} d e c :
  no_challenge c = true → evolves same_challenges (Txn d d) (perform_call e c).
Proof.
  destruct c; try done; intros _; cbn [perform_call].
  10: { apply evolves_bind; [apply _| |intros; apply evolves_ret, _].
        apply callback_evolves; [apply _|intros; apply same_finish|intros; apply same_record]. }
  all: unfold unlink, lock_email, session_audit_actor;
    unfold login, logout, logout_all, reauthenticate, change_access, bootstrap_run, bootstrap,
      update_profile, save_address, write_address, delete_address, get_credential, set_credential;
    evolves_auto.
Qed.

(** ** What happens to one challenge *)

(** The row may go, and its attempts and its consumption only move forward; no
    row appears under the identifier. *)
Definition row_kept (k : uuid) (d d' : db) : Prop :=
  table_ok (challenges d) →
  table_ok (challenges d') ∧
  ∀ r', challenges d' !! k = Some r' →
    ∃ r, challenges d !! k = Some r ∧ EmailChallenge.attempts r ≤ EmailChallenge.attempts r' ∧
      (is_Some (EmailChallenge.consumed_at r) → is_Some (EmailChallenge.consumed_at r')).

#[export] Instance row_kept_preorder k : PreOrder (row_kept k).
Proof.
  split.
  - intros d Hok. split; [done|]. intros r Hr. exists r. by split_and!.
  - intros d1 d2 d3 H12 H23 Hok. destruct (H12 Hok) as [Hok2 G12]. destruct (H23 Hok2) as [Hok3 G23].
    split; [done|]. intros r3 (r2 & (r1 & ? & ? & ?)%G12 & ? & ?)%G23. exists r1. split_and!; [done|lia|auto].
Qed.

Lemma evolves_mono (R1 R2 : relation db) t {A} (m : M A) :
  (∀ d d', R1 d d' → R2 d d') → evolves R1 t m → evolves R2 t m.
Proof. intros Hr [H1 [H2|H2]]; split; auto. Qed.

Lemma row_kept_same k d d' : same_challenges d d' → row_kept k d d'.
Proof. unfold same_challenges. intros He Hok. rewrite He. split; [done|]. intros r Hr. exists r. by split_and!. Qed.

Lemma kept_same k t {A} (m : M A) : evolves same_challenges t m → evolves (row_kept k) t m.
Proof. apply evolves_mono, row_kept_same. Qed.

#[export] Hint Extern 2 (evolves (row_kept _) _ _) => apply kept_same : service.

Lemma row_kept_put k d c c0 :
  (table_ok (challenges d) → challenges d !! EmailChallenge.id c = Some c0) →
  EmailChallenge.attempts c0 ≤ EmailChallenge.attempts c →
  (is_Some (EmailChallenge.consumed_at c0) → is_Some (EmailChallenge.consumed_at c)) →
  row_kept k d (d <| challenges ::= put c |>).
Proof.
  intros Hc Ha Hs Hok. split; [by apply table_ok_put|]. cbn. unfold put. intros r' Hr.
  apply lookup_insert_Some in Hr as [[<- <-]|[_ Hr]]; [eauto|].
  exists r'. by split_and!.
Qed.

Lemma row_kept_new k d c : EmailChallenge.id c ≠ k → row_kept k d (d <| challenges ::= put c |>).
Proof.
  intros Hk Hok. split; [by apply table_ok_put|]. cbn. unfold put. intros r'.
  rewrite lookup_insert_ne by done. intros Hr. exists r'. by split_and!.
Qed.

Lemma row_kept_delete k d i : row_kept k d (d <| challenges ::= delete i |>).
Proof.
  intros Hok. split; cbn.
  - intros j r [_ Hr]%lookup_delete_Some. by apply Hok.
  - intros r' [_ Hr]%lookup_delete_Some. exists r'. by split_and!.
Qed.

Lemma insert_challenge_Ok c t t' : insert_challenge c t = Ok t' → t' = put c t.
Proof. unfold insert_challenge. intros H. res_inv. by injection H as <-. Qed.

Lemma kept_issue_challenge k t h fr clock ids settings email purpose corr :
  ids 0%nat ≠ k → evolves (row_kept k) t (issue_challenge h fr clock ids settings email purpose corr).
Proof.
  intros Hk. unfold issue_challenge, key_bytes. evolves_auto.
  - apply evolves_modify, row_kept_delete.
  - match goal with H : insert_challenge _ _ = Ok _ |- _ => apply insert_challenge_Ok in H as -> end.
    apply evolves_modify. etrans; [eapply row_kept_new|]; [|by apply row_kept_same]. done.
Qed.

Lemma code_digest_frame h c code settings t : (code_digest h c code settings t).2 = t.
Proof.
  unfold code_digest, challenge_purpose, key_bytes, mbind, M_bind.
  destruct (purpose_of _); [cbn|done]. destruct (lift _ _) as [[u|e] t1] eqn:Hl.
  - apply lift_Ok in Hl as [_ ->]. by destruct (challenge_keys _ !! _).
  - unfold lift in Hl. destruct (require _ _); by simplify_eq.
Qed.

Lemma kept_consume_challenge k t h fr clock ids settings i code purpose corr :
  evolves (row_kept k) t (consume_challenge h fr clock ids settings i code purpose corr).
Proof.
  unfold consume_challenge. evolves_auto.
  - apply evolves_modify. apply (row_kept_put _ _ _ t0); cbn -[Z.add]; [|lia|done].
    intros Hok. pose proof (Hok _ _ Heqo) as Hid. change (EmailChallenge.id t0 = i) in Hid. by rewrite Hid.
  - match goal with H : code_digest ?h ?c ?x ?s ?t = (Ok _, _) |- _ =>
      pose proof (code_digest_frame h c x s t) as Hf; rewrite H in Hf; cbn in Hf end. subst.
    apply evolves_modify. eapply row_kept_put; cbn -[Z.add]; [intros _; apply lookup_insert_eq|cbn -[Z.add]; lia|by eauto].
Qed.
#[export] Hint Resolve kept_issue_challenge kept_consume_challenge : service.

Lemma kept_consume_or_commit `{Platform} k t clock ids settings i code purpose :
  evolves (row_kept k) t (consume_or_commit clock ids settings i code purpose).
Proof. unfold consume_or_commit. evolves_auto. Qed.
#[export] Hint Resolve kept_consume_or_commit : service.

(** A call whose identifiers are new keeps the row. *)
Lemma kept_perform `{Platform} k d e c :
  e_ids e 0%nat ≠ k → evolves (row_kept k) (Txn d d) (perform_call e c).
Proof.
  intros Hk. destruct (no_challenge c) eqn:Hn; [by apply kept_same, same_perform|].
  destruct c; try done; cbn [perform_call]; unfold begin_reset, complete_reset, begin_registration,
    complete_registration, get_credential, set_credential, normalize_email; evolves_auto.
Qed.

(** ** Guesses *)

(** A recording whose parts are all valid succeeds. *)
Lemma record_succeeds fr new_id clock actor action type_ target outcome meta allowed corr at_ a ty c m :
  is_ok (validate_name "action must use 1-100 safe lowercase characters" action) = true →
  is_ok (validate_name "target_type must use 1-100 safe lowercase characters" type_) = true →
  validate_correlation_id corr = Ok c →
  sanitize_audit_metadata fr meta allowed = Ok m →
  a = PUUID target → ty = aware at_ →
  ∃ row, record fr new_id clock actor action type_ a outcome meta allowed corr (Some ty) = Ok row.
Proof.
  intros H1 H2 H3 H4 -> ->. unfold record.
  destruct (validate_name "action must use 1-100 safe lowercase characters" action); [cbn|done].
  destruct (validate_name "target_type must use 1-100 safe lowercase characters" type_); [cbn|done].
  rewrite H3, H4. cbn. eauto.
Qed.

(** The refusal of a code is always recorded: none of its parts can be invalid. *)
Lemma failed_event_Ok fr new_id clock purpose actor k corr :
  ∃ row, record_event fr new_id clock
    (EmailChallengeVerificationFailedEvent purpose actor k (uuid_str corr) clock) = Ok row.
Proof.
  unfold record_event. cbn [d_actor d_action d_target_type d_target_id d_outcome d_metadata
    d_allowed d_correlation_id d_occurred_at EmailChallengeVerificationFailedEvent to_record].
  eapply record_succeeds; [by vm_compute|by vm_compute|apply uuid_correlation_id| |done|done].
  instantiate (1 := [(lit "purpose", AStr (purpose_value purpose))]). by destruct purpose; vm_compute.
Qed.

Lemma verification_failed_Ok fr clock ids k purpose t :
  ∃ row, verification_failed fr clock ids k purpose None t
    = (Ok tt, Txn (pending t <| audit ::= λ l, l ++ [row] |>) (durable t)).
Proof.
  pose (anonymous := AuditTrail.Actor ANONYMOUS None).
  destruct (failed_event_Ok fr (ids 0%nat) (clock 1%nat) purpose anonymous k (ids 1%nat)) as [row Hr].
  exists row.
  change (verification_failed fr clock ids k purpose None t) with
    (record_audit (record_event fr (ids 0%nat) (clock 1%nat)
       (EmailChallengeVerificationFailedEvent purpose anonymous k (uuid_str (ids 1%nat)) (clock 1%nat))) t).
  unfold record_audit. by rewrite Hr.
Qed.

Section guesses.
Context `{Platform}.

(** The password rules and the digest of a code read nothing of the database. *)
Definition empty_txn : txn := Txn empty_db empty_db.

Definition still {A} (m : M A) : Prop := ∀ t, m t = ((m empty_txn).1, t).

Lemma still_bind {A B} (m : M A) (f : A → M B) : still m → (∀ a, still (f a)) → still (m ≫= f).
Proof.
  intros Hm Hf t. unfold mbind, M_bind. rewrite (Hm t), (Hm empty_txn). cbn.
  destruct (m empty_txn).1; [|done]. by rewrite (Hf a t), (Hf a empty_txn).
Qed.
Lemma still_check b c : still (check b c). Proof. by destruct b. Qed.
Lemma still_lift {A} (r : res pyexn A) : still (lift r). Proof. by destruct r. Qed.

Ltac still_auto :=
  repeat match goal with
  | |- still (_ ≫= _) => apply still_bind; [|intros ?]
  | |- still (check _ _) => apply still_check
  | |- still (lift _) => apply still_lift
  | |- still (match ?x with _ => _ end) => destruct x
  | |- still _ => done
  end.

Lemma validate_new_password_still password : still (validate_new_password sha1_hex pwned_range password).
Proof. unfold validate_new_password, validate_password, is_breached. still_auto. Qed.

Lemma code_digest_still c code settings : still (code_digest hmac_sha256 c code settings).
Proof. unfold code_digest, challenge_purpose, key_bytes. still_auto. Qed.

(** What a call submits: a challenge, a code, a password and a purpose. *)
Definition submitted (c : call) : option (uuid * str * str * ChallengePurpose) :=
  match c with
  | CompleteReset i code password _ => Some (i, code, password, PASSWORD_RESET)
  | CompleteRegistration i code password _ => Some (i, code, password, REGISTRATION)
  | _ => None
  end.

(** Whether a call compares its code with the one of challenge [k], and what
    the comparison says. *)
Definition guess (k : uuid) (d : db) (l : env * call) : option bool :=
  '(i, code, password, purpose) ← submitted l.2;
  row ← challenges d !! k;
  if bool_decide (i = k)
     && is_ok (validate_new_password sha1_hex pwned_range password empty_txn).1
     && challenge_open (e_settings l.1) purpose (e_clock l.1 0%nat) row
  then match (code_digest hmac_sha256 row code (e_settings l.1) empty_txn).1 with
       | Ok expected => Some (bool_decide (EmailChallenge.code_hash row = expected))
       | Err _ => None
       end
  else None.

Definition next (d : db) (l : env * call) : db := (run (perform_call l.1 l.2) d).2.
Definition answered (d : db) (l : env * call) : bool := is_ok (run (perform_call l.1 l.2) d).1.

(** How often [p] holds as the calls are served one after the other. *)
Fixpoint occurrences (p : db → env * call → bool) (d : db) (ls : list (env * call)) : Z :=
  match ls with
  | [] => 0
  | l :: ls => (if p d l then 1 else 0) + occurrences p (next d l) ls
  end.

Definition wrong_guess (k : uuid) (d : db) (l : env * call) : bool :=
  bool_decide (guess k d l = Some false).
Definition accepted_guess (k : uuid) (d : db) (l : env * call) : bool :=
  bool_decide (guess k d l = Some true) && answered d l.

Lemma consume_wrong e k row code purpose expected d :
  challenges d !! k = Some row → 
  challenge_open (e_settings e) purpose (e_clock e 0%nat) row = true →
  (code_digest hmac_sha256 row code (e_settings e) empty_txn).1 = Ok expected →
  EmailChallenge.code_hash row ≠ expected →
  ∃ d', consume_or_commit (e_clock e) (e_ids e) (e_settings e) k code purpose (Txn d d)
        = (Err (App InvalidChallengeError), Txn d' d') ∧
    challenges d' = put (row <| EmailChallenge.attempts ::= Z.add 1 |>) (challenges d).
Proof.
  intros Hrow Hopen Hd Hne. unfold consume_or_commit, catching, consume_challenge.
  unfold mbind at 1, M_bind at 1, get at 1. cbn [pending]. rewrite Hrow, Hopen.
  unfold mbind at 1, M_bind at 1, modify at 1. unfold mbind at 1, M_bind at 1.
  rewrite code_digest_still.
  change (code_digest hmac_sha256 (row <| EmailChallenge.attempts ::= Z.add 1 |>) code (e_settings e) empty_txn)
    with (code_digest hmac_sha256 row code (e_settings e) empty_txn). rewrite Hd.
  rewrite bool_decide_eq_false_2 by done.
  match goal with |- context [verification_failed ?a ?b ?c ?d ?e None ≫= _] =>
    edestruct (verification_failed_Ok a b c d e) as [audited Hv] end.
  unfold mbind at 1, M_bind at 1. rewrite Hv. cbn [raise throw].
  eexists. split; [reflexivity|]. done.
Qed.

(** A wrong guess costs an attempt, whatever else the call would do. *)
Lemma wrong_guess_counts k d l :
  table_ok (challenges d) → guess k d l = Some false →
  ∃ row, challenges d !! k = Some row ∧ EmailChallenge.attempts row < challenge_attempts (e_settings l.1) ∧
    EmailChallenge.consumed_at row = None ∧
    challenges (next d l) !! k = Some (row <| EmailChallenge.attempts ::= Z.add 1 |>).
Proof.
  intros Hok Hg. destruct l as [e c]. unfold guess in Hg. cbn [fst snd] in *.
  apply bind_Some in Hg as ([[[i code] password] purpose] & Hsub & Hg).
  apply bind_Some in Hg as (row & Hrow & Hg).
  destruct (_ && _ && _) eqn:Hb; [|done]. bool_inv. subst i.
  destruct (code_digest hmac_sha256 row code (e_settings e) empty_txn).1 as [expected|] eqn:Hd; [|done].
  injection Hg as Hg. apply bool_decide_eq_false in Hg.
  exists row. split; [done|]. assert (Hid : EmailChallenge.id row = k) by exact (Hok _ _ Hrow).
  pose proof (consume_wrong e k row code purpose expected d) as Hc.
  match goal with H : challenge_open _ _ _ _ = true |- _ => pose proof H as Hopen; unfold challenge_open in H end.
  bool_inv. split; [lia|]. split; [done|].
  destruct (Hc Hrow Hopen Hd Hg) as (d' & Hc' & Hk). unfold next, run. cbn [fst snd].
  pose proof (validate_new_password_still password (Txn d d)) as Hv.
  destruct (validate_new_password sha1_hex pwned_range password empty_txn).1 as [pw|]; [|done].
  destruct c; try done; injection Hsub as -> -> -> <-; cbn [perform_call];
    unfold complete_reset, complete_registration; unfold mbind at 1, M_bind at 1; rewrite Hv;
    unfold mbind at 1, M_bind at 1; rewrite Hc'; cbn [snd durable];
    rewrite Hk, <-Hid; apply lookup_insert_eq.
Qed.

(** A call that ends by committing. *)
Definition commits {A} (m : M A) : Prop := ∀ t a t', m t = (Ok a, t') → durable t' = pending t'.

Lemma commits_bind {A B} (m : M A) (f : A → M B) : (∀ a, commits (f a)) → commits (m ≫= f).
Proof. intros Hf t b t' (a & t1 & _ & H1)%M_bind_Ok. by eapply Hf. Qed.
Lemma commits_commit : commits commit. Proof. by intros t a t' [= _ <-]. Qed.
Lemma commits_raise {A} c : commits (@raise A c). Proof. done. Qed.

Ltac commits_auto :=
  repeat match goal with
  | |- commits (_ ≫= _) => apply commits_bind; intros ?
  | |- commits commit => apply commits_commit
  | |- commits (raise _) => apply commits_raise
  | |- commits (match ?x with _ => _ end) => destruct x
  end.

(** What a call does once its challenge is consumed. *)
Lemma after_consumption {B} (rest : EmailChallenge.t → M B) e k row code purpose expected d b t' :
  table_ok (challenges d) → challenges d !! k = Some row →
  challenge_open (e_settings e) purpose (e_clock e 0%nat) row = true →
  (code_digest hmac_sha256 row code (e_settings e) empty_txn).1 = Ok expected →
  EmailChallenge.code_hash row = expected →
  (∀ c t, evolves same_challenges t (rest c)) → (∀ c, commits (rest c)) →
  (c ← consume_or_commit (e_clock e) (e_ids e) (e_settings e) k code purpose; rest c) (Txn d d) = (Ok b, t') →
  ∃ row', challenges (durable t') !! k = Some row' ∧ is_Some (EmailChallenge.consumed_at row').
Proof.
  intros Hok Hrow Hopen Hd He Hsame Hcommit. unfold mbind at 1, M_bind at 1.
  unfold consume_or_commit, catching, consume_challenge.
  unfold mbind at 1, M_bind at 1, get at 1. cbn [pending]. rewrite Hrow, Hopen.
  unfold mbind at 1, M_bind at 1, modify at 1. unfold mbind at 1, M_bind at 1.
  rewrite code_digest_still.
  change (code_digest hmac_sha256 (row <| EmailChallenge.attempts ::= Z.add 1 |>) code (e_settings e) empty_txn)
    with (code_digest hmac_sha256 row code (e_settings e) empty_txn). rewrite Hd.
  rewrite bool_decide_eq_true_2 by done. unfold mbind at 1, M_bind at 1, modify at 1, mret, M_ret.
  cbn [pending durable].
  intros Hr. rewrite (Hcommit _ _ _ _ Hr).
  match type of Hr with rest ?c ?t = _ => destruct (Hsame c t) as [Hp _]; exists c end.
  rewrite Hr in Hp. unfold same_challenges in Hp. cbn [snd pending] in Hp. rewrite Hp. split; [|done].
  assert (Hid : EmailChallenge.id row = k) by exact (Hok _ _ Hrow).
  cbn. unfold put. rewrite <-Hid. apply lookup_insert_eq.
Qed.

Lemma accepted_consumes k d l :
  table_ok (challenges d) → accepted_guess k d l = true →
  (∃ row, challenges d !! k = Some row ∧ EmailChallenge.consumed_at row = None) ∧
  ∃ row', challenges (next d l) !! k = Some row' ∧ is_Some (EmailChallenge.consumed_at row').
Proof.
  intros Hok Hg. unfold accepted_guess in Hg. apply andb_true_iff in Hg as [Hg Ha].
  apply bool_decide_eq_true in Hg. destruct l as [e c]. unfold guess in Hg. cbn [fst snd] in *.
  apply bind_Some in Hg as ([[[i code] password] purpose] & Hsub & Hg).
  apply bind_Some in Hg as (row & Hrow & Hg).
  destruct (_ && _ && _) eqn:Hb; [|done]. bool_inv. subst i.
  destruct (code_digest hmac_sha256 row code (e_settings e) empty_txn).1 as [expected|] eqn:Hd; [|done].
  injection Hg as Hg. apply bool_decide_eq_true in Hg.
  match goal with H : challenge_open _ _ _ _ = true |- _ => pose proof H as Hopen; unfold challenge_open in H end.
  bool_inv. split; [by exists row|].
  unfold answered, run in Ha. unfold next, run. cbn [fst snd] in *.
  destruct (perform_call e c (Txn d d)) as [[[]|] t'] eqn:Hp; [cbn [snd durable]|done].
  pose proof (validate_new_password_still password (Txn d d)) as Hv.
  destruct (validate_new_password sha1_hex pwned_range password empty_txn).1 as [pw|]; [|done].
  destruct c; try done; injection Hsub as -> -> -> <-; cbn [perform_call] in Hp;
    unfold complete_reset, complete_registration in Hp; unfold mbind at 1, M_bind at 1 in Hp; rewrite Hv in Hp;
    (eapply after_consumption; [done..| | |exact Hp]).
  - intros c t. cbv beta. unfold get_credential, set_credential. evolves_auto.
  - intros c. cbv beta. commits_auto.
  - intros c t. cbv beta. evolves_auto.
  - intros c. cbv beta. commits_auto.
Qed.
End guesses.

(** ** Properties *)

Section bound.
Context `{Platform} (k : uuid) (n : Z).

(** What is left of a challenge. *)
Definition attempts_left (d : db) : Z :=
  match challenges d !! k with Some r => Z.max 0 (n - EmailChallenge.attempts r) | None => 0 end.
Definition acceptances_left (d : db) : Z :=
  match challenges d !! k with
  | Some r => if decide (EmailChallenge.consumed_at r = None) then 1 else 0
  | None => 0
  end.

Lemma next_kept d l : e_ids l.1 0%nat ≠ k → row_kept k d (next d l).
Proof. intros Hk. apply (evolves_run (row_kept k)). by apply kept_perform. Qed.

Lemma left_nonneg d : 0 ≤ attempts_left d ∧ 0 ≤ acceptances_left d.
Proof.
  unfold attempts_left, acceptances_left. destruct (challenges d !! k); [|lia].
  split; [lia|]. by case_decide.
Qed.

Lemma left_kept d d' :
  table_ok (challenges d) → row_kept k d d' →
  attempts_left d' ≤ attempts_left d ∧ acceptances_left d' ≤ acceptances_left d.
Proof.
  intros Hok Hkept. destruct (Hkept Hok) as [_ Hr]. pose proof (left_nonneg d) as [? ?].
  unfold attempts_left, acceptances_left in *. destruct (challenges d' !! k) as [r'|]; [|done].
  destruct (Hr r' eq_refl) as (r & -> & Ha & Hc). split; [lia|].
  repeat case_decide; try lia. destruct Hc; [by apply not_eq_None_Some|congruence].
Qed.

Lemma guesses_bounded ls d :
  table_ok (challenges d) →
  (∀ l, l ∈ ls → challenge_attempts (e_settings l.1) ≤ n ∧ e_ids l.1 0%nat ≠ k) →
  occurrences (wrong_guess k) d ls ≤ attempts_left d ∧
  occurrences (accepted_guess k) d ls ≤ acceptances_left d.
Proof.
  revert d. induction ls as [|l ls IH]; intros d Hok Hall; [apply left_nonneg|].
  destruct (Hall l) as [Hn Hk]; [by left|].
  pose proof (next_kept d l Hk) as Hkept. destruct (left_kept d _ Hok Hkept) as [Ha Hc].
  destruct (IH (next d l)) as [IHa IHc]; [apply (Hkept Hok)|intros; apply Hall; by right|].
  cbn [occurrences]. split.
  - destruct (wrong_guess k d l) eqn:Hw; [|lia]. apply bool_decide_eq_true in Hw.
    destruct (wrong_guess_counts k d l Hok Hw) as (row & Hrow & Hlt & _ & Hnext).
    unfold attempts_left in *. rewrite Hrow. rewrite Hnext in IHa. cbn -[Z.add] in IHa. lia.
  - destruct (accepted_guess k d l) eqn:Hw; [|lia].
    destruct (accepted_consumes k d l Hok Hw) as ((row & Hrow & Hno) & row' & Hrow' & Hyes).
    unfold acceptances_left in *. rewrite Hrow, decide_True by done. rewrite Hrow' in IHc.
    rewrite decide_False in IHc; [lia|]. by apply not_eq_None_Some.
Qed.
End bound.

(** C7: Over any sequence of identity calls, whoever makes them and whatever
    else happens in between, one challenge is compared with at most as many
    wrong codes as its configured attempts - each wrong code is counted durably
    even though the call itself is refused - and at most one call that presents
    the right code ever succeeds. *)
Theorem challenge_guesses_bounded `{Platform} k n ls d row :
  table_ok (challenges d) → challenges d !! k = Some row → 0 ≤ EmailChallenge.attempts row ≤ n →
  (∀ l, l ∈ ls → challenge_attempts (e_settings l.1) ≤ n ∧ e_ids l.1 0%nat ≠ k) →
  occurrences (wrong_guess k) d ls ≤ n - EmailChallenge.attempts row ∧
  occurrences (accepted_guess k) d ls ≤ 1.
Proof.
  intros Hok Hrow Ha Hall. destruct (guesses_bounded k n ls d Hok Hall) as [H1 H2].
  unfold attempts_left, acceptances_left in *. rewrite Hrow in H1, H2. split; [lia|].
  revert H2. case_decide; lia.
Qed.

Definition demo_challenge : EmailChallenge.t :=
  EmailChallenge.New 7 (lit "ada@example.com") (lit "password_reset") (lit "v1") (hex 64 3) 4 0
    (seconds 600) None.
Definition challenge_db : db := demo_db <| challenges := {[7 := demo_challenge]} |>.
Definition key_settings : AuthSettings :=
  NewAuthSettings 604800 60 600 5 60 300 [] {[lit "v1" := replicate 32 97%N]} (lit "v1").
Definition guess_env : env := Env (λ _, seconds 10) (λ i, 50 + Z.of_nat i) None key_settings.
Definition guess_call : call :=
  CompleteReset 7 (lit "000000") (lit "correct horse battery") (lit "r-1").

(** Two wrong guesses at a challenge with one attempt left: only one is compared. *)
Lemma challenge_guesses_bounded_witness :
  let _ := demo_platform in
  occurrences (wrong_guess 7) challenge_db [(guess_env, guess_call); (guess_env, guess_call)] = 1 ∧ 1 ≤ 5 - 4.
Proof.
  cbn zeta. match goal with |- ?l = _ ∧ _ => assert (Hone : l = 1) by (vm_compute; reflexivity) end.
  split; [exact Hone|]. rewrite <-Hone at 1.
  clear Hone. apply (@challenge_guesses_bounded demo_platform 7 5 _ challenge_db demo_challenge).
  - change (challenges challenge_db) with ({[7 := demo_challenge]} : table EmailChallenge.t).
    by intros k r [<- <-]%lookup_singleton_Some.
  - by vm_compute.
  - by vm_compute.
  - intros l Hl. repeat (apply elem_of_cons in Hl as [-> |Hl]; [by vm_compute|]). by apply not_elem_of_nil in Hl.
Defined.
