(* ===== verification/RateLimits.v ===== *)
(** * Rate limits
    (core/rate_limits.py, auth/rate_limits.py, auth/rate_dependencies.py,
    users/rate_dependencies.py, users/settings.py)

    The Redis script of the sliding window on a model of its sorted sets, and
    the limits of the identity entry points and of profile changes. *)

From S2P Require Import Prelude Regex PyValues CoreTypes AuditTrail Events Outbox Errors Identity Sessions.

(** ** The script *)

(** A sorted set: the score of each member, and the time in milliseconds after
    which the key expires. *)
Record zset := Zset { scores : gmap str Z; expire_at : Z }.
Abbreviation redis := (gmap str zset).

(** What the commands of a script see under a key. *)
Definition zread (now : Z) (key : str) (s : redis) : gmap str Z :=
  match s !! key with
  | Some z => if expire_at z <? now then ∅ else scores z
  | None => ∅
  end.

(** ZREMRANGEBYSCORE key -inf max *)
Definition zremrange (max : Z) (m : gmap str Z) : gmap str Z := filter (λ kv, max < kv.2) m.

(** The score of ZRANGE key 0 0: the least of all. *)
Definition zfirst (m : gmap str Z) : Z :=
  match (map_to_list m).*2 with [] => 0 | x :: xs => foldr Z.min x xs end.

(** [math.ceil(z / 1000)] *)
Definition ceil_thousandth (z : Z) : Z := - ((- z) / 1000).

(** [SLIDING_WINDOW]; the clock is in microseconds. A set that becomes empty is
    removed with its expiry. *)
Definition sliding_window (clock : Z) (key : str) (window limit : Z) (member : str) (s : redis)
    : Z * redis :=
  let now := clock / 1000 in
  let kept := zremrange (now - window) (zread now key s) in
  let count := Z.of_nat (size kept) in
  if limit <=? count then
    (Z.max 1 (ceil_thousandth (zfirst kept + window - now)),
     <[key := Zset kept (match s !! key with Some z => expire_at z | None => now end)]> s)
  else (0, <[key := Zset (<[member := now]> kept) (now + window)]> s).

(** ** Calls that use Redis *)

(** What limiting a request may raise. *)
Inductive limited :=
| LimitedBy (e : app_error)
| Refused (c : error_class)
| Failed (e : pyexn).

Definition R (A : Type) : Type := redis → res limited A * redis.

#[export] Instance R_ret : MRet R := λ A a s, (Ok a, s).
#[export] Instance R_bind : MBind R := λ A B f m s,
  match m s with (Ok a, s) => f a s | (Err e, s) => (Err e, s) end.

Definition refuse {A} (e : limited) : R A := λ s, (Err e, s).
Definition demand (b : bool) (e : limited) : R unit := if b then mret tt else refuse e.
(** Raising an error whose constructor checks its arguments. *)
Definition raise_error {A} (e : res pyexn app_error) : R A :=
  refuse match e with Ok e => LimitedBy e | Err e => Failed e end.

Definition positive (msg : string) (v : pyval) : R Z :=
  match v with
  | PInt z => demand (negb (z <? 1)) (Failed (ValueError msg));; mret z
  | _ => refuse (Failed (ValueError msg))
  end.

(** [down] is what a caller makes of a Redis that does not answer. *)
Definition sliding_window_retry_after (up : bool) (down : limited) (clock : Z) (key : str)
    (limit window_seconds : pyval) (member : str) : R Z :=
  limit ← positive "limit must be a positive integer" limit;
  window ← positive "window_seconds must be a positive integer" window_seconds;
  demand up down;;
  retry ← (λ s, let '(retry, s) := sliding_window clock key (window * 1000) limit member s in (Ok retry, s));
  demand (negb (retry <? 0)) (Failed (RuntimeError "rate limiter returned an invalid retry delay"));;
  mret retry.

(** ** Identity limits *)

Section limits.
(** [hmac.new(key, value, sha256).hexdigest()] *)
Context (hmac_hex : str → str → str).

Definition private_identifier (value key : str) : str := hmac_hex key value.

Definition rate_limit_key (namespace scope operation identity secret : str) : str :=
  lit "ekumidayomi:" ++ namespace ++ lit ":" ++ scope ++ lit ":v1:limit:" ++ operation ++ lit ":"
  ++ private_identifier identity secret.

Definition enforce (up : bool) (clock : Z) (member namespace operation identity secret : str)
    (limit window_seconds : Z) : R unit :=
  let key := rate_limit_key namespace (lit "auth") operation identity secret in
  retry ← sliding_window_retry_after up (Refused IdentityUnavailableError) clock key (PInt limit)
            (PInt window_seconds) member;
  if 0 <? retry then raise_error (identity_rate_limit_error (PInt retry)) else mret tt.

(** [_LIMITS]: the limit by address, the limit by account, the window. *)
Definition LIMITS : list (str * (Z * Z * Z)) :=
  [(lit "/auth/login", (30, 10, 300)); (lit "/auth/register", (20, 3, 600));
   (lit "/auth/register/resend", (20, 3, 600)); (lit "/auth/register/verify", (30, 5, 600));
   (lit "/auth/password-reset/request", (20, 3, 600));
   (lit "/auth/password-reset/confirm", (30, 5, 600)); (lit "/auth/reauthenticate", (2, 5, 300))].

Definition lookup_path {A} (path : str) (l : list (str * A)) : option A :=
  snd <$> find (λ kv, bool_decide (kv.1 = path)) l.

(** [str.removeprefix], [str.strip("/")] and [str.replace("/", "-")]. *)
Definition removeprefix (prefix s : str) : str :=
  if starts_with prefix s then drop (length prefix) s else s.
Fixpoint lstrip_slash (s : str) : str :=
  match s with c :: s' => if (c =? 47)%N then lstrip_slash s' else s | [] => [] end.
Definition strip_slash (s : str) : str := reverse (lstrip_slash (reverse (lstrip_slash s))).
Definition dashes (s : str) : str := (λ c, if (c =? 47)%N then 45%N else c) <$> s.

(** The parts of a request that the limit reads; the body is its size and the
    string fields of the JSON object it holds, if it holds one. *)
Record auth_request := AuthRequest {
  q_method : str;
  q_path : str;
  q_origin : option str;
  q_client : option str;
  q_cookie : str;
  q_body_size : Z;
  q_email : option str;
  q_challenge_id : option str }.

Definition SAFE_METHODS : list str := lit <$> ["GET"; "HEAD"; "OPTIONS"].

Context (normalize : str → option str).

(** The account that the body names: its address, or the challenge. *)
Definition body_identity (q : auth_request) : str :=
  let identity :=
    match q_email q with
    | Some email => match normalize email with
                    | Some e => e
                    | None => take 320 (casefold (strip email))
                    end
    | None => []
    end in
  match identity, q_challenge_id q with [], Some c => take 64 c | i, _ => i end.

Definition request_identity (q : auth_request) (path : str) : str :=
  let identity := if bool_decide (q_method q = lit "POST") then body_identity q else [] in
  let identity := match identity with
                  | [] => if bool_decide (path = lit "/auth/reauthenticate") then q_cookie q else []
                  | i => i
                  end in
  match identity with
  | [] => if negb (bool_decide (q_method q ∈ SAFE_METHODS)) && starts_with (lit "/auth/oidc/") path
             && negb (ends_with (lit "/start") path)
          then q_cookie q else []
  | i => i
  end.

(** [identify_rate_limit]: two checks of Redis at most, each with its clock and
    its random member. *)
Definition identify_rate_limit (up : nat → bool) (clock : nat → Z) (member : nat → str)
    (origins : list str) (api_prefix namespace secret : str) (q : auth_request) : R unit :=
  demand (bool_decide (q_method q ∈ SAFE_METHODS)
          || match q_origin q with Some o => bool_decide (o ∈ origins) | None => false end)
    (Refused UntrustedOriginError);;
  let path := removeprefix api_prefix (q_path q) in
  let rule := if starts_with (lit "/auth/oidc/") path then Some (30, 10, 300)
              else lookup_path path LIMITS in
  match rule with
  | None => mret tt
  | Some (ip_limit, account_limit, window) =>
      let operation := dashes (strip_slash path) in
      enforce (up 0%nat) (clock 0%nat) (member 0%nat) namespace (operation ++ lit "-ip")
        (default (lit "unknown") (q_client q)) secret ip_limit window;;
      demand (negb (bool_decide (q_method q = lit "POST") && (16384 <? q_body_size q)))
        (Refused AuthenticationRequestTooLargeError);;
      match request_identity q path with
      | [] => mret tt
      | identity => enforce (up 1%nat) (clock 1%nat) (member 1%nat) namespace
                      (operation ++ lit "-account") identity secret account_limit window
      end
  end.

(** ** Profile limits *)

Record ProfileRateLimitSettings := NewProfileLimits {
  profile_update_limit : Z;
  address_mutation_limit : Z;
  limits_window_seconds : Z }.

Definition validate_profile_limits (c : ProfileRateLimitSettings) : res pyexn ProfileRateLimitSettings :=
  require (between_z 1 1000 (profile_update_limit c)) (ValueError "profile_update_limit");;
  require (between_z 1 2000 (address_mutation_limit c)) (ValueError "address_mutation_limit");;
  require (between_z 60 3600 (limits_window_seconds c)) (ValueError "window_seconds");;
  Ok c.

(** [_OPERATIONS]: the operation and its group. *)
Definition OPERATIONS : list (str * str * (str * str)) :=
  [(lit "PUT", lit "/profile", (lit "profile-update", lit "profile"));
   (lit "POST", lit "/profile/addresses", (lit "address-create", lit "address"));
   (lit "PUT", lit "/profile/addresses/{address_id}", (lit "address-update", lit "address"));
   (lit "DELETE", lit "/profile/addresses/{address_id}", (lit "address-delete", lit "address"))].

Definition rstrip_slash (s : str) : str := reverse (lstrip_slash (reverse s)).

Definition profile_rate_limit_operation (method route_path api_prefix : str) : option (str * str) :=
  let prefix := rstrip_slash api_prefix in
  let normalized_path := match prefix with [] => route_path | _ => removeprefix prefix route_path end in
  snd <$> find (λ o, bool_decide (o.1 = (str_upper method, normalized_path))) OPERATIONS.

(** [try: m except RedisError: return a]. *)
Definition unless_refused {A} (a : A) (m : R A) : R A := λ s,
  match m s with (Err (Refused _), s) => (Ok a, s) | r => r end.

(** Redis is not authoritative here: without it the change goes on. The
    counters and the log lines are left out. *)
Definition profile_rate_limit (up : bool) (clock : Z) (member namespace secret api_prefix : str)
    (config : ProfileRateLimitSettings) (method route_path : str) (actor : Actor) : R unit :=
  match profile_rate_limit_operation method route_path api_prefix with
  | None => mret tt
  | Some (operation, group) =>
      let limit := if bool_decide (group = lit "profile") then profile_update_limit config
                   else address_mutation_limit config in
      let key := rate_limit_key namespace (lit "users") operation (uuid_str (actor_user actor)) secret in
      retry ← unless_refused 0
                (sliding_window_retry_after up (Refused IdentityUnavailableError) clock key (PInt limit)
                   (PInt (limits_window_seconds config)) member);
      if 0 <? retry then raise_error (profile_rate_limit_error (PInt retry)) else mret tt
  end.
End limits.

(** ** The window of one key *)

(** A call of the script: when, with what random member. *)
Record visit := Visit { v_now : Z; v_member : str }.

Section window.
Context (key : str) (window limit : Z).
Context (Hwindow : 0 < window) (Hlimit : 1 ≤ limit).

(** The calls of one key in the order Redis runs them, and those it admits. *)
Fixpoint admissions (s : redis) (vs : list visit) : list visit :=
  match vs with
  | [] => []
  | v :: vs =>
      let '(retry, s') := sliding_window (v_now v) key window limit (v_member v) s in
      if retry =? 0 then v :: admissions s' vs else admissions s' vs
  end.

(** In milliseconds, as the script sees it. *)
Definition at_ms (v : visit) : Z := v_now v / 1000.

Lemma ceil_thousandth_le z m : ceil_thousandth z ≤ m ↔ z ≤ 1000 * m.
Proof using Type.
  unfold ceil_thousandth. pose proof (Z.div_mod (-z) 1000). pose proof (Z.mod_pos_bound (-z) 1000). lia.
Qed.

Lemma lookup_zremrange max m x v : zremrange max m !! x = Some v ↔ m !! x = Some v ∧ max < v.
Proof using Type. unfold zremrange. by rewrite map_lookup_filter_Some. Qed.

Lemma zremrange_zremrange a b m : a ≤ b → zremrange b (zremrange a m) = zremrange b m.
Proof using Type.
  intros Hab. apply map_eq. intros x. apply option_eq. intros v. rewrite !lookup_zremrange.
  split; [tauto|]. intros [? ?]. split_and!; [done|lia|done].
Qed.

Lemma zfirst_le m x v : m !! x = Some v → zfirst m ≤ v.
Proof using Type.
  intros Hx. unfold zfirst.
  assert (Hin : v ∈ (map_to_list m).*2).
  { apply list_elem_of_fmap. exists (x, v). by rewrite elem_of_map_to_list. }
  destruct ((map_to_list m).*2) as [|y ys]; [by apply not_elem_of_nil in Hin|].
  apply elem_of_cons in Hin as [-> |Hin].
  - clear. induction ys as [|z ys IH]; cbn; lia.
  - clear -Hin. induction Hin as [|z w ys ? IH]; cbn; lia.
Qed.

Lemma zfirst_elem m : m ≠ ∅ → ∃ x, m !! x = Some (zfirst m).
Proof using Type.
  intros Hm. unfold zfirst.
  destruct (map_to_list m) as [|[x y] l] eqn:Hl; [by apply map_to_list_empty_iff in Hl|].
  cbn [fmap list_fmap snd].
  assert (Hin : foldr Z.min y (l.*2) ∈ y :: l.*2).
  { generalize (l.*2). intros ys. induction ys as [|z ys IH]; cbn; [by left|].
    destruct (Z.min_spec z (foldr Z.min y ys)) as [[_ ->]|[_ ->]]; [by right; left|].
    apply elem_of_cons in IH as [-> |IH]; [by left|by right; right]. }
  change (y :: l.*2) with (((x, y) :: l).*2) in Hin. rewrite <-Hl in Hin.
  apply list_elem_of_fmap in Hin as ([x' y'] & -> & Hin%elem_of_map_to_list). eauto.
Qed.

(** The admitted calls as a set: each under its member, at its time. *)
Definition score_map (h : list visit) : gmap str Z :=
  list_to_map ((λ v, (v_member v, at_ms v)) <$> h).

Lemma size_score_map a h :
  NoDup (v_member <$> h) →
  size (zremrange a (score_map h)) = length (filter (λ v, a < at_ms v) h).
Proof using Type.
  induction h as [|v h IH]; [done|]. rewrite fmap_cons, NoDup_cons. intros [Hv Hnd].
  change (score_map (v :: h)) with (<[v_member v := at_ms v]> (score_map h)).
  assert (Hnone : score_map h !! v_member v = None).
  { apply not_elem_of_list_to_map. by rewrite <-list_fmap_compose. }
  rewrite filter_cons. unfold zremrange. case_decide as Hd.
  - rewrite map_filter_insert_True by done. rewrite map_size_insert_None.
    + cbn. f_equal. by apply IH.
    + apply map_lookup_filter_None. by left.
  - rewrite map_filter_insert_not'; [by apply IH|done|]. by rewrite Hnone.
Qed.

(** What the script sees from the time [t] on, when [h] was admitted. *)
Definition sees (t : Z) (s : redis) (h : list visit) : Prop :=
  ∀ now, t ≤ now → zremrange (now - window) (zread now key s) = zremrange (now - window) (score_map h).

(** Never more than the limit in one window. *)
Definition within (h : list visit) : Prop :=
  ∀ T, Z.of_nat (length (filter (λ v, T - window < at_ms v ≤ T) h)) ≤ limit.

Record tracked (t : Z) (s : redis) (h : list visit) : Prop := {
  tr_sees : sees t s h;
  tr_past : Forall (λ v, at_ms v ≤ t) h;
  tr_distinct : NoDup (v_member <$> h);
  tr_within : within h }.

Lemma zremrange_empty a : zremrange a ∅ = ∅.
Proof using Type. apply map_filter_empty. Qed.

Lemma tracked_count t s h now :
  tracked t s h → t ≤ now →
  size (zremrange (now - window) (zread now key s)) = length (filter (λ v, now - window < at_ms v) h).
Proof using Type. intros [Hs _ Hd _] Ht. rewrite Hs by done. by apply size_score_map. Qed.

Lemma filter_length_le {A} (P Q : A → Prop) `{∀ x, Decision (P x), ∀ x, Decision (Q x)} l :
  (∀ x, x ∈ l → P x → Q x) → (length (filter P l) ≤ length (filter Q l))%nat.
Proof using Type.
  induction l as [|x l IH]; [done|]. intros Hpq. rewrite !filter_cons.
  assert (IH' : (length (filter P l) ≤ length (filter Q l))%nat).
  { apply IH. intros y Hy. apply Hpq. by right. }
  repeat case_decide; cbn; try lia. exfalso. eauto using list_elem_of_here.
Qed.

(** One call keeps track: refused it adds nothing, admitted it adds itself. *)
Lemma visit_step t s h v retry s' :
  tracked t s h → t ≤ at_ms v → v_member v ∉ v_member <$> h →
  sliding_window (v_now v) key window limit (v_member v) s = (retry, s') →
  (1 ≤ retry ∧ tracked (at_ms v) s' h) ∨ (retry = 0 ∧ tracked (at_ms v) s' (v :: h)).
Proof using All.
  intros Htr Ht Hm. pose proof (tracked_count t s h (at_ms v) Htr Ht) as Hcount.
  destruct Htr as [Hs Hp Hd Hw]. unfold sliding_window. fold (at_ms v). cbn zeta.
  set (kept := zremrange (at_ms v - window) (zread (at_ms v) key s)) in *.
  assert (Hkept : ∀ now, at_ms v ≤ now → zremrange (now - window) kept = zremrange (now - window) (score_map h)).
  { intros now Hnow. unfold kept. rewrite Hs, zremrange_zremrange by lia. done. }
  assert (Hpast : Forall (λ u, at_ms u ≤ at_ms v) h) by (eapply Forall_impl; [exact Hp|]; cbn; lia).
  destruct (limit <=? Z.of_nat (size kept)) eqn:Hfull; intros [= <- <-]; bool_inv.
  - left. split; [lia|]. split; [|done..]. intros now Hnow. unfold zread. rewrite lookup_insert_eq. cbn.
    pose proof (Hs now ltac:(lia)) as Hold. unfold zread in Hold.
    destruct (s !! key) as [z|] eqn:Hz.
    + destruct (expire_at z <? now); [done|by apply Hkept].
    + destruct (at_ms v <? now); [done|by apply Hkept].
  - right. split; [done|]. split.
    + intros now Hnow. unfold zread. rewrite lookup_insert_eq. cbn.
      change (score_map (v :: h)) with (<[v_member v := at_ms v]> (score_map h)).
      destruct (at_ms v + window <? now) eqn:He; bool_inv.
      * rewrite zremrange_empty. symmetry. apply map_empty. intros x.
        destruct (zremrange _ _ !! x) as [u|] eqn:Hx; [|done]. apply lookup_zremrange in Hx as [Hx Hu].
        apply lookup_insert_Some in Hx as [[_ <-]|[_ Hx]]; [lia|].
        apply elem_of_list_to_map_2, list_elem_of_fmap in Hx as (w & [= -> ->] & Hin).
        rewrite Forall_forall in Hpast. specialize (Hpast w Hin). cbn in Hpast. lia.
      * apply map_eq. intros x. apply option_eq. intros u. rewrite !lookup_zremrange.
        pose proof (Hkept now Hnow) as Hk.
        assert (Hiff : ∀ u, kept !! x = Some u ∧ now - window < u ↔ score_map h !! x = Some u ∧ now - window < u).
        { intros u'. rewrite <-!lookup_zremrange. by rewrite Hk. }
        destruct (decide (v_member v = x)) as [<-|Hne]; [by rewrite !lookup_insert_eq|].
        rewrite !lookup_insert_ne by done. apply Hiff.
    + by constructor.
    + rewrite fmap_cons. by constructor.
    + intros T. rewrite filter_cons. case_decide as HT; [|apply Hw]. cbn [length].
      enough ((length (filter (λ u, (T - window < at_ms u ≤ T)%Z) h) ≤
               length (filter (λ u, (at_ms v - window < at_ms u)%Z) h))%nat) by lia.
      apply filter_length_le. intros u _. lia.
Qed.

Lemma tracked_start t s : s !! key = None → tracked t s [].
Proof using Hlimit.
  intros Hs. split; [|constructor|constructor|intros T; cbn; lia].
  intros now _. unfold zread. by rewrite Hs.
Qed.

(** The calls happen in order, each under a member of its own. *)
Definition orderly (t : Z) (h vs : list visit) : Prop :=
  StronglySorted (λ a b, at_ms a ≤ at_ms b) vs ∧ Forall (λ v, t ≤ at_ms v) vs ∧
  NoDup (v_member <$> vs ++ h).

(** The state after the calls. *)
Fixpoint visited (s : redis) (vs : list visit) : redis :=
  match vs with
  | [] => s
  | v :: vs => visited (sliding_window (v_now v) key window limit (v_member v) s).2 vs
  end.

Lemma orderly_step t h v vs :
  orderly t h (v :: vs) →
  t ≤ at_ms v ∧ v_member v ∉ v_member <$> h ∧ orderly (at_ms v) h vs ∧ orderly (at_ms v) (v :: h) vs.
Proof using Type.
  intros (Hs & Ht & Hn). apply StronglySorted_inv in Hs as [Hs Hv].
  apply Forall_cons in Ht as [Ht Hts]. pose proof Hn as Hn0. rewrite <-app_comm_cons, fmap_cons in Hn.
  apply NoDup_cons in Hn as [Hvn Hn]. rewrite fmap_app, not_elem_of_app in Hvn. destruct Hvn.
  split_and!; [done|done|by split_and!|]. split_and!; [done|done|].
  rewrite fmap_app, fmap_cons, <-Permutation_middle, <-fmap_app. exact Hn0.
Qed.

(** Along any calls the admitted ones are tracked, newest first, and the calls
    that follow stay orderly. *)
Lemma tracked_visits vs ws t s h :
  tracked t s h → orderly t h (vs ++ ws) →
  ∃ t', tracked t' (visited s vs) (reverse (admissions s vs) ++ h) ∧
    orderly t' (reverse (admissions s vs) ++ h) ws.
Proof using All.
  revert t s h. induction vs as [|v vs IH]; intros t s h Htr Ho; [by exists t|].
  destruct (orderly_step t h v (vs ++ ws) Ho) as (Ht & Hm & Ho1 & Ho2). cbn [visited admissions].
  destruct (sliding_window _ _ _ _ _ _) as [retry s'] eqn:Hsw. cbn [snd].
  destruct (visit_step t s h v retry s' Htr Ht Hm Hsw) as [[Hr Htr']|[-> Htr']].
  - destruct (retry =? 0) eqn:He; bool_inv; [lia|]. by apply (IH _ _ _ Htr').
  - rewrite Z.eqb_refl, reverse_cons, <-app_assoc. by apply (IH _ _ _ Htr').
Qed.

(** Refused calls leave the admitted ones as they are. *)
Lemma refused_waiting vs ws t s h :
  tracked t s h → orderly t h (vs ++ ws) → admissions s vs = [] →
  ∃ t', tracked t' (visited s vs) h ∧ orderly t' h ws.
Proof using All.
  intros Htr Ho Hnone. destruct (tracked_visits vs ws t s h Htr Ho) as (t' & H1 & H2).
  rewrite Hnone in *. eauto.
Qed.

(** A full window refuses for at most its length, and after the announced
    delay it is no longer full. *)
Lemma refusal_bounded t s h v retry s' :
  tracked t s h → t ≤ at_ms v →
  sliding_window (v_now v) key window limit (v_member v) s = (retry, s') → 0 < retry →
  1000 * (retry - 1) < window ∧
  ∀ now, at_ms v + 1000 * retry ≤ now →
    Z.of_nat (size (zremrange (now - window) (score_map h))) < limit.
Proof using All.
  intros Htr Ht. pose proof (tracked_count t s h (at_ms v) Htr Ht) as Hcount.
  destruct Htr as [Hs Hp Hd Hw]. unfold sliding_window. fold (at_ms v). cbn zeta.
  set (kept := zremrange (at_ms v - window) (zread (at_ms v) key s)) in *.
  assert (Hkept : kept = zremrange (at_ms v - window) (score_map h)) by (apply Hs; lia). clearbody kept.
  destruct (limit <=? Z.of_nat (size kept)) eqn:Hfull; intros [= <- <-] Hpos; [|lia]. bool_inv.
  assert (Hne : kept ≠ ∅) by (intros He; rewrite He, map_size_empty in Hfull; lia).
  destruct (zfirst_elem kept Hne) as [x Hx]. pose proof Hx as Hx'. rewrite Hkept in Hx' at 1. apply lookup_zremrange in Hx' as [Hx0 Hlt].
  assert (Hfirst : zfirst kept ≤ at_ms v).
  { apply elem_of_list_to_map_2, list_elem_of_fmap in Hx0 as (w & [= -> ->] & Hin).
    rewrite Forall_forall in Hp. specialize (Hp w Hin). cbn in Hp. lia. }
  set (f := zfirst kept) in *. set (r := Z.max 1 (ceil_thousandth (f + window - at_ms v))) in *.
  assert (Hr : f + window - at_ms v ≤ 1000 * r) by (apply ceil_thousandth_le; lia).
  split.
  - assert (Hmax : r = 1 ∨ r = ceil_thousandth (f + window - at_ms v)) by (unfold r; lia).
    clearbody r. destruct Hmax as [-> |Hmax]; [lia|].
    assert (Hn : ¬ ceil_thousandth (f + window - at_ms v) ≤ r - 1) by lia.
    rewrite ceil_thousandth_le in Hn. lia.
  - intros now Hnow.
    assert (Hle : Z.of_nat (size kept) ≤ limit).
    { rewrite Hcount. etrans; [|apply (Hw (at_ms v))]. apply Nat2Z.inj_le, filter_length_le.
      intros u Hu. rewrite Forall_forall in Hp. specialize (Hp u Hu). cbn in Hp. lia. }
    enough ((size (zremrange (now - window) (score_map h)) < size kept)%nat) by lia.
    apply map_subset_size. apply map_subset_alt. split.
    + apply map_subseteq_spec. intros y u [Hy Hu]%lookup_zremrange. rewrite Hkept.
      apply lookup_zremrange. split; [done|lia].
    + exists x. split; [|by eexists].
      destruct (zremrange (now - window) _ !! x) as [u|] eqn:Hu; [|done].
      apply lookup_zremrange in Hu as [Hu Hlt']. rewrite Hx0 in Hu. injection Hu as <-. lia.
Qed.
End window.

(** ** Properties *)

(** The window holds: of any calls under one key, in any number and at any
    times, no span of one window length contains more admitted calls than the
    limit - also not one that straddles two bursts - provided each call brings
    its own random member and the clock of the server does not run backwards. *)
Theorem rate_limit_holds key window limit s vs T :
  0 < window → 1 ≤ limit → s !! key = None → orderly 0 [] vs →
  Z.of_nat (length (filter (λ v, T - window < at_ms v ≤ T) (admissions key window limit s vs))) ≤ limit.
Proof.
  intros Hw Hl Hs Ho.
  destruct (tracked_visits key window limit Hw Hl vs [] 0 s []) as (t' & Htr & _);
    [by apply tracked_start|by rewrite app_nil_r|].
  pose proof (tr_within _ _ _ _ _ _ Htr T) as H. rewrite app_nil_r in H.
  etrans; [|exact H]. apply Z.eq_le_incl. f_equal. apply Permutation_length, filter_Permutation.
  symmetry. apply reverse_Permutation.
Qed.

Definition demo_visits : list visit :=
  [Visit 1000000 (lit "a"); Visit 2000000 (lit "b"); Visit 3000000 (lit "c")].

Lemma demo_orderly : orderly 0 [] demo_visits.
Proof.
  split_and!.
  - repeat constructor; by vm_compute.
  - repeat constructor; by vm_compute.
  - apply (bool_decide_eq_true_1 (NoDup (v_member <$> demo_visits ++ []))). by vm_compute.
Qed.

(** Of three calls in three seconds, a limit of two in sixty admits two. *)
Lemma rate_limit_holds_witness :
  length (admissions (lit "k") 60000 2 ∅ demo_visits) = 2%nat ∧
  Z.of_nat (length (filter (λ v, 60000 - 60000 < at_ms v ≤ 60000)
                      (admissions (lit "k") 60000 2 ∅ demo_visits))) ≤ 2.
Proof.
  split; [vm_compute; reflexivity|].
  apply (rate_limit_holds (lit "k") 60000 2 ∅ demo_visits 60000);
    [lia|lia|reflexivity|exact demo_orderly].
Defined.

(** C19: Waiting works: a caller that is refused is told to wait at least one
    second and at most the window, and the first call that is made after that
    delay is admitted - whatever calls were made before, and however many more
    were refused in the meantime. *)
Theorem refused_caller_is_readmitted key window_seconds limit s vs v retry s' waiting w :
  1 ≤ window_seconds → 1 ≤ limit → s !! key = None →
  orderly 0 [] (vs ++ v :: waiting ++ [w]) →
  sliding_window (v_now v) key (window_seconds * 1000) limit (v_member v)
    (visited key (window_seconds * 1000) limit s vs) = (retry, s') →
  retry ≠ 0 →
  admissions key (window_seconds * 1000) limit s' waiting = [] →
  at_ms v + 1000 * retry ≤ at_ms w →
  1 ≤ retry ≤ window_seconds ∧
  (sliding_window (v_now w) key (window_seconds * 1000) limit (v_member w)
     (visited key (window_seconds * 1000) limit s' waiting)).1 = 0.
Proof.
  intros Hws Hl Hs Ho Hv Hr Hwait Hlate. set (window := window_seconds * 1000) in *.
  assert (Hw : 0 < window) by lia.
  destruct (tracked_visits key window limit Hw Hl vs (v :: waiting ++ [w]) 0 s []) as (t & Htr & Ho1);
    [by apply tracked_start|done|].
  set (h := reverse (admissions key window limit s vs) ++ []) in *.
  destruct (orderly_step t h v (waiting ++ [w]) Ho1) as (Ht & Hm & Ho2 & _).
  destruct (visit_step key window limit Hw Hl t _ h v retry s' Htr Ht Hm Hv) as [[Hpos Htr']|[? _]]; [|done].
  destruct (refusal_bounded key window limit Hw Hl t _ h v retry s' Htr Ht Hv ltac:(lia)) as [Hb Hroom].
  destruct (refused_waiting key window limit Hw Hl waiting [w] _ _ _ Htr' Ho2 Hwait) as (t2 & Htr2 & Ho3).
  destruct (orderly_step t2 h w [] Ho3) as (Ht2 & Hm2 & _).
  split; [subst window; lia|].
  unfold sliding_window. fold (at_ms w). cbn zeta. rewrite (tr_sees _ _ _ _ _ _ Htr2) by done.
  specialize (Hroom (at_ms w) Hlate). destruct (limit <=? _) eqn:Hfull; [bool_inv; lia|done].
Qed.

(** The third caller waits the 58 seconds it is told to, and gets in. *)
Lemma refused_caller_is_readmitted_witness :
  let s1 := visited (lit "k") 60000 2 ∅ (take 2 demo_visits) in
  sliding_window 3000000 (lit "k") 60000 2 (lit "c") s1 = (58, s1) ∧
  1 ≤ 58 ≤ 60 ∧ (sliding_window 61000000 (lit "k") 60000 2 (lit "d") s1).1 = 0.
Proof.
  cbn zeta. match goal with |- ?l ∧ _ => assert (Hv : l) by (vm_compute; reflexivity) end.
  split; [exact Hv|].
  apply (refused_caller_is_readmitted (lit "k") 60 2 ∅ (take 2 demo_visits) (Visit 3000000 (lit "c"))
    58 _ [] (Visit 61000000 (lit "d"))); [lia|lia|reflexivity| |exact Hv|lia|reflexivity|by vm_compute].
  split_and!.
  - repeat constructor; by vm_compute.
  - repeat constructor; by vm_compute.
  - match goal with |- NoDup ?l => apply (bool_decide_eq_true_1 (NoDup l)) end. by vm_compute.
Defined.
