(* ===== verification/EmailDelivery.v ===== *)
(** * Sending mail (email/schemas.py, email/ports.py, email/settings.py,
    email/resend.py)

    The validated message, the frozen requests with their fingerprint, and the
    Resend adapter: one submission per unresolved recipient, and what each
    answer of the provider makes of the delivery. *)

From S2P Require Import Prelude Regex PyValues CoreTypes AuditTrail AuditSpecs Errors Texts Outbox Delivery.

(** ** Messages *)

Record OutgoingEmail := NewEmail {
  delivery_id : uuid;
  recipients : list str;
  subject : str;
  text_body : str;
  html_body : option str }.

Record EmailRequest := NewRequest { request_key : str; request_body : list N }.

Record EmailSubmission := NewSubmission {
  requests : list EmailRequest;
  submission_fingerprint : str }.

Record ResendSettings := NewResendSettings {
  api_key : str;
  sender : str;
  fingerprint_key : str;
  timeout_seconds : pyfloat }.

#[export] Instance EmailRequest_eq_dec : EqDecision EmailRequest.
Proof. solve_decision. Defined.

(** What the libraries compute: pydantic's [EmailStr] (the normalised address,
    or nothing), [str.casefold] beyond ASCII, and [json.loads], whose
    malformed-input errors are [ValueError]s. *)
Class MailLibrary := {
  email_str : str → option str;
  fold_case : str → str;
  json_loads : list N → res pyexn pyval }.

Definition length_in (lo hi : Z) (s : str) : bool :=
  encodable s && in_range lo hi (Z.of_nat (length s)).

(** [int.to_bytes(n, "big")] *)
Fixpoint to_bytes (n : nat) (z : Z) : list N :=
  match n with O => [] | S n => to_bytes n (z / 256) ++ [Z.to_N (z mod 256)] end.

(** [sort_keys=True]: the order of the keys, which are distinct. *)
Definition item_le (a b : str * aval) : Prop := str_le a.1 b.1 = true.
#[export] Instance item_le_dec a b : Decision (item_le a b) := bool_eq_dec _ _.

Section mail.
Context `{MailLibrary}.
(** [hmac.new(key, message, sha256)], as in Challenges. *)
Context (hmac_sha256 : list N → list N → Z).

Definition email_address (value : str) : res pyexn str :=
  match email_str value with Some a => Ok a | None => Err (ValueError "email") end.

Definition validate_resend_settings (s : ResendSettings) : res pyexn ResendSettings :=
  require (negb (bool_decide (api_key s = []))) (ValueError "api_key");;
  sender ← email_address (sender s);
  require (32 <=? Z.of_nat (length (fingerprint_key s))) (ValueError "fingerprint_key");;
  require (match timeout_seconds s with
           | FFin m e => float_between_0 20 (FFin m e) && negb (m =? 0)
           | _ => false
           end) (ValueError "timeout_seconds");;
  Ok (NewResendSettings (api_key s) sender (fingerprint_key s) (timeout_seconds s)).

Definition validate_recipients (values : list str) : res pyexn (list str) :=
  let normalized := fold_case <$> values in
  require (bool_decide (length normalized = length (remove_dups normalized)))
    (ValueError "recipients must be unique");;
  Ok values.

Definition validate_subject (value : str) : res pyexn str :=
  require (negb (bool_decide (strip value = []))
           && forallb (λ c, negb (bool_decide (c ∈ [13; 10; 0]%N))) value)
    (ValueError "subject must be a non-empty single line");;
  Ok value.

(** [OutgoingEmail(...)], and [OutgoingEmail.model_validate(m.model_dump())]. *)
Definition outgoing_email (m : OutgoingEmail) : res pyexn OutgoingEmail :=
  require (in_range 1 100 (Z.of_nat (length (recipients m)))) (ValueError "recipients");;
  recipients ← traverse email_address (recipients m);
  recipients ← validate_recipients recipients;
  require (length_in 1 200 (subject m)) (ValueError "subject");;
  subject ← validate_subject (subject m);
  require (length_in 1 131072 (text_body m)) (ValueError "text_body");;
  require (from_option (length_in 0 262144) true (html_body m)) (ValueError "html_body");;
  Ok (NewEmail (delivery_id m) recipients subject (text_body m) (html_body m)).

(** ** Freezing the requests *)

Definition sort_keys (kvs : list (str * aval)) : list (str * aval) := merge_sort item_le kvs.

Definition wire (settings : ResendSettings) (m : OutgoingEmail) (address : str) : list N :=
  let body := [(lit "from", AStr (sender settings)); (lit "to", AList [AStr address]);
               (lit "subject", AStr (subject m)); (lit "text", AStr (text_body m))] in
  let body := match html_body m with None => body | Some h => body ++ [(lit "html", AStr h)] end in
  utf8 (json_dumps (λ _, []) (ADict (sort_keys body))).

Definition email_key (delivery : uuid) (index : nat) : str :=
  lit "email/" ++ uuid_str delivery ++ lit "/" ++ int_str (Z.of_nat index).

(** Each body behind its length in eight bytes. *)
Definition canonical (bodies : list (list N)) : list N :=
  bodies ≫= λ b, to_bytes 8 (Z.of_nat (length b)) ++ b.

Definition prepare (settings : ResendSettings) (message : OutgoingEmail) : res pyexn EmailSubmission :=
  snapshot ← outgoing_email message;
  let requests := imap (λ index address,
    NewRequest (email_key (delivery_id snapshot) index) (wire settings snapshot address))
    (recipients snapshot) in
  let fingerprint := hex 64 (hmac_sha256 (utf8 (fingerprint_key settings))
                               (canonical (request_body <$> requests))) in
  Ok (NewSubmission requests fingerprint).

(** ** Submitting *)

(** What becomes of one POST: a connection that was never made ([ConnectError],
    [ConnectTimeout], [PoolTimeout]), another [httpx.HTTPError] at any point, a
    response (status, [Retry-After] or "", the chunks of its body), or anything
    else that the client raises. *)
Inductive http_answer :=
| NotConnected
| HttpFailure
| Reply (status : Z) (retry_after_header : str) (chunks : list (list N))
| ClientRaises (e : pyexn).

Fixpoint read_body (data : list N) (chunks : list (list N)) : option (list N) :=
  match chunks with
  | [] => Some data
  | chunk :: chunks =>
      let data := data ++ chunk in
      if 16384 <? Z.of_nat (length data) then None else read_body data chunks
  end.

Definition document (data : list N) : res pyexn (list (pyval * pyval)) :=
  match json_loads data with
  | Ok (PDict kvs) => Ok kvs
  | Ok _ | Err (ValueError _) => Ok []
  | Err e => Err e
  end.

Definition dict_get (key : string) (kvs : list (pyval * pyval)) : option pyval :=
  snd <$> find (λ kv, bool_decide (as_str kv.1 = Some (lit key))) kvs.

(** [UUID(str(document.get("id", "")))]: of the other JSON values none prints
    as 32 hexadecimal digits. *)
Definition provider_id (doc : list (pyval * pyval)) : option uuid :=
  match dict_get "id" doc with
  | Some (PStr s) => uuid_of s
  | Some (PInt z) => uuid_of (int_str z)
  | _ => None
  end.

Definition named (doc : list (pyval * pyval)) (name : string) : bool :=
  bool_decide ((v ← dict_get "name" doc; as_str v) = Some (lit name)).

Definition isdecimal (s : str) : bool :=
  negb (bool_decide (s = [])) && forallb (λ c, bool_decide (is_Some (digit_value c))) s.

Definition busy_delay (raw_delay : str) : Z :=
  if isdecimal raw_delay && (Z.of_nat (length raw_delay) <? 8)
  then Z.min (take_digits raw_delay 0 0).1.1 3600 else 60.

Definition result (kind code : string) (retry_after : Z) (receipts : gmap str str)
    : res pyexn DeliveryOutcome :=
  delivery_outcome (lit kind) (lit code) (PInt retry_after) receipts.

(** A response that accepts the message, with the provider's id, or the result
    that ends the delivery. *)
Definition read_reply (status : Z) (raw_delay : str) (doc : list (pyval * pyval))
    (receipts : gmap str str) : uuid + res pyexn DeliveryOutcome :=
  if bool_decide (status = 200 ∨ status = 201) then
    match provider_id doc with
    | Some i => inl i
    | None => inr (result "uncertain" "provider_response_invalid" 0 receipts)
    end
  else if bool_decide (status = 401 ∨ status = 403)
          || named doc "daily_quota_exceeded" || named doc "monthly_quota_exceeded"
  then inr (result "blocked" "provider_configuration" 0 receipts)
  else if named doc "invalid_idempotent_request"
  then inr (result "blocked" "provider_key_conflict" 0 receipts)
  else if (status =? 429) || ((status =? 409) && named doc "concurrent_idempotent_requests")
  then inr (result "retry" "provider_busy" (busy_delay raw_delay) receipts)
  else if (500 <=? status) || (status =? 408)
  then inr (result "uncertain" "provider_unavailable" 0 receipts)
  else inr (result "permanent" "provider_request_rejected" 0 receipts).

Definition submit (answer : http_answer) (receipts : gmap str str) : uuid + res pyexn DeliveryOutcome :=
  match answer with
  | NotConnected => inr (result "retry" "provider_connection" 0 receipts)
  | HttpFailure => inr (result "uncertain" "provider_result_unknown" 0 receipts)
  | ClientRaises e => inr (Err e)
  | Reply status raw_delay chunks =>
      match read_body [] chunks with
      | None => inr (result "uncertain" "provider_response_invalid" 0 receipts)
      | Some data =>
          match document data with
          | Err e => inr (Err e)
          | Ok doc => read_reply status raw_delay doc receipts
          end
      end
  end.

Definition index_key (index : nat) : str := int_str (Z.of_nat index).

(** The loop of [send] from [index] on: the requests that are posted, with
    their index, and the result. [answers] gives what becomes of each post. *)
Fixpoint send_from (answers : nat → http_answer) (index : nat) (todo : list EmailRequest)
    (receipts : gmap str str) : list (nat * EmailRequest) * res pyexn DeliveryOutcome :=
  match todo with
  | [] => ([], result "accepted" "provider_accepted" 0 receipts)
  | request :: todo =>
      if bool_decide (is_Some (receipts !! index_key index))
      then send_from answers (S index) todo receipts
      else
        match submit (answers index) receipts with
        | inl i =>
            let '(posted, r) := send_from answers (S index) todo
                                  (<[index_key index := uuid_str i]> receipts) in
            ((index, request) :: posted, r)
        | inr r => ([(index, request)], r)
        end
  end.

Definition send (answers : nat → http_answer) (submission : EmailSubmission)
    (completed : gmap str str) : list (nat * EmailRequest) * res pyexn DeliveryOutcome :=
  send_from answers 0 (requests submission) completed.
End mail.

(** ** What one answer amounts to *)

Lemma result_Ok kind_name code_name k delay rc :
  outcome_kind (lit kind_name) = Some k → fullmatch NAME_PATTERN (lit code_name) = true →
  0 ≤ delay ≤ 3600 → result kind_name code_name delay rc = Ok (Outcome k (lit code_name) (seconds delay) rc).
Proof.
  intros Hk Hc Hd. unfold result, delivery_outcome. rewrite Hk, Hc. cbn -[Z.leb seconds].
  by replace ((0 <=? delay) && (delay <=? 3600)) with true by lia.
Qed.

Lemma busy_delay_bounds raw : 0 ≤ busy_delay raw ≤ 3600.
Proof.
  unfold busy_delay. destruct (take_digits raw 0 0) as [[v k] rest] eqn:Ht.
  apply take_digits_nonneg in Ht; [cbn|done]. destruct (_ && _); lia.
Qed.

Section answers.
Context `{MailLibrary}.

(** The provider accepted the message under an identifier. *)
Definition accepts (a : http_answer) (i : uuid) : Prop :=
  ∃ status delay chunks data doc, a = Reply status delay chunks ∧ (status = 200 ∨ status = 201) ∧
    read_body [] chunks = Some data ∧ document data = Ok doc ∧ provider_id doc = Some i.

Lemma accepts_inj a i i' : accepts a i → accepts a i' → i = i'.
Proof. intros (? & ? & ? & ? & ? & -> & _ & H1 & H2 & H3) (? & ? & ? & ? & ? & [= <- <- <-] & _ & G1 & G2 & G3). congruence. Qed.

(** The provider certainly did not take the message: no connection was made, or
    it was busy. *)
Definition untouched (a : http_answer) : Prop :=
  a = NotConnected ∨ ∃ status delay chunks, a = Reply status delay chunks ∧ (status = 429 ∨ status = 409).

(** What the adapter does not turn into a result. *)
Definition escapes (a : http_answer) (e : pyexn) : Prop :=
  a = ClientRaises e ∨ ∃ status delay chunks data, a = Reply status delay chunks ∧
    read_body [] chunks = Some data ∧ json_loads data = Err e ∧ ∀ msg, e ≠ ValueError msg.

(** A delivery that stops at an answer: what it reports. *)
Definition stops (a : http_answer) (rc : gmap str str) (r : res pyexn DeliveryOutcome) : Prop :=
  match r with
  | Ok o => kind o ≠ ACCEPTED ∧ receipts o = rc ∧ 0 ≤ retry_after o ≤ seconds 3600 ∧
            (kind o = RETRY → untouched a)
  | Err e => escapes a e
  end.

Lemma document_Err data e :
  document data = Err e → json_loads data = Err e ∧ ∀ msg, e ≠ ValueError msg.
Proof. unfold document. destruct (json_loads data) as [[]|[]]; naive_solver. Qed.

Lemma stops_result a rc kind_name code_name k delay :
  outcome_kind (lit kind_name) = Some k → fullmatch NAME_PATTERN (lit code_name) = true →
  0 ≤ delay ≤ 3600 → k ≠ ACCEPTED → (k = RETRY → untouched a) →
  stops a rc (result kind_name code_name delay rc).
Proof.
  intros Hk Hc Hd Ha Hr. rewrite (result_Ok _ _ k) by done. cbn. unfold seconds. split_and!; auto; lia.
Qed.

Ltac stops_auto :=
  eapply stops_result; [by vm_compute|by vm_compute|first [apply busy_delay_bounds|lia]|done|try done].

Lemma submit_cases a rc :
  match submit a rc with inl i => accepts a i | inr r => stops a rc r ∧ ∀ i, ¬ accepts a i end.
Proof.
  destruct a as [| |status raw chunks|e]; cbn [submit].
  - split; [stops_auto; by left|]. intros i (? & ? & ? & ? & ? & [=] & _).
  - split; [stops_auto|]. intros i (? & ? & ? & ? & ? & [=] & _).
  - destruct (read_body [] chunks) as [data|] eqn:Hb.
    2: { split; [stops_auto|]. intros i (? & ? & ? & ? & ? & [= <- <- <-] & _ & Hb' & _). congruence. }
    destruct (document data) as [doc|e] eqn:Hd.
    2: { split; [right; apply document_Err in Hd as []; by eexists _, _, _, _|].
         intros i (? & ? & ? & ? & ? & [= <- <- <-] & _ & Hb' & Hd' & _). congruence. }
    unfold read_reply. case_bool_decide as Hs.
    { destruct (provider_id doc) as [i|] eqn:Hp; [by eexists _, _, _, _, _|].
      split; [stops_auto|]. intros i (? & ? & ? & ? & ? & [= <- <- <-] & _ & Hb' & Hd' & Hp'). congruence. }
    assert (Hno : ∀ i, ¬ accepts (Reply status raw chunks) i).
    { by intros i (? & ? & ? & ? & ? & [= <- <- <-] & ? & _). }
    repeat match goal with |- context [if ?b then inr _ else _] => destruct b eqn:? end; split; try exact Hno; stops_auto.
    right. exists status, raw, chunks. split; [done|].
    match goal with Hb : (status =? 429) || _ = true |- _ =>
      apply orb_true_iff in Hb as [?|[? _]%andb_true_iff]; lia end.
  - split; [by left|]. intros i (? & ? & ? & ? & ? & [=] & _).
Qed.

(** ** The loop *)

(** The requests without a receipt, with their index. *)
Definition unresolved (index : nat) (todo : list EmailRequest) (rc : gmap str str)
    : list (nat * EmailRequest) :=
  filter (λ p, rc !! index_key p.1 = None) (zip (List.seq index (length todo)) todo).

(** The receipts once [done] is accepted: those before, and one for each. *)
Definition receipted (answers : nat → http_answer) (done : list (nat * EmailRequest))
    (rc rc' : gmap str str) : Prop :=
  (∀ j, j ∈ done.*1 → ∃ i, accepts (answers j) i ∧ rc' !! index_key j = Some (uuid_str i)) ∧
  ∀ key, (∀ j, j ∈ done.*1 → key ≠ index_key j) → rc' !! key = rc !! key.

(** The delivery after [done]: complete, or stopped by the answer to the first
    of [rest]. *)
Definition concluded (answers : nat → http_answer) (rest : list (nat * EmailRequest))
    (rc : gmap str str) (r : res pyexn DeliveryOutcome) : Prop :=
  match rest with
  | [] => r = Ok (Outcome ACCEPTED (lit "provider_accepted") 0 rc)
  | (j, _) :: _ => stops (answers j) rc r ∧ ∀ i, ¬ accepts (answers j) i
  end.

Lemma unresolved_later index todo rc i : 
  unresolved (S index) todo (<[index_key index := i]> rc) = unresolved (S index) todo rc.
Proof.
  unfold unresolved. apply filter_agree. intros [j r] Hj%elem_of_zip_l. cbn.
  apply elem_of_seq in Hj. rewrite lookup_insert_ne; [done|]. intros He%(inj index_key). lia.
Qed.

Lemma send_from_spec answers todo index rc :
  ∃ done rest rc', unresolved index todo rc = done ++ rest ∧
    (send_from answers index todo rc).1 = done ++ take 1 rest ∧
    receipted answers done rc rc' ∧ concluded answers rest rc' (send_from answers index todo rc).2.
Proof.
  revert index rc. induction todo as [|r todo IH]; intros index rc.
  - exists [], [], rc. split_and!; try done. split; [by intros j Hj%elem_of_nil|done].
  - unfold unresolved. cbn [length List.seq zip zip_with send_from].
    case_bool_decide as Hr.
    + rewrite filter_cons_False by (cbn; intros He; rewrite He in Hr; by destruct Hr). apply IH.
    + rewrite filter_cons_True by (by apply eq_None_not_Some).
      pose proof (submit_cases (answers index) rc) as Hs. destruct (submit (answers index) rc) as [i|out].
      * destruct (IH (S index) (<[index_key index := uuid_str i]> rc)) as (done & rest & rc' & Hu & Hp & [Hd Hk] & Hc).
        rewrite unresolved_later in Hu. fold (unresolved (S index) todo rc). rewrite Hu.
        destruct (send_from answers (S index) todo _) as [posted out]. cbn [fst snd] in *.
        exists ((index, r) :: done), rest, rc'. split_and!; [done|by rewrite Hp| |done].
        assert (Hnew : index ∉ done.*1).
        { intros (p & Hp0 & Hin)%list_elem_of_fmap. assert (Hin' : p ∈ unresolved (S index) todo rc) by (rewrite Hu; set_solver).
          apply list_elem_of_filter in Hin' as [_ Hz]. destruct p. apply elem_of_zip_l, elem_of_seq in Hz. cbn in Hp0. lia. }
        split.
        -- intros j [->|Hj]%elem_of_cons; [|by apply Hd]. exists i. split; [done|].
           rewrite Hk; [apply lookup_insert_eq|]. intros j Hj He%(inj index_key). by subst.
        -- intros key Hkey. rewrite Hk by (intros j Hj; apply Hkey; by right).
           rewrite lookup_insert_ne; [done|]. intros He. by apply (Hkey index); [left|].
      * exists [], ((index, r) :: unresolved (S index) todo rc), rc.
        split_and!; try done. split; [by intros j Hj%elem_of_nil|done].
Qed.
End answers.

(** ** Rounds of a delivery *)

Section rounds.
Context `{MailLibrary} (submission : EmailSubmission).

Definition open_requests (rc : gmap str str) : list (nat * EmailRequest) :=
  unresolved 0 (requests submission) rc.

(** What a call of [send] leaves on the row: the receipts of its result; a call
    that raises leaves those from before. *)
Definition round (answers : nat → http_answer) (rc : gmap str str) : gmap str str :=
  match (send answers submission rc).2 with Ok o => receipts o | Err _ => rc end.

Definition rounds (ls : list (nat → http_answer)) (rc : gmap str str) : gmap str str :=
  foldl (λ rc answers, round answers rc) rc ls.

Lemma concluded_receipts answers rest rc r :
  concluded answers rest rc r → match r with Ok o => receipts o = rc | Err _ => True end.
Proof.
  destruct rest as [|[j x] rest]; cbn; [by intros ->|]. intros [Hs _].
  destruct r as [o|e]; [|done]. by destruct Hs as (_ & ? & _).
Qed.

Lemma receipted_grows answers done rc rc' rest :
  open_requests rc = done ++ rest → receipted answers done rc rc' → rc ⊆ rc'.
Proof.
  intros Hu [_ Hk]. apply map_subseteq_spec. intros key v Hv. rewrite Hk; [done|].
  intros j (p & -> & Hp)%list_elem_of_fmap ->.
  assert (Hin : p ∈ open_requests rc) by (rewrite Hu; set_solver).
  apply list_elem_of_filter in Hin as [Hn _]. congruence.
Qed.

Lemma round_grows answers rc : rc ⊆ round answers rc.
Proof.
  unfold round, send. destruct (send_from_spec answers (requests submission) 0 rc)
    as (done & rest & rc' & Hu & _ & Hr & Hc).
  apply concluded_receipts in Hc. destruct (send_from _ _ _ _).2; [subst|done].
  by eapply receipted_grows.
Qed.

Lemma rounds_grow ls rc : rc ⊆ rounds ls rc.
Proof.
  revert rc. induction ls as [|a ls IH]; intros rc; [done|].
  etrans; [apply (round_grows a)|apply IH].
Qed.

(** With nothing left to do, nothing is posted. *)
Lemma send_complete answers rc :
  open_requests rc = [] →
  send answers submission rc = ([], Ok (Outcome ACCEPTED (lit "provider_accepted") 0 rc)).
Proof.
  intros Ho. unfold send. destruct (send_from_spec answers (requests submission) 0 rc)
    as (done & rest & rc' & Hu & Hp & Hr & Hc).
  unfold open_requests in Ho. rewrite Ho in Hu. symmetry in Hu. apply app_eq_nil in Hu as [-> ->].
  destruct Hr as [_ Hk]. assert (rc' = rc) as -> by (apply map_eq; intros; apply Hk; by intros j Hj%elem_of_nil).
  destruct (send_from _ _ _ _) as [l r]; cbn in *. by subst.
Qed.

Lemma open_shrinks rc rc' : rc ⊆ rc' → open_requests rc' ⊆ open_requests rc.
Proof.
  intros Hs p. unfold open_requests, unresolved. rewrite !list_elem_of_filter. intros [Hn Hp]. split; [|done].
  eapply lookup_weaken_None; eauto.
Qed.

Lemma open_NoDup rc : NoDup (open_requests rc).*1.
Proof.
  unfold open_requests, unresolved. eapply sublist_NoDup; [|apply fmap_sublist, sublist_filter].
  rewrite fst_zip; [apply NoDup_seq|]. by rewrite length_seq.
Qed.

(** A round gets something done: its call returns, and the first request it
    posts, if any, is accepted. *)
Definition advances (answers : nat → http_answer) (rc : gmap str str) : Prop :=
  is_ok (send answers submission rc).2 = true ∧
  match open_requests rc with [] => True | (j, _) :: _ => ∃ i, accepts (answers j) i end.

Fixpoint advancing (ls : list (nat → http_answer)) (rc : gmap str str) : Prop :=
  match ls with [] => True | a :: ls => advances a rc ∧ advancing ls (round a rc) end.

Lemma advance_shrinks answers rc :
  advances answers rc → open_requests rc ≠ [] →
  (length (open_requests (round answers rc)) < length (open_requests rc))%nat.
Proof.
  intros [Hok Ha] Hne. destruct (open_requests rc) as [|[j x] todo] eqn:Ho; [done|].
  assert (Hsub : open_requests (round answers rc) ⊆ todo).
  { intros p Hp. pose proof (open_shrinks _ _ (round_grows answers rc) p Hp) as Hin. rewrite Ho in Hin.
    apply elem_of_cons in Hin as [->|Hin]; [exfalso|done].
    unfold round, send in *. destruct (send_from_spec answers (requests submission) 0 rc)
      as (done & rest & rc' & Hu & _ & [Hd _] & Hc).
    unfold open_requests in Ho. rewrite Ho in Hu.
    destruct done as [|p done]; cbn in Hu.
    { rewrite <-Hu in Hc. destruct Hc as [_ Hno]. destruct Ha as [i Hi]. by apply (Hno i). }
    injection Hu as <- _. destruct (Hd j) as (i & _ & Hj); [by left|].
    apply concluded_receipts in Hc. destruct (send_from _ _ _ _).2; [|done]. subst rc'.
    unfold open_requests, unresolved in Hp. apply list_elem_of_filter in Hp as [Hp _]. cbn in Hp. congruence. }
  pose proof (open_NoDup (round answers rc)) as Hnd.
  assert (Hlen : (length (open_requests (round answers rc)).*1 ≤ length todo.*1)%nat).
  { apply submseteq_length, NoDup_submseteq; [done|]. intros i (p & -> & Hp)%list_elem_of_fmap.
    apply list_elem_of_fmap. eauto. }
  rewrite !length_fmap in Hlen. cbn. lia.
Qed.

(** So enough advancing rounds leave nothing open. *)
Lemma advancing_closes ls rc :
  advancing ls rc → (length (open_requests rc) ≤ length ls)%nat → open_requests (rounds ls rc) = [].
Proof.
  revert rc. induction ls as [|a ls IH]; intros rc Hadv Hlen.
  - apply nil_length_inv. cbn [length] in Hlen. by apply Nat.le_0_r in Hlen.
  - destruct Hadv as [Ha Hadv]. apply (IH (round a rc)); [done|].
    destruct (decide (open_requests rc = [])) as [He|Hne].
    + pose proof (open_shrinks _ _ (round_grows a rc)) as Hs. rewrite He in Hs.
      destruct (open_requests (round a rc)) as [|p l]; [cbn; lia|].
      exfalso. eapply not_elem_of_nil, (Hs p). by left.
    + pose proof (advance_shrinks a rc Ha Hne). cbn in Hlen. lia.
Qed.
End rounds.

Lemma send_posts `{MailLibrary} answers submission rc posted r :
  send answers submission rc = (posted, r) →
  posted `sublist_of` open_requests submission rc ∧
  ∀ j x, (j, x) ∈ posted → requests submission !! j = Some x ∧ rc !! index_key j = None.
Proof.
  intros Hs. unfold send in Hs. destruct (send_from_spec answers (requests submission) 0 rc)
    as (done & rest & rc' & Hu & Hp & _). rewrite Hs in Hp. cbn [fst] in Hp.
  assert (Hsub : posted `sublist_of` open_requests submission rc).
  { unfold open_requests. rewrite Hu, Hp. by apply sublist_app; [|apply sublist_take]. }
  split; [done|]. intros j x Hj.
  assert (Hin : (j, x) ∈ open_requests submission rc) by (eapply elem_of_sublist; eauto).
  apply list_elem_of_filter in Hin as [Hn (i & Hi)%list_elem_of_lookup]. split; [|done].
  apply lookup_zip_Some in Hi as [Hj' Hx]. apply lookup_seq in Hj' as [-> _]. done.
Qed.

(** ** Fingerprints *)

Lemma to_bytes_length n z : length (to_bytes n z) = n.
Proof. revert z. induction n; intros z; cbn; [done|]. rewrite length_app, IHn. cbn. lia. Qed.

Lemma to_bytes_inj n a b : to_bytes n a = to_bytes n b → a mod 256 ^ Z.of_nat n = b mod 256 ^ Z.of_nat n.
Proof.
  revert a b. induction n as [|n IH]; intros a b; [by rewrite !Z.mod_1_r|].
  cbn [to_bytes]. intros [H Hd]%app_inj_tail.
  rewrite Nat2Z.inj_succ, Z.pow_succ_r, !Z.rem_mul_r by lia.
  rewrite (IH _ _ H). f_equal.
  pose proof (Z.mod_pos_bound a 256). pose proof (Z.mod_pos_bound b 256). lia.
Qed.

Lemma hex_inj n a b : hex n a = hex n b → a mod 16 ^ Z.of_nat n = b mod 16 ^ Z.of_nat n.
Proof.
  intros H. pose proof (hex_digits_hex n a true 0 []) as Ha. pose proof (hex_digits_hex n b true 0 []) as Hb.
  rewrite H, Hb in Ha. destruct n; [by rewrite !Z.mod_1_r|]. cbn [hex_digits] in Ha. injection Ha. lia.
Qed.

Lemma canonical_cons b bs :
  canonical (b :: bs) = to_bytes 8 (Z.of_nat (length b)) ++ b ++ canonical bs.
Proof. unfold canonical. cbn [mbind list_bind]. by rewrite <-app_assoc. Qed.

Lemma canonical_inj bs bs' :
  Forall (λ b, Z.of_nat (length b) < 256 ^ 8) bs → Forall (λ b, Z.of_nat (length b) < 256 ^ 8) bs' →
  canonical bs = canonical bs' → bs = bs'.
Proof.
  intros Hbs. revert bs'. induction Hbs as [|b bs Hb _ IH]; intros [|b' bs'] Hbs'; [done|..].
  - intros H%(f_equal length). rewrite canonical_cons, length_app, to_bytes_length in H. cbn in H. lia.
  - intros H%(f_equal length). rewrite canonical_cons, length_app, to_bytes_length in H. cbn in H. lia.
  - apply Forall_cons in Hbs' as [Hb' Hbs']. rewrite !canonical_cons.
    intros [H1 H2]%app_inj_1; [|by rewrite !to_bytes_length].
    apply to_bytes_inj in H1. rewrite !Z.mod_small in H1 by lia. apply Nat2Z.inj in H1.
    apply app_inj_1 in H2 as [-> H2]; [|done]. f_equal. by apply IH.
Qed.

Lemma prepared_fingerprint `{MailLibrary} hmac settings m s :
  prepare hmac settings m = Ok s →
  submission_fingerprint s = hex 64 (hmac (utf8 (fingerprint_key settings))
                                       (canonical (request_body <$> requests s))).
Proof. unfold prepare. intros (snapshot & _ & [= <-])%bind_Ok. done. Qed.

(** ** Properties *)

(** C16: One call of [send] posts, in order, exactly the requests that have no
    receipt yet, up to and including the first that is not accepted, and each
    of them once. It never reports a request it did not see accepted: the
    receipts are those it was given and one, with the provider's identifier,
    for every accepted post. The result is an acceptance exactly when every
    request has a receipt; otherwise it is the refusal of the answer it stopped
    at, with a delay of at most an hour, and a plain retry is reported only when
    the provider certainly did not take the message. Nothing is raised but what
    the HTTP client or the JSON decoder raises beyond their documented errors. *)
Theorem send_correct `{MailLibrary} answers submission rc posted r :
  send answers submission rc = (posted, r) →
  ∃ done rest rc', open_requests submission rc = done ++ rest ∧
    posted = done ++ take 1 rest ∧ NoDup posted.*1 ∧
    (∀ j x, (j, x) ∈ posted → requests submission !! j = Some x ∧ rc !! index_key j = None) ∧
    receipted answers done rc rc' ∧ rc ⊆ rc' ∧ concluded answers rest rc' r ∧
    ((∃ o, r = Ok o ∧ kind o = ACCEPTED) ↔ rest = []).
Proof.
  intros Hs. destruct (send_posts _ _ _ _ _ Hs) as [Hsub Hposts]. unfold send in Hs.
  destruct (send_from_spec answers (requests submission) 0 rc)
    as (done & rest & rc' & Hu & Hp & Hr & Hc). rewrite Hs in Hp, Hc. cbn [fst snd] in Hp, Hc.
  exists done, rest, rc'. split_and!; try done.
  - eapply sublist_NoDup; [apply (open_NoDup submission rc)|by apply fmap_sublist].
  - by eapply receipted_grows.
  - split.
    + intros (o & -> & Ho). destruct rest as [|[j x] rest]; [done|]. by destruct Hc as [(? & _) _].
    + intros ->. cbn in Hc. eauto.
Qed.

(** What a call that returns saw accepted, it reports. *)
Lemma send_reports `{MailLibrary} answers submission rc posted o j i :
  send answers submission rc = (posted, Ok o) → j ∈ posted.*1 → accepts (answers j) i →
  receipts o !! index_key j = Some (uuid_str i).
Proof.
  intros Hs Hj Hi. unfold send in Hs.
  destruct (send_from_spec answers (requests submission) 0 rc) as (done & rest & rc' & _ & Hp & [Hd _] & Hc).
  rewrite Hs in Hp, Hc. cbn [fst snd] in Hp, Hc. pose proof (concluded_receipts _ _ _ _ Hc) as Hrc. cbn in Hrc. subst posted rc'.
  rewrite fmap_app in Hj. apply elem_of_app in Hj as [Hj|Hj].
  - destruct (Hd j Hj) as (i' & Hi' & ->). by rewrite (accepts_inj _ _ _ Hi Hi').
  - destruct rest as [|[k x] rest]; cbn in Hj; [by apply not_elem_of_nil in Hj|].
    apply list_elem_of_singleton in Hj as ->. by destruct (proj2 Hc i).
Qed.

(** C17: A delivery ends, and no request is accepted twice in reported calls.
    Over any history of calls of [send], each with the receipts of the calls
    before it as the worker keeps them - calls that were refused, interrupted or
    raised included - a request that a call posts, sees accepted and lives to
    report has its receipt in that report, and no later call posts it again,
    whatever happens in between. And if in every round the call returns and the
    first request it posts is accepted, then after as many rounds as there were
    requests without a receipt, at the latest, every request has one, and a call
    posts nothing and reports the acceptance of them all. *)
Theorem rounds_terminate `{MailLibrary} submission rc ls :
  (∀ a posted o j i, send a submission (rounds submission ls rc) = (posted, Ok o) → j ∈ posted.*1 → accepts (a j) i →
     receipts o !! index_key j = Some (uuid_str i) ∧
     ∀ later b, j ∉ (send b submission (rounds submission (ls ++ a :: later) rc)).1.*1) ∧
  (advancing submission ls rc → (length (open_requests submission rc) ≤ length ls)%nat →
     (∀ answers, send answers submission (rounds submission ls rc)
        = ([], Ok (Outcome ACCEPTED (lit "provider_accepted") 0 (rounds submission ls rc)))) ∧
     ∀ j x, requests submission !! j = Some x → is_Some (rounds submission ls rc !! index_key j)).
Proof.
  split.
  - intros a posted o j i Hs Hj Hi. pose proof (send_reports _ _ _ _ _ _ _ Hs Hj Hi) as Hr. split; [done|].
    intros later b Hin. unfold rounds in Hin. rewrite foldl_app in Hin. cbn [foldl] in Hin.
    fold (rounds submission ls rc) in Hin.
    assert (Hrd : round submission a (rounds submission ls rc) = receipts o) by (unfold round; by rewrite Hs).
    rewrite Hrd in Hin. fold (rounds submission later (receipts o)) in Hin.
    pose proof (lookup_weaken _ _ _ _ Hr (rounds_grow submission later (receipts o))) as Hg.
    destruct (send b submission _) as [posted' r] eqn:Hs'. apply send_posts in Hs'.
    apply list_elem_of_fmap in Hin as ([j' x] & -> & Hin). apply Hs' in Hin as [_ Hn]. cbn in Hg. congruence.
  - intros Hadv Hlen. pose proof (advancing_closes submission ls rc Hadv Hlen) as Hopen.
    split; [by intros; apply send_complete|]. intros j x Hx. apply not_eq_None_Some. intros Hn.
    assert (Hin : (j, x) ∈ open_requests submission (rounds submission ls rc));
      [|by rewrite Hopen in Hin; apply not_elem_of_nil in Hin].
    apply list_elem_of_filter. split; [done|]. apply list_elem_of_lookup. exists j.
    apply lookup_zip_Some. split; [|done]. apply lookup_seq. split; [done|]. by eapply lookup_lt_Some.
Qed.

(** The fingerprint bound to a message pins the bytes that are sent: two
    messages prepared under the same key with the same fingerprint have the
    same request bodies, in the same order and number - unless HMAC collides on
    the two framed contents. The framing itself loses nothing: each body stands
    behind its length in eight bytes. *)
Theorem fingerprint_pins_content `{MailLibrary} hmac settings m1 m2 s1 s2 :
  prepare hmac settings m1 = Ok s1 → prepare hmac settings m2 = Ok s2 →
  let content s := canonical (request_body <$> requests s) in
  let key := utf8 (fingerprint_key settings) in
  (hmac key (content s1) mod 2 ^ 256 = hmac key (content s2) mod 2 ^ 256 → content s1 = content s2) →
  Forall (λ r, Z.of_nat (length (request_body r)) < 2 ^ 64) (requests s1 ++ requests s2) →
  submission_fingerprint s1 = submission_fingerprint s2 →
  request_body <$> requests s1 = request_body <$> requests s2.
Proof.
  intros H1 H2 content key Hcoll [Hl1 Hl2]%Forall_app Hf.
  apply canonical_inj; [by apply Forall_fmap..|]. apply Hcoll.
  rewrite (prepared_fingerprint _ _ _ _ H1), (prepared_fingerprint _ _ _ _ H2) in Hf.
  exact (hex_inj 64 _ _ Hf).
Qed.

(** ** Witnesses *)

Definition demo_library : MailLibrary := {|
  email_str := Some; fold_case := fmap ascii_lower;
  json_loads := λ data, Ok (PDict [(PStr (lit "id"), PStr data)]) |}.
Definition demo_hmac (key message : list N) : Z :=
  foldl (λ h b, (h * 31 + Z.of_N b) mod 2 ^ 61) 7 (key ++ message).
Definition demo_resend : ResendSettings :=
  NewResendSettings (lit "re_1") (lit "shop@ekumi.ng") (replicate 32 107%N) (FFin 10 0).
Definition demo_mail (i : uuid) : OutgoingEmail :=
  NewEmail i [lit "ada@ekumi.ng"; lit "bola@ekumi.ng"] (lit "Hello") (lit "Line 1") None.
Definition demo_requests (i : uuid) : list EmailRequest :=
  imap (λ n a, NewRequest (email_key i n) (wire demo_resend (demo_mail i) a)) (recipients (demo_mail i)).
Definition demo_submission (i : uuid) : EmailSubmission :=
  NewSubmission (demo_requests i)
    (hex 64 (demo_hmac (replicate 32 107%N) (canonical (request_body <$> demo_requests i)))).

(** The first recipient is accepted, the second meets a busy provider; then the
    second is accepted too. *)
Definition demo_answers (r : nat) (j : nat) : http_answer :=
  match r, j with
  | _, O => Reply 200 [] [uuid_str 77]
  | O, _ => Reply 429 (lit "90") [lit "busy"]
  | _, _ => Reply 201 [] [uuid_str 78]
  end.

Example demo_prepared : let _ := demo_library in
  prepare demo_hmac demo_resend (demo_mail 5) = Ok (demo_submission 5).
Proof. by vm_compute. Qed.

Example demo_wire : wire demo_resend (demo_mail 5) (lit "ada@ekumi.ng")
  = lit "{'from':'shop@ekumi.ng','subject':'Hello','text':'Line 1','to':['ada@ekumi.ng']}"
    ≫= λ c, if (c =? 39)%N then [34%N] else [c].
Proof. by vm_compute. Qed.

Lemma send_correct_witness : let _ := demo_library in
  let busy := Outcome RETRY (lit "provider_busy") (seconds 90) {[lit "0" := uuid_str 77]} in
  let posted := zip (List.seq 0 2) (demo_requests 5) in
  send (demo_answers 0) (demo_submission 5) ∅ = (posted, Ok busy) ∧ NoDup posted.*1.
Proof.
  intros L busy posted.
  assert (Hs : send (demo_answers 0) (demo_submission 5) ∅ = (posted, Ok busy)) by (vm_compute; reflexivity).
  split; [exact Hs|].
  by destruct (@send_correct demo_library (demo_answers 0) (demo_submission 5) ∅ posted (Ok busy) Hs)
    as (_ & _ & _ & _ & _ & Hnd & _).
Defined.

Lemma demo_accepts t text i :
  t = 200 ∨ t = 201 → (Z.of_nat (length text) <=? 16384) = true → uuid_of text = Some i →
  accepts (H:=demo_library) (Reply t [] [text]) i.
Proof.
  intros Ht Hl Hu. exists t, [], [text], text, [(PStr (lit "id"), PStr text)]. split_and!; try done.
  cbn [read_body app]. by replace (16384 <? Z.of_nat (length text)) with false by lia.
Qed.

(** The first recipient is not mailed again after the busy round, whoever calls. *)
Lemma rounds_terminate_witness : let _ := demo_library in
  let rc := rounds (demo_submission 5) [demo_answers 0; demo_answers 1] ∅ in
  send (demo_answers 0) (demo_submission 5) rc = ([], Ok (Outcome ACCEPTED (lit "provider_accepted") 0 rc)) ∧
  0%nat ∉ (send (demo_answers 1) (demo_submission 5) (rounds (demo_submission 5) [demo_answers 0] ∅)).1.*1.
Proof.
  intros L rc. split.
  - refine (proj1 (proj2 (@rounds_terminate demo_library (demo_submission 5) ∅ [demo_answers 0; demo_answers 1]) _ _) _).
    + split; [split; [by vm_compute|]|split; [split; [by vm_compute|]|done]].
      * change (match open_requests (demo_submission 5) ∅ with [] => True | (j, _) :: _ => ∃ i, accepts (demo_answers 0 j) i end)
          with (∃ i, accepts (demo_answers 0 0) i).
        exists 77. apply demo_accepts; [by left|by vm_compute|by vm_compute].
      * replace (open_requests (demo_submission 5) (round (demo_submission 5) (demo_answers 0) ∅))
          with (drop 1 (zip (List.seq 0 2) (demo_requests 5))) by (by vm_compute).
        exists 78. apply demo_accepts; [by right|by vm_compute|by vm_compute].
    + vm_compute. lia.
  - refine (proj2 (proj1 (@rounds_terminate demo_library (demo_submission 5) ∅ []) (demo_answers 0)
      (zip (List.seq 0 2) (demo_requests 5))
      (Outcome RETRY (lit "provider_busy") (seconds 90) {[lit "0" := uuid_str 77]}) 0%nat 77 _ _ _) [] (demo_answers 1)).
    + vm_compute. reflexivity.
    + left.
    + apply demo_accepts; [by left|by vm_compute|by vm_compute].
Defined.

Lemma fingerprint_pins_content_witness :
  request_body <$> requests (demo_submission 5) = request_body <$> requests (demo_submission 6).
Proof.
  refine (@fingerprint_pins_content demo_library demo_hmac demo_resend (demo_mail 5) (demo_mail 6)
    (demo_submission 5) (demo_submission 6) _ _ _ _ _); [by vm_compute|by vm_compute|by vm_compute| |by vm_compute].
  apply Forall_forall. intros r Hr.
  assert (Hall : forallb (λ r, Z.of_nat (length (request_body r)) <? 2 ^ 64)
    (requests (demo_submission 5) ++ requests (demo_submission 6)) = true) by (by vm_compute).
  rewrite forallb_forall in Hall. apply Z.ltb_lt, Hall. by apply list_elem_of_In.
Defined.
