(* ===== verification/ChallengeMail.v ===== *)
(** * Challenge mail (auth/email_handler.py)

    The handler that the leased worker asks to prepare and deliver the mail of a
    challenge: who is eligible, what the mail says, and that the code it carries
    is the one that is accepted. *)

From S2P Require Import Prelude Regex PyValues CoreTypes AuditTrail AuditSpecs Events Errors ErrorSpecs Texts Outbox Delivery OutboxLifecycle EmailDelivery Identity Sessions Passwords AuthEvents Challenges AuthService Histories ChallengeSpecs.

(** [PreparedDelivery.payload] is any object; the handler asks for its own. *)
Inductive PreparedPayload :=
| EmailPayload (s : EmailSubmission)
| OtherPayload.

(** The brand name in the subjects is outside ASCII. *)
Definition brand : str := [7864; 107; 250; 109; 105; 100; 225; 121; 7885; 768; 109; 237]%N.
Definition mail_subject (purpose : ChallengePurpose) : str :=
  brand ++ match purpose with
           | REGISTRATION => lit " verification code"
           | PASSWORD_RESET => lit " password reset code"
           end.

Definition mail_text (purpose : ChallengePurpose) (code : str) : str :=
  lit "Your " ++ ((λ c, if (c =? 95)%N then 32%N else c) <$> purpose_value purpose) ++ lit " code is "
  ++ code ++ lit "." ++ [10%N]
  ++ lit "It expires shortly. If you did not request it, ignore this message.".

(** The identifier that the event names, when the event is a well-formed request
    for that challenge. *)
Definition event_challenge (event : DomainEvent) : option uuid :=
  match snd <$> find (λ kv, bool_decide (kv.1 = lit "challenge_id")) (event_payload event) with
  | Some (JStr raw_id) =>
      challenge_id ← uuid_of raw_id;
      if bool_decide (event_type event = EMAIL_CHALLENGE_REQUESTED)
         && bool_decide (aggregate_type event = lit "email_challenge")
         && bool_decide (aggregate_id event = challenge_id)
      then Some challenge_id else None
  | _ => None
  end.

Section handler.
Context `{Platform} `{MailLibrary} (resend : ResendSettings).

Definition challenge_email (challenge : EmailChallenge.t) (delivery : uuid) (purpose : ChallengePurpose)
    (code : str) : OutgoingEmail :=
  NewEmail delivery [EmailChallenge.email challenge] (mail_subject purpose) (mail_text purpose code) None.

Definition build_email (settings : AuthSettings) (challenge : EmailChallenge.t) (delivery : uuid)
    : M OutgoingEmail :=
  purpose ← challenge_purpose challenge;
  code ← derive_code hmac_sha256 challenge settings;
  lift (outgoing_email (challenge_email challenge delivery purpose code)).

(** [now] is the clock of the database; nothing is written. *)
Definition prepare_challenge (settings : AuthSettings) (now : datetime) (event : DomainEvent)
    : M (PreparedDelivery PreparedPayload + DeliveryOutcome) :=
  let refused kind code := (o ← lift (EmailDelivery.result kind code 0 ∅); mret (inr o)) in
  match event_challenge event with
  | None => refused "permanent" "invalid_challenge_event"
  | Some challenge_id =>
      d ← get;
      match challenges d !! challenge_id with
      | None => refused "skipped" "challenge_unavailable"
      | Some row =>
          if negb (bool_decide (EmailChallenge.consumed_at row = None))
             || (EmailChallenge.expires_at row <=? now)
          then refused "skipped" "challenge_unavailable"
          else if bool_decide (purpose_of (EmailChallenge.purpose row) = None)
          then refused "permanent" "invalid_challenge_purpose"
          else if bool_decide (challenge_keys settings !! EmailChallenge.key_version row = None)
          then refused "blocked" "challenge_key_missing"
          else
            outgoing ← build_email settings row (event_id event);
            submission ← lift (EmailDelivery.prepare hmac_sha256 resend outgoing);
            mret (inl (Prepared (EmailPayload submission) (submission_fingerprint submission)
                         (EmailChallenge.expires_at row)))
      end
  end.

Definition deliver (answers : nat → http_answer) (prepared : PreparedDelivery PreparedPayload)
    (completed : gmap str str) : list (nat * EmailRequest) * res pyexn DeliveryOutcome :=
  match prepared_payload prepared with
  | EmailPayload submission => send answers submission completed
  | OtherPayload => ([], EmailDelivery.result "permanent" "invalid_prepared_delivery" 0 ∅)
  end.
End handler.

(** ** Codes and texts *)

Lemma encodable_app s1 s2 : encodable (s1 ++ s2) = encodable s1 && encodable s2.
Proof. apply forallb_app. Qed.

Lemma encodable_digits s : Forall (λ c, in_cls [digit] c = true) s → encodable s = true.
Proof.
  intros Hs. apply forallb_forall. intros c Hc%list_elem_of_In.
  rewrite Forall_forall in Hs. apply Hs in Hc. apply existsb_exists in Hc as (r & [<-|[]] & Hb%andb_true_iff).
  destruct Hb as [_ Hb%N.leb_le]. cbn in Hb. rewrite negb_true_iff, andb_false_iff, !N.leb_gt. left. lia.
Qed.

Section mail.
Context `{Platform} `{MailLibrary} (resend : ResendSettings).

(** The code of a row under its key. *)
Definition code_of (key : str) (row : EmailChallenge.t) (purpose : ChallengePurpose) : str :=
  digits 6 (hmac_sha256 (utf8 key) (utf8 (lit "deliver:" ++ uuid_str (EmailChallenge.id row) ++ lit ":"
                                           ++ purpose_value purpose)) mod 1000000).

Lemma derive_code_eq settings row purpose key t :
  purpose_of (EmailChallenge.purpose row) = Some purpose →
  challenge_keys settings !! EmailChallenge.key_version row = Some key →
  derive_code hmac_sha256 row settings t = (Ok (code_of key row purpose), t).
Proof.
  intros Hp Hk. unfold derive_code, challenge_purpose, key_bytes, mbind, M_bind. by rewrite Hp, Hk.
Qed.

(** The mail of a challenge is valid whenever its address still is. *)
Lemma challenge_email_valid email delivery purpose code address :
  email_str email = Some address →
  length code = 6%nat → Forall (λ c, in_cls [digit] c = true) code →
  outgoing_email (NewEmail delivery [email] (mail_subject purpose) (mail_text purpose code) None)
  = Ok (NewEmail delivery [address] (mail_subject purpose) (mail_text purpose code) None).
Proof.
  intros Ha Hl Hc. unfold outgoing_email. cbn [recipients subject text_body html_body delivery_id].
  unfold email_address. cbn [traverse]. rewrite Ha. cbn [mbind res_bind mret res_ret require].
  replace (validate_recipients [address]) with (Ok (E:=pyexn) [address])
    by (unfold validate_recipients; cbn [fmap list_fmap length remove_dups];
        by destruct (decide_rel _ _ _) as [[]%elem_of_nil|]).
  replace (length_in 1 200 (mail_subject purpose)) with true by (by destruct purpose; vm_compute).
  replace (validate_subject (mail_subject purpose)) with (Ok (E:=pyexn) (mail_subject purpose))
    by (by destruct purpose; vm_compute).
  replace (length_in 1 131072 (mail_text purpose code)) with true; [done|].
  unfold length_in, mail_text. rewrite !encodable_app, (encodable_digits code), !length_app, Hl by done.
  by destruct purpose; vm_compute.
Qed.
End mail.

(** ** Eligibility *)

Section gate.
Context `{Platform} `{MailLibrary} (resend : ResendSettings).

(** The challenge that may be mailed for an event, with its purpose and key. *)
Definition mailable (settings : AuthSettings) (now : datetime) (event : DomainEvent) (d : db)
    (row : EmailChallenge.t) (purpose : ChallengePurpose) (key : str) : Prop :=
  ∃ i, event_challenge event = Some i ∧ challenges d !! i = Some row ∧
    EmailChallenge.consumed_at row = None ∧ now < EmailChallenge.expires_at row ∧
    purpose_of (EmailChallenge.purpose row) = Some purpose ∧
    challenge_keys settings !! EmailChallenge.key_version row = Some key.

(** Why an event is not mailed. *)
Definition refusal (settings : AuthSettings) (now : datetime) (event : DomainEvent) (d : db)
    (o : DeliveryOutcome) : Prop :=
  match event_challenge event with
  | None => o = worker_outcome PERMANENT "invalid_challenge_event"
  | Some i =>
      match challenges d !! i with
      | None => o = worker_outcome OSKIPPED "challenge_unavailable"
      | Some row =>
          (EmailChallenge.consumed_at row ≠ None ∨ EmailChallenge.expires_at row <= now) ∧
            o = worker_outcome OSKIPPED "challenge_unavailable" ∨
          EmailChallenge.consumed_at row = None ∧ now < EmailChallenge.expires_at row ∧
            (purpose_of (EmailChallenge.purpose row) = None ∧
               o = worker_outcome PERMANENT "invalid_challenge_purpose" ∨
             purpose_of (EmailChallenge.purpose row) ≠ None ∧
               challenge_keys settings !! EmailChallenge.key_version row = None ∧
               o = worker_outcome OBLOCKED "challenge_key_missing")
      end
  end.

(** The one request of a challenge mail. *)
Definition challenge_request (row : EmailChallenge.t) (delivery : uuid) (purpose : ChallengePurpose)
    (code address : str) : EmailRequest :=
  NewRequest (email_key delivery 0)
    (wire resend (NewEmail delivery [address] (mail_subject purpose) (mail_text purpose code) None) address).

Lemma prepare_challenge_mail settings now event row purpose key t :
  mailable settings now event (pending t) row purpose key →
  prepare_challenge resend settings now event t =
    (match (a ← email_str (EmailChallenge.email row); email_str a) with
     | Some address =>
         let r := challenge_request row (event_id event) purpose (code_of key row purpose) address in
         let f := hex 64 (hmac_sha256 (utf8 (fingerprint_key resend)) (canonical [request_body r])) in
         Ok (inl (Prepared (EmailPayload (NewSubmission [r] f)) f (EmailChallenge.expires_at row)))
     | None => Err (Internal (ValueError "email"))
     end, t).
Proof.
  intros (i & He & Hr & Hc & Hx & Hp & Hk). unfold prepare_challenge. rewrite He.
  unfold mbind at 1, M_bind at 1, get at 1. rewrite Hr, Hc, Hp, Hk.
  replace (EmailChallenge.expires_at row <=? now) with false by lia.
  cbn [negb orb]. rewrite bool_decide_eq_true_2 by done. cbn [negb orb].
  rewrite !bool_decide_eq_false_2 by done.
  unfold build_email, challenge_purpose. rewrite Hp.
  unfold mbind at 1, M_bind at 1. unfold mbind at 1, M_bind at 1. unfold mret at 1, M_ret at 1.
  unfold mbind at 1, M_bind at 1. rewrite (derive_code_eq _ _ _ _ _ Hp Hk).
  set (c := code_of key row purpose).
  assert (Hc6 : length c = 6%nat) by apply digits_length.
  assert (Hcd : Forall (λ c, in_cls [digit] c = true) c) by apply digits_chars.
  unfold challenge_email. destruct (email_str (EmailChallenge.email row)) as [a|] eqn:Ha; cbn [mbind option_bind].
  2: { unfold outgoing_email, email_address. cbn [recipients length]. cbn [traverse]. by rewrite Ha. }
  rewrite (challenge_email_valid _ _ _ _ _ Ha Hc6 Hcd). cbn [lift].
  unfold mbind at 1, M_bind at 1. unfold EmailDelivery.prepare.
  destruct (email_str a) as [address|] eqn:Ha2.
  - by rewrite (challenge_email_valid _ _ _ _ _ Ha2 Hc6 Hcd).
  - unfold outgoing_email, email_address. cbn [recipients length]. cbn [traverse]. by rewrite Ha2.
Qed.

Ltac refused_auto :=
  unfold mbind, M_bind;
  erewrite EmailDelivery.result_Ok; [|by vm_compute|by vm_compute|lia];
  cbn [lift mret M_ret]; eexists; split; [|reflexivity].

Lemma prepare_challenge_refused settings now event t :
  (∀ row purpose key, ¬ mailable settings now event (pending t) row purpose key) →
  ∃ o, refusal settings now event (pending t) o ∧ prepare_challenge resend settings now event t = (Ok (inr o), t).
Proof.
  intros Hno. unfold prepare_challenge, refusal.
  destruct (event_challenge event) as [i|] eqn:He; [|by refused_auto].
  unfold mbind at 1, M_bind at 1, get at 1.
  destruct (challenges (pending t) !! i) as [row|] eqn:Hr; [|by refused_auto].
  destruct (negb (bool_decide (EmailChallenge.consumed_at row = None)) || (EmailChallenge.expires_at row <=? now)) eqn:Hg.
  { refused_auto. left. split; [|done]. apply orb_true_iff in Hg as [Hg|Hg]; [left|right; lia].
    by apply negb_true_iff, bool_decide_eq_false in Hg. }
  apply orb_false_iff in Hg as [Hg Hx]. apply negb_false_iff, bool_decide_eq_true in Hg.
  apply Z.leb_gt in Hx.
  case_bool_decide as Hp; [refused_auto; right; by auto|].
  case_bool_decide as Hk; [refused_auto; right; by auto 6|].
  exfalso. apply not_eq_None_Some in Hp as [p Hp]. apply not_eq_None_Some in Hk as [key Hk].
  apply (Hno row p key). by exists i.
Qed.
End gate.

Ltac absent := right; intros ??? (? & ?); destruct_and?; simplify_eq; try lia; try congruence.

Lemma mailable_dec settings now event d :
  (∃ row purpose key, mailable settings now event d row purpose key) ∨
  ∀ row purpose key, ¬ mailable settings now event d row purpose key.
Proof.
  unfold mailable. destruct (event_challenge event) as [i|] eqn:?; [|absent].
  destruct (challenges d !! i) as [row|] eqn:?; [|absent].
  destruct (decide (EmailChallenge.consumed_at row = None)); [|absent].
  destruct (decide (now < EmailChallenge.expires_at row)); [|absent].
  destruct (purpose_of (EmailChallenge.purpose row)) as [p|] eqn:?; [|absent].
  destruct (challenge_keys settings !! EmailChallenge.key_version row) as [key|] eqn:?; [|absent].
  left. exists row, p, key, i. by split_and!.
Qed.

(** ** Issuing *)

Lemma event_challenge_issued event_id_ now i e :
  domain_event (PUUID event_id_) (PStr EMAIL_CHALLENGE_REQUESTED) (PStr (lit "email_challenge")) (PUUID i) (PInt 1)
    (PDatetime (aware now)) (PDict [(PStr (lit "challenge_id"), PStr (uuid_str i))]) = Ok e →
  0 ≤ i < 16 ^ 32 → event_id e = event_id_ ∧ event_challenge e = Some i.
Proof.
  intros He Hi. apply domain_event_iff in He as ([= <-] & [= Ha] & Ht & Hat & _ & _ & _ & kvs & [= <-] & _ & _ & _ & Hp).
  apply type_name_iff in Ht as [[= Ht] _]. apply type_name_iff in Hat as [[= Hat] _].
  split; [done|]. unfold event_challenge. rewrite Hp, <-Ha.
  change (snd <$> find _ (frozen_items [(PStr (lit "challenge_id"), PStr (uuid_str i))])) with (Some (JStr (uuid_str i))).
  cbn [mbind option_bind]. rewrite uuid_of_str by done. cbn [mbind option_bind].
  by rewrite <-Ht, <-Hat, !bool_decide_eq_true_2.
Qed.

Section issued.
Context `{Platform}.

(** The digest depends on the settings through the key of the row only. *)
Lemma code_digest_keys row code settings settings' key :
  challenge_keys settings !! EmailChallenge.key_version row = Some key →
  challenge_keys settings' !! EmailChallenge.key_version row = Some key →
  code_digest hmac_sha256 row code settings' = code_digest hmac_sha256 row code settings.
Proof. intros H1 H2. unfold code_digest, key_bytes. by rewrite H1, H2. Qed.

(** A challenge that [issue] stores anew, with its code and its message. *)
Lemma issue_challenge_new clock ids settings email purpose corr d dd k t row :
  issue_challenge hmac_sha256 float_text clock ids settings email purpose corr (Txn d dd) = (Ok k, t) →
  challenges d !! k = None → challenges (pending t) !! k = Some row →
  ∃ key e m,
    EmailChallenge.id row = k ∧ EmailChallenge.email row = email ∧
    EmailChallenge.purpose row = purpose_value purpose ∧ EmailChallenge.consumed_at row = None ∧
    EmailChallenge.attempts row = 0 ∧ challenge_keys settings !! EmailChallenge.key_version row = Some key ∧
    (∀ t, code_digest hmac_sha256 row (code_of key row purpose) settings t = (Ok (EmailChallenge.code_hash row), t)) ∧
    domain_event (PUUID (ids 1%nat)) (PStr EMAIL_CHALLENGE_REQUESTED) (PStr (lit "email_challenge")) (PUUID k)
      (PInt 1) (PDatetime (aware (clock 0%nat)))
      (PDict [(PStr (lit "challenge_id"), PStr (uuid_str k))]) = Ok e ∧
    add (ids 2%nat) e PNone None = Ok m ∧ outbox (pending t) = put m (outbox d).
Proof.
  intros Hi Hnew Hrow. unfold issue_challenge in Hi.
  apply M_bind_Ok in Hi as (key & t1 & Hkey & Hi). unfold key_bytes in Hkey.
  destruct (challenge_keys settings !! active_challenge_key settings) as [kv|] eqn:Hk; [|done].
  injection Hkey as <- <-. apply M_bind_Ok in Hi as (d0 & t1 & [= <- <-] & Hi).
  match type of Hi with (if ?b then _ else _) _ = _ => destruct b end.
  { injection Hi as <- <-. cbn in Hrow. congruence. }
  apply M_bind_Ok in Hi as (u & t1 & Hdel & Hi).
  assert (Ht1 : outbox (pending t1) = outbox d).
  { destruct (find_row _ _); by injection Hdel as _ <-. }
  apply M_bind_Ok in Hi as (code & t2 & Hcode & Hi).
  rewrite (derive_code_eq _ _ purpose kv) in Hcode by (try done; by destruct purpose).
  injection Hcode as <- <-. apply M_bind_Ok in Hi as (hash & t2 & Hhash & Hi).
  rewrite code_digest_still in Hhash. injection Hhash as Hst <-.
  unfold record_audit in Hi. M_inv. cbn [pending durable challenges outbox] in *.
  match goal with H : insert_challenge _ _ = Ok _ |- _ => apply insert_challenge_Ok in H as -> end.
  match goal with H : insert_message _ _ = Ok _ |- _ => apply insert_message_Ok in H as (-> & _) end.
  cbn in Hrow. unfold put in Hrow. cbn in Hrow. rewrite lookup_insert_eq in Hrow. injection Hrow as <-.
  eexists kv, _, _. split_and!; try done.
  - intros t'. rewrite code_digest_still. f_equal. exact Hst.
  - by rewrite Ht1.
Qed.
End issued.

(** ** Properties *)

(** The handler only reads, and mails a challenge exactly when the event is
    a well-formed request for it and the row is there, unconsumed, unexpired, of
    a known purpose and under a key that is still configured: then it hands over
    a single request to the address of the row, with the code of the row, that
    expires with it - or raises when the address is no longer valid. Every other
    event ends in the result that says why, and the refusals are disjoint from
    the mailed cases. *)
Theorem challenge_mail_gate `{Platform} `{MailLibrary} resend settings now event t :
  (prepare_challenge resend settings now event t).2 = t ∧
  match (prepare_challenge resend settings now event t).1 with
  | Ok (inl p) => ∃ row purpose key address f,
      mailable settings now event (pending t) row purpose key ∧
      (a ← email_str (EmailChallenge.email row); email_str a) = Some address ∧
      let s := NewSubmission [challenge_request resend row (event_id event) purpose
                                (code_of key row purpose) address] f in
      p = Prepared (EmailPayload s) f (EmailChallenge.expires_at row) ∧
      ∀ answers completed, deliver answers p completed = send answers s completed
  | Ok (inr o) => refusal settings now event (pending t) o ∧
      ∀ row purpose key, ¬ mailable settings now event (pending t) row purpose key
  | Err e => e = Internal (ValueError "email") ∧ ∃ row purpose key,
      mailable settings now event (pending t) row purpose key ∧
      (a ← email_str (EmailChallenge.email row); email_str a) = None
  end.
Proof.
  destruct (mailable_dec settings now event (pending t)) as [(row & purpose & key & Hm)|Hno].
  - rewrite (prepare_challenge_mail _ _ _ _ _ _ _ _ Hm). split; [done|]. cbn [fst].
    destruct (a ← email_str _; email_str a) as [address|] eqn:Ha; [|by eauto 8].
    eexists row, purpose, key, address, _. split; [done|]. split; [done|]. by split.
  - destruct (prepare_challenge_refused resend settings now event t) as (o & Ho & ->); [by eauto|].
    by split.
Qed.

(** C10: The code that is mailed is the code that is accepted. Issuing a new
    challenge stages an event that, once stored and rebuilt, makes the handler
    mail - as long as the row is there, unconsumed and unexpired and its key is
    still configured - a six-digit code to the address of the challenge, in one
    request; and presenting that code for the challenge and its purpose, within
    the time and the attempts allowed, consumes the challenge. Other challenges,
    settings and rows may change in between. *)
Theorem challenge_mail_roundtrip `{Platform} `{MailLibrary} resend clock ids settings email purpose corr d dd k t row :
  issue_challenge hmac_sha256 float_text clock ids settings email purpose corr (Txn d dd) = (Ok k, t) →
  challenges d !! k = None → challenges (pending t) !! k = Some row →
  0 ≤ k < 2 ^ 128 → email_str email = Some email →
  ∃ code event message,
    length code = 6%nat ∧ Forall (λ c, in_cls [digit] c = true) code ∧
    outbox (pending t) = put message (outbox d) ∧ to_event message = Ok event ∧
    ∀ settings' t', 
      challenge_keys settings' !! EmailChallenge.key_version row = challenge_keys settings !! EmailChallenge.key_version row →
      challenges (pending t') !! k = Some row →
      (∀ now, now < EmailChallenge.expires_at row → ∃ f,
         let request := challenge_request resend row (event_id event) purpose code email in
         prepare_challenge resend settings' now event t'
         = (Ok (inl (Prepared (EmailPayload (NewSubmission [request] f)) f (EmailChallenge.expires_at row))), t')) ∧
      ∀ clock' ids' corr', clock' 0%nat < EmailChallenge.expires_at row → 0 < challenge_attempts settings' →
        ∃ row' t'', consume_challenge hmac_sha256 float_text clock' ids' settings' k code purpose corr' t' = (Ok row', t'') ∧
          challenges (pending t'') !! k = Some row' ∧ EmailChallenge.consumed_at row' = Some (clock' 1%nat).
Proof.
  intros Hi Hnew Hrow Hk Hmail.
  destruct (issue_challenge_new _ _ _ _ _ _ _ _ _ _ _ Hi Hnew Hrow)
    as (key & e & m & Hid & He & Hp & Hc & Ha & Hkey & Hdig & Hev & Hadd & Hout).
  destruct (event_challenge_issued _ _ _ _ Hev ltac:(lia)) as [_ Hch].
  assert (Hpu : purpose_of (EmailChallenge.purpose row) = Some purpose) by (rewrite Hp; by destruct purpose).
  assert (Hv : 0 < aggregate_version e) by (apply domain_event_iff in Hev; lia).
  destruct (add_Ok _ _ _ _ _ Hadd Hv) as (_ & _ & _ & _ & _ & _ & Hto).
  rewrite (rebuild_event _ _ _ _ _ _ _ _ Hev) in Hto.
  exists (code_of key row purpose), e, m. split_and!; [apply digits_length|apply digits_chars|done|done|].
  intros settings' t' Hsame Hrow'. rewrite Hkey in Hsame. split.
  - intros now Hnow. eexists. cbn zeta.
    rewrite (prepare_challenge_mail _ settings' now e row purpose key t') by (by exists k; split_and!).
    rewrite He, Hmail. cbn [mbind option_bind]. by rewrite Hmail.
  - intros clock' ids' corr' Hx Hat. unfold consume_challenge.
    unfold mbind at 1, M_bind at 1, get at 1. rewrite Hrow'.
    assert (Hopen : challenge_open settings' purpose (clock' 0%nat) row = true).
    { unfold challenge_open. rewrite Hp, Hc, Ha, !bool_decide_eq_true_2 by done. cbn [andb].
      apply andb_true_iff. rewrite !negb_true_iff, !Z.leb_gt. lia. }
    rewrite Hopen. unfold mbind at 1, M_bind at 1, modify at 1. unfold mbind at 1, M_bind at 1.
    rewrite code_digest_still.
    pose proof (code_digest_keys row (code_of key row purpose) settings settings' key Hkey Hsame) as Hds.
    match goal with |- context [code_digest hmac_sha256 ?r ?c settings' empty_txn] =>
      change (code_digest hmac_sha256 r c settings' empty_txn)
        with (code_digest hmac_sha256 row c settings' empty_txn) end.
    rewrite Hds, Hdig. cbn [fst]. rewrite bool_decide_eq_true_2 by done.
    do 2 eexists. split; [reflexivity|]. cbn. unfold put. cbn. rewrite Hid. split; [apply lookup_insert_eq|done].
Qed.

Definition mail_row : EmailChallenge.t :=
  EmailChallenge.New 50 (lit "ada@ekumi.ng") (lit "registration") (lit "v1")
    (hex 64 (@hmac_sha256 demo_platform (replicate 32 97%N)
       (utf8 (lit "verify:" ++ uuid_str 50 ++ lit ":registration:"
              ++ digits 6 (@hmac_sha256 demo_platform (replicate 32 97%N)
                   (utf8 (lit "deliver:" ++ uuid_str 50 ++ lit ":registration")) mod 1000000)))))
    0 (seconds 10) (seconds 610) None.
Definition issued_txn : txn :=
  (issue_challenge (@hmac_sha256 demo_platform) (@float_text demo_platform) (λ _, seconds 10)
     (λ n, 50 + Z.of_nat n) key_settings (lit "ada@ekumi.ng") REGISTRATION None (Txn empty_db empty_db)).2.

Lemma challenge_mail_roundtrip_witness : let _ := demo_platform in let _ := demo_library in
  ∃ code row' t'', length code = 6%nat ∧
    consume_challenge hmac_sha256 float_text (λ _, seconds 60) (λ n, 70 + Z.of_nat n) key_settings 50 code
      REGISTRATION None issued_txn = (Ok row', t'').
Proof.
  intros P L.
  destruct (@challenge_mail_roundtrip demo_platform demo_library demo_resend (λ _, seconds 10)
    (λ n, 50 + Z.of_nat n) key_settings (lit "ada@ekumi.ng") REGISTRATION None empty_db empty_db 50 issued_txn mail_row)
    as (code & e & m & Hl & _ & _ & _ & Hrt).
  - by vm_compute.
  - by vm_compute.
  - by vm_compute.
  - lia.
  - reflexivity.
  - destruct (Hrt key_settings issued_txn) as [_ Hc]; [by vm_compute|by vm_compute|].
    destruct (Hc (λ _, seconds 60) (λ n, 70 + Z.of_nat n) None) as (row' & t'' & He & _); [by vm_compute|by vm_compute|].
    exists code, row', t''. split; [exact Hl|exact He].
Defined.
