(* ===== verification/Query.v ===== *)
(** * Query conventions of the routes (api/query.py)

    Pagination, sorting and filtering parameters: what is accepted, and exactly
    what it is read as. *)

From S2P Require Import Prelude Regex PyValues CoreTypes AuditTrail AuditSpecs Errors Texts.

Definition FIELD_PATTERN : regex :=
  Seq (Cls [lower]) (between 0 63 (Cls [lower; digit; chr "_"])).
Definition MAX_SORT_FIELDS : Z := 10.
Definition MAX_FILTERS : Z := 20.
Definition MAX_QUERY_VALUE_LENGTH : Z := 500.

(** FastAPI refuses what is out of range before the call. *)
Definition pagination (page page_size : pyval) : res pyexn PageRequest := page_request page page_size.

Inductive Direction := ASC | DESC.

#[export] Instance Direction_eq_dec : EqDecision Direction.
Proof. solve_decision. Defined.

Record SortField := NewSortField { field_name : str; direction : Direction }.

#[export] Instance SortField_eq_dec : EqDecision SortField.
Proof. solve_decision. Defined.

(** [allowed] is a set; the order of its list is immaterial. *)
Definition validate_allowed_fields (allowed : list str) (require_id : bool) : res pyexn unit :=
  require (negb (bool_decide (allowed = []) || existsb (λ item, negb (fullmatch FIELD_PATTERN item)) allowed))
    (ValueError "allowed fields must contain safe field names");;
  require (negb (require_id && negb (bool_decide (lit "id" ∈ allowed))))
    (ValueError "allowed sort fields must include id").

Definition too_long (value : str) : bool := MAX_QUERY_VALUE_LENGTH <? Z.of_nat (length value).

(** [raw.startswith("-")], [raw.removeprefix("-")]. *)
Definition sort_field (raw : str) : SortField :=
  match raw with
  | 45%N :: name => NewSortField name DESC
  | _ => NewSortField raw ASC
  end.

Definition field_allowed (allowed : list str) (name : str) : bool :=
  fullmatch FIELD_PATTERN name && bool_decide (name ∈ allowed).

(** The loop over the raw fields; [fields] are those read so far, and [seen]
    their names. *)
Fixpoint sort_fields (allowed : list str) (fields : list SortField) (raws : list str)
    : res pyexn (list SortField) :=
  match raws with
  | [] => Ok fields
  | raw :: raws =>
      let field := sort_field raw in
      require (field_allowed allowed (field_name field)) (ValueError "sorting by this field is not allowed");;
      require (negb (bool_decide (field_name field ∈ field_name <$> fields)))
        (ValueError "sort fields must be unique");;
      sort_fields allowed (fields ++ [field]) raws
  end.

Definition tie_breaker (fields : list SortField) : list SortField :=
  if bool_decide (lit "id" ∈ field_name <$> fields) then [] else [NewSortField (lit "id") ASC].

Definition parse_sort (value : option str) (allowed : list str) : res pyexn (list SortField) :=
  validate_allowed_fields allowed true;;
  require (negb (from_option too_long false value)) (ValueError "sort value is too long");;
  let raw_fields := match value with Some ((_ :: _) as v) => split_on 44 v | _ => [] end in
  require (negb (MAX_SORT_FIELDS <? Z.of_nat (length raw_fields)))
    (ValueError "sorting supports at most 10 fields");;
  fields ← sort_fields allowed [] raw_fields;
  Ok (fields ++ tie_breaker fields).

(** The loop over the raw filters; [parsed] is the dictionary in insertion order. *)
Fixpoint filter_pairs (allowed : list str) (parsed : list (str * str)) (raws : list str)
    : res pyexn (list (str * str)) :=
  match raws with
  | [] => Ok parsed
  | raw :: raws =>
      require (negb (too_long raw)) (ValueError "filter value is too long");;
      match partition_on 58 raw with
      | None => Err (ValueError "filter must use one unique allowed field:value pair")
      | Some (name, value) =>
          require (negb (bool_decide (value = []) || negb (bool_decide (value = strip value))
                         || negb (field_allowed allowed name) || bool_decide (name ∈ parsed.*1)))
            (ValueError "filter must use one unique allowed field:value pair");;
          filter_pairs allowed (parsed ++ [(name, value)]) raws
      end
  end.

Definition parse_filters (values : option (list str)) (allowed : list str) : res pyexn (list (str * str)) :=
  validate_allowed_fields allowed false;;
  let raw_filters := default [] values in
  require (negb (MAX_FILTERS <? Z.of_nat (length raw_filters)))
    (ValueError "filtering supports at most 20 fields");;
  filter_pairs allowed [] raw_filters.

(** ** What is accepted *)

(** The text of a field, of a sort parameter and of a filter. *)
Definition sort_text (field : SortField) : str :=
  match direction field with DESC => 45%N :: field_name field | ASC => field_name field end.
Definition filter_text (kv : str * str) : str := kv.1 ++ 58%N :: kv.2.

Definition allowed_ok (allowed : list str) : Prop :=
  allowed ≠ [] ∧ Forall (λ item, fullmatch FIELD_PATTERN item = true) allowed.

Lemma validate_allowed_Ok allowed b u :
  validate_allowed_fields allowed b = Ok u ↔ allowed_ok allowed ∧ (b = true → lit "id" ∈ allowed).
Proof.
  unfold validate_allowed_fields, allowed_ok. destruct u.
  assert (Hf : existsb (λ item, negb (fullmatch FIELD_PATTERN item)) allowed = false ↔
    Forall (λ item, fullmatch FIELD_PATTERN item = true) allowed).
  { rewrite Forall_forall. split.
    - intros He x Hx. destruct (fullmatch FIELD_PATTERN x) eqn:Hm; [done|].
      assert (existsb (λ item, negb (fullmatch FIELD_PATTERN item)) allowed = true) as Ht; [|congruence].
      apply existsb_exists. exists x. by rewrite list_elem_of_In in Hx; rewrite Hm.
    - intros Hx. apply not_true_is_false. intros (x & Hi & Hn)%existsb_exists.
      apply list_elem_of_In in Hi. by rewrite (Hx _ Hi) in Hn. }
  rewrite <-Hf. split.
  - intros H. res_inv. bool_inv. split_and!; [done|done|]. intros ->. cbn in H. by bool_inv.
  - intros [[Hn He] Hi]. rewrite He, (bool_decide_eq_false_2 _ Hn). cbn.
    destruct b; [by rewrite bool_decide_eq_true_2 by auto|done].
Qed.

(** A field name has neither a sign nor a separator in it. *)
Lemma field_chars name :
  fullmatch FIELD_PATTERN name = true → name ≠ [] ∧ Forall (λ c, in_cls [lower; digit; chr "_"] c = true) name.
Proof.
  intros Hm. split; [by eapply (fullmatch_nonempty FIELD_PATTERN)|].
  apply fullmatch_matches in Hm. eapply matches_chars; [|exact Hm].
  split; [intros c Hc; eapply in_cls_incl, Hc; done|].
  split; [apply all_cls_rep|apply all_cls_upto]; cbn; auto.
Qed.

Lemma field_free c name :
  fullmatch FIELD_PATTERN name = true → in_cls [lower; digit; chr "_"] c = false → c ∉ name.
Proof. intros [_ Hf]%field_chars Hc Hin. rewrite Forall_forall in Hf. by rewrite (Hf _ Hin) in Hc. Qed.

Lemma sort_field_text field :
  fullmatch FIELD_PATTERN (field_name field) = true → sort_field (sort_text field) = field.
Proof.
  destruct field as [name []]; cbn; intros Hm; [|done].
  destruct name as [|c name]; [done|]. destruct (decide (c = 45%N)) as [->|Hc].
  - exfalso. eapply (field_free 45); [exact Hm|done|]. by apply elem_of_cons; left.
  - unfold sort_field. cbn. destruct c as [|p]; [done|]. repeat (destruct p as [p|p|]; try done).
Qed.

Lemma sort_text_field raw : sort_text (sort_field raw) = raw.
Proof.
  destruct raw as [|c raw]; [done|]. destruct (decide (c = 45%N)) as [->|Hc]; [done|].
  cbn. destruct c as [|p]; [done|]. repeat (destruct p as [p|p|]; try done).
Qed.

Lemma sort_text_free field : fullmatch FIELD_PATTERN (field_name field) = true → 44%N ∉ sort_text field.
Proof.
  intros Hm. pose proof (field_free 44 _ Hm eq_refl) as Hf. unfold sort_text.
  destruct (direction field); [done|]. apply not_elem_of_cons. by split.
Qed.

Definition sortable (allowed : list str) (fields : list SortField) : Prop :=
  Forall (λ f, field_allowed allowed (field_name f) = true) fields ∧ NoDup (field_name <$> fields).

Lemma sort_fields_Ok allowed raws fields r :
  NoDup (field_name <$> fields) →
  sort_fields allowed fields raws = Ok r ↔
  r = fields ++ (sort_field <$> raws) ∧ Forall (λ f, field_allowed allowed (field_name f) = true) (sort_field <$> raws) ∧
  NoDup (field_name <$> r).
Proof.
  revert fields. induction raws as [|raw raws IH]; intros fields Hnd; cbn [sort_fields fmap list_fmap].
  - rewrite app_nil_r. split; [intros [= <-]; auto|by intros (-> & _ & _)].
  - rewrite Forall_cons. split.
    + intros Hs. res_inv. bool_inv. apply IH in Hs as (-> & Hf & Hn).
      * rewrite <-app_assoc in *. by split_and!.
      * rewrite fmap_app, NoDup_app. split_and!; [done| |apply NoDup_singleton].
        intros y Hy ->%list_elem_of_singleton. done.
    + intros (-> & [Ha Hf] & Hn). rewrite Ha. cbn.
      rewrite bool_decide_eq_false_2.
      * cbn. apply IH.
        -- rewrite cons_middle, app_assoc, fmap_app in Hn. by apply NoDup_app in Hn as [? _].
        -- rewrite <-app_assoc. by split_and!.
      * rewrite fmap_app in Hn. apply NoDup_app in Hn as (_ & Hd & _). intros Hx. apply (Hd _ Hx).
        apply elem_of_cons. by left.
Qed.

Definition filterable (allowed : list str) (kvs : list (str * str)) : Prop :=
  Forall (λ kv, field_allowed allowed kv.1 = true ∧ kv.2 ≠ [] ∧ kv.2 = strip kv.2 ∧ too_long (filter_text kv) = false) kvs
  ∧ NoDup kvs.*1.

Lemma filter_pairs_Ok allowed raws parsed r :
  NoDup parsed.*1 →
  filter_pairs allowed parsed raws = Ok r ↔
  ∃ kvs, raws = filter_text <$> kvs ∧ r = parsed ++ kvs ∧ filterable allowed kvs ∧ NoDup r.*1.
Proof.
  revert parsed. induction raws as [|raw raws IH]; intros parsed Hnd; cbn [filter_pairs].
  - split.
    + intros [= <-]. exists []. rewrite app_nil_r. split_and!; try done. split; [done|apply NoDup_nil_2].
    + intros ([|kv kvs] & ? & -> & _); [by rewrite app_nil_r|done].
  - split.
    + intros Hs. res_inv. destruct (partition_on 58 raw) as [[name value]|] eqn:Hp; [|done]. res_inv. bool_inv.
      apply partition_on_Some in Hp as [-> Hfree]. apply IH in Hs as (kvs & -> & -> & [Hf Hn] & Hr).
      * exists ((name, value) :: kvs). rewrite <-app_assoc in *. split_and!; [done|done| |done].
        split; [by constructor|]. rewrite fmap_app in Hr. by apply NoDup_app in Hr as (_ & _ & ?).
      * rewrite fmap_app, NoDup_app. split_and!; [done| |apply NoDup_singleton].
        intros y Hy ->%list_elem_of_singleton. done.
    + intros ([|[name value] kvs] & He & -> & [Hf Hn] & Hr); [done|]. injection He as -> ->.
      apply Forall_cons in Hf as [(Ha & Hv & Hs & Hl) Hf]. cbn in Ha, Hv, Hs. rewrite Hl. cbn.
      pose proof Ha as [Hm _]%andb_true_iff.
      assert (partition_on 58 (name ++ 58%N :: value) = Some (name, value)) as ->.
      { apply partition_on_Some. split; [done|]. by apply field_free. }
      rewrite (bool_decide_eq_false_2 _ Hv), (bool_decide_eq_true_2 _ Hs), Ha. cbn.
      rewrite bool_decide_eq_false_2; cbn.
      * apply IH.
        -- rewrite cons_middle, app_assoc, fmap_app in Hr. by apply NoDup_app in Hr as [? _].
        -- exists kvs. rewrite <-app_assoc. split_and!; [done..| |done]. split; [done|]. by apply NoDup_cons in Hn as [_ ?].
      * rewrite fmap_app in Hr. apply NoDup_app in Hr as (_ & Hd & _). intros Hx. apply (Hd _ Hx).
        apply elem_of_cons. by left.
Qed.

(** A sort parameter is accepted exactly when it is the text of at most ten
    distinct, allowed fields, at most 500 characters in all, and it is read as
    those fields in that order and direction, followed by the identifier unless
    it is among them: the order of a page is always total. A parameter that is
    missing or empty sorts by the identifier alone. *)
Theorem parse_sort_exact value allowed r :
  parse_sort value allowed = Ok r ↔
  allowed_ok allowed ∧ lit "id" ∈ allowed ∧ ∃ fields, default [] value = join_on 44 (sort_text <$> fields) ∧
    (length (default [] value) ≤ 500)%nat ∧ (length fields ≤ 10)%nat ∧ sortable allowed fields ∧
    r = fields ++ (if bool_decide (lit "id" ∈ field_name <$> fields) then [] else [NewSortField (lit "id") ASC]) ∧
    lit "id" ∈ field_name <$> r ∧ NoDup (field_name <$> r).
Proof.
  unfold parse_sort. set (raws := match value with Some ((_ :: _) as v) => split_on 44 v | _ => [] end).
  assert (Hraws : ∀ fields, sortable allowed fields →
    default [] value = join_on 44 (sort_text <$> fields) → raws = sort_text <$> fields).
  { intros fields [Hf _] He. destruct fields as [|f fields].
    - destruct value as [[|]|]; done.
    - assert (Hne : join_on 44 (sort_text <$> f :: fields) ≠ []).
      { apply Forall_cons in Hf as [[Hm _]%andb_true_iff _]. destruct (field_chars _ Hm) as [Hne _].
        cbn. destruct (sort_text f) eqn:Ht; [|by destruct (sort_text <$> fields)].
        unfold sort_text in Ht. by destruct (direction f). }
      rewrite <-He in Hne. destruct value as [[|c v]|]; [done| |done]. unfold raws. change (default [] (Some (c :: v))) with (c :: v) in He. rewrite He.
      apply split_join; [by destruct fields|]. apply Forall_fmap. eapply Forall_impl; [exact Hf|].
      intros f' [Hm _]%andb_true_iff. by apply sort_text_free. }
  assert (Hjoin : join_on 44 raws = default [] value).
  { unfold raws. destruct value as [[|c v]|]; [done| |done]. apply join_split. }
  assert (Hlong : from_option too_long false value = too_long (default [] value)) by (by destruct value).
  rewrite Hlong. unfold too_long, MAX_QUERY_VALUE_LENGTH, MAX_SORT_FIELDS. split.
  - intros Hp. res_inv. bool_inv. apply validate_allowed_Ok in Hx as [Hok Hid].
    apply sort_fields_Ok in Hx2 as (-> & Hf & Hn); [|apply NoDup_nil_2]. injection Hp as <-.
    split_and!; [done|by apply Hid|]. exists (sort_field <$> raws).
    assert (Hsame : sort_text <$> (sort_field <$> raws) = raws).
    { rewrite <-list_fmap_compose. rewrite <-(list_fmap_id raws) at 2. apply list_fmap_ext. intros i y _. apply sort_text_field. }
    rewrite Hsame. split_and!; [done|lia|rewrite length_fmap; lia|by split|done|..]; unfold tie_breaker.
    + case_bool_decide; [by rewrite app_nil_r|]. rewrite fmap_app. apply elem_of_app. right. by apply list_elem_of_singleton.
    + case_bool_decide as Hi; [by rewrite app_nil_r|]. rewrite fmap_app. apply NoDup_app. split_and!; [done| |apply NoDup_singleton].
      intros y Hy ->%list_elem_of_singleton. done.
  - intros (Hok & Hid & fields & He & Hl & Hlf & Hs & -> & _).
    rewrite (proj2 (validate_allowed_Ok allowed true tt)) by done. cbn.
    pose proof (Hraws _ Hs He) as Hr. rewrite Hr, length_fmap. clearbody raws.
    replace (500 <? _) with false by lia. replace (10 <? _) with false by lia. cbn.
    destruct Hs as [Hf Hn].
    assert (Hback : sort_field <$> (sort_text <$> fields) = fields).
    { rewrite <-list_fmap_compose. rewrite <-(list_fmap_id fields) at 2. apply list_fmap_ext. intros i f Hi.
      apply sort_field_text. rewrite Forall_lookup in Hf. by apply Hf, andb_true_iff in Hi as [? _]. }
    assert (sort_fields allowed [] (sort_text <$> fields) = Ok fields) as ->; [|done].
    apply sort_fields_Ok; [apply NoDup_nil_2|]. rewrite Hback. by split_and!.
Qed.

(** Filters are accepted exactly when they are the texts of at most twenty
    pairs of distinct allowed fields with non-empty values that have no white
    space around them, each at most 500 characters; and they are read as those
    pairs in that order, whatever separators the values contain. *)
Theorem parse_filters_exact values allowed r :
  parse_filters values allowed = Ok r ↔
  allowed_ok allowed ∧ default [] values = filter_text <$> r ∧ (length r ≤ 20)%nat ∧ filterable allowed r.
Proof.
  unfold parse_filters, MAX_FILTERS. split.
  - intros Hp. res_inv. bool_inv. apply validate_allowed_Ok in Hx as [Hok _].
    apply filter_pairs_Ok in Hp as (kvs & He & -> & Hf & _); [|apply NoDup_nil_2].
    rewrite He, length_fmap in Hx0. cbn. split_and!; [done..|lia|done].
  - intros (Hok & He & Hl & Hf). rewrite (proj2 (validate_allowed_Ok allowed false tt)) by done. cbn.
    rewrite He, length_fmap. replace (20 <? _) with false by lia. cbn.
    apply filter_pairs_Ok; [apply NoDup_nil_2|]. exists r. split_and!; [done..|]. by destruct Hf.
Qed.
