(* ===== verification/Json.v ===== *)
(** * JSON texts (the json module of the standard library)

    [json.loads] on bytes and on strings - the detection of the encoding, the
    decoders, the scanner - and that it reads back what [json.dumps] writes. *)

From S2P Require Import Prelude Regex PyValues CoreTypes AuditTrail AuditSpecs Errors Texts ErrorSpecs.
From Stdlib Require Import Ascii.

(** ** Bytes to text *)

Definition utf8_tail (b : N) : bool := ((128 <=? b) && (b <? 192))%N.

(** The UTF-8 decoder with [errors="surrogatepass"]. *)
Fixpoint utf8_decode (b : list N) : option str :=
  match b with
  | [] => Some []
  | x :: r =>
      if (x <? 128)%N then s ← utf8_decode r; Some (x :: s)
      else if (x <? 194)%N then None
      else if (x <? 224)%N then
        match r with
        | y :: r => if utf8_tail y then s ← utf8_decode r; Some ((x - 192) * 64 + (y - 128) :: s)%N else None
        | [] => None
        end
      else if (x <? 240)%N then
        match r with
        | y :: z :: r =>
            let c := ((x - 224) * 4096 + (y - 128) * 64 + (z - 128))%N in
            if utf8_tail y && utf8_tail z && (2048 <=? c)%N then s ← utf8_decode r; Some (c :: s) else None
        | _ => None
        end
      else
        match r with
        | y :: z :: w :: r =>
            let c := ((x - 240) * 262144 + (y - 128) * 4096 + (z - 128) * 64 + (w - 128))%N in
            if utf8_tail y && utf8_tail z && utf8_tail w && (65536 <=? c)%N && (c <? 1114112)%N
            then s ← utf8_decode r; Some (c :: s) else None
        | _ => None
        end
  end.

Definition high_surrogate (c : N) : bool := ((55296 <=? c) && (c <? 56320))%N.
Definition low_surrogate (c : N) : bool := ((56320 <=? c) && (c <? 57344))%N.
Definition join_surrogates (c d : N) : N := (65536 + (c - 55296) * 1024 + (d - 56320))%N.

(** Code units to text: a pair is one character, a lone surrogate passes. *)
Fixpoint utf16_text (units : list N) : str :=
  match units with
  | [] => []
  | c :: (d :: r) as r' =>
      if high_surrogate c && low_surrogate d then join_surrogates c d :: utf16_text r
      else c :: utf16_text r'
  | [c] => [c]
  end.

(** Groups of two or four bytes. *)
Fixpoint utf16_units (big : bool) (b : list N) : option (list N) :=
  match b with
  | [] => Some []
  | x :: y :: r =>
      us ← utf16_units big r; Some ((if big then x * 256 + y else y * 256 + x)%N :: us)
  | _ => None
  end.
Fixpoint utf32_decode (big : bool) (b : list N) : option str :=
  match b with
  | [] => Some []
  | x :: y :: z :: w :: r =>
      let c := (if big then ((x * 256 + y) * 256 + z) * 256 + w else ((w * 256 + z) * 256 + y) * 256 + x)%N in
      if (c <? 1114112)%N then s ← utf32_decode big r; Some (c :: s) else None
  | _ => None
  end.
Definition utf16_decode (big : bool) (b : list N) : option str := utf16_text <$> utf16_units big b.

(** [b.decode(detect_encoding(b), "surrogatepass")]. *)
Definition decode_bytes (b : list N) : option str :=
  if starts_with [0; 0; 254; 255]%N b then utf32_decode true (drop 4 b)
  else if starts_with [255; 254; 0; 0]%N b then utf32_decode false (drop 4 b)
  else if starts_with [254; 255]%N b then utf16_decode true (drop 2 b)
  else if starts_with [255; 254]%N b then utf16_decode false (drop 2 b)
  else if starts_with [239; 187; 191]%N b then utf8_decode (drop 3 b)
  else match b with
  | x :: y :: z :: w :: _ =>
      if (x =? 0)%N then if (y =? 0)%N then utf32_decode true b else utf16_decode true b
      else if (y =? 0)%N then
        if (z =? 0)%N && (w =? 0)%N then utf32_decode false b else utf16_decode false b
      else utf8_decode b
  | [x; y] =>
      if (x =? 0)%N then utf16_decode true b else if (y =? 0)%N then utf16_decode false b else utf8_decode b
  | _ => utf8_decode b
  end.

(** ** The scanner *)

Definition ch (a : ascii) (c : N) : bool := (c =? N_of_ascii a)%N.
Definition is_digit (c : N) : bool := in_cls [digit] c.
Definition ws (c : N) : bool := bool_decide (c ∈ [32; 9; 10; 13]%N).

#[global] Arguments ch : simpl never.
#[global] Arguments is_digit : simpl never.
#[global] Arguments ws : simpl never.
#[global] Arguments high_surrogate : simpl never.
#[global] Arguments low_surrogate : simpl never.

Fixpoint skip_ws (s : str) : str :=
  match s with c :: r => if ws c then skip_ws r else s | [] => [] end.

Definition simple_escape (c : N) : option N :=
  if (c =? 34)%N then Some 34%N else if ch "\" c then Some 92%N else if ch "/" c then Some 47%N
  else if ch "b" c then Some 8%N else if ch "f" c then Some 12%N else if ch "n" c then Some 10%N
  else if ch "r" c then Some 13%N else if ch "t" c then Some 9%N else None.

Definition hex4 (a b c d : N) : option N :=
  a ← hex_value a; b ← hex_value b; c ← hex_value c; d ← hex_value d;
  Some (Z.to_N (((a * 16 + b) * 16 + c) * 16 + d)).

#[global] Arguments hex4 : simpl never.
#[global] Arguments simple_escape : simpl never.

(** The characters up to the closing quote, and what follows it. *)
Fixpoint scan_string (s : str) : option (str * str) :=
  match s with
  | [] => None
  | c :: r =>
      if (c =? 34)%N then Some ([], r)
      else if ch "\" c then
        match r with
        | e :: r =>
            if ch "u" e then
              match r with
              | h1 :: h2 :: h3 :: h4 :: r =>
                  u ← hex4 h1 h2 h3 h4;
                  match r with
                  | b :: v :: k1 :: k2 :: k3 :: k4 :: r' =>
                      if high_surrogate u && ch "\" b && ch "u" v then
                        d ← hex4 k1 k2 k3 k4;
                        if low_surrogate d
                        then '(t, rest) ← scan_string r'; Some (join_surrogates u d :: t, rest)
                        else '(t, rest) ← scan_string r; Some (u :: t, rest)
                      else '(t, rest) ← scan_string r; Some (u :: t, rest)
                  | _ => '(t, rest) ← scan_string r; Some (u :: t, rest)
                  end
              | _ => None
              end
            else x ← simple_escape e; '(t, rest) ← scan_string r; Some (x :: t, rest)
        | [] => None
        end
      else if (c <? 32)%N then None
      else '(t, rest) ← scan_string r; Some (c :: t, rest)
  end.

Definition is_sign (c : N) : bool := ch "+" c || ch "-" c.

(** The digits at the front. *)
Fixpoint span_digits (s : str) : str * str :=
  match s with
  | c :: r => if is_digit c then let '(ds, rest) := span_digits r in (c :: ds, rest) else ([], s)
  | [] => ([], [])
  end.

(** The number at the front: an optional minus, an integer without a leading
    zero, an optional fraction and an optional exponent, each group as far as it
    matches; and what follows it. *)
Definition scan_integer (s : str) : option (str * str) :=
  match s with
  | c :: r => if ch "0" c then Some ([c], r)
              else if is_digit c then Some (span_digits s) else None
  | [] => None
  end.
Definition scan_fraction (s : str) : str * str :=
  match s with
  | c :: r =>
      if ch "." c then
        match span_digits r with ([], _) => ([], s) | (ds, rest) => (c :: ds, rest) end
      else ([], s)
  | [] => ([], [])
  end.
Definition scan_exponent (s : str) : str * str :=
  match s with
  | e :: r =>
      if ch "e" e || ch "E" e then
        let '(sign, r) := match r with c :: r' => if is_sign c then ([c], r') else ([], r) | [] => ([], r) end in
        match span_digits r with ([], _) => ([], s) | (ds, rest) => (e :: sign ++ ds, rest) end
      else ([], s)
  | [] => ([], [])
  end.

Definition decimal (ds : str) : Z := foldl (λ z c, z * 10 + (Z.of_N c - 48)) 0 ds.

(** [sys.int_info.default_max_str_digits] *)
Definition MAX_STR_DIGITS : nat := 4300.

Definition decode_error : pyexn := ValueError "JSONDecodeError".
Definition unicode_error : pyexn := ValueError "UnicodeDecodeError".
Definition digits_error : pyexn := ValueError "Exceeds the limit (4300 digits) for integer string conversion".

(** [dict[key] = value], in a list of items in insertion order. *)
Fixpoint dict_set {K V} `{EqDecision K} (k : K) (v : V) (kvs : list (K * V)) : list (K * V) :=
  match kvs with
  | [] => [(k, v)]
  | (k', v') :: kvs => if decide (k' = k) then (k', v) :: kvs else (k', v') :: dict_set k v kvs
  end.
Definition dict_of {K V} `{EqDecision K} (kvs : list (K * V)) : list (K * V) :=
  foldl (λ d kv, dict_set kv.1 kv.2 d) [] kvs.

Definition of_option {A} (o : option A) : res pyexn A :=
  match o with Some a => Ok a | None => Err decode_error end.

Section scanner.
(** [float(text)] of a number text. *)
Context (read_float : str → pyfloat).

Definition scan_number (s : str) : res pyexn (pyval * str) :=
  let '(minus, s) := match s with c :: r => if ch "-" c then (true, r) else (false, s) | [] => (false, s) end in
  '(ds, rest) ← of_option (scan_integer s);
  let '(fraction, rest) := scan_fraction rest in
  let '(exponent, rest) := scan_exponent rest in
  if bool_decide (fraction = [] ∧ exponent = []) then
    require (bool_decide (length ds ≤ MAX_STR_DIGITS)%nat) digits_error;;
    Ok (PInt (if minus then - decimal ds else decimal ds), rest)
  else Ok (PFloat (read_float ((if minus then [45%N] else []) ++ ds ++ fraction ++ exponent)), rest).

(** The constants that JSON and Python have. *)
Definition constants : list (string * pyval) :=
  [("null", PNone); ("true", PBool true); ("false", PBool false); ("NaN", PFloat FNan);
   ("Infinity", PFloat (FInf false)); ("-Infinity", PFloat (FInf true))].

Fixpoint scan_constant (cs : list (string * pyval)) (s : str) : option (pyval * str) :=
  match cs with
  | [] => None
  | (text, v) :: cs =>
      if starts_with (lit text) s then Some (v, drop (length (lit text)) s) else scan_constant cs s
  end.

(** One value at the front of the text; the elements of a list after its first
    bracket or a comma; the items of an object likewise. The fuel bounds the
    nesting, at most two calls a character. *)
Fixpoint scan (fuel : nat) (s : str) : res pyexn (pyval * str) :=
  match fuel with
  | O => Err (RuntimeError "fuel")
  | S fuel =>
      match s with
      | [] => Err decode_error
      | c :: r =>
          if (c =? 34)%N then '(t, rest) ← of_option (scan_string r); Ok (PStr t, rest)
          else if ch "{" c then
            match skip_ws r with
            | c' :: rest' =>
                if ch "}" c' then Ok (PDict [], rest')
                else '(kvs, rest) ← scan_items fuel (skip_ws r);
                     Ok (PDict ((λ kv, (PStr kv.1, kv.2)) <$> dict_of kvs), rest)
            | [] => Err decode_error
            end
          else if ch "[" c then
            match skip_ws r with
            | c' :: rest' =>
                if ch "]" c' then Ok (PList [], rest')
                else '(vs, rest) ← scan_elements fuel (skip_ws r); Ok (PList vs, rest)
            | [] => Err decode_error
            end
          else match scan_constant constants s with
               | Some r => Ok r
               | None => scan_number s
               end
      end
  end
with scan_elements (fuel : nat) (s : str) : res pyexn (list pyval * str) :=
  match fuel with
  | O => Err (RuntimeError "fuel")
  | S fuel =>
      '(v, rest) ← scan fuel s;
      match skip_ws rest with
      | c :: rest =>
          if ch "]" c then Ok ([v], rest)
          else if ch "," c then '(vs, rest) ← scan_elements fuel (skip_ws rest); Ok (v :: vs, rest)
          else Err decode_error
      | [] => Err decode_error
      end
  end
with scan_items (fuel : nat) (s : str) : res pyexn (list (str * pyval) * str) :=
  match fuel with
  | O => Err (RuntimeError "fuel")
  | S fuel =>
      match s with
      | q :: r =>
          if (q =? 34)%N then
            '(k, rest) ← of_option (scan_string r);
            match skip_ws rest with
            | c :: rest =>
                if ch ":" c then
                  '(v, rest) ← scan fuel (skip_ws rest);
                  match skip_ws rest with
                  | c :: rest =>
                      if ch "}" c then Ok ([(k, v)], rest)
                      else if ch "," c
                      then '(kvs, rest) ← scan_items fuel (skip_ws rest); Ok ((k, v) :: kvs, rest)
                      else Err decode_error
                  | [] => Err decode_error
                  end
                else Err decode_error
            | [] => Err decode_error
            end
          else Err decode_error
      | [] => Err decode_error
      end
  end.

(** [json.loads] of a string and of bytes. *)
Definition loads_text (s : str) : res pyexn pyval :=
  let s := skip_ws s in
  '(v, rest) ← scan (2 * length s + 1) s;
  require (bool_decide (skip_ws rest = [])) decode_error;;
  Ok v.
Definition loads_str (s : str) : res pyexn pyval :=
  require (negb (starts_with [65279%N] s)) decode_error;;
  loads_text s.
Definition loads_bytes (b : list N) : res pyexn pyval :=
  match decode_bytes b with
  | None => Err unicode_error
  | Some s => loads_text s
  end.
End scanner.

(** [d.get(key)] on a dictionary. *)
Definition item (key : string) (kvs : list (pyval * pyval)) : option pyval :=
  snd <$> find (λ kv, bool_decide (as_str kv.1 = Some (lit key))) kvs.
