(* ===== verification/JsonSpecs.v ===== *)
(** * What the JSON scanner guarantees

    It always answers, it reads back what [json.dumps] writes, and the UTF-8
    decoder reads back what the encoder writes. *)

From S2P Require Import Prelude Regex PyValues CoreTypes AuditTrail AuditSpecs Errors Texts ErrorSpecs Json.

(** ** UTF-8 *)

(** A string of Python holds code points only. *)
Definition unicode (s : str) : Prop := Forall (λ c, (c < 1114112)%N) s.

(** Comparisons of code points. *)
Ltac char_lia :=
  lazymatch goal with
  | |- (_ <? _)%N = true => apply N.ltb_lt; lia
  | |- (_ <? _)%N = false => apply N.ltb_ge; lia
  | |- (_ <=? _)%N = true => apply N.leb_le; lia
  | |- (_ <=? _)%N = false => apply N.leb_gt; lia
  | |- true = _ => symmetry; char_lia
  | |- false = _ => symmetry; char_lia
  end.

Lemma utf8_decode_char c r :
  (c < 1114112)%N → utf8_decode (utf8_char c ++ r) = s ← utf8_decode r; Some (c :: s).
Proof.
  intros Hc. unfold utf8_char.
  assert (Hm : ∀ x, ∃ m, (x mod 64 = m ∧ m < 64 ∧ x = 64 * (x / 64) + m)%N).
  { intros x. exists (x mod 64)%N. split; [done|]. split; [by apply N.mod_lt|by apply N.div_mod]. }
  assert (Ht : ∀ m, (m < 64)%N → utf8_tail (128 + m) = true) by (intros m ?; apply andb_true_iff; split; char_lia).
  change (c / 64 ^ 1)%N with (c / 64)%N. replace (c / 64 ^ 0)%N with c by (by rewrite N.div_1_r).
  replace (c / 64 ^ 3)%N with (c / 64 / 64 / 64)%N by (by rewrite !N.Div0.div_div).
  replace (c / 64 ^ 2)%N with (c / 64 / 64)%N by (by rewrite !N.Div0.div_div).
  destruct (Hm c) as (m0 & -> & Hm0 & H0), (Hm (c / 64)%N) as (m1 & -> & Hm1 & H1), (Hm (c / 64 / 64)%N) as (m2 & -> & Hm2 & H2).
  revert H0 H1 H2. generalize (c / 64)%N as x1. intros x1 H0. generalize (x1 / 64)%N as x2. intros x2 H1.
  generalize (x2 / 64)%N as x3. intros x3 H2.
  destruct (N.ltb_spec c 128) as [Hc1|Hc1]; [|destruct (N.ltb_spec c 2048) as [Hc2|Hc2];
    [|destruct (N.ltb_spec c 65536) as [Hc3|Hc3]]]; cbn [app utf8_decode].
  - by replace (c <? 128)%N with true by char_lia.
  - replace (192 + x1 <? 128)%N with false by char_lia. replace (192 + x1 <? 194)%N with false by char_lia.
    replace (192 + x1 <? 224)%N with true by char_lia. rewrite Ht by done.
    by replace ((192 + x1 - 192) * 64 + (128 + m0 - 128))%N with c by lia.
  - replace (224 + x2 <? 128)%N with false by char_lia. replace (224 + x2 <? 194)%N with false by char_lia.
    replace (224 + x2 <? 224)%N with false by char_lia. replace (224 + x2 <? 240)%N with true by char_lia.
    rewrite !Ht by done. cbn [andb].
    replace ((224 + x2 - 224) * 4096 + (128 + m1 - 128) * 64 + (128 + m0 - 128))%N with c by lia.
    by replace (2048 <=? c)%N with true by char_lia.
  - replace (240 + x3 <? 128)%N with false by char_lia. replace (240 + x3 <? 194)%N with false by char_lia.
    replace (240 + x3 <? 224)%N with false by char_lia. replace (240 + x3 <? 240)%N with false by char_lia.
    rewrite !Ht by done. cbn [andb].
    replace ((240 + x3 - 240) * 262144 + (128 + m2 - 128) * 4096 + (128 + m1 - 128) * 64 + (128 + m0 - 128))%N
      with c by lia.
    replace (65536 <=? c)%N with true by char_lia. by replace (c <? 1114112)%N with true by char_lia.
Qed.

Lemma utf8_decode_utf8 s : unicode s → utf8_decode (utf8 s) = Some s.
Proof.
  induction 1 as [|c s Hc _ IH]; [done|]. change (utf8 (c :: s)) with (utf8_char c ++ utf8 s).
  by rewrite utf8_decode_char, IH.
Qed.

(** ** Every scan consumes something *)

Lemma span_digits_app s ds rest : span_digits s = (ds, rest) → s = ds ++ rest ∧ Forall (λ c, is_digit c = true) ds.
Proof.
  revert ds rest. induction s as [|c s IH]; cbn; intros ds rest; [intros [= <- <-]; done|].
  destruct (is_digit c) eqn:Hc; [|intros [= <- <-]; done]. destruct (span_digits s) as [ds' rest'].
  intros [= <- <-]. destruct (IH _ _ eq_refl) as [-> Hf]. split; [done|by constructor].
Qed.

Lemma scan_string_shorter s t rest : scan_string s = Some (t, rest) → (length rest < length s)%nat.
Proof.
  remember (length s) as n eqn:Hn. revert s Hn t rest. induction (lt_wf n) as [n _ IH]. intros s -> t rest.
  assert (Hrec : ∀ s' t' rest' k, (length s' + k < length s)%nat → scan_string s' = Some (t', rest') →
    (length rest' < length s)%nat).
  { intros s' t' rest' k Hl Hs. specialize (IH (length s') ltac:(lia) s' eq_refl _ _ Hs). lia. }
  destruct s as [|c r]; [done|]. cbn. destruct (c =? 34)%N; [intros [= _ <-]; lia|].
  destruct (ch "\" c).
  - destruct r as [|e r]; [done|]. destruct (ch "u" e).
    + destruct r as [|h1 [|h2 [|h3 [|h4 r]]]]; try done. intros (u & _ & Hs)%bind_Some.
      assert (Hplain : ∀ A : Type, (z ← scan_string r; (let '(t0, rest0) := z in Some (u :: t0, rest0))) = Some (t, rest) →
        (length rest < S (S (length (h1 :: h2 :: h3 :: h4 :: r))))%nat).
      { intros _ ([t' rest'] & Hs' & [= _ <-])%bind_Some. eapply (Hrec _ _ _ 0%nat) in Hs'; cbn in *; lia. }
      specialize (Hplain unit).
      destruct r as [|b [|v [|k1 [|k2 [|k3 [|k4 r']]]]]]; try (by apply Hplain).
      destruct (high_surrogate u && _ && _); [|by apply Hplain].
      apply bind_Some in Hs as (d & _ & Hs). destruct (low_surrogate d); [|by apply Hplain].
      apply bind_Some in Hs as ([t' rest'] & Hs' & [= _ <-]).
      eapply (Hrec _ _ _ 0%nat) in Hs'; cbn in *; lia.
    + intros (x & _ & ([t' rest'] & Hs' & [= _ <-])%bind_Some)%bind_Some.
      eapply (Hrec _ _ _ 0%nat) in Hs'; cbn in *; lia.
  - destruct (c <? 32)%N; [done|]. intros ([t' rest'] & Hs' & [= _ <-])%bind_Some.
    eapply (Hrec _ _ _ 0%nat) in Hs'; cbn in *; lia.
Qed.

Lemma skip_ws_length s : (length (skip_ws s) ≤ length s)%nat.
Proof. induction s as [|c s IH]; cbn; [done|]. destruct (ws c); cbn; lia. Qed.

Lemma of_option_Ok {A} (o : option A) a : of_option o = Ok a ↔ o = Some a.
Proof. destruct o; cbn; naive_solver. Qed.

Lemma scan_integer_app s ds rest : scan_integer s = Some (ds, rest) → s = ds ++ rest ∧ ds ≠ [].
Proof.
  destruct s as [|c r]; cbn; [done|]. destruct (ch "0" c); [by intros [= <- <-]|].
  destruct (is_digit c) eqn:Hc; [|done]. destruct (span_digits r) as [ds' rest'] eqn:Hs. intros [= <- <-].
  apply span_digits_app in Hs as [-> _]. by split.
Qed.

Lemma scan_fraction_app s ds rest : scan_fraction s = (ds, rest) → s = ds ++ rest.
Proof.
  destruct s as [|c r]; cbn; [by intros [= <- <-]|]. destruct (ch "." c); [|by intros [= <- <-]].
  destruct (span_digits r) as [[|d ds'] rest'] eqn:Hs; intros [= <- <-]; [done|].
  by apply span_digits_app in Hs as [-> _].
Qed.

Lemma scan_exponent_app s ds rest : scan_exponent s = (ds, rest) → s = ds ++ rest.
Proof.
  destruct s as [|e r]; cbn; [by intros [= <- <-]|]. destruct (ch "e" e || ch "E" e); [|by intros [= <- <-]].
  set (sr := match r with c :: r' => if is_sign c then ([c], r') else ([], r) | [] => ([], r) end).
  assert (Hr : r = sr.1 ++ sr.2). { unfold sr. destruct r as [|c r']; [done|]. by destruct (is_sign c). }
  destruct sr as [sign r0]. cbn in Hr. subst r.
  destruct (span_digits r0) as [[|d ds'] rest'] eqn:Hs; intros [= <- <-]; [done|].
  apply span_digits_app in Hs as [-> _]. cbn. by rewrite <-app_assoc.
Qed.

Section scanner.
Context (read_float : str → pyfloat).
#[local] Abbreviation scan := (scan read_float).
#[local] Abbreviation scan_elements := (scan_elements read_float).
#[local] Abbreviation scan_items := (scan_items read_float).

Lemma scan_number_shorter s v rest : scan_number read_float s = Ok (v, rest) → (length rest < length s)%nat.
Proof using Type.
  unfold scan_number. set (ms := match s with c :: r => if ch "-" c then (true, r) else (false, s) | [] => (false, s) end).
  assert (Hl : (length ms.2 ≤ length s)%nat). { unfold ms. destruct s as [|c r]; [done|]. destruct (ch "-" c); cbn; lia. }
  destruct ms as [minus s']. cbn in Hl. intros ([ds r1] & H1 & H)%bind_Ok. apply of_option_Ok, scan_integer_app in H1 as [-> Hne].
  destruct (scan_fraction r1) as [fr r2] eqn:H2. apply scan_fraction_app in H2 as ->.
  destruct (scan_exponent r2) as [ex r3] eqn:H3. apply scan_exponent_app in H3 as ->.
  assert (r3 = rest) as ->. { destruct (bool_decide _); [|by injection H]. res_inv. by injection H. }
  rewrite !length_app in Hl. destruct ds; [done|]. cbn in Hl. lia.
Qed.

Lemma scan_constant_shorter cs s v rest :
  Forall (λ c, lit c.1 ≠ []) cs → scan_constant cs s = Some (v, rest) → (length rest < length s)%nat.
Proof using Type.
  induction 1 as [|[text v'] cs Hne _ IH]; cbn [scan_constant]; [done|]. destruct (starts_with _ s) eqn:Hs; [|done].
  intros [= _ <-]. cbn [fst] in Hne. clear IH. revert s Hs. destruct (lit text) as [|c t]; [done|]. intros [|c' s]; [done|].
  intros _. cbn. rewrite length_skipn. lia.
Qed.

Lemma scan_shorter fuel :
  (∀ s v rest, scan fuel s = Ok (v, rest) → (length rest < length s)%nat) ∧
  (∀ s v rest, scan_elements fuel s = Ok (v, rest) → (length rest < length s)%nat) ∧
  (∀ s v rest, scan_items fuel s = Ok (v, rest) → (length rest < length s)%nat).
Proof using Type.
  assert (Hws : ∀ s c r, skip_ws s = c :: r → (S (length r) ≤ length s)%nat).
  { intros s c r H. pose proof (skip_ws_length s) as Hl. by rewrite H in Hl. }
  induction fuel as [|fuel (IHv & IHe & IHi)]; [done|]. split_and!; intros s v rest; cbn [Json.scan Json.scan_elements Json.scan_items].
  - destruct s as [|c r]; [done|]. destruct (c =? 34)%N.
    { intros ([t r'] & Hs & [= _ <-])%bind_Ok. apply of_option_Ok, scan_string_shorter in Hs. cbn. lia. }
    destruct (ch "{" c).
    { destruct (skip_ws r) as [|c' r'] eqn:Hr; [done|]. pose proof (Hws _ _ _ Hr) as Hlen. destruct (ch "}" c'); [intros [= _ <-]; cbn; lia|].
      intros ([kvs r''] & Hs & [= _ <-])%bind_Ok. apply IHi in Hs. cbn in *. lia. }
    destruct (ch "[" c).
    { destruct (skip_ws r) as [|c' r'] eqn:Hr; [done|]. pose proof (Hws _ _ _ Hr) as Hlen. destruct (ch "]" c'); [intros [= _ <-]; cbn; lia|].
      intros ([kvs r''] & Hs & [= _ <-])%bind_Ok. apply IHe in Hs. cbn in *. lia. }
    destruct (scan_constant constants (c :: r)) as [[v' r']|] eqn:Hc; [|apply scan_number_shorter].
    intros [= _ <-]. eapply scan_constant_shorter, Hc. by repeat constructor.
  - intros ([v' r] & Hv & H)%bind_Ok. apply IHv in Hv. destruct (skip_ws r) as [|c r'] eqn:Hr; [done|].
    pose proof (Hws _ _ _ Hr) as Hlen. destruct (ch "]" c); [injection H as _ <-; lia|]. destruct (ch "," c); [|done].
    apply bind_Ok in H as ([vs r''] & He & [= _ <-]). apply IHe in He. pose proof (skip_ws_length r'). lia.
  - destruct s as [|q r]; [done|]. destruct (q =? 34)%N; [|done]. intros ([k r1] & Hk & H)%bind_Ok.
    apply of_option_Ok, scan_string_shorter in Hk. destruct (skip_ws r1) as [|c r2] eqn:Hr1; [done|].
    pose proof (Hws _ _ _ Hr1) as Hlen1. destruct (ch ":" c); [|done]. apply bind_Ok in H as ([v' r3] & Hv & H).
    apply IHv in Hv. pose proof (skip_ws_length r2) as Hlen2. destruct (skip_ws r3) as [|c' r4] eqn:Hr3; [done|].
    pose proof (Hws _ _ _ Hr3) as Hlen3. cbn. destruct (ch "}" c'); [injection H as _ <-; lia|]. destruct (ch "," c'); [|done].
    apply bind_Ok in H as ([vs r''] & He & [= _ <-]). apply IHi in He. pose proof (skip_ws_length r4). lia.
Qed.

(** The fuel of [loads_text] is enough: every refusal is a [ValueError]. *)
Definition value_error (e : pyexn) : Prop := e = decode_error ∨ e = unicode_error ∨ e = digits_error.
#[local] Hint Unfold value_error : core.

Lemma of_option_Err {A} (o : option A) e : of_option o = Err e → value_error e.
Proof using Type. destruct o; cbn; [done|]. intros [= <-]. auto. Qed.

Lemma scan_number_Err s e : scan_number read_float s = Err e → value_error e.
Proof using Type.
  unfold scan_number. destruct (match s with [] => _ | _ => _ end) as [minus s'].
  intros [H|([ds r] & _ & H)]%bind_Err; [by eapply of_option_Err|].
  destruct (scan_fraction r) as [fr r2], (scan_exponent r2) as [ex r3]. destruct (bool_decide _); [|done]. apply bind_Err in H as [[_ ->]%require_Err|(? & _ & [=])]. auto.
Qed.

Lemma scan_fuel fuel :
  (∀ s e, (2 * length s + 1 ≤ fuel)%nat → scan fuel s = Err e → value_error e) ∧
  (∀ s e, (2 * length s + 2 ≤ fuel)%nat → scan_elements fuel s = Err e → value_error e) ∧
  (∀ s e, (2 * length s + 2 ≤ fuel)%nat → scan_items fuel s = Err e → value_error e).
Proof using Type.
  assert (Hd : value_error decode_error) by auto.
  assert (Hws : ∀ s c r, skip_ws s = c :: r → (S (length r) ≤ length s)%nat).
  { intros s c r H. pose proof (skip_ws_length s) as Hl. by rewrite H in Hl. }
  induction fuel as [|fuel (IHv & IHe & IHi)]; [split_and!; intros; lia|].
  destruct (scan_shorter fuel) as (Sv & Se & Si).
  split_and!; intros s e Hf; cbn [Json.scan Json.scan_elements Json.scan_items].
  - destruct s as [|c r]; [by intros [= <-]|]. cbn in Hf. destruct (c =? 34)%N.
    { intros [H|([t r'] & _ & [=])]%bind_Err. by eapply of_option_Err. }
    destruct (ch "{" c).
    { destruct (skip_ws r) as [|c' r'] eqn:Hr; [by intros [= <-]|]. pose proof (Hws _ _ _ Hr) as Hlen. destruct (ch "}" c'); [done|].
      intros [H'|([t r''] & _ & [=])]%bind_Err. eapply IHi, H'. cbn. lia. }
    destruct (ch "[" c).
    { destruct (skip_ws r) as [|c' r'] eqn:Hr; [by intros [= <-]|]. pose proof (Hws _ _ _ Hr) as Hlen. destruct (ch "]" c'); [done|].
      intros [H'|([t r''] & _ & [=])]%bind_Err. eapply IHe, H'. cbn. lia. }
    destruct (scan_constant _ _); [done|apply scan_number_Err].
  - intros [H|([v r] & Hv & H)]%bind_Err; [eapply IHv, H; lia|]. apply Sv in Hv.
    destruct (skip_ws r) as [|c r'] eqn:Hr; [by injection H as <-|]. pose proof (Hws _ _ _ Hr) as Hlen.
    destruct (ch "]" c); [done|]. destruct (ch "," c); [|by injection H as <-].
    apply bind_Err in H as [H|([vs r''] & _ & [=])]. eapply IHe, H. pose proof (skip_ws_length r'). lia.
  - destruct s as [|q r]; [by intros [= <-]|]. destruct (q =? 34)%N; [|by intros [= <-]]. cbn in Hf.
    intros [H|([k r1] & Hk & H)]%bind_Err; [by eapply of_option_Err|]. apply of_option_Ok, scan_string_shorter in Hk.
    destruct (skip_ws r1) as [|c r2] eqn:Hr1; [by injection H as <-|]. pose proof (Hws _ _ _ Hr1) as Hlen1.
    destruct (ch ":" c); [|by injection H as <-]. pose proof (skip_ws_length r2) as Hlen2.
    apply bind_Err in H as [H|([v r3] & Hv & H)]; [eapply IHv, H; lia|]. apply Sv in Hv.
    destruct (skip_ws r3) as [|c' r4] eqn:Hr3; [by injection H as <-|]. pose proof (Hws _ _ _ Hr3) as Hlen3.
    destruct (ch "}" c'); [done|]. destruct (ch "," c'); [|by injection H as <-].
    apply bind_Err in H as [H|([vs r''] & _ & [=])]. eapply IHi, H. pose proof (skip_ws_length r4). lia.
Qed.

Lemma loads_text_Err s e : loads_text read_float s = Err e → value_error e.
Proof using Type.
  unfold loads_text. intros [H|([v r] & _ & H)]%bind_Err; [eapply (proj1 (scan_fuel _)), H; lia|].
  apply bind_Err in H as [[_ ->]%require_Err|(? & _ & [=])]. auto.
Qed.

Lemma loads_bytes_Err b e : loads_bytes read_float b = Err e → value_error e.
Proof using Type.
  unfold loads_bytes. destruct (decode_bytes b); [apply loads_text_Err|]. intros [= <-]. auto.
Qed.
End scanner.

(** ** Reading back strings *)

Lemma ch_true a c : ch a c = true ↔ c = Ascii.N_of_ascii a.
Proof. apply N.eqb_eq. Qed.

Lemma scan_string_plain_u h1 h2 h3 h4 u r :
  hex4 h1 h2 h3 h4 = Some u → high_surrogate u = false →
  scan_string (92 :: 117 :: h1 :: h2 :: h3 :: h4 :: r)%N = '(t, rest) ← scan_string r; Some (u :: t, rest).
Proof.
  intros Hu Hh. set (s := 92%N :: _).
  transitivity (u ← hex4 h1 h2 h3 h4; match r with
    | b :: v :: k1 :: k2 :: k3 :: k4 :: r' =>
        if high_surrogate u && ch "\" b && ch "u" v then
          d ← hex4 k1 k2 k3 k4;
          if low_surrogate d then '(t, rest) ← scan_string r'; Some (join_surrogates u d :: t, rest)
          else '(t, rest) ← scan_string r; Some (u :: t, rest)
        else '(t, rest) ← scan_string r; Some (u :: t, rest)
    | _ => '(t, rest) ← scan_string r; Some (u :: t, rest)
    end); [done|].
  rewrite Hu. cbn [mbind option_bind]. rewrite Hh. cbn [andb].
  by destruct r as [|? [|? [|? [|? [|? [|? ?]]]]]].
Qed.

Lemma hex4_control c :
  (c < 32)%N → ∃ h1 h2 h3 h4, hex 4 (Z.of_N c) = [h1; h2; h3; h4] ∧ hex4 h1 h2 h3 h4 = Some c ∧ high_surrogate c = false.
Proof.
  intros Hc. set (p i := match hex 4 (Z.of_N i) with
    | [a; b; c; d] => bool_decide (hex4 a b c d = Some i) && negb (high_surrogate i) | _ => false end).
  assert (Hp : forallb p (N.of_nat <$> List.seq 0 32) = true) by (by vm_compute).
  rewrite forallb_forall in Hp. specialize (Hp c).
  assert (Hin : In c (N.of_nat <$> List.seq 0 32)).
  { apply list_elem_of_In, list_elem_of_fmap. exists (N.to_nat c). rewrite N2Nat.id. split; [done|].
    apply elem_of_seq. lia. }
  specialize (Hp Hin). unfold p in Hp. destruct (hex 4 (Z.of_N c)) as [|h1 [|h2 [|h3 [|h4 [|]]]]]; try discriminate Hp.
  apply andb_prop in Hp as [Hh%bool_decide_eq_true Hs%negb_true_iff]. by exists h1, h2, h3, h4.
Qed.

Lemma scan_escape c r : scan_string (escape_char c ++ r) = '(t, rest) ← scan_string r; Some (c :: t, rest).
Proof.
  unfold escape_char.
  case_bool_decide as H1; [by subst c|]. case_bool_decide as H2; [by subst c|].
  case_bool_decide as H3; [by subst c|]. case_bool_decide as H4; [by subst c|].
  case_bool_decide as H5; [by subst c|]. case_bool_decide as H6; [by subst c|].
  case_bool_decide as H7; [by subst c|]. destruct (N.ltb_spec c 32) as [Hc|Hc].
  - destruct (hex4_control c Hc) as (h1 & h2 & h3 & h4 & -> & Hh & Hs).
    by apply (scan_string_plain_u h1 h2 h3 h4).
  - cbn [app scan_string]. replace (c =? 34)%N with false by (symmetry; by apply N.eqb_neq).
    replace (ch "\" c) with false by (symmetry; by apply N.eqb_neq).
    by replace (c <? 32)%N with false by char_lia.
Qed.

Lemma scan_json_str s rest : scan_string ((s ≫= escape_char) ++ 34%N :: rest) = Some (s, rest).
Proof. induction s as [|c s IH]; [done|]. cbn [mbind list_bind]. by rewrite <-app_assoc, scan_escape, IH. Qed.

(** ** Reading back numbers *)

Definition integer_shape (ds : str) : Prop :=
  ds = [48]%N ∨ ∃ c r, ds = c :: r ∧ ch "0" c = false ∧ Forall (λ c, is_digit c = true) ds.
Definition fraction_shape (fr : str) : Prop :=
  fr = [] ∨ ∃ ds, fr = 46%N :: ds ∧ ds ≠ [] ∧ Forall (λ c, is_digit c = true) ds.
Definition exponent_shape (ex : str) : Prop :=
  ex = [] ∨ ∃ e sign ds, ex = e :: sign ++ ds ∧ ch "e" e || ch "E" e = true ∧
    (sign = [] ∨ ∃ c, sign = [c] ∧ is_sign c = true) ∧ ds ≠ [] ∧ Forall (λ c, is_digit c = true) ds.

(** What ends a number. *)
Definition ends_with_char (p : N → bool) (s : str) : Prop :=
  match s with [] => True | c :: _ => p c = false end.
Definition number_char (c : N) : bool := is_digit c || ch "." c || ch "e" c || ch "E" c.
Abbreviation number_end := (ends_with_char number_char).

Lemma ends_weaken (p q : N → bool) s :
  (∀ c, q c = true → p c = true) → ends_with_char p s → ends_with_char q s.
Proof. intros Hpq. destruct s as [|c s]; cbn; [done|]. intros Hp. destruct (q c) eqn:Hq; [|done]. apply Hpq in Hq. congruence. Qed.

Lemma span_digits_read ds rest :
  Forall (λ c, is_digit c = true) ds → ends_with_char is_digit rest → span_digits (ds ++ rest) = (ds, rest).
Proof.
  intros Hd Hr. induction Hd as [|c ds Hc _ IH]; cbn.
  - destruct rest as [|c r]; [done|]. cbn in Hr. cbn. by rewrite Hr.
  - by rewrite Hc, IH.
Qed.

Lemma digit_not a c : is_digit (Ascii.N_of_ascii a) = false → is_digit c = true → ch a c = false.
Proof. intros Ha Hc. apply not_true_is_false. intros ->%ch_true. congruence. Qed.

Lemma scan_integer_read ds rest :
  integer_shape ds → ends_with_char is_digit rest → scan_integer (ds ++ rest) = Some (ds, rest).
Proof.
  intros [->|(c & r & -> & H0 & Hd)] Hr; [done|]. pose proof Hd as [Hc _]%Forall_cons.
  change ((c :: r) ++ rest) with (c :: (r ++ rest)). unfold scan_integer. rewrite H0, Hc. f_equal.
  by apply (span_digits_read (c :: r)).
Qed.

Lemma scan_fraction_read fr rest :
  fraction_shape fr → ends_with_char (λ c, is_digit c || ch "." c) rest → scan_fraction (fr ++ rest) = (fr, rest).
Proof.
  intros [->|(ds & -> & Hn & Hd)] Hr.
  - destruct rest as [|c r]; [done|]. cbn in *. by apply orb_false_iff in Hr as [_ ->].
  - cbn. rewrite span_digits_read; [|done|eapply ends_weaken, Hr; cbn; intros c Hc; by rewrite Hc]. by destruct ds.
Qed.

Lemma scan_exponent_read ex rest : exponent_shape ex → number_end rest → scan_exponent (ex ++ rest) = (ex, rest).
Proof.
  assert (Hdig : number_end rest → ends_with_char is_digit rest).
  { apply ends_weaken. intros c Hc. unfold number_char. by rewrite Hc. }
  intros [->|(e & sign & ds & -> & He & Hs & Hn & Hd)] Hr.
  - destruct rest as [|c r]; [done|]. cbn in *. unfold number_char in Hr.
    apply orb_false_iff in Hr as [[_ H1]%orb_false_iff H2]. by rewrite H1, H2.
  - cbn. rewrite He, <-app_assoc. destruct Hs as [->|(c & -> & Hc)]; cbn.
    + destruct ds as [|d ds]; [done|]. cbn [app]. apply Forall_cons in Hd as Hd'. destruct Hd' as [Hd0 _].
      assert (is_sign d = false) as -> by (unfold is_sign; rewrite !digit_not by done; done).
      change (d :: ds ++ rest) with ((d :: ds) ++ rest). by rewrite span_digits_read by auto.
    + rewrite Hc, span_digits_read by auto. by destruct ds.
Qed.

Section numbers.
Context (read_float : str → pyfloat).

Definition number_text (minus : bool) (ds fr ex : str) : str := (if minus then [45%N] else []) ++ ds ++ fr ++ ex.

Lemma scan_number_read minus ds fr ex rest :
  integer_shape ds → fraction_shape fr → exponent_shape ex → number_end rest →
  scan_number read_float (number_text minus ds fr ex ++ rest) =
    if bool_decide (fr = [] ∧ ex = []) then
      require (bool_decide (length ds ≤ MAX_STR_DIGITS)%nat) digits_error;;
      Ok (PInt (if minus then - decimal ds else decimal ds), rest)
    else Ok (PFloat (read_float (number_text minus ds fr ex)), rest).
Proof using Type.
  intros Hd Hf He Hr. unfold scan_number, number_text.
  assert (Hends : ends_with_char (λ c, is_digit c || ch "." c) (ex ++ rest)).
  { destruct He as [->|(e & sign & ds' & -> & He & _)].
    - eapply ends_weaken, Hr. unfold number_char. intros c. destruct (is_digit c), (ch "." c); done.
    - cbn. apply orb_true_iff in He as [->%ch_true| ->%ch_true]; done. }
  assert (Hends' : ends_with_char is_digit (fr ++ ex ++ rest)).
  { destruct Hf as [->|(ds' & -> & _)]; [|done]. eapply ends_weaken, Hends. cbn. intros c Hc. by rewrite Hc. }
  assert (Hm : ∀ s, (match ds ++ s with c :: r => if ch "-" c then (true, r) else (false, ds ++ s) | [] => (false, ds ++ s) end)
                    = (false, ds ++ s)).
  { intros s. destruct Hd as [->|(c & r & -> & _ & Hd)]; [done|]. apply Forall_cons in Hd as [Hc _].
    cbn. by rewrite digit_not. }
  rewrite <-!app_assoc.
  assert (Hs : (match (if minus then [45%N] else []) ++ ds ++ fr ++ ex ++ rest with
                | c :: r => if ch "-" c then (true, r) else (false, (if minus then [45%N] else []) ++ ds ++ fr ++ ex ++ rest)
                | [] => (false, (if minus then [45%N] else []) ++ ds ++ fr ++ ex ++ rest) end)
               = (minus, ds ++ fr ++ ex ++ rest)) by (destruct minus; [done|apply Hm]).
  rewrite Hs, scan_integer_read by done. cbn [of_option mbind res_bind].
  by rewrite scan_fraction_read, scan_exponent_read.
Qed.
End numbers.

(** ** The text of an integer *)

Lemma decimal_digits n z : decimal (digits n z) = z mod 10 ^ Z.of_nat n.
Proof.
  revert z. induction n as [|n IH]; intros z; [by rewrite Z.mod_1_r|]. cbn [digits]. unfold decimal in *.
  rewrite foldl_app, IH. cbn [foldl]. rewrite Nat2Z.inj_succ, Z.pow_succ_r, Z.rem_mul_r by lia.
  pose proof (Z.mod_pos_bound z 10 ltac:(lia)). rewrite Z2N.id by lia. lia.
Qed.

Lemma digits_lead n z : digits (S n) z = Z.to_N (48 + (z / 10 ^ Z.of_nat n) mod 10) :: digits n z.
Proof.
  revert z. induction n as [|n IH]; intros z; [by rewrite Z.div_1_r|].
  change (digits (S (S n)) z) with (digits (S n) (z / 10) ++ [Z.to_N (48 + z mod 10)]). rewrite IH.
  cbn [app digits]. rewrite Nat2Z.inj_succ, Z.pow_succ_r by lia. by rewrite Z.div_div by lia.
Qed.

Lemma digit_count_lower fuel z : 0 < z → 10 ^ (Z.of_nat (digit_count fuel z) - 1) ≤ z.
Proof.
  revert z. induction fuel as [|fuel IH]; intros z Hz; [cbn; lia|]. cbn [digit_count].
  destruct (Z.ltb_spec z 10); [cbn; lia|]. specialize (IH (z / 10) ltac:(apply Z.div_str_pos; lia)).
  rewrite Nat2Z.inj_succ. replace (Z.succ _ - 1) with (Z.succ (Z.of_nat (digit_count fuel (z / 10)) - 1)) by lia.
  rewrite Z.pow_succ_r by (destruct fuel; cbn [digit_count]; [lia|destruct (_ <? _); lia]).
  pose proof (Z.mul_div_le z 10). lia.
Qed.

Lemma digit_count_pos fuel z : (0 < digit_count fuel z)%nat.
Proof. destruct fuel; cbn [digit_count]; [lia|destruct (_ <? _); lia]. Qed.

Definition abs_str (a : Z) : str := digits (digit_count (Z.to_nat (Z.log2 a)) a) a.

Lemma is_digit_char d : 0 ≤ d < 10 → is_digit (Z.to_N (48 + d)) = true.
Proof.
  intros Hd. pose proof (digits_chars 1 d) as Hc. cbn in Hc. rewrite Z.mod_small in Hc by done.
  by apply Forall_inv in Hc.
Qed.

Lemma abs_str_shape a : 0 ≤ a → integer_shape (abs_str a) ∧ decimal (abs_str a) = a.
Proof.
  intros Ha. unfold abs_str. set (n := digit_count _ _). pose proof (int_str_count a Ha) as Hu. fold n in Hu.
  split; [|rewrite decimal_digits, Z.mod_small by done; done].
  destruct (decide (a = 0)) as [->|Hne]; [by left|right].
  pose proof (digit_count_lower (Z.to_nat (Z.log2 a)) a ltac:(lia)) as Hl. fold n in Hl.
  pose proof (digit_count_pos (Z.to_nat (Z.log2 a)) a) as Hp. fold n in Hp. clearbody n.
  destruct n as [|n]; [lia|]. replace (Z.of_nat (S n) - 1) with (Z.of_nat n) in Hl by lia.
  rewrite Nat2Z.inj_succ, Z.pow_succ_r in Hu by lia.
  exists (Z.to_N (48 + (a / 10 ^ Z.of_nat n) mod 10)), (digits n a). rewrite <-digits_lead.
  split_and!; [done| |eapply Forall_impl; [apply digits_chars|done]].
  assert (Hlead : 1 ≤ a / 10 ^ Z.of_nat n < 10).
  { split; [apply Z.div_le_lower_bound; lia|apply Z.div_lt_upper_bound; lia]. }
  rewrite Z.mod_small by lia. apply not_true_is_false. intros Hz%ch_true.
  change (Ascii.N_of_ascii "0") with 48%N in Hz. lia.
Qed.

Lemma int_str_text z : int_str z = number_text (z <? 0) (abs_str (Z.abs z)) [] [].
Proof. unfold int_str, number_text, abs_str. by rewrite app_nil_r. Qed.

Lemma scan_int read_float z rest :
  (length (abs_str (Z.abs z)) ≤ MAX_STR_DIGITS)%nat → number_end rest →
  scan_number read_float (int_str z ++ rest) = Ok (PInt z, rest).
Proof.
  intros Hl Hr. destruct (abs_str_shape (Z.abs z) ltac:(lia)) as [Hs Hd].
  rewrite int_str_text, scan_number_read by (done || by left). rewrite bool_decide_eq_true_2 by done.
  rewrite bool_decide_eq_true_2 by done. cbn. rewrite Hd. f_equal. f_equal. f_equal.
  destruct (Z.ltb_spec z 0); lia.
Qed.

(** ** Reading back values *)

(** What the text of a float must look like for the scanner to take it as one:
    the shape of [float.__repr__] of a finite float. *)
Definition float_text_ok (float_repr : pyfloat → str) (read_float : str → pyfloat) : Prop :=
  ∀ f, isfinite f = true → read_float (float_repr f) = f ∧
    ∃ minus ds fr ex, float_repr f = number_text minus ds fr ex ∧ integer_shape ds ∧ fraction_shape fr ∧
      exponent_shape ex ∧ ¬ (fr = [] ∧ ex = []).

(** Values that JSON holds: finite floats, integers that [int] reads, and
    mappings, whose keys are distinct. *)
Fixpoint json_ok (a : aval) : Prop :=
  match a with
  | AInt z => (length (abs_str (Z.abs z)) ≤ MAX_STR_DIGITS)%nat
  | AFloat f => isfinite f = true
  | AList l => foldr (λ a P, json_ok a ∧ P) True l
  | ADict kvs => NoDup kvs.*1 ∧ foldr (λ kv P, json_ok kv.2 ∧ P) True kvs
  | _ => True
  end.

Lemma dict_set_new {V} (k : str) (v : V) d : k ∉ d.*1 → dict_set k v d = d ++ [(k, v)].
Proof.
  induction d as [|[k' v'] d IH]; cbn; [done|]. intros [Hk Hd]%not_elem_of_cons.
  rewrite decide_False by congruence. by rewrite IH.
Qed.

Lemma dict_of_NoDup {V} (kvs : list (str * V)) : NoDup kvs.*1 → dict_of kvs = kvs.
Proof.
  intros Hn. unfold dict_of. enough (∀ d, NoDup (d ++ kvs).*1 →
    foldl (λ d kv, dict_set kv.1 kv.2 d) d kvs = d ++ kvs) as H by by rewrite H.
  clear Hn. induction kvs as [|[k v] kvs IH]; intros d Hd; cbn; [by rewrite app_nil_r|].
  rewrite fmap_app in Hd. rewrite dict_set_new.
  - rewrite IH; [by rewrite <-app_assoc|]. by rewrite <-app_assoc, fmap_app.
  - apply NoDup_app in Hd as (_ & Hd & _). intros Hk. eapply Hd; [done|]. apply elem_of_cons. by left.
Qed.

Section values.
Context (float_repr : pyfloat → str) (read_float : str → pyfloat).
Context (Hfloat : float_text_ok float_repr read_float).
#[local] Abbreviation dumps := (json_dumps float_repr).

(** Nothing that [json.dumps] writes starts with white space or a closing
    bracket. *)
Definition opens (c : N) : bool := negb (ws c) && negb (ch "]" c) && negb (ch "}" c).

Lemma opens_number minus ds fr ex : integer_shape ds → ∃ c r,
  number_text minus ds fr ex = c :: r ∧ opens c = true ∧ (c =? 34)%N = false ∧ ch "{" c = false ∧ ch "[" c = false.
Proof using Type.
  intros Hd. destruct minus; [by eexists 45%N, _|]. unfold number_text. cbn [app].
  destruct Hd as [->|(c & r & -> & _ & [Hc _]%Forall_cons)]; [by eexists 48%N, _|].
  exists c, (r ++ fr ++ ex). split; [done|].
  assert (Hws : ws c = false).
  { apply bool_decide_eq_false. intros Hin. repeat (apply elem_of_cons in Hin as [-> |Hin]; [done|]).
    by apply not_elem_of_nil in Hin. }
  unfold opens. rewrite Hws, !digit_not by done. split_and!; try done.
  apply N.eqb_neq. by intros ->.
Qed.

Definition starts_open (a : aval) : Prop := ∃ c r, dumps a = c :: r ∧ opens c = true.

Lemma dumps_opens a : json_ok a → starts_open a.
Proof using Hfloat.
  unfold starts_open. destruct a as [|[]|z|f|s|l|kvs]; intros Ha; cbn [json_dumps]; try (by eexists _, _).
  - rewrite int_str_text. destruct (opens_number (z <? 0) (abs_str (Z.abs z)) [] []) as (c & r & He & Ho & _);
      [apply abs_str_shape; lia|by exists c, r].
  - destruct (Hfloat f Ha) as (_ & minus & ds & fr & ex & -> & Hd & _).
    destruct (opens_number minus ds fr ex Hd) as (c & r & He & Ho & _). by exists c, r.
Qed.

Lemma skip_opens c r : opens c = true → skip_ws (c :: r) = c :: r.
Proof using Type. unfold opens. cbn. by destruct (ws c). Qed.

Lemma scan_number_value fuel s rest v :
  (∃ minus ds fr ex, s = number_text minus ds fr ex ∧ integer_shape ds) →
  scan_number read_float (s ++ rest) = Ok (v, rest) →
  scan read_float (S fuel) (s ++ rest) = Ok (v, rest).
Proof using Type.
  intros (minus & ds & fr & ex & -> & Hd) Hs.
  destruct (opens_number minus ds fr ex Hd) as (c & r & He & _ & H1 & H2 & H3).
  assert (Hc : scan_constant constants (number_text minus ds fr ex ++ rest) = None).
  { unfold number_text. destruct Hd as [->|(d & r' & -> & _ & [Hd _]%Forall_cons)]; [by destruct minus|].
    assert (Hne : ∀ n, is_digit n = false → (n =? d)%N = false) by (intros n Hn; apply N.eqb_neq; congruence).
    destruct minus; cbn; by rewrite ?Hne by done. }
  rewrite He in *. cbn [app] in *. cbn [Json.scan]. by rewrite H1, H2, H3, Hc.
Qed.

Definition reads_back (a : aval) : Prop := ∀ fuel rest,
  (2 * length (dumps a ++ rest) + 1 ≤ fuel)%nat → number_end rest →
  scan read_float fuel (dumps a ++ rest) = Ok (plain a, rest).

Lemma join_cons x y ys : join (x :: y :: ys) = x ++ 44%N :: join (y :: ys).
Proof using Type. done. Qed.

Lemma scan_elements_dumps l : l ≠ [] → Forall (λ a, starts_open a ∧ reads_back a) l → ∀ fuel rest,
  (2 * length (join (dumps <$> l) ++ 93%N :: rest) + 2 ≤ fuel)%nat →
  scan_elements read_float fuel (join (dumps <$> l) ++ 93%N :: rest) = Ok (plain <$> l, rest).
Proof using Hfloat.
  intros Hn Hl. induction Hl as [|a l [Ha Hr] Hl IH]; [done|]. intros [|fuel] rest Hf; [lia|].
  destruct l as [|a' l].
  - cbn [fmap list_fmap join mbind list_bind] in *. rewrite app_nil_r in *. cbn [scan_elements].
    rewrite Hr by (done || lia). done.
  - change (join (dumps <$> a :: a' :: l)) with (dumps a ++ 44%N :: join (dumps <$> a' :: l)) in *.
    rewrite <-app_assoc in *. cbn [app] in *. cbn [scan_elements].
    rewrite Hr by (done || lia). cbn [mbind res_bind].
    change (skip_ws (44%N :: join (dumps <$> a' :: l) ++ 93%N :: rest))
      with (44%N :: join (dumps <$> a' :: l) ++ 93%N :: rest).
    change (ch "]" 44%N) with false. change (ch "," 44%N) with true. cbv iota.
    assert (Hs : skip_ws (join (dumps <$> a' :: l) ++ 93%N :: rest) = join (dumps <$> a' :: l) ++ 93%N :: rest).
    { apply Forall_cons in Hl as [[Ha' _] _]. destruct Ha' as (c & r & He & Ho).
      cbn [fmap list_fmap join]. rewrite He. by apply skip_opens. }
    rewrite Hs, IH; [done|done|]. rewrite length_app in Hf. cbn [length] in Hf. lia.
Qed.

Definition item_text (kv : str * aval) : str := json_str kv.1 ++ lit ":" ++ dumps kv.2.

Lemma scan_items_dumps kvs : kvs ≠ [] → Forall (λ kv, starts_open kv.2 ∧ reads_back kv.2) kvs → ∀ fuel rest,
  (2 * length (join (item_text <$> kvs) ++ 125%N :: rest) + 2 ≤ fuel)%nat →
  scan_items read_float fuel (join (item_text <$> kvs) ++ 125%N :: rest) = Ok (prod_map id plain <$> kvs, rest).
Proof using Hfloat.
  intros Hn Hl. induction Hl as [|[k a] kvs [Ha Hr] Hl IH]; [done|]. intros [|fuel] rest Hf; [lia|].
  cbn [snd] in Ha, Hr.
  set (tail := match kvs with [] => 125%N :: rest | _ => 44%N :: join (item_text <$> kvs) ++ 125%N :: rest end).
  assert (Htext : join (item_text <$> (k, a) :: kvs) ++ 125%N :: rest
                  = 34%N :: ((k ≫= escape_char) ++ 34%N :: 58%N :: dumps a ++ tail)).
  { unfold tail. destruct kvs as [|kv kvs].
    - cbn [fmap list_fmap join mbind list_bind]. unfold item_text, json_str. cbn [fst snd]. rewrite app_nil_r.
      rewrite <-!app_assoc. done.
    - change (join (item_text <$> (k, a) :: kv :: kvs)) with (item_text (k, a) ++ 44%N :: join (item_text <$> kv :: kvs)).
      unfold item_text at 1, json_str. cbn [fst snd]. rewrite <-!app_assoc. done. }
  rewrite Htext in *. assert (Hend : number_end tail) by (unfold tail; by destruct kvs).
  assert (Hlen : (2 * length (dumps a ++ tail) + 1 ≤ fuel)%nat).
  { cbn [length] in Hf. rewrite length_app in Hf. cbn [length] in Hf. lia. }
  cbn [scan_items]. change (34 =? 34)%N with true. cbv iota. rewrite scan_json_str. cbn [of_option mbind res_bind].
  change (skip_ws (58%N :: dumps a ++ tail)) with (58%N :: dumps a ++ tail). change (ch ":" 58%N) with true. cbv iota.
  destruct Ha as (c & r & He & Ho).
  assert (skip_ws (dumps a ++ tail) = dumps a ++ tail) as -> by (rewrite He; by apply skip_opens).
  rewrite Hr by done. cbn [mbind res_bind]. clear Htext. destruct kvs as [|kv kvs]; [done|]. unfold tail in *.
  change (skip_ws (44%N :: join (item_text <$> kv :: kvs) ++ 125%N :: rest))
    with (44%N :: join (item_text <$> kv :: kvs) ++ 125%N :: rest).
  change (ch "}" 44%N) with false. change (ch "," 44%N) with true. cbv iota.
  change (skip_ws (join (item_text <$> kv :: kvs) ++ 125%N :: rest)) with (join (item_text <$> kv :: kvs) ++ 125%N :: rest).
  rewrite IH; [done|done|]. rewrite length_app in Hlen. cbn [length] in Hlen. lia.
Qed.

Lemma json_ok_list l : json_ok (AList l) ↔ Forall json_ok l.
Proof using Type. apply (foldr_and_Forall json_ok). Qed.
Lemma json_ok_dict kvs : json_ok (ADict kvs) ↔ NoDup kvs.*1 ∧ Forall (λ kv, json_ok kv.2) kvs.
Proof using Type. cbn [json_ok]. by rewrite (foldr_and_Forall (λ kv : str * aval, json_ok kv.2)). Qed.

(** An object, given its values. *)
Lemma reads_back_dict kvs :
  NoDup kvs.*1 → Forall (λ kv, starts_open kv.2 ∧ reads_back kv.2) kvs → reads_back (ADict kvs).
Proof using Hfloat.
  intros Hn Hall [|fuel] rest Hf Hr; [lia|].
  destruct kvs as [|[k a] kvs]; [done|].
  change (dumps (ADict ((k, a) :: kvs)) ++ rest)
    with (123%N :: (join (item_text <$> (k, a) :: kvs) ++ lit "}") ++ rest) in *.
  rewrite <-app_assoc in *. cbn [app] in *. change (lit "}" ++ rest) with (125%N :: rest) in *.
  assert (Hs : ∃ t, join (item_text <$> (k, a) :: kvs) ++ 125%N :: rest = 34%N :: t) by by eexists.
  destruct Hs as (t & Ht). cbn [scan]. change (123 =? 34)%N with false. change (ch "{" 123%N) with true.
  cbv iota. rewrite Ht. change (skip_ws (34%N :: t)) with (34%N :: t). change (ch "}" 34%N) with false. cbv iota.
  rewrite <-Ht, scan_items_dumps; [|done|done|cbn [length] in Hf; lia]. cbn [mbind res_bind].
  cbn [plain]. rewrite dict_of_NoDup.
  - by rewrite <-list_fmap_compose.
  - rewrite <-list_fmap_compose. by rewrite (list_fmap_ext _ fst).
Qed.

Lemma scan_dumps a : json_ok a → reads_back a.
Proof using Hfloat.
  induction a as [a Hl Hd|l IH|kvs IH] using aval_nested_ind; intros Ha fuel rest Hf Hr.
  - destruct fuel as [|fuel]; [lia|]. destruct a as [|[]|z|f|s|l|kvs]; try done; cbn [json_dumps plain] in *.
    + apply scan_number_value; [|by apply scan_int]. rewrite int_str_text. eexists _, _, _, _. split; [done|].
      apply abs_str_shape. lia.
    + destruct (Hfloat f Ha) as (Hb & minus & ds & fr & ex & He & Hds & Hfr & Hex & Hne). rewrite He in *.
      apply scan_number_value; [by eexists _, _, _, _|]. rewrite scan_number_read by done.
      by rewrite bool_decide_eq_false_2, Hb by done.
    + unfold json_str. cbn [app scan]. rewrite <-app_assoc. change (34 =? 34)%N with true. cbv iota.
      cbn [app]. by rewrite scan_json_str.
    + by destruct (Hl l).
    + by destruct (Hd kvs).
  - apply json_ok_list in Ha. destruct fuel as [|fuel]; [lia|]. cbn [json_dumps plain] in *.
    destruct l as [|a l]; [done|].
    assert (Hall : Forall (λ a, starts_open a ∧ reads_back a) (a :: l)).
    { rewrite Forall_forall in IH, Ha |- *. intros x Hx. split; [by apply dumps_opens, Ha|by apply IH, Ha]. }
    change ((lit "[" ++ join (dumps <$> a :: l) ++ lit "]") ++ rest)
      with (91%N :: (join (dumps <$> a :: l) ++ lit "]") ++ rest) in *.
    rewrite <-app_assoc in *. cbn [app] in *. change (lit "]" ++ rest) with (93%N :: rest) in *.
    apply Forall_cons in Ha as [Ha _]. destruct (dumps_opens a Ha) as (c & r & He & Ho).
    assert (Hs : ∃ t, join (dumps <$> a :: l) ++ 93%N :: rest = c :: t).
    { cbn [fmap list_fmap join]. rewrite He. by eexists. }
    destruct Hs as (t & Ht). cbn [scan]. change (91 =? 34)%N with false. change (ch "{" 91%N) with false.
    change (ch "[" 91%N) with true. cbv iota. rewrite Ht, skip_opens by done.
    assert (ch "]" c = false) as -> by (unfold opens in Ho; by destruct (ch "]" c), (ws c)). rewrite <-Ht.
    rewrite scan_elements_dumps; [done|done|done|]. cbn [length] in Hf. lia.
  - apply json_ok_dict in Ha as [Hn Ha]. apply reads_back_dict; [done| |done|done]. rewrite Forall_forall in IH, Ha |- *.
    intros kv Hkv. split; [by apply dumps_opens, Ha|by apply IH, Ha].
Qed.

(** A value that is read back at the front of a text is read back as one. *)
Lemma loads_reads a : starts_open a → reads_back a → loads_text read_float (dumps a) = Ok (plain a).
Proof using Type.
  intros (c & r & He & Ho) Hs. unfold loads_text.
  assert (skip_ws (dumps a) = dumps a) as -> by (rewrite He; by apply skip_opens).
  specialize (Hs (2 * length (dumps a) + 1)%nat []). rewrite app_nil_r in Hs. by rewrite Hs by done.
Qed.

(** [json.loads(json.dumps(a).encode())] *)
Lemma loads_dumps a :
  json_ok a → loads_text read_float (dumps a) = Ok (plain a).
Proof using Hfloat. intros Ha. apply loads_reads; [by apply dumps_opens|by apply scan_dumps]. Qed.
End values.

(** A concrete [repr] of floats, and its inverse. *)
Definition demo_float_text (f : pyfloat) : str :=
  match f with FFin m e => int_str m ++ lit ".0e" ++ int_str e | _ => lit "nan" end.
Definition decimal_text (t : str) : Z := match t with c :: t' => if ch "-" c then - decimal t' else decimal t | [] => 0 end.
Definition demo_read_float (s : str) : pyfloat :=
  match partition_on 46 s with
  | Some (m, t) => FFin (decimal_text m) (decimal_text (drop 2 t))
  | None => FNan
  end.

Lemma decimal_int_str z : decimal_text (int_str z) = z ∧ 46%N ∉ int_str z.
Proof.
  rewrite int_str_text. destruct (abs_str_shape (Z.abs z) ltac:(lia)) as [Hs Hd].
  assert (Hf : Forall (λ c, is_digit c = true) (abs_str (Z.abs z))) by apply digits_chars.
  assert (H46 : 46%N ∉ abs_str (Z.abs z)).
  { intros Hin. rewrite Forall_forall in Hf. by specialize (Hf _ Hin). }
  unfold number_text. rewrite !app_nil_r. destruct (Z.ltb_spec z 0).
  - change (decimal_text ([45%N] ++ abs_str (Z.abs z))) with (- decimal (abs_str (Z.abs z))). split; [lia|].
    apply not_elem_of_cons. by split.
  - cbn [app]. split; [|done]. destruct (abs_str (Z.abs z)) as [|c t]; [change (decimal []) with 0 in Hd; change (0 = z); lia|].
    apply Forall_cons in Hf as [Hc _]. unfold decimal_text. rewrite digit_not by done. lia.
Qed.

Lemma demo_float_ok : float_text_ok demo_float_text demo_read_float.
Proof.
  intros [| |m e] Hf; [done..|]. cbn [demo_float_text]. split.
  - destruct (decimal_int_str m) as [Hm Hn], (decimal_int_str e) as [He _]. unfold demo_read_float.
    change (lit ".0e" ++ int_str e) with (46%N :: lit "0e" ++ int_str e).
    rewrite (proj2 (partition_on_Some 46 _ (int_str m) (lit "0e" ++ int_str e))) by done.
    rewrite Hm. change (drop 2 (lit "0e" ++ int_str e)) with (int_str e). by rewrite He.
  - exists (m <? 0), (abs_str (Z.abs m)), (lit ".0"), (lit "e" ++ int_str e).
    destruct (abs_str_shape (Z.abs m) ltac:(lia)) as [Hs _], (abs_str_shape (Z.abs e) ltac:(lia)) as [Hs' _].
    split_and!; [|done|right|right|by intros []].
    + rewrite int_str_text. unfold number_text. rewrite app_nil_r. change (lit ".0e") with (lit ".0" ++ lit "e").
      by rewrite <-!app_assoc.
    + exists (lit "0"). by repeat constructor.
    + exists 101%N, (if e <? 0 then lit "-" else []), (abs_str (Z.abs e)). split_and!; [|done| | |apply digits_chars].
      * rewrite int_str_text. unfold number_text. rewrite !app_nil_r. by destruct (e <? 0).
      * destruct (e <? 0); [right; by eexists|by left].
      * destruct Hs' as [->|(c & r & -> & _)]; done.
Qed.
