(* ===== verification/Cache.v ===== *)
(** * Cache keys and values (cache/keys.py, cache/codec.py)

    Keys with their environment, owner, version, scope and identifier, and the
    versioned JSON envelope of a cached value. *)

From S2P Require Import Prelude Regex PyValues CoreTypes AuditTrail AuditSpecs Errors Texts ErrorSpecs Json JsonSpecs.

(** ** Keys *)

Definition SEGMENT : regex :=
  Seq (Cls [upper; lower; digit]) (between 0 63 (Cls [upper; lower; digit; chr "."; chr "_"; chr "-"])).

Record CacheKey := NewCacheKey {
  environment : str;
  owner : str;
  version : Z;
  scope : str;
  identifier : str }.

#[export] Instance CacheKey_eq_dec : EqDecision CacheKey.
Proof. solve_decision. Defined.

Definition segment (name : string) (v : pyval) : res pyexn str :=
  validate_pattern SEGMENT None ("unsafe cache key segment: " ++ name) v.

Definition cache_key (environment owner version scope identifier : pyval) : res pyexn CacheKey :=
  version ← match as_int version with
            | Some z => require ((1 <=? z) && (z <=? 999))
                          (ValueError "version must be an integer between 1 and 999");; Ok z
            | None => Err (ValueError "version must be an integer between 1 and 999")
            end;
  environment ← segment "environment" environment;
  owner ← segment "owner" owner;
  scope ← segment "scope" scope;
  identifier ← segment "identifier" identifier;
  Ok (NewCacheKey environment owner version scope identifier).

Definition slot (k : CacheKey) : str :=
  environment k ++ lit ":" ++ owner k ++ lit ":" ++ scope k ++ lit ":" ++ identifier k.
Definition render (k : CacheKey) : str :=
  lit "ekumidayomi:{" ++ slot k ++ lit "}:v" ++ int_str (version k).
Definition lock_key (k : CacheKey) : str := render k ++ lit ":lock".
#[global] Arguments render : simpl never.
#[global] Arguments lock_key : simpl never.

(** ** Values *)

(** What Redis gives back, by the settings of the client. *)
Inductive cached := CText (s : str) | CBytes (b : list N) | COther.

(** [CacheDecodeError], or an exception that [decode] does not turn into one. *)
Inductive decode_failure := CacheDecodeError (msg : string) | Escapes (e : pyexn).

Record JsonCacheCodec := NewCodec { schema_version : Z; max_bytes : Z }.

Definition json_cache_codec (schema_version max_bytes : pyval) : res pyexn JsonCacheCodec :=
  schema_version ← match as_int schema_version with
                   | Some z => require ((1 <=? z) && (z <=? 999))
                                 (ValueError "schema_version must be an integer between 1 and 999");; Ok z
                   | None => Err (ValueError "schema_version must be an integer between 1 and 999")
                   end;
  max_bytes ← match as_int max_bytes with
              | Some z => require ((1 <=? z) && (z <=? 1048576))
                            (ValueError "max_bytes must be an integer between 1 and 1048576");; Ok z
              | None => Err (ValueError "max_bytes must be an integer between 1 and 1048576")
              end;
  Ok (NewCodec schema_version max_bytes).

(** [value == n] for an integer [n]: booleans and floats compare as numbers. *)
Definition equals_int (n : Z) (v : pyval) : bool :=
  match v with
  | PInt z => z =? n
  | PBool b => (if b then 1 else 0) =? n
  | PFloat (FFin m e) => if 0 <=? e then m * 2 ^ e =? n else m =? n * 2 ^ (- e)
  | _ => false
  end.

Section codec.
Context (float_repr : pyfloat → str) (read_float : str → pyfloat).

Definition int_text (z : Z) : res pyexn str :=
  require (bool_decide (length (abs_str (Z.abs z)) ≤ MAX_STR_DIGITS)%nat) digits_error;; Ok (int_str z).
Definition float_value (f : pyfloat) : res pyexn pyfloat :=
  require (isfinite f) (ValueError "Out of range float values are not JSON compliant");; Ok f.

Definition json_key (k : pyval) : res pyexn str :=
  match k with
  | PStr s => Ok s
  | PInt z => int_text z
  | PBool b => Ok (if b then lit "true" else lit "false")
  | PNone => Ok (lit "null")
  | PFloat f => f ← float_value f; Ok (float_repr f)
  | _ => Err (TypeError "keys must be str, int, float, bool or None")
  end.

(** The value that [json.dumps(value, allow_nan=False)] writes. *)
Fixpoint to_json (v : pyval) : res pyexn aval :=
  match v with
  | PNone => Ok ANull
  | PBool b => Ok (ABool b)
  | PInt z => int_text z;; Ok (AInt z)
  | PFloat f => f ← float_value f; Ok (AFloat f)
  | PStr s => Ok (AStr s)
  | PList l | PTuple l => l ← traverse to_json l; Ok (AList l)
  | PDict kvs => kvs ← traverse (λ kv, k ← json_key kv.1; a ← to_json kv.2; Ok (k, a)) kvs; Ok (ADict kvs)
  | _ => Err (TypeError "Object is not JSON serializable")
  end.

Definition envelope (c : JsonCacheCodec) (a : aval) : aval :=
  ADict [(lit "schema_version", AInt (schema_version c)); (lit "value", a)].

Definition encode (c : JsonCacheCodec) (value : pyval) : res pyexn (list N) :=
  require (match value with PNone => false | _ => true end) (ValueError "cache value must not be null");;
  encoded ← match (a ← to_json value;
                   let text := json_dumps float_repr (envelope c a) in
                   require (encodable text) (ValueError "surrogates not allowed");;
                   Ok (utf8 text)) with
            | Ok b => Ok b
            | Err _ => Err (ValueError "cache value must be JSON-safe")
            end;
  require (negb (max_bytes c <? Z.of_nat (length encoded))) (ValueError "cache value exceeds the byte limit");;
  Ok encoded.

Definition raw_bytes (encoded : cached) : res decode_failure (list N) :=
  match encoded with
  | CText s => require (encodable s) (CacheDecodeError "cache value is corrupt");; Ok (utf8 s)
  | CBytes b => Ok b
  | COther => Err (CacheDecodeError "cache value has an unsupported representation")
  end.

(** [json.loads(raw)] under its [except] clause: the limit on the digits of an
    integer raises a plain [ValueError]. *)
Definition parse (raw : list N) : res decode_failure pyval :=
  match loads_bytes read_float raw with
  | Ok v => Ok v
  | Err e => if bool_decide (e = decode_error ∨ e = unicode_error)
             then Err (CacheDecodeError "cache value is corrupt") else Err (Escapes e)
  end.

Definition decode (c : JsonCacheCodec) (encoded : cached) : res decode_failure pyval :=
  raw ← raw_bytes encoded;
  require (negb (max_bytes c <? Z.of_nat (length raw))) (CacheDecodeError "cache value exceeds the byte limit");;
  envelope ← parse raw;
  match envelope with
  | PDict kvs =>
      match item "schema_version" kvs, item "value" kvs with
      | Some version, Some value =>
          require (bool_decide (length kvs = 2%nat)) (CacheDecodeError "cache envelope is invalid");;
          require (equals_int (schema_version c) version) (CacheDecodeError "cache schema version is unsupported");;
          match value with
          | PNone => Err (CacheDecodeError "cache value must not be null")
          | _ => Ok value
          end
      | _, _ => Err (CacheDecodeError "cache envelope is invalid")
      end
  | _ => Err (CacheDecodeError "cache envelope is invalid")
  end.
End codec.
