(* ===== verification/CacheSpecs.v ===== *)
(** * What cache keys and the codec guarantee

    Keys never collide, not even with a lock; what is encoded is read back; and
    what cannot be read is refused. *)

From S2P Require Import Prelude Regex PyValues CoreTypes AuditTrail AuditSpecs Errors Texts ErrorSpecs Json JsonSpecs Cache.

(** ** Keys *)

Lemma segment_free name v s c :
  segment name v = Ok s → in_cls [upper; lower; digit; chr "."; chr "_"; chr "-"] c = false → c ∉ s.
Proof.
  intros (-> & Hm%fullmatch_matches & _)%validate_pattern_Ok Hc.
  assert (Hf : Forall (λ c, in_cls [upper; lower; digit; chr "."; chr "_"; chr "-"] c = true) s).
  { eapply matches_chars; [|exact Hm]. split; [intros d Hd; eapply in_cls_incl, Hd; by vm_compute|].
    split; [apply all_cls_rep|apply all_cls_upto]; cbn; auto. }
  intros Hin. rewrite Forall_forall in Hf. by rewrite (Hf _ Hin) in Hc.
Qed.

Definition key_parts (k : CacheKey) : list str :=
  [lit "ekumidayomi"; lit "{" ++ environment k; owner k; scope k; identifier k ++ lit "}"; lit "v" ++ int_str (version k)].

Lemma render_parts k : render k = join_on 58 (key_parts k).
Proof.
  unfold render, slot. cbn [key_parts join_on]. change (lit "}:v") with (lit "}" ++ 58%N :: lit "v").
  change (lit "ekumidayomi:{") with (lit "ekumidayomi" ++ 58%N :: lit "{"). change (lit ":") with [58%N].
  by rewrite <-!app_assoc.
Qed.

Lemma lock_parts k : lock_key k = join_on 58 (key_parts k ++ [lit "lock"]).
Proof.
  by rewrite join_on_snoc, <-render_parts.
Qed.

Definition valid_key (k : CacheKey) : Prop := ∃ e o v s i, cache_key e o v s i = Ok k.

Lemma valid_key_parts k : valid_key k → 0 ≤ version k ∧ Forall (λ w, 58%N ∉ w) (key_parts k).
Proof.
  intros (e & o & v & s & i & Hk). unfold cache_key in Hk. res_inv. injection Hk as <-.
  destruct (as_int v) as [z|]; [|done]. res_inv. injection Hx as ->. bool_inv. cbn.
  split; [lia|]. repeat apply Forall_cons_2; [by apply not_in|..|apply Forall_nil_2].
  - cbn. apply not_elem_of_cons. split; [done|]. by eapply segment_free.
  - by eapply segment_free.
  - by eapply segment_free.
  - apply not_elem_of_app. split; [by eapply segment_free|by apply not_in].
  - cbn. apply not_elem_of_cons. split; [done|]. rewrite int_str_text. replace (x <? 0) with false by lia. unfold number_text. rewrite !app_nil_r.
    cbn. intros Hin. pose proof (digits_chars (digit_count (Z.to_nat (Z.log2 (Z.abs x))) (Z.abs x)) (Z.abs x)) as Hf.
    rewrite Forall_forall in Hf. by specialize (Hf _ Hin).
Qed.

(** Keys that the constructor accepts never collide: two keys with the same
    text are the same key, environment, owner, version, scope and identifier
    alike; so are two keys with the same lock; and no lock is the key of a
    value. *)
Theorem cache_keys_injective k1 k2 :
  valid_key k1 → valid_key k2 →
  (render k1 = render k2 → k1 = k2) ∧ (lock_key k1 = lock_key k2 → k1 = k2) ∧ render k1 ≠ lock_key k2.
Proof.
  intros [Hv1 Hp1]%valid_key_parts [Hv2 Hp2]%valid_key_parts.
  assert (Hsame : key_parts k1 = key_parts k2 → k1 = k2).
  { destruct k1, k2. cbn in *. intros [= -> -> -> [-> _]%app_inj_tail Hi]. f_equal. by apply int_str_inj. }
  assert (Hlock : ∀ k, Forall (λ w, 58%N ∉ w) (key_parts k) → Forall (λ w, 58%N ∉ w) (key_parts k ++ [lit "lock"])).
  { intros k Hk. apply Forall_app. split; [done|]. repeat constructor. by apply not_in. }
  rewrite !render_parts, !lock_parts. split_and!.
  - intros H%(f_equal (split_on 58)). apply Hsame. by rewrite !split_join in H.
  - intros H%(f_equal (split_on 58)). rewrite !split_join in H by (done || by apply Hlock).
    apply Hsame. by apply app_inj_tail in H as [? _].
  - intros H%(f_equal (split_on 58)). rewrite !split_join in H by (done || by apply Hlock). by apply (f_equal length) in H.
Qed.

Definition demo_key : CacheKey := NewCacheKey (lit "test") (lit "catalog") 1 (lit "product") (lit "42").
Lemma demo_key_valid : valid_key demo_key.
Proof. exists (PStr (lit "test")), (PStr (lit "catalog")), (PInt 1), (PStr (lit "product")), (PStr (lit "42")). by vm_compute. Qed.

Lemma cache_keys_injective_witness :
  valid_key demo_key ∧ render demo_key = lit "ekumidayomi:{test:catalog:product:42}:v1" ∧ render demo_key ≠ lock_key demo_key.
Proof.
  split; [exact demo_key_valid|]. split; [vm_compute; reflexivity|].
  apply (cache_keys_injective demo_key demo_key demo_key_valid demo_key_valid).
Defined.

(** ** Values *)

Lemma traverse_In {E A B} (f : A → res E B) xs ys (P : B → Prop) :
  traverse f xs = Ok ys → (∀ x y, x ∈ xs → f x = Ok y → P y) → Forall P ys.
Proof.
  intros Hf%traverse_Forall2 HP. induction Hf as [|x y xs ys Hx _ IH]; constructor.
  - eapply HP, Hx. apply elem_of_cons. by left.
  - apply IH. intros x' y' Hin. apply HP. apply elem_of_cons. by right.
Qed.

(** The mappings in a JSON value have distinct keys, and its strings hold code
    points. *)
Fixpoint well_formed (a : aval) : Prop :=
  match a with
  | AStr s => unicode s
  | AList l => foldr (λ a P, well_formed a ∧ P) True l
  | ADict kvs => NoDup kvs.*1 ∧ Forall unicode kvs.*1 ∧ foldr (λ kv P, well_formed kv.2 ∧ P) True kvs
  | _ => True
  end.

Lemma well_formed_list l : well_formed (AList l) ↔ Forall well_formed l.
Proof. apply (foldr_and_Forall well_formed). Qed.
Lemma well_formed_dict kvs :
  well_formed (ADict kvs) ↔ NoDup kvs.*1 ∧ Forall unicode kvs.*1 ∧ Forall (λ kv, well_formed kv.2) kvs.
Proof. cbn [well_formed]. by rewrite (foldr_and_Forall (λ kv : str * aval, well_formed kv.2)). Qed.

Lemma unicode_app s t : unicode (s ++ t) ↔ unicode s ∧ unicode t.
Proof. apply Forall_app. Qed.
Lemma unicode_class k s :
  forallb (λ r, r.2 <? 1114112)%N k = true → Forall (λ c, in_cls k c = true) s → unicode s.
Proof.
  intros Hk Hs. eapply Forall_impl; [exact Hs|]. intros c (r & Hr & Hc)%existsb_exists.
  rewrite forallb_forall in Hk. apply Hk, N.ltb_lt in Hr. apply andb_true_iff in Hc as [_ Hc%N.leb_le]. cbn in *. lia.
Qed.
Lemma unicode_digits s : Forall (λ c, is_digit c = true) s → unicode s.
Proof. by apply unicode_class. Qed.

Lemma unicode_escape c : (c < 1114112)%N → unicode (escape_char c).
Proof.
  intros Hc. unfold escape_char.
  repeat (case_bool_decide; [by repeat (constructor; [by vm_compute|])|]).
  destruct (c <? 32)%N; [|by constructor]. apply unicode_app. split; [by repeat (constructor; [by vm_compute|])|].
  eapply unicode_class, hex_chars. by vm_compute.
Qed.

Lemma unicode_json_str s : unicode s → unicode (json_str s).
Proof.
  intros Hs. unfold json_str. rewrite !unicode_app. split_and!; [by repeat constructor| |by repeat constructor].
  induction Hs as [|c s Hc _ IH]; [constructor|]. cbn [mbind list_bind]. apply unicode_app.
  split; [by apply unicode_escape|done].
Qed.

Lemma unicode_number minus ds fr ex :
  integer_shape ds → fraction_shape fr → exponent_shape ex → unicode (number_text minus ds fr ex).
Proof.
  intros Hd Hf He. unfold number_text. rewrite !unicode_app. split_and!.
  - destruct minus; by repeat constructor.
  - destruct Hd as [->|(c & r & -> & _ & Hd)]; [by repeat constructor|by apply unicode_digits].
  - destruct Hf as [->|(d & -> & _ & Hfd)]; [constructor|]. constructor; [done|by apply unicode_digits].
  - destruct He as [->|(e & sign & d & -> & He & Hs & _ & Hed)]; [constructor|]. constructor.
    + by apply orb_true_iff in He as [->%ch_true| ->%ch_true].
    + apply unicode_app. split; [|by apply unicode_digits]. destruct Hs as [->|(c & -> & Hc)]; [constructor|].
      constructor; [|done]. by apply orb_true_iff in Hc as [->%ch_true| ->%ch_true].
Qed.

Lemma unicode_join xs : Forall unicode xs → unicode (join xs).
Proof.
  intros [|x xs' Hx Hxs]; [constructor|]. cbn. apply unicode_app. split; [done|].
  induction Hxs as [|y ys Hy _ IH]; [constructor|]. cbn. constructor; [done|]. by apply unicode_app.
Qed.

Section codec.
Context (float_repr : pyfloat → str) (read_float : str → pyfloat).
Context (Hfloat : float_text_ok float_repr read_float).
#[local] Abbreviation dumps := (json_dumps float_repr).
#[local] Abbreviation to_json := (to_json float_repr).
#[local] Abbreviation encode := (encode float_repr).
#[local] Abbreviation decode := (decode read_float).

Lemma dumps_unicode a : json_ok a → well_formed a → unicode (dumps a).
Proof using Hfloat.
  assert (Hlit : ∀ s, forallb (λ c, c <? 1114112)%N s = true → unicode s).
  { intros s Hs. rewrite forallb_forall in Hs. apply Forall_forall. intros c Hc%list_elem_of_In. by apply Hs, N.ltb_lt in Hc. }
  induction a as [a Hl Hd|l IH|kvs IH] using aval_nested_ind; intros Ha Hw.
  - destruct a as [|[]|z|f|s|l|kvs]; try (by apply Hlit); cbn [json_dumps].
    + rewrite int_str_text. apply unicode_number; [apply abs_str_shape; lia|by left..].
    + destruct (Hfloat f Ha) as (_ & minus & ds & fr & ex & -> & ? & ? & ? & _). by apply unicode_number.
    + by apply unicode_json_str.
    + by destruct (Hl l).
    + by destruct (Hd kvs).
  - apply json_ok_list in Ha. apply well_formed_list in Hw. cbn [json_dumps]. rewrite !unicode_app.
    split_and!; [by apply Hlit| |by apply Hlit]. apply unicode_join, Forall_fmap.
    rewrite Forall_forall in *. intros x Hx. by apply IH; auto.
  - apply json_ok_dict in Ha as [_ Ha]. apply well_formed_dict in Hw as (_ & Hk & Hw). cbn [json_dumps]. rewrite !unicode_app.
    split_and!; [by apply Hlit| |by apply Hlit]. apply unicode_join, Forall_fmap.
    rewrite Forall_fmap in Hk. rewrite Forall_forall in *. intros x Hx. change (unicode (json_str x.1 ++ lit ":" ++ dumps x.2)). rewrite !unicode_app. split_and!.
    + by apply unicode_json_str, Hk.
    + by apply Hlit.
    + by apply IH; auto.
Qed.

Lemma to_json_ok v a : to_json v = Ok a → well_formed a → json_ok a.
Proof using Type.
  revert a. induction v as [v Hl Ht Hd|l IH|l IH|kvs IH] using pyval_nested_ind; intros a Ha Hw.
  - destruct v; try done; cbn in Ha; res_inv; try (by injection Ha as <-).
    + injection Ha as <-. unfold int_text in Hx. res_inv. bool_inv. done.
    + injection Ha as <-. unfold float_value in Hx. res_inv. by injection Hx as <-.
    + by destruct (Hl l).
    + by destruct (Ht l).
    + by destruct (Hd kvs).
  - cbn in Ha. res_inv. injection Ha as <-. apply json_ok_list. apply well_formed_list in Hw.
    apply traverse_Forall2 in Hx. induction Hx; [done|]. apply Forall_cons in IH as [? ?], Hw as [? ?]. constructor; auto.
  - cbn in Ha. res_inv. injection Ha as <-. apply json_ok_list. apply well_formed_list in Hw.
    apply traverse_Forall2 in Hx. induction Hx; [done|]. apply Forall_cons in IH as [? ?], Hw as [? ?]. constructor; auto.
  - cbn in Ha. res_inv. injection Ha as <-. apply json_ok_dict. apply well_formed_dict in Hw as (Hn & _ & Hw). split; [done|].
    clear Hn. apply traverse_Forall2 in Hx. induction Hx as [|kv kv' kvs kvs' Hkv _ IHx]; [done|].
    apply Forall_cons in IH as [? ?], Hw as [? ?]. constructor; [|by apply IHx]. res_inv. injection Hkv as <-. auto.
Qed.

(** A JSON value is its own normal form. *)
Lemma to_json_plain a : json_ok a → to_json (plain a) = Ok a.
Proof using Type.
  induction a as [a Hl Hd|l IH|kvs IH] using aval_nested_ind; intros Ha.
  - destruct a as [| |z|f|s|l|kvs]; try done; cbn in *.
    + unfold int_text. by rewrite bool_decide_eq_true_2.
    + unfold float_value. by rewrite Ha.
    + by destruct (Hl l).
    + by destruct (Hd kvs).
  - apply json_ok_list in Ha. cbn. assert (traverse to_json (plain <$> l) = Ok l) as ->; [|done].
    apply traverse_Forall2. induction l as [|a l IHl]; [constructor|]. apply Forall_cons in IH as [? ?], Ha as [? ?].
    constructor; auto.
  - apply json_ok_dict in Ha as [_ Ha]. cbn.
    match goal with |- context [traverse ?f ?xs] => assert (traverse f xs = Ok kvs) as ->; [|done] end.
    apply traverse_Forall2. induction kvs as [|[k a] kvs IHl]; [constructor|].
    apply Forall_cons in IH as [Ha' ?], Ha as [? ?]. constructor; [|auto]. cbn in *. by rewrite Ha'.
Qed.

Lemma abs_str_length z k : 0 ≤ z < 10 ^ Z.of_nat k → (length (abs_str z) ≤ Nat.max 1 k)%nat.
Proof using Type.
  intros Hz. unfold abs_str. rewrite digits_length. destruct (decide (z = 0)) as [->|Hne]; [change (digit_count _ 0) with 1%nat; lia|].
  pose proof (digit_count_lower (Z.to_nat (Z.log2 z)) z ltac:(lia)) as Hl.
  pose proof (digit_count_pos (Z.to_nat (Z.log2 z)) z) as Hp.
  assert (Z.of_nat (digit_count (Z.to_nat (Z.log2 z)) z) - 1 < Z.of_nat k); [|lia].
  apply (Z.pow_lt_mono_r_iff 10); lia.
Qed.

(** The text of an envelope is detected as UTF-8. *)
Lemma decode_bytes_envelope r : decode_bytes (123 :: 34 :: r)%N = utf8_decode (123 :: 34 :: r)%N.
Proof using Type. by destruct r as [|? [|? ?]]. Qed.

Definition codec_ok (c : JsonCacheCodec) : Prop := 1 ≤ schema_version c ≤ 999.

Lemma envelope_ok c a : codec_ok c → json_ok a → json_ok (envelope c a).
Proof using Type.
  intros Hc Ha. apply json_ok_dict. split; [apply (bool_decide_unpack _); by vm_compute|].
  apply Forall_cons. split; [|by constructor]. unfold codec_ok in Hc.
  pose proof (abs_str_length (Z.abs (schema_version c)) 3 ltac:(change (10 ^ Z.of_nat 3) with 1000; lia)) as Hl.
  cbn [json_ok snd]. assert (3 ≤ MAX_STR_DIGITS)%nat by (apply Nat.leb_le; by vm_compute). lia.
Qed.

Lemma envelope_well_formed c a : well_formed a → well_formed (envelope c a).
Proof using Type.
  intros Ha. apply well_formed_dict. split_and!; [apply (bool_decide_unpack _); by vm_compute| |by repeat constructor].
  repeat constructor.
Qed.

Lemma parse_envelope c a :
  codec_ok c → json_ok a → well_formed a →
  parse read_float (utf8 (dumps (envelope c a))) = Ok (plain (envelope c a)).
Proof using Hfloat.
  intros Hc Ha Hw. unfold parse, loads_bytes. set (text := dumps (envelope c a)).
  assert (Hb : ∃ r, utf8 text = (123 :: 34 :: r)%N) by by eexists. destruct Hb as (r & Hb).
  rewrite Hb, decode_bytes_envelope, <-Hb, utf8_decode_utf8.
  - unfold text. by rewrite (loads_dumps float_repr) by (done || by apply envelope_ok).
  - apply dumps_unicode; [by apply envelope_ok|by apply envelope_well_formed].
Qed.

Lemma encode_Ok c v b :
  encode c v = Ok b ↔ v ≠ PNone ∧ ∃ a, to_json v = Ok a ∧ encodable (dumps (envelope c a)) = true ∧
    b = utf8 (dumps (envelope c a)) ∧ Z.of_nat (length b) ≤ max_bytes c.
Proof using Type.
  unfold Cache.encode. split.
  - intros He. res_inv. bool_inv. injection He as ->.
    match goal with H : match ?m with _ => _ end = Ok b |- _ => destruct m as [b'|] eqn:Hm; [injection H as ->|done] end.
    res_inv. injection Hm as <-. split; [by destruct v|]. by eexists.
  - intros (Hv & a & Ha & Henc & -> & Hl). rewrite Ha. cbn [mbind res_bind]. cbv zeta. rewrite Henc. cbn [require mbind res_bind].
    replace (max_bytes c <? _) with false by lia. by destruct v.
Qed.

Lemma decode_envelope c c' a :
  codec_ok c → json_ok a → well_formed a → a ≠ ANull →
  Z.of_nat (length (utf8 (dumps (envelope c a)))) ≤ max_bytes c' →
  decode c' (CBytes (utf8 (dumps (envelope c a)))) =
    if schema_version c =? schema_version c' then Ok (plain a)
    else Err (CacheDecodeError "cache schema version is unsupported").
Proof using Hfloat.
  intros Hc Ha Hw Hn Hl. unfold Cache.decode. cbn [raw_bytes mbind res_bind].
  replace (max_bytes c' <? _) with false by lia. cbn [negb require mbind res_bind].
  rewrite parse_envelope by done.
  change (plain (envelope c a)) with (PDict [(PStr (lit "schema_version"), PInt (schema_version c)); (PStr (lit "value"), plain a)]).
  set (kvs := [_; _]). cbn [mbind res_bind]. change (item "schema_version" kvs) with (Some (PInt (schema_version c))).
  change (item "value" kvs) with (Some (plain a)). change (bool_decide (length kvs = 2%nat)) with true.
  cbn [require mbind res_bind equals_int]. destruct (schema_version c =? schema_version c'); [|done].
  cbn [require mbind res_bind]. by destruct a.
Qed.

Lemma decode_text c b s : encodable s = true → utf8 s = b → decode c (CText s) = decode c (CBytes b).
Proof using Type. intros He <-. unfold Cache.decode, raw_bytes. by rewrite He. Qed.

Lemma decode_escapes_only c x e : decode c x = Err (Escapes e) → e = digits_error.
Proof using Type.
  unfold Cache.decode. intros [H|(raw & _ & H)]%bind_Err.
  { destruct x; cbn in H; try done. by destruct (encodable s). }
  apply bind_Err in H as [[_ [=]]%require_Err|(? & _ & H)]. apply bind_Err in H as [H|(v & _ & H)].
  - unfold parse in H. destruct (loads_bytes _ _) as [|e'] eqn:Hl; [done|]. apply loads_bytes_Err in Hl.
    case_bool_decide as Hd; [done|]. injection H as <-. destruct Hl as [|[|]]; naive_solver.
  - destruct v; try done. destruct (item "schema_version" kvs), (item "value" kvs) as [value|]; try done.
    apply bind_Err in H as [[_ [=]]%require_Err|(? & _ & H)]. apply bind_Err in H as [[_ [=]]%require_Err|(? & _ & H)].
    by destruct value.
Qed.
End codec.

(** What the cache stores is what it gives back. A value that [encode]
    accepts fits the byte limit and decodes - from bytes and from text alike - to
    the JSON value that it denotes, which encodes to the same entry again;
    another schema version of the codec refuses the entry instead of misreading
    it. *)
Theorem cache_codec_roundtrip float_repr read_float c v a b :
  float_text_ok float_repr read_float → codec_ok c →
  encode float_repr c v = Ok b → to_json float_repr v = Ok a → well_formed a →
  Z.of_nat (length b) ≤ max_bytes c ∧
  decode read_float c (CBytes b) = Ok (plain a) ∧
  (∀ s, encodable s = true → utf8 s = b → decode read_float c (CText s) = Ok (plain a)) ∧
  encode float_repr c (plain a) = Ok b ∧
  ∀ c', max_bytes c ≤ max_bytes c' → schema_version c' ≠ schema_version c →
    decode read_float c' (CBytes b) = Err (CacheDecodeError "cache schema version is unsupported").
Proof.
  intros Hf Hc Henc Ha Hw. pose proof (to_json_ok _ _ _ Ha Hw) as Hok.
  apply encode_Ok in Henc as (Hv & a' & Ha' & He & -> & Hl). rewrite Ha in Ha'. injection Ha' as <-.
  assert (Hn : a ≠ ANull).
  { intros ->. destruct v; cbn in Ha; res_inv; done. }
  assert (Hdec : decode read_float c (CBytes (utf8 (json_dumps float_repr (envelope c a)))) = Ok (plain a)).
  { by rewrite (decode_envelope float_repr), Z.eqb_refl. }
  split_and!; [done|done| | |].
  - intros s Hs Hb. by rewrite (decode_text read_float c _ s Hs Hb).
  - apply encode_Ok. split; [by destruct a|]. exists a. split_and!; [by apply to_json_plain|done..].
  - intros c' Hm Hs. rewrite (decode_envelope float_repr) by (done || lia).
    by replace (schema_version c =? schema_version c') with false by lia.
Qed.

Definition demo_codec : JsonCacheCodec := NewCodec 1 262144.
Definition demo_json : aval :=
  ADict [(lit "name", AStr (lit "caf" ++ [233; 10; 34]%N)); (lit "tags", AList [AInt (-7); AFloat (FFin 3 (-1)); ANull])].
Definition demo_value : pyval :=
  PDict [(PStr (lit "name"), PStr (lit "caf" ++ [233; 10; 34]%N));
         (PStr (lit "tags"), PTuple [PInt (-7); PFloat (FFin 3 (-1)); PNone])].

Lemma cache_codec_roundtrip_witness :
  ∃ b, encode demo_float_text demo_codec demo_value = Ok b ∧
    decode demo_read_float demo_codec (CBytes b) = Ok (plain demo_json).
Proof.
  eexists. match goal with |- ?h ∧ _ => assert (Hh : h) by (vm_compute; reflexivity) end.
  split; [exact Hh|].
  apply (cache_codec_roundtrip demo_float_text demo_read_float demo_codec demo_value demo_json _ demo_float_ok);
    [unfold codec_ok; cbn; lia|exact Hh|vm_compute; reflexivity|].
  apply well_formed_dict. split_and!; [apply (bool_decide_unpack _); vm_compute; reflexivity|..];
    repeat constructor.
Defined.

(** An entry whose integer has too many digits is not refused as corrupt: the
    plain [ValueError] gets out of [decode]. *)
Lemma decode_escapes_long_integer :
  decode demo_read_float demo_codec (CBytes (replicate 4301 57%N)) = Err (Escapes digits_error).
Proof. by vm_compute. Qed.
