(* ===== verification/Schemas.v ===== *)
(** * Money and pages as the API shows them (api/schemas.py, core/types.py)

    The text of an amount and the pattern it has to fit, and the two ways in
    which a page is laid out for a response. *)

From S2P Require Import Prelude Regex PyValues CoreTypes AuditTrail AuditSpecs Errors ErrorSpecs Texts Json JsonSpecs CacheSpecs.

(** ** Money *)

(** [format(d, ".4f")]: rounded half to even, without an exponent. *)
Definition fixed_units (coeff exp : Z) : Z :=
  if - MONEY_SCALE <=? exp then coeff * 10 ^ (exp + MONEY_SCALE)
  else round_half_even coeff (10 ^ (- MONEY_SCALE - exp)).
Definition units_text (u : Z) : str := abs_str (u / 10 ^ MONEY_SCALE) ++ lit "." ++ digits 4 u.
Definition format_fixed (d : CoreTypes.decimal) : str :=
  match d with
  | DNum neg coeff exp => (if neg then lit "-" else []) ++ units_text (fixed_units coeff exp)
  | DInf neg => (if neg then lit "-" else []) ++ lit "Infinity"
  | DNan false => lit "NaN"
  | DNan true => lit "sNaN"
  end.

(** [^-?(?:0|[1-9][0-9]{0,14})\.[0-9]{4}$] and [^[A-Z]{3}$]. *)
Definition MONEY_RESPONSE_PATTERN : regex :=
  Seq (Alt Eps (Cls [chr "-"]))
    (Seq (Alt (Cls [chr "0"]) (Seq (Cls [rng "1" "9"]) (between 0 14 (Cls [digit]))))
       (Seq (Cls [chr "."]) (rep 4 (Cls [digit])))).
Definition CURRENCY_PATTERN : regex := rep 3 (Cls [upper]).

Record MoneyResponse := NewMoneyResponse { response_amount : str; response_currency : str }.

(** [MoneyResponse.from_domain]: the model checks its fields. *)
Definition money_response (m : Money) : res pyexn MoneyResponse :=
  let text := format_fixed (amount m) in
  require (fullmatch MONEY_RESPONSE_PATTERN text) (ValueError "amount");;
  require (bool_decide (length (currency m) = 3%nat) && fullmatch CURRENCY_PATTERN (currency m)) (ValueError "currency");;
  Ok (NewMoneyResponse text (currency m)).

(** ** Pages *)

(** [PageRequest.to_dict] and [Page.to_dict]; [item] is the serializer. *)
Definition page_request_to_dict (r : PageRequest) : aval :=
  ADict [(lit "page", AInt (page r)); (lit "page_size", AInt (page_size r))].
Definition page_to_dict {T} (item : T → aval) (p : Page T) : aval :=
  ADict [(lit "items", AList (item <$> items p));
         (lit "pagination", ADict
            [(lit "page", AInt (p_page p)); (lit "page_size", AInt (p_page_size p));
             (lit "total_items", AInt (total_items p)); (lit "total_pages", AInt (total_pages p));
             (lit "has_previous", ABool (has_previous p)); (lit "has_next", ABool (has_next p))])].

(** [Page.from_domain]. *)
Definition page_from_domain {T} (p : Page T) : res pyexn (APIPage T) := serialize_page p (items p).

(** What the framework writes of an API page: its fields in their order. *)
Definition api_page_dump {T} (item : T → aval) (p : APIPage T) : aval :=
  let m := pagination p in
  ADict [(lit "items", AList (item <$> api_items p));
         (lit "pagination", ADict
            [(lit "page", AInt (m_page m)); (lit "page_size", AInt (m_page_size m));
             (lit "total_items", AInt (m_total_items m)); (lit "total_pages", AInt (m_total_pages m));
             (lit "has_previous", ABool (m_has_previous m)); (lit "has_next", ABool (m_has_next m))])].

(** The two layouts agree. *)
Lemma page_layouts_agree {T} (item : T → aval) p a :
  page_from_domain p = Ok a → api_page_dump item a = page_to_dict item p.
Proof.
  unfold page_from_domain, serialize_page, validate_page_meta, validate_item_count. intros Ha. res_inv.
  repeat match goal with H : Ok _ = Ok _ |- _ => injection H as <- end. done.
Qed.

(** ** The text of an amount *)

Lemma fixed_units_normal c : fixed_units c (- MONEY_SCALE) = c.
Proof. change (fixed_units c (- MONEY_SCALE)) with (c * 1). lia. Qed.

Lemma digit_cases c : in_cls [digit] c = true → ∃ n, (n ≤ 9)%nat ∧ c = (48 + N.of_nat n)%N.
Proof.
  intros Hc%in_cls_single. change (48 ≤ c ≤ 57)%N in Hc. exists (N.to_nat (c - 48)). lia.
Qed.

Lemma digit_value_digit c : in_cls [digit] c = true → digit_value c = Some (Z.of_N c - 48).
Proof.
  intros (n & Hn & ->)%digit_cases.
  do 10 (destruct n as [|n]; [reflexivity|]). lia.
Qed.

Definition add_digit (z : Z) (c : N) : Z := z * 10 + (Z.of_N c - 48).

(** Digits are read up to the first character that is none. *)
Lemma take_digits_read ds rest acc n :
  Forall (λ c, in_cls [digit] c = true) ds → ends_with_char (λ c, bool_decide (is_Some (digit_value c))) rest →
  take_digits (ds ++ rest) acc n = (foldl add_digit acc ds, n + Z.of_nat (length ds), rest).
Proof.
  intros Hd Hr. revert acc n. induction Hd as [|c ds Hc _ IH]; intros acc n.
  - cbn [app length]. rewrite Z.add_0_r. destruct rest as [|c rest]; [done|]. cbn [take_digits].
    cbn [ends_with_char] in Hr. apply bool_decide_eq_false in Hr. destruct (digit_value c); [by destruct Hr|done].
  - cbn [app take_digits foldl length]. rewrite (digit_value_digit _ Hc), IH. unfold add_digit at 3.
    rewrite (Z.mul_comm acc 10). f_equal. f_equal. lia.
Qed.

Lemma add_digits acc n z : foldl add_digit acc (digits n z) = acc * 10 ^ Z.of_nat n + z mod 10 ^ Z.of_nat n.
Proof.
  revert z. induction n as [|n IH]; intros z; [cbn; rewrite Z.mod_1_r; lia|]. cbn [digits].
  rewrite foldl_app, IH. cbn [foldl]. unfold add_digit. rewrite Nat2Z.inj_succ, Z.pow_succ_r, Z.rem_mul_r by lia.
  pose proof (Z.mod_pos_bound z 10 ltac:(lia)). rewrite Z2N.id by lia. lia.
Qed.

Lemma abs_str_digits a : Forall (λ c, in_cls [digit] c = true) (abs_str a).
Proof. apply digits_chars. Qed.

Lemma abs_str_value a : 0 ≤ a → foldl add_digit 0 (abs_str a) = a.
Proof. intros Ha. exact (proj2 (abs_str_shape a Ha)). Qed.

Lemma abs_str_nonempty a : abs_str a ≠ [].
Proof.
  intros He. apply (f_equal length) in He. unfold abs_str in He. rewrite digits_length in He.
  pose proof (digit_count_pos (Z.to_nat (Z.log2 a)) a). cbn in He. lia.
Qed.

Lemma amount_chars (neg : bool) u :
  Forall (λ c, in_cls [digit; chr "."; chr "-"] c = true) ((if neg then lit "-" else []) ++ units_text u).
Proof.
  assert (Hi : ∀ n z, Forall (λ c, in_cls [digit; chr "."; chr "-"] c = true) (digits n z)).
  { intros n z. eapply Forall_in_cls_incl; [|apply digits_chars]. done. }
  unfold units_text. rewrite !Forall_app. split_and!; [destruct neg; by repeat constructor|apply Hi|by repeat constructor|apply Hi].
Qed.

Lemma amount_char_plain c : in_cls [digit; chr "."; chr "-"] c = true → is_space c = false ∧ c ≠ 95%N.
Proof.
  intros Hc. assert (Hr : (45 ≤ c ≤ 57)%N).
  { unfold in_cls in Hc. cbn in Hc. rewrite !orb_true_iff, !andb_true_iff, !N.leb_le in Hc. lia. }
  split; [|lia]. apply not_true_iff_false. unfold is_space. cbn. rewrite !orb_true_iff, !andb_true_iff, !N.leb_le. lia.
Qed.

(** Text without blanks or underscores is read as it stands. *)
Lemma lstrip_plain s : Forall (λ c, is_space c = false) s → lstrip s = s.
Proof. intros [|c s' Hc _]; [done|]. cbn [lstrip]. by rewrite Hc. Qed.

Lemma strip_plain s : Forall (λ c, is_space c = false) s → strip s = s.
Proof. intros Hs. unfold strip. rewrite (lstrip_plain s), lstrip_plain by (done || by apply Forall_reverse). apply reverse_involutive. Qed.

Lemma filter_plain s : Forall (λ c, c ≠ 95%N) s → filter (λ c, c ≠ 95%N) s = s.
Proof. induction 1 as [|c s Hc _ IH]; [done|]. rewrite filter_cons_True by done. by rewrite IH. Qed.

(** [Decimal(format(d, ".4f"))] *)
Lemma decimal_of_amount (neg : bool) u : 0 ≤ u → decimal_of_str (format_fixed (DNum neg u (- MONEY_SCALE))) = Some (DNum neg u (- MONEY_SCALE)).
Proof.
  intros Hu. unfold format_fixed. rewrite fixed_units_normal. unfold decimal_of_str.
  pose proof (amount_chars neg u) as Hc. rewrite strip_plain, filter_plain;
    [|eapply Forall_impl; [exact Hc|]; intros c Hx; by apply amount_char_plain..].
  assert (Hsign : take_sign ((if neg then lit "-" else []) ++ units_text u) = (neg, units_text u)).
  { destruct neg; [done|]. unfold units_text. pose proof (abs_str_digits (u / 10 ^ MONEY_SCALE)) as Hd.
    pose proof (abs_str_nonempty (u / 10 ^ MONEY_SCALE)). destruct (abs_str _) as [|c r]; [done|].
    apply Forall_cons in Hd as [(n & Hn & ->)%digit_cases _]. cbn [app take_sign].
    do 10 (destruct n as [|n]; [reflexivity|]). lia. }
  rewrite Hsign. unfold units_text. rewrite take_digits_read; [|apply abs_str_digits|by vm_compute].
  cbn [app lit]. change (lit "." ++ digits 4 u) with (46%N :: digits 4 u). cbv beta iota zeta.
  rewrite <-(app_nil_r (digits 4 u)), take_digits_read; [|apply digits_chars|done].
  rewrite abs_str_value by (by apply Z.div_pos). rewrite add_digits, digits_length. cbn [take_exponent mbind option_bind].
  assert (Hn : 1 <=? 0 + Z.of_nat (length (abs_str (u / 10 ^ MONEY_SCALE))) + (0 + Z.of_nat 4) = true) by (apply Z.leb_le; lia).
  rewrite Hn. do 2 f_equal. unfold MONEY_SCALE. pose proof (Z.div_mod u (10 ^ 4)). cbn [Z.of_nat] in *. lia.
Qed.

Lemma abs_str_long a k : 10 ^ Z.of_nat k ≤ a → (k < length (abs_str a))%nat.
Proof.
  intros Ha. pose proof (Z.pow_pos_nonneg 10 (Z.of_nat k) ltac:(lia) ltac:(lia)) as Hp.
  unfold abs_str. rewrite digits_length. pose proof (int_str_count a ltac:(lia)) as Hu.
  set (n := digit_count _ _) in *. clearbody n.
  assert (Z.of_nat k < Z.of_nat n); [|lia]. apply (Z.pow_lt_mono_r_iff 10); lia.
Qed.

(** The pattern leaves room for fifteen digits before the point. *)
Lemma amount_pattern (neg : bool) u : 0 ≤ u →
  fullmatch MONEY_RESPONSE_PATTERN ((if neg then lit "-" else []) ++ units_text u) = true ↔ u < 10 ^ 19.
Proof.
  intros Hu. rewrite fullmatch_matches. split.
  - intros Hm. apply Z.nle_gt. intros Hbig.
    assert (Hlong : (15 < length (abs_str (u / 10 ^ MONEY_SCALE)))%nat).
    { apply abs_str_long. apply Z.div_le_lower_bound; [done|]. exact Hbig. }
    apply matches_seq_iff in Hm as (w1 & w2 & Hw & Hm1 & Hm2).
    apply (matches_max_len _ _ 20) in Hm2; [|done].
    apply (f_equal length) in Hw as Hl. unfold units_text in Hl. rewrite !length_app, digits_length in Hl. cbn in Hl.
    apply matches_alt_iff in Hm1 as [->%matches_eps|Hm1]; [cbn in Hl; lia|].
    destruct neg; [apply (matches_max_len _ _ 1) in Hm1; [cbn in Hl; lia|done]|].
    assert (Hd : Forall (λ c, c = 45%N) w1).
    { eapply matches_chars; [|exact Hm1]. change (∀ c, in_cls [chr "-"] c = true → c = 45%N).
      intros c Hc%in_cls_single. change (45 ≤ c ≤ 45)%N in Hc. lia. }
    apply (matches_max_len _ _ 1) in Hm1; [|done]. destruct w1 as [|c w1]; [cbn in *; lia|].
    apply Forall_cons in Hd as [-> _]. cbn [app] in Hw. unfold units_text in Hw.
    pose proof (abs_str_digits (u / 10 ^ MONEY_SCALE)) as Hdig. destruct (abs_str _) as [|c r]; [done|].
    injection Hw as -> _. by apply Forall_cons in Hdig as [Hdig _].
  - intros Hsmall. apply m_seq; [destruct neg; [apply m_alt_r; by constructor|apply m_alt_l; constructor]|].
    assert (Hi : 0 ≤ u / 10 ^ MONEY_SCALE < 10 ^ Z.of_nat 15).
    { split; [by apply Z.div_pos|]. apply Z.div_lt_upper_bound; [done|]. exact Hsmall. }
    unfold units_text. apply m_seq; [|apply (m_seq _ _ (lit ".")); [by constructor|]].
    + pose proof (abs_str_digits (u / 10 ^ MONEY_SCALE)) as Hdig. pose proof (abs_str_length _ 15 Hi) as Hlen.
      destruct (proj1 (abs_str_shape _ (proj1 Hi))) as [->|(c & r & He & H0 & _)]; [apply m_alt_l; by constructor|].
      apply m_alt_r. rewrite He in *. apply Forall_cons in Hdig as [Hc Hr]. apply (m_seq _ _ [c]).
      * constructor. apply digit_cases in Hc as (n & Hn & ->). destruct n as [|n]; [done|].
        apply in_cls_single. cbn. lia.
      * apply matches_between_cls; [cbn in Hlen; lia|done].
    + apply matches_rep_cls; [apply digits_length|apply digits_chars].
Qed.

Lemma code_pattern s : code_ok s → bool_decide (length s = 3%nat) && fullmatch CURRENCY_PATTERN s = true.
Proof.
  intros [Hl Hf]. rewrite bool_decide_eq_true_2 by done. apply fullmatch_matches. by apply matches_rep_cls.
Qed.

(** C35: Money is shown exactly or not at all: every amount that [Money] holds and
    a column NUMERIC(19, 4) can hold - less than 10^15 units of the currency in
    size - is accepted by the response model, and what the client reads back
    with [Money] from the text and the currency is the same value, its sign of
    zero included; and every larger amount, which [Money] still admits, is refused
    by the model rather than rounded or cut off. *)
Theorem money_response_exact m :
  money_ok m →
  (Z.abs (value m) < 10 ^ 19 →
     ∃ r, money_response m = Ok r ∧ money (FromStr (response_amount r)) (response_currency r) = Ok m) ∧
  (10 ^ 19 ≤ Z.abs (value m) → money_response m = Err (ValueError "amount")).
Proof.
  intros Hok. pose proof Hok as [(neg & c & Ha & Hc) Hcur]. destruct m as [a cur]. cbn in *. subst a.
  assert (Hv : Z.abs (value (NewMoney (DNum neg c (- MONEY_SCALE)) cur)) = c).
  { unfold value. cbn [amount units]. rewrite bool_decide_eq_true_2 by done. unfold signed. cbn [default]. destruct neg; cbn; lia. }
  rewrite Hv. unfold money_response. cbn [amount currency].
  pose proof (amount_pattern neg c (proj1 Hc)) as Hp.
  assert (Hf : format_fixed (DNum neg c (- MONEY_SCALE)) = (if neg then lit "-" else []) ++ units_text c)
    by (unfold format_fixed; by rewrite fixed_units_normal).
  split.
  - intros Hsmall. rewrite Hf, (proj2 Hp Hsmall), code_pattern by done. eexists. split; [done|].
    cbn [response_amount response_currency]. unfold money. cbn [quantize_money]. rewrite <-Hf, decimal_of_amount by lia.
    rewrite decimal_quantize_ok by (by exists neg, c). cbn [mbind res_bind]. by rewrite normalize_code.
  - intros Hbig. rewrite Hf. assert (fullmatch MONEY_RESPONSE_PATTERN ((if neg then lit "-" else []) ++ units_text c) = false) as ->.
    { apply not_true_iff_false. intros H%Hp. lia. } done.
Qed.

Lemma money_response_exact_witness :
  money_response (NewMoney (DNum true 15000000 (-4)) DEFAULT_CURRENCY) = Ok (NewMoneyResponse (lit "-1500.0000") DEFAULT_CURRENCY) ∧
  money_response (naira (10 ^ 19)) = Err (ValueError "amount").
Proof.
  split; [vm_compute; reflexivity|]. apply money_response_exact; [|by vm_compute].
  apply naira_ok. by vm_compute.
Defined.
