(* ===== verification/CacheClient.v ===== *)
(** * The cache client (cache/client.py)

    Reading, writing and invalidating cached values, and loading a value once
    under a lease while others wait, over a Redis server that any number of
    callers share and that may fail at any command. *)

From S2P Require Import Prelude Regex PyValues CoreTypes AuditTrail AuditSpecs Errors Texts ErrorSpecs Json JsonSpecs Cache CacheSpecs.

Definition MAX_TTL_SECONDS : Z := 86400.
Definition MAX_INVALIDATION_KEYS : Z := 100.
Definition MAX_LEASE_MS : Z := 30000.
Definition MAX_WAIT_MS : Z := 10000.
(** 25 milliseconds. *)
Definition POLL_INTERVAL : timedelta := 25000.
Definition milliseconds (n : Z) : timedelta := n * 1000.

(** [decode_responses] is the setting of the Redis client, which the
    application turns on. *)
Record Client := NewClient { client_codec : JsonCacheCodec; fail_open : bool; decode_responses : bool }.

Definition cache_client (codec : option JsonCacheCodec) (decode_responses : bool) (fail_open timeout : pyval)
    : res pyexn Client :=
  fail_open ← match fail_open with PBool b => Ok b | _ => Err (TypeError "fail_open must be a boolean") end;
  require (match timeout with PInt _ | PFloat _ => true | _ => false end)
    (TypeError "operation_timeout_seconds must be a number");;
  require (match timeout with
           | PInt z => (0 <? z) && (z <=? 30)
           | PFloat (FFin m e) => float_between_0 30 (FFin m e) && negb (m =? 0)
           | _ => false
           end) (ValueError "operation_timeout_seconds must be between 0 and 30");;
  Ok (NewClient (default (NewCodec 1 262144) codec) fail_open decode_responses).

Definition validate_ttl (value : pyval) : res pyexn Z :=
  validate_int_range 1 MAX_TTL_SECONDS "ttl_seconds must be an integer"
    "ttl_seconds must be between 1 and 86400" value.
Definition validate_milliseconds (minimum maximum : Z) (value : pyval) : res pyexn Z :=
  validate_int_range minimum maximum "must be an integer" "is out of range" value.

(** ** The server *)

(** Each key with its bytes and the time it expires, and how often each was
    changed, which is what WATCH compares. *)
Record redis := Redis { data : gmap str (list N * datetime); touched : gmap str nat }.

Definition version_of (s : redis) (k : str) : nat := default 0%nat (touched s !! k).
Definition bump (k : str) (s : redis) : gmap str nat := <[k := S (version_of s k)]> (touched s).

Definition visible (now : datetime) (s : redis) (k : str) : option (list N) :=
  '(b, expires) ← data s !! k; if now <? expires then Some b else None.

(** SET with EX or PX, and DEL; SET with NX is guarded by [visible]. *)
Definition redis_set (k : str) (b : list N) (expires : datetime) (s : redis) : redis :=
  Redis (<[k := (b, expires)]> (data s)) (bump k s).
Definition redis_delete (k : str) (s : redis) : redis := Redis (delete k (data s)) (bump k s).

(** What comes back from a command, from the loader, from the clock and from a
    sleep. [Unavailable] is a [RedisError] or a [TimeoutError]; [ClientRaises]
    is anything else that the Redis client raises. *)
Inductive answer :=
| Unavailable
| ClientRaises (e : pyexn)
| Got (o : option cached)
| Ack
| Flagged (b : bool)
| AtVersion (n : nat)
| Loaded (r : res pyexn pyval)
| Now (t1 t2 : Z)
| Slept.

Definition utf8_strict (b : list N) : option str :=
  s ← utf8_decode b; if encodable s then Some s else None.

Definition reply (client : Client) (o : option (list N)) : answer :=
  match o with
  | None => Got None
  | Some b =>
      if decode_responses client then
        match utf8_strict b with Some s => Got (Some (CText s)) | None => ClientRaises unicode_error end
      else Got (Some (CBytes b))
  end.

(** ** Calls *)

Inductive operation :=
| OpGet
| OpSet (value ttl : pyval)
| OpDelete
| OpLoad (ttl lease wait : pyval).

(** One call of a method of a client; [token] is what it draws as a holder. *)
Record Call := NewCall { client : Client; key : CacheKey; op : operation; token : str }.

(** What a call ends with. *)
Inductive failure := CacheUnavailableError | Raised (e : pyexn).
Inductive returned := Value (o : option pyval) | Flag (b : bool).

(** What follows a read, a write, and how a value is loaded. *)
Inductive after_get := ForGet | First | Polling (deadline : Z).
Inductive after_set := ForSet | HeldStore (v : pyval) | LateStore (v : pyval).
Inductive loading := Open | Held | Late.

(** What a call is waiting for. *)
Inductive phase :=
| GetValue (k : after_get)
| DeleteCorrupt (k : after_get)
| SetValue (b : list N) (k : after_set)
| DeleteValue
| Acquire
| Load (how : loading)
| WatchLock (r : res failure pyval)
| GetLock (r : res failure pyval) (n : nat)
| Unwatch (r : res failure pyval)
| DeleteLock (r : res failure pyval) (n : nat)
| StartClock
| CheckClock (deadline : Z)
| Sleeping (until deadline : Z)
| Finished (r : res failure returned).

Definition read_int (v : pyval) : Z := default 0 (as_int v).
Definition ttl_of (c : Call) : timedelta :=
  match op c with OpSet _ ttl | OpLoad ttl _ _ => seconds (read_int ttl) | _ => 0 end.
Definition lease_of (c : Call) : timedelta :=
  match op c with OpLoad _ lease _ => milliseconds (read_int lease) | _ => 0 end.
Definition wait_of (c : Call) : timedelta :=
  match op c with OpLoad _ _ wait => milliseconds (read_int wait) | _ => 0 end.

Section client.
Context (float_repr : pyfloat → str) (read_float : str → pyfloat).

Definition raise (e : pyexn) : phase := Finished (Err (Raised e)).

(** From the call to its first command. *)
Definition start (c : Call) : phase :=
  match op c with
  | OpGet => GetValue ForGet
  | OpSet value ttl =>
      match validate_ttl ttl;; encode float_repr (client_codec (client c)) value with
      | Ok b => SetValue b ForSet
      | Err e => raise e
      end
  | OpDelete => DeleteValue
  | OpLoad ttl lease wait =>
      match validate_ttl ttl;; validate_milliseconds 100 MAX_LEASE_MS lease;;
            validate_milliseconds 0 MAX_WAIT_MS wait with
      | Ok _ => GetValue First
      | Err e => raise e
      end
  end.

(** Fail open, or raise. *)
Definition absorb (c : Call) (p : phase) : phase :=
  if fail_open (client c) then p else Finished (Err CacheUnavailableError).

Definition hit (v : pyval) : phase := Finished (Ok (Value (Some v))).

(** [_read] gave [(available, v)]. *)
Definition after_read (k : after_get) (available : bool) (v : option pyval) : phase :=
  match k with
  | ForGet => Finished (Ok (Value v))
  | First => match v with
             | Some v => hit v
             | None => if available then Acquire else Load Open
             end
  | Polling deadline => match v with
                        | Some v => hit v
                        | None => if available then CheckClock deadline else Load Open
                        end
  end.

(** [set] gave [ok]. *)
Definition after_write (k : after_set) (ok : bool) : phase :=
  match k with
  | ForSet => Finished (Ok (Flag ok))
  | HeldStore v => WatchLock (Ok v)
  | LateStore v => hit v
  end.

(** An exception, through the [finally] of the holder. *)
Definition raise_after_write (k : after_set) (e : failure) : phase :=
  match k with HeldStore _ => WatchLock (Err e) | _ => Finished (Err e) end.

(** The lock is dealt with: the pending value or exception goes out. *)
Definition released (r : res failure pyval) : phase :=
  Finished (v ← r; Ok (Value (Some v))).

Definition decode_token (o : option cached) : option str :=
  match o with Some (CText s) => Some s | Some (CBytes b) => utf8_strict b | _ => None end.

(** [self.set(key, value, ...)] on a loaded value. *)
Definition store (c : Call) (how : loading) (v : pyval) : phase :=
  let k := match how with Held => HeldStore v | _ => LateStore v end in
  match encode float_repr (client_codec (client c)) v with
  | Ok b => SetValue b k
  | Err e => raise_after_write k (Raised e)
  end.

Definition resume (c : Call) (p : phase) (a : answer) : phase :=
  match p, a with
  | GetValue k, Unavailable => absorb c (after_read k false None)
  | GetValue k, Got None => after_read k true None
  | GetValue k, Got (Some encoded) =>
      match decode read_float (client_codec (client c)) encoded with
      | Ok v => after_read k true (Some v)
      | Err (CacheDecodeError _) => DeleteCorrupt k
      | Err (Escapes e) => raise e
      end
  | GetValue _, ClientRaises e => raise e
  | DeleteCorrupt k, (Flagged _ | Unavailable) => after_read k true None
  | SetValue _ k, Ack => after_write k true
  | SetValue _ k, Unavailable =>
      if fail_open (client c) then after_write k false else raise_after_write k CacheUnavailableError
  | DeleteValue, Flagged b => Finished (Ok (Flag b))
  | DeleteValue, Unavailable => absorb c (Finished (Ok (Flag false)))
  | Acquire, Unavailable => absorb c (Load Open)
  | Acquire, Flagged true => Load Held
  | Acquire, Flagged false => StartClock
  | StartClock, Now t _ => CheckClock (t + wait_of c)
  | CheckClock deadline, Now t1 t2 =>
      if t1 <? deadline then Sleeping (t2 + Z.min POLL_INTERVAL (deadline - t2)) deadline else Load Late
  | Sleeping _ deadline, Slept => GetValue (Polling deadline)
  | Load Open, Loaded (Ok v) => hit v
  | Load how, Loaded (Ok v) => store c how v
  | Load Held, Loaded (Err e) => WatchLock (Err (Raised e))
  | Load _, Loaded (Err e) => raise e
  | WatchLock r, AtVersion n => GetLock r n
  | GetLock r n, Got o => if bool_decide (decode_token o = Some (token c)) then DeleteLock r n else Unwatch r
  | GetLock _ _, ClientRaises e => raise e
  | Unwatch r, Ack => released r
  | DeleteLock r _, Flagged _ => released r
  | (WatchLock r | GetLock r _ | Unwatch r | DeleteLock r _), Unavailable => absorb c (released r)
  | _, _ => p
  end.

(** The command a call is waiting for, executed by the server at [now]. A
    transaction whose key was changed since WATCH answers false like one that
    found nothing. *)
Definition execute (c : Call) (p : phase) (now : datetime) (s : redis) : option (answer * redis) :=
  let value := render (key c) in let lock := lock_key (key c) in
  match p with
  | GetValue _ => Some (reply (client c) (visible now s value), s)
  | DeleteCorrupt _ | DeleteValue => Some (Flagged (bool_decide (is_Some (visible now s value))), redis_delete value s)
  | SetValue b _ => Some (Ack, redis_set value b (now + ttl_of c) s)
  | Acquire =>
      match visible now s lock with
      | Some _ => Some (Flagged false, s)
      | None => Some (Flagged true, redis_set lock (utf8 (token c)) (now + lease_of c) s)
      end
  | WatchLock _ => Some (AtVersion (version_of s lock), s)
  | GetLock _ _ => Some (reply (client c) (visible now s lock), s)
  | Unwatch _ => Some (Ack, s)
  | DeleteLock _ n =>
      if bool_decide (version_of s lock = n)
      then Some (Flagged (bool_decide (is_Some (visible now s lock))), redis_delete lock s)
      else Some (Flagged false, s)
  | _ => None
  end.

(** ** Any number of calls *)

Context (calls : nat → Call).

Record world := World { store_ : redis; redis_now : datetime; loop_now : Z; phases : gmap nat phase }.

Inductive label :=
| Begins (i : nat)
| Served (i : nat)
| Dropped (i : nat) (applied : bool)
| Loads (i : nat) (r : res pyexn pyval)
| Reads (i : nat) (t1 t2 : Z)
| Wakes (i : nat)
| Passes (redis loop : timedelta).

Definition set_phase (i : nat) (p : phase) (s : redis) (loop : Z) (w : world) : world :=
  World s (redis_now w) loop (<[i := p]> (phases w)).

(** A command that fails may have been executed all the same. *)
Inductive step : world → label → world → Prop :=
| step_begins w i :
    phases w !! i = None → step w (Begins i) (set_phase i (start (calls i)) (store_ w) (loop_now w) w)
| step_served w i p a s :
    phases w !! i = Some p → execute (calls i) p (redis_now w) (store_ w) = Some (a, s) →
    step w (Served i) (set_phase i (resume (calls i) p a) s (loop_now w) w)
| step_dropped w i p a s applied :
    phases w !! i = Some p → execute (calls i) p (redis_now w) (store_ w) = Some (a, s) →
    step w (Dropped i applied)
      (set_phase i (resume (calls i) p Unavailable) (if applied then s else store_ w) (loop_now w) w)
| step_loads w i how r :
    phases w !! i = Some (Load how) →
    step w (Loads i r) (set_phase i (resume (calls i) (Load how) (Loaded r)) (store_ w) (loop_now w) w)
| step_reads w i p t1 t2 :
    phases w !! i = Some p → p = StartClock ∨ (∃ d, p = CheckClock d) → loop_now w ≤ t1 → t1 ≤ t2 →
    step w (Reads i t1 t2) (set_phase i (resume (calls i) p (Now t1 t2)) (store_ w) t2 w)
| step_wakes w i u d :
    phases w !! i = Some (Sleeping u d) → u ≤ loop_now w →
    step w (Wakes i) (set_phase i (resume (calls i) (Sleeping u d) Slept) (store_ w) (loop_now w) w)
| step_passes w r l :
    0 ≤ r → 0 ≤ l → step w (Passes r l) (World (store_ w) (redis_now w + r) (loop_now w + l) (phases w)).
End client.

(** [invalidate]: each key is deleted on its own; [results] are what the
    deletions end with, up to the first that raises. *)
Definition invalidate (keys : list CacheKey) (results : list (res failure bool)) : res failure Z :=
  if MAX_INVALIDATION_KEYS <? Z.of_nat (length keys) then Err (Raised (ValueError "cannot invalidate more than 100 keys"))
  else foldl (λ acc r, deleted ← acc; b ← r; Ok (deleted + (if b : bool then 1 else 0))) (Ok 0) (take (length keys) results).
