(* ===== verification/CacheClientSpecs.v ===== *)
(** * What the cache client guarantees

    A value is loaded by one caller at a time while its lease stands; every value
    a call returns was loaded for its key; no call waits for ever; and a client
    that fails open never fails because of Redis. *)

From S2P Require Import Prelude Regex PyValues CoreTypes AuditTrail AuditSpecs Errors Texts ErrorSpecs Json JsonSpecs Cache CacheSpecs CacheClient.

(** ** Tokens *)

(** [secrets.token_urlsafe] draws ASCII texts. *)
Definition ascii_text (s : str) : Prop := Forall (λ c, (c < 128)%N) s.

Lemma utf8_ascii s : ascii_text s → utf8 s = s.
Proof.
  induction 1 as [|c s Hc _ IH]; [done|]. change (utf8 (c :: s)) with (utf8_char c ++ utf8 s). rewrite IH.
  unfold utf8_char. by replace (c <? 128)%N with true by char_lia.
Qed.

(** Only ASCII bytes decode to an ASCII text. *)
Lemma utf8_decode_ascii b s : utf8_decode b = Some s → ascii_text s → b = s.
Proof.
  remember (length b) as n eqn:Hn. revert b s Hn. induction (lt_wf n) as [n _ IH]. intros b s ->.
  assert (Hrec : ∀ r (f : str → str) c, (length r < length b)%nat → (128 ≤ c)%N → f = cons c →
    (t ← utf8_decode r; Some (f t)) = Some s → ascii_text s → b = s).
  { intros r f c _ Hc -> (t & _ & [= <-])%bind_Some Hs. apply Forall_cons in Hs as [Hs _]. lia. }
  destruct b as [|x r]; cbn [utf8_decode]; [by intros [= <-]|].
  destruct (N.ltb_spec x 128) as [Hx|Hx].
  { intros (t & Ht & [= <-])%bind_Some [_ Hs]%Forall_cons. f_equal. by eapply (IH (length r)); [cbn; lia|..]. }
  destruct (N.ltb_spec x 194); [done|]. destruct (N.ltb_spec x 224).
  { destruct r as [|y r]; [done|]. unfold utf8_tail. destruct (_ && _) eqn:Hy; [|done].
    apply andb_true_iff in Hy as [Hy _]. apply N.leb_le in Hy.
    eapply (Hrec r (cons _)); [cbn; lia| |done]. lia. }
  destruct (N.ltb_spec x 240).
  { destruct r as [|y [|z r]]; try done. cbv zeta. destruct (_ && (2048 <=? _)%N) eqn:Hc; [|done].
    apply andb_true_iff in Hc as [_ Hc]. apply N.leb_le in Hc. eapply (Hrec r (cons _)); [cbn; lia| |done]. lia. }
  destruct r as [|y [|z [|w r]]]; try done. cbv zeta.
  destruct (_ && (65536 <=? _)%N && _) eqn:Hc; [|done]. apply andb_true_iff in Hc as [[_ Hc]%andb_true_iff _].
  apply N.leb_le in Hc. eapply (Hrec r (cons _)); [cbn; lia| |done]. lia.
Qed.

Lemma decode_token_reply cl o t :
  ascii_text t → ∀ r, reply cl o = Got r → decode_token r = Some t → o = Some t.
Proof.
  intros Ht r. destruct o as [b|]; cbn; [|by intros [= <-]].
  assert (Hs : utf8_strict b = Some t → b = t).
  { unfold utf8_strict. intros (s & Hs & He)%bind_Some. destruct (encodable s); [|done]. injection He as ->.
    by apply utf8_decode_ascii. }
  destruct (decode_responses cl).
  - destruct (utf8_strict b) as [s|] eqn:Hb; [|done]. intros [= <-]. cbn. intros [= ->]. f_equal. auto.
  - intros [= <-]. cbn. intros H. f_equal. auto.
Qed.

(** ** Runs *)

(** Case analysis of the phase that an answer leads to. *)
Ltac phase_in H :=
  cbn in H; try congruence;
  unfold absorb, after_read, after_write, raise_after_write, store, released, hit, CacheClient.raise in H; cbn in H;
  repeat (case_match; cbn in H; try congruence); try congruence.

Section client.
Context (float_repr : pyfloat → str) (read_float : str → pyfloat) (calls : nat → Call).
Context (Hkeys : ∀ i, valid_key (key (calls i))).
Context (Hascii : ∀ i, ascii_text (token (calls i))).
Context (Hfresh : ∀ i j, token (calls i) = token (calls j) → i = j).
#[local] Abbreviation step := (step float_repr read_float calls).
#[local] Abbreviation resume := (resume float_repr read_float).
#[local] Abbreviation lock i := (lock_key (key (calls i))).

Definition actor (l : label) : option nat :=
  match l with
  | Begins i | Served i | Dropped i _ | Loads i _ | Reads i _ _ | Wakes i => Some i
  | Passes _ _ => None
  end.

Lemma step_others w l w' j : step w l w' → actor l ≠ Some j → phases w' !! j = phases w !! j.
Proof using Type. intros Hs Hj. destruct Hs; cbn in *; try done; by rewrite lookup_insert_ne by congruence. Qed.

Lemma step_redis_now w l w' : step w l w' → redis_now w ≤ redis_now w'.
Proof using Type. destruct 1; cbn; lia. Qed.

Lemma runs_redis_now w ls w' : runs step w ls w' → redis_now w ≤ redis_now w'.
Proof using Type. induction 1 as [|w1 l w2 ls w3 Hs _ IH]; [done|]. apply step_redis_now in Hs. lia. Qed.

(** The store changes by a command of the actor. *)
Lemma step_store w l w' :
  step w l w' → store_ w' = store_ w ∨
  ∃ i p a, actor l = Some i ∧ phases w !! i = Some p ∧ execute (calls i) p (redis_now w) (store_ w) = Some (a, store_ w').
Proof using Type.
  destruct 1; cbn; try by left.
  - right. eauto 10.
  - destruct applied; [right; eauto 10|by left].
Qed.

(** What a command does to the lock of a key. *)
Lemma execute_lock i p now s a s' k :
  execute (calls i) p now s = Some (a, s') → valid_key k →
  data s' !! lock_key k = data s !! lock_key k ∧ version_of s' (lock_key k) = version_of s (lock_key k) ∨
  key (calls i) = k ∧ version_of s' (lock_key k) = S (version_of s (lock_key k)) ∧
  (p = Acquire ∧ visible now s (lock_key k) = None ∧ a = Flagged true ∧
     data s' !! lock_key k = Some (token (calls i), now + lease_of (calls i)) ∨
   ∃ r n, p = DeleteLock r n ∧ version_of s (lock_key k) = n ∧ data s' !! lock_key k = None).
Proof using Hkeys Hascii.
  intros He Hk. pose proof (Hkeys i) as Hi.
  destruct (cache_keys_injective _ _ Hi Hk) as (_ & Hlk & Hne).
  assert (Hset : ∀ k' b x, k' ≠ lock_key k → data (redis_set k' b x s) !! lock_key k = data s !! lock_key k ∧
    version_of (redis_set k' b x s) (lock_key k) = version_of s (lock_key k)).
  { intros k' b x Hn. unfold version_of, redis_set, bump. cbn. by rewrite !lookup_insert_ne. }
  assert (Hdel : ∀ k', k' ≠ lock_key k → data (redis_delete k' s) !! lock_key k = data s !! lock_key k ∧
    version_of (redis_delete k' s) (lock_key k) = version_of s (lock_key k)).
  { intros k' Hn. unfold version_of, redis_delete, bump. cbn. by rewrite lookup_delete_ne, lookup_insert_ne. }
  destruct p; cbn in He; try done; try (injection He as <- <-; by left);
    try (injection He as <- <-; left; by apply Hset); try (injection He as <- <-; left; by apply Hdel).
  - destruct (visible now s (lock i)) eqn:Hv; injection He as <- <-; [by left|].
    destruct (decide (lock i = lock_key k)) as [Heq|Hn]; [|left; by apply Hset]. right. rewrite Heq in *.
    split; [by apply Hlk|]. split; [unfold version_of, redis_set, bump; cbn; by rewrite lookup_insert_eq|].
    left. split_and!; [done..|]. cbn. by rewrite lookup_insert_eq, utf8_ascii.
  - case_bool_decide as Hn; injection He as <- <-; [|by left].
    destruct (decide (lock i = lock_key k)) as [Heq|Hnk]; [|left; by apply Hdel]. right. rewrite Heq in *.
    split; [by apply Hlk|]. split; [unfold version_of, redis_delete, bump; cbn; by rewrite lookup_insert_eq|].
    right. exists r, n. split_and!; [done..|]. cbn. by rewrite lookup_delete_eq.
Qed.

(** What WATCH saw bounds the version; a caller that is about to delete the lock
    has seen its own token in it, unless the lock changed since. *)
Definition watch_ok (w : world) : Prop := ∀ j r n,
  (phases w !! j = Some (GetLock r n) → (n ≤ version_of (store_ w) (lock j))%nat) ∧
  (phases w !! j = Some (DeleteLock r n) → (n ≤ version_of (store_ w) (lock j))%nat ∧
     (version_of (store_ w) (lock j) = n → ∃ x, data (store_ w) !! lock j = Some (token (calls j), x))).

Lemma version_mono w l w' j : step w l w' → (version_of (store_ w) (lock j) ≤ version_of (store_ w') (lock j))%nat ∧
  (version_of (store_ w') (lock j) = version_of (store_ w) (lock j) → data (store_ w') !! lock j = data (store_ w) !! lock j).
Proof using Hkeys Hascii.
  intros [->|(i & p & a & _ & _ & He)]%step_store; [done|].
  destruct (execute_lock _ _ _ _ _ _ _ He (Hkeys j)) as [[-> ->]|(_ & -> & _)]; split; try done; lia.
Qed.

(** Where the phases of releasing come from. *)
Lemma resume_release c p a r n :
  (resume c p a = GetLock r n → p = GetLock r n ∨ p = WatchLock r ∧ a = AtVersion n) ∧
  (resume c p a = DeleteLock r n →
     p = DeleteLock r n ∨ p = GetLock r n ∧ ∃ o, a = Got o ∧ decode_token o = Some (token c)).
Proof using Type.
  split; intros Hr; destruct p, a; phase_in Hr; try (left; congruence); right.
  - by injection Hr as <- <-.
  - injection Hr as <- <-. case_bool_decide; [|done]. split; [done|]. by eexists.
Qed.

Definition initial (w : world) : Prop := phases w = ∅.

(** What a call that waits for no command gets. *)
Definition answers (w : world) (l : label) (w' : world) (i : nat) (p : phase) (a : answer) : Prop :=
  match p, a with
  | Load _, Loaded r => l = Loads i r
  | (StartClock | CheckClock _), Now t1 t2 => loop_now w ≤ t1 ∧ t1 ≤ t2 ∧ loop_now w' = t2
  | Sleeping u _, Slept => u ≤ loop_now w ∧ loop_now w' = loop_now w
  | _, _ => False
  end.

(** The phase of the actor after its step, from the answer it got. *)
Lemma step_actor w l w' i :
  step w l w' → actor l = Some i →
  (phases w !! i = None ∧ phases w' !! i = Some (start float_repr (calls i)) ∧ store_ w' = store_ w) ∨
  ∃ p a, phases w !! i = Some p ∧ phases w' !! i = Some (resume (calls i) p a) ∧
    match execute (calls i) p (redis_now w) (store_ w) with
    | Some (b, s) => a = b ∧ store_ w' = s ∨ a = Unavailable
    | None => answers w l w' i p a
    end.
Proof using Type.
  intros Hs Hi. destruct Hs as [w j Hp|w j p a s Hp He|w j p a s applied Hp He|w j how r Hp|w j p t1 t2 Hp Hd Ht1 Ht2
    |w j u d Hp Hu|w r l]; cbn in Hi; try done; injection Hi as ->; cbn [set_phase phases store_]; rewrite lookup_insert_eq.
  - left. by split_and!.
  - right. exists p, a. rewrite He. split_and!; [done..|]. by left.
  - right. exists p, Unavailable. rewrite He. split_and!; [done..|]. by right.
  - right. by exists (Load how), (Loaded r).
  - right. exists p, (Now t1 t2). split_and!; [done..|]. by destruct Hd as [->|[? ->]].
  - right. exists (Sleeping u d), Slept. by split_and!.
Qed.

Lemma watch_ok_step w l w' : watch_ok w → step w l w' → watch_ok w'.
Proof using Hkeys Hascii.
  intros Hok Hs j r n. destruct (version_mono _ _ _ j Hs) as [Hm Hd].
  destruct (decide (actor l = Some j)) as [Hj|Hj].
  2: { rewrite (step_others _ _ _ _ Hs Hj). destruct (Hok j r n) as [H1 H2]. split.
       - intros Hp. specialize (H1 Hp). lia.
       - intros Hp. destruct (H2 Hp) as [Hn He]. split; [lia|]. intros Hv. rewrite Hd by lia. apply He. lia. }
  destruct (step_actor _ _ _ _ Hs Hj) as [(_ & Hp' & _)|(p & a & Hp & Hp' & Ha)].
  { rewrite Hp'. unfold start. split; intros [= H]; exfalso; phase_in H. }
  rewrite Hp'. split; intros [= Hr].
  - apply (proj1 (resume_release _ _ _ _ _)) in Hr as [->|[-> ->]].
    + destruct (Hok j r n) as [H1 _]. specialize (H1 Hp). lia.
    + cbn in Ha. by destruct Ha as [[[= ->] ->]|[=]].
  - apply (proj2 (resume_release _ _ _ _ _)) in Hr as Hr'. destruct Hr' as [->|[-> (o & -> & Ht)]].
    + exfalso. cbn in Ha. case_bool_decide; destruct Ha as [[-> _]| ->]; phase_in Hr.
    + cbn in Ha. destruct Ha as [[Hrep ->]|[=]]. destruct (Hok j r n) as [H1 _]. split; [by apply H1|]. intros _.
      symmetry in Hrep. eapply decode_token_reply in Hrep; [|apply Hascii|exact Ht].
      unfold visible in Hrep. apply bind_Some in Hrep as ([b x] & Hb & He). destruct (_ <? x); [|done].
      injection He as ->. by exists x.
Qed.

Lemma watch_ok_runs w ls w' : watch_ok w → runs step w ls w' → watch_ok w'.
Proof using Hkeys Hascii. intros Hw Hr. induction Hr; eauto using watch_ok_step. Qed.

Lemma watch_ok_initial w : initial w → watch_ok w.
Proof using Type. intros Hw j r n. unfold initial in Hw. rewrite Hw. by rewrite lookup_empty. Qed.

(** ** The lease *)

(** The phases of a holder that has not let go of the lock yet, and those of one
    that has. *)
Definition holding (p : phase) : bool :=
  match p with Load Held | SetValue _ (HeldStore _) | WatchLock _ | GetLock _ _ | DeleteLock _ _ => true | _ => false end.
Definition let_go (p : phase) : bool := match p with Unwatch _ | Finished _ => true | _ => false end.

Lemma holding_resume c p a : holding p = true → holding (resume c p a) = true ∨ let_go (resume c p a) = true.
Proof using Type.
  intros Hp. destruct p as [|k|b k| | |[]| | | | | | | |]; try done.
  - destruct k; try done. destruct a; cbn; try (by left); unfold absorb, after_write, raise_after_write; case_match; auto.
  - destruct a; cbn; try (by left); unfold store; repeat case_match; auto.
  - destruct a; cbn; try (by left); unfold absorb, released; try case_match; auto.
  - destruct a; cbn; try (by left); unfold absorb, released; try case_match; auto.
  - destruct a; cbn; try (by left); unfold absorb, released; try case_match; auto.
Qed.

Lemma let_go_resume c p a : let_go p = true → let_go (resume c p a) = true.
Proof using Type. destruct p; try done; intros _; destruct a; cbn; unfold absorb, released; try case_match; done. Qed.

Lemma holding_step w l w' i p :
  step w l w' → phases w !! i = Some p → holding p = true ∨ let_go p = true →
  ∃ p', phases w' !! i = Some p' ∧ (holding p' = true ∨ let_go p' = true) ∧ (let_go p = true → let_go p' = true).
Proof using Type.
  intros Hs Hp Hh. destruct (decide (actor l = Some i)) as [Hi|Hi].
  - destruct (step_actor _ _ _ _ Hs Hi) as [(Hn & _)|(p0 & a & Hp0 & Hp' & _)]; [congruence|].
    rewrite Hp in Hp0. injection Hp0 as <-. eexists. split; [exact Hp'|]. split; [|apply let_go_resume].
    destruct Hh as [Hh|Hh]; [by apply holding_resume|right; by apply let_go_resume].
  - exists p. rewrite (step_others _ _ _ _ Hs Hi). auto.
Qed.

(** Whoever still holds the lock at the end of a run held it all along. *)
Lemma holding_before w ls w' i p p' :
  runs step w ls w' → phases w !! i = Some p → holding p = true ∨ let_go p = true →
  phases w' !! i = Some p' → holding p' = true → holding p = true.
Proof using Type.
  intros Hr. revert p. induction Hr as [|w1 l w2 ls w3 Hs _ IH]; intros p Hp Hh Hp' Hh'; [congruence|].
  destruct (holding_step _ _ _ _ _ Hs Hp Hh) as (p2 & Hp2 & Hh2 & Hl).
  specialize (IH p2 Hp2 Hh2 Hp' Hh'). destruct Hh as [Hh|Hh]; [done|]. specialize (Hl Hh).
  by destruct p2.
Qed.

Definition leased (w : world) (i : nat) (x : datetime) : Prop :=
  data (store_ w) !! lock i = Some (token (calls i), x).

Lemma leased_step w l w' i x p' :
  watch_ok w → step w l w' → leased w i x → redis_now w < x →
  phases w' !! i = Some p' → holding p' = true → leased w' i x.
Proof using Hkeys Hascii Hfresh.
  intros Hok Hs Hl Hx Hp' Hh. destruct (step_store _ _ _ Hs) as [He|(j & p & a & Hj & Hp & He)];
    [unfold leased; by rewrite He|].
  destruct (execute_lock _ _ _ _ _ _ _ He (Hkeys i)) as [[Hd _]|(Hk & Hv & [(-> & Hn & _)|(r & n & -> & Hn & Hd)])].
  - unfold leased. by rewrite Hd.
  - exfalso. unfold visible in Hn. rewrite Hl in Hn. cbn in Hn. by replace (redis_now w <? x) with true in Hn by lia.
  - exfalso. destruct (Hok j r n) as [_ H2]. destruct (H2 Hp) as [_ Ht]. rewrite <-Hk in Hn.
    destruct (Ht Hn) as [y Hy]. unfold leased in Hl. rewrite <-Hk, Hy in Hl. injection Hl as Htok _.
    apply Hfresh in Htok as ->. destruct (step_actor _ _ _ _ Hs Hj) as [(Hnone & _)|(p0 & b & Hp0 & Hp1 & Ha)]; [congruence|].
    rewrite Hp in Hp0. injection Hp0 as <-. rewrite He in Ha. rewrite Hp1 in Hp'. injection Hp' as <-.
    cbn in He. rewrite bool_decide_eq_true_2 in He by done. injection He as <- _.
    destruct Ha as [[-> _]| ->]; cbn in Hh; [done|]. unfold absorb, released in Hh. by case_match.
Qed.

Lemma leased_runs w ls w' i x p p' :
  watch_ok w → runs step w ls w' → leased w i x → phases w !! i = Some p → holding p = true →
  redis_now w' < x → phases w' !! i = Some p' → holding p' = true → leased w' i x.
Proof using Hkeys Hascii Hfresh.
  intros Hok Hr. revert p Hok. induction Hr as [|w1 l w2 ls w3 Hs Hr IH]; intros p Hok Hl Hp Hh Hx Hp' Hh'; [done|].
  destruct (holding_step _ _ _ _ _ Hs Hp (or_introl Hh)) as (p2 & Hp2 & Hh2 & _).
  pose proof (holding_before _ _ _ _ _ _ Hr Hp2 Hh2 Hp' Hh') as Hhold.
  pose proof (runs_redis_now _ _ _ Hr). pose proof (step_redis_now _ _ _ Hs).
  eapply IH; [by eapply watch_ok_step| |done..]. eapply leased_step; [done..| |done|done]. lia.
Qed.
End client.

Arguments initial : clear implicits.

(** ** Runs, computed *)

Section play.
Context (float_repr : pyfloat → str) (read_float : str → pyfloat) (calls : nat → Call).
#[local] Abbreviation resume := (resume float_repr read_float).

Definition act (w : world) (l : label) : option world :=
  match l with
  | Begins i => if decide (phases w !! i = None)
                then Some (set_phase i (start float_repr (calls i)) (store_ w) (loop_now w) w) else None
  | Served i =>
      p ← phases w !! i; '(a, s) ← execute (calls i) p (redis_now w) (store_ w);
      Some (set_phase i (resume (calls i) p a) s (loop_now w) w)
  | Dropped i applied =>
      p ← phases w !! i; '(_, s) ← execute (calls i) p (redis_now w) (store_ w);
      Some (set_phase i (resume (calls i) p Unavailable) (if applied then s else store_ w) (loop_now w) w)
  | Loads i r =>
      p ← phases w !! i;
      match p with Load _ => Some (set_phase i (resume (calls i) p (Loaded r)) (store_ w) (loop_now w) w) | _ => None end
  | Reads i t1 t2 =>
      p ← phases w !! i;
      match p with
      | StartClock | CheckClock _ =>
          if (loop_now w <=? t1) && (t1 <=? t2) then Some (set_phase i (resume (calls i) p (Now t1 t2)) (store_ w) t2 w) else None
      | _ => None
      end
  | Wakes i =>
      p ← phases w !! i;
      match p with
      | Sleeping u _ => if u <=? loop_now w then Some (set_phase i (resume (calls i) p Slept) (store_ w) (loop_now w) w) else None
      | _ => None
      end
  | Passes r l =>
      if (0 <=? r) && (0 <=? l) then Some (World (store_ w) (redis_now w + r) (loop_now w + l) (phases w)) else None
  end.

Lemma act_step w l w' : act w l = Some w' → step float_repr read_float calls w l w'.
Proof using Type.
  destruct l as [i|i|i b|i r|i t1 t2|i|r l]; cbn [act].
  - case_decide; [|done]. intros [= <-]. by apply step_begins.
  - intros (p & Hp & ([a s] & He & [= <-])%bind_Some)%bind_Some. by eapply step_served.
  - intros (p & Hp & ([a s] & He & [= <-])%bind_Some)%bind_Some. by eapply step_dropped.
  - intros (p & Hp & Ha)%bind_Some. destruct p; try done. injection Ha as <-. by apply (step_loads _ _ _ _ _ _ _ Hp).
  - intros (p & Hp & Ha)%bind_Some. destruct p; try done;
      (destruct (_ && _) eqn:Ht; [|done]); injection Ha as <-; apply andb_true_iff in Ht as [H1 H2];
      (apply (step_reads _ _ _ _ _ _ _ _ Hp); [eauto|lia|lia]).
  - intros (p & Hp & Ha)%bind_Some. destruct p; try done. destruct (Z.leb_spec until (loop_now w)) as [Hu|]; [|done].
    injection Ha as <-. by apply (step_wakes _ _ _ _ _ _ _ Hp).
  - destruct (_ && _) eqn:Ht; [|done]. intros [= <-]. apply andb_true_iff in Ht as [H1 H2]. apply step_passes; lia.
Qed.

Fixpoint play (w : world) (ls : list label) : option world :=
  match ls with [] => Some w | l :: ls => w ← act w l; play w ls end.

Lemma play_runs w ls w' : play w ls = Some w' → runs (step float_repr read_float calls) w ls w'.
Proof using Type.
  revert w. induction ls as [|l ls IH]; intros w; cbn [play]; [by intros [= <-]|].
  intros (w1 & H1%act_step & H2%IH)%bind_Some. eauto.
Qed.

(** The world that a list of labels leads to. *)
Definition played (w : world) (ls : list label) : world := default w (play w ls).

Definition plays (w : world) (ls : list label) : bool := match play w ls with Some _ => true | None => false end.

Lemma played_runs w ls : plays w ls = true → runs (step float_repr read_float calls) w ls (played w ls).
Proof using Type. unfold plays, played. destruct (play w ls) as [w'|] eqn:Hw; [|done]. intros _. by apply play_runs. Qed.

Lemma played_step w l : plays w [l] = true → step float_repr read_float calls w l (played w [l]).
Proof using Type. unfold plays, played. cbn [play]. destruct (act w l) as [w'|] eqn:Hw; [|done]. intros _. by apply act_step. Qed.
End play.

(** Callers that load the same key, each with a token of its own. *)
Definition demo_calls (wait : Z) (i : nat) : Call :=
  NewCall (NewClient demo_codec true true) demo_key (OpLoad (PInt 60) (PInt 5000) (PInt wait)) (replicate (S i) 97%N).
Definition demo_world : world := World (Redis ∅ ∅) 0 0 ∅.

Lemma demo_tokens wait :
  (∀ j, valid_key (key (demo_calls wait j))) ∧ (∀ j, ascii_text (token (demo_calls wait j))) ∧
  ∀ j k, token (demo_calls wait j) = token (demo_calls wait k) → j = k.
Proof.
  split_and!; [intros j; apply demo_key_valid|intros j; by apply Forall_replicate|].
  intros j k H. apply (f_equal length) in H. unfold demo_calls, token in H. rewrite !length_replicate in H. lia.
Qed.

(** C28: Single flight: while a caller that acquired the lock of a key has not let
    go of it and its lease has not run out, its token stays in the lock and
    nobody else starts to load that key under a lease - whatever other callers,
    keys, failed commands and lost answers come in between. *)
Theorem cache_single_flight float_repr read_float calls w0 ls0 wa wb ls wc i p :
  (∀ j, valid_key (key (calls j))) → (∀ j, ascii_text (token (calls j))) →
  (∀ j k, token (calls j) = token (calls k) → j = k) →
  initial w0 → runs (step float_repr read_float calls) w0 ls0 wa →
  phases wa !! i = Some Acquire → step float_repr read_float calls wa (Served i) wb → phases wb !! i = Some (Load Held) →
  runs (step float_repr read_float calls) wb ls wc →
  phases wc !! i = Some p → holding p = true → redis_now wc < redis_now wa + lease_of (calls i) →
  visible (redis_now wc) (store_ wc) (lock_key (key (calls i))) = Some (token (calls i)) ∧
  ∀ j l wd, j ≠ i → key (calls j) = key (calls i) → phases wc !! j = Some Acquire →
    step float_repr read_float calls wc l wd → phases wd !! j ≠ Some (Load Held).
Proof.
  intros Hkeys Hascii Hfresh Hi Hr0 Ha Hs Hb Hr Hp Hh Hx.
  assert (Hok : watch_ok calls wb).
  { eapply watch_ok_step; [done..| |exact Hs]. eapply watch_ok_runs; [done..|by apply watch_ok_initial|exact Hr0]. }
  assert (Hl : leased calls wb i (redis_now wa + lease_of (calls i))).
  { destruct (step_actor _ _ _ _ _ _ i Hs eq_refl) as [(Hn & _)|(p0 & a & Hp0 & Hp1 & He)]; [congruence|].
    rewrite Ha in Hp0. injection Hp0 as <-. rewrite Hb in Hp1. injection Hp1 as Hp1. cbn in He.
    destruct (visible _ _ _); destruct He as [[-> Hst]| ->]; cbn in Hp1; try done;
      try (unfold absorb in Hp1; destruct (fail_open _); done).
    unfold leased. rewrite Hst. unfold redis_set. cbn. by rewrite lookup_insert_eq, utf8_ascii. }
  assert (Hlc : leased calls wc i (redis_now wa + lease_of (calls i))) by (by eapply leased_runs).
  assert (Hv : visible (redis_now wc) (store_ wc) (lock_key (key (calls i))) = Some (token (calls i))).
  { unfold visible, leased in *. rewrite Hlc. cbn. by replace (redis_now wc <? _) with true by lia. }
  split; [done|]. intros j l wd Hj Hk Hpj Hsd Hpd. destruct (decide (actor l = Some j)) as [Hact|Hact].
  2: { rewrite (step_others _ _ _ _ _ _ _ Hsd Hact) in Hpd. congruence. }
  destruct (step_actor _ _ _ _ _ _ j Hsd Hact) as [(Hn & _)|(p0 & a & Hp0 & Hp1 & He)]; [congruence|].
  rewrite Hpj in Hp0. injection Hp0 as <-. rewrite Hpd in Hp1. injection Hp1 as Hp1. cbn in He. rewrite Hk, Hv in He.
  destruct He as [[-> _]| ->]; cbn in Hp1; [done|]. unfold absorb in Hp1. by destruct (fail_open _).
Qed.

Lemma cache_single_flight_witness :
  let play := played demo_float_text demo_read_float (demo_calls 0) in
  let wa := play demo_world [Begins 0; Begins 1; Served 0; Served 1] in
  let wc := play (play wa [Served 0]) [Passes 4999999 0] in
  visible (redis_now wc) (store_ wc) (lock_key demo_key) = Some (replicate 1 97%N) ∧
  phases wc !! 1%nat = Some Acquire ∧
  ∀ l wd, step demo_float_text demo_read_float (demo_calls 0) wc l wd → phases wd !! 1%nat ≠ Some (Load Held).
Proof.
  intros play wa wc. destruct (demo_tokens 0) as (Hk & Ha & Hf).
  assert (Hc : phases wc !! 1%nat = Some Acquire) by (by vm_compute).
  destruct (cache_single_flight demo_float_text demo_read_float (demo_calls 0) demo_world
    [Begins 0; Begins 1; Served 0; Served 1] wa (play wa [Served 0]) [Passes 4999999 0] wc 0 (Load Held) Hk Ha Hf)
    as [Hv Hn]; [done| |by vm_compute| |by vm_compute| |by vm_compute|done|by vm_compute|].
  - apply played_runs. by vm_compute.
  - apply played_step. by vm_compute.
  - apply played_runs. by vm_compute.
  - split; [exact Hv|]. split; [exact Hc|]. intros l wd. by apply Hn.
Defined.

(** ** What calls return *)

Section values.
Context (float_repr : pyfloat → str) (read_float : str → pyfloat) (calls : nat → Call).
Context (Hfloat : float_text_ok float_repr read_float).
Context (Hkeys : ∀ i, valid_key (key (calls i))).
Context (Hascii : ∀ i, ascii_text (token (calls i))).
Context (Hcodec : ∀ i, codec_ok (client_codec (client (calls i)))).
Context (ls : list label).
#[local] Abbreviation step := (step float_repr read_float calls).
#[local] Abbreviation resume := (resume float_repr read_float).
#[local] Abbreviation codec i := (client_codec (client (calls i))).
#[local] Abbreviation value_key i := (render (key (calls i))).

(** A value that call [i] loaded, or was given to store. *)
Definition produced (i : nat) (v : pyval) : Prop := Loads i (Ok v) ∈ ls ∨ ∃ ttl, op (calls i) = OpSet v ttl.

Context (Hwf : ∀ i v a, produced i v → to_json float_repr v = Ok a → well_formed a).

(** A value of the cache for the key of call [i]. *)
Definition from_cache (i : nat) (v : pyval) : Prop :=
  ∃ j v' a, key (calls j) = key (calls i) ∧ produced j v' ∧ to_json float_repr v' = Ok a ∧ v = plain a.

(** An exception that has nothing to do with Redis: of the loader, of the
    arguments, or of a loaded value that cannot be stored. *)
Definition own_exception (i : nat) (e : pyexn) : Prop :=
  Loads i (Err e) ∈ ls ∨ start float_repr (calls i) = raise e ∨
  ∃ v, Loads i (Ok v) ∈ ls ∧ encode float_repr (codec i) v = Err e.

Definition failure_ok (i : nat) (e : failure) : Prop :=
  match e with CacheUnavailableError => fail_open (client (calls i)) = false | Raised e => own_exception i e end.
Definition pending_ok (i : nat) (r : res failure pyval) : Prop :=
  match r with Ok v => Loads i (Ok v) ∈ ls | Err e => failure_ok i e end.
Definition result_ok (i : nat) (r : res failure returned) : Prop :=
  match r with
  | Ok (Value (Some v)) => Loads i (Ok v) ∈ ls ∨ from_cache i v
  | Ok (Value None) => op (calls i) = OpGet
  | Ok (Flag _) => True
  | Err e => failure_ok i e
  end.

Definition phase_ok (i : nat) (p : phase) : Prop :=
  match p with
  | GetValue ForGet | DeleteCorrupt ForGet => op (calls i) = OpGet
  | SetValue b k => (∃ v, produced i v ∧ encode float_repr (codec i) v = Ok b) ∧
      match k with ForSet => True | HeldStore v | LateStore v => Loads i (Ok v) ∈ ls end
  | WatchLock r | GetLock r _ | Unwatch r | DeleteLock r _ => pending_ok i r
  | Finished r => result_ok i r
  | _ => True
  end.

Definition entry_ok (i : nat) (b : list N) : Prop :=
  ∃ j v, key (calls j) = key (calls i) ∧ produced j v ∧ encode float_repr (codec j) v = Ok b.

Record genuine (w : world) : Prop := {
  g_phases i p : phases w !! i = Some p → phase_ok i p;
  g_values i b x : data (store_ w) !! value_key i = Some (b, x) → entry_ok i b;
  g_locks i b x : data (store_ w) !! lock_key (key (calls i)) = Some (b, x) → ascii_text b }.

Lemma absorb_ok i p : phase_ok i p → phase_ok i (absorb (calls i) p).
Proof using Type. intros Hp. unfold absorb. by destruct (fail_open _) eqn:Hf. Qed.

Lemma after_read_ok i k available v :
  match k with ForGet => op (calls i) = OpGet | _ => True end →
  match v with Some v => from_cache i v | None => True end → phase_ok i (after_read k available v).
Proof using Type. intros Hk Hv. destruct k, v, available; cbn; auto. Qed.

Lemma start_ok i : phase_ok i (start float_repr (calls i)).
Proof using Type.
  assert (Hraise : ∀ e, start float_repr (calls i) = raise e → phase_ok i (raise e)) by (intros e He; right; by left).
  unfold start in *. destruct (op (calls i)) as [|v ttl| |ttl lease wait] eqn:Ho; [done| |done|].
  - destruct (_ ;; _) as [b|e] eqn:He; [|by apply Hraise]. apply bind_Ok in He as (z & _ & He).
    split; [|done]. exists v. split; [right; by exists ttl|done].
  - destruct (_ ;; _) as [b|e] eqn:He; [done|by apply Hraise].
Qed.

Lemma store_ok i how v : how ≠ Open → Loads i (Ok v) ∈ ls → phase_ok i (CacheClient.store float_repr (calls i) how v).
Proof using Type.
  intros Hh Hl. unfold CacheClient.store. destruct (encode _ _ v) as [b|e] eqn:He.
  - destruct how; cbn; (split; [exists v; split; [by left|done]|done]).
  - assert (own_exception i e) by (right; right; by exists v). destruct how; cbn; auto.
Qed.

(** What is stored is found again, or refused as a [CacheDecodeError]. *)
Lemma reply_entry i b :
  entry_ok i b → ∃ x, reply (client (calls i)) (Some b) = Got (Some x) ∧
    ((∃ v, decode read_float (codec i) x = Ok v ∧ from_cache i v) ∨
     ∃ msg, decode read_float (codec i) x = Err (CacheDecodeError msg)).
Proof using Hfloat Hcodec Hwf.
  intros (j & v & Hk & Hp & He). apply encode_Ok in He as (Hn & a & Ha & Henc & -> & Hl).
  pose proof (Hwf _ _ _ Hp Ha) as Hw. pose proof (to_json_ok _ _ _ Ha Hw) as Hok.
  set (text := json_dumps float_repr (envelope (codec j) a)) in *.
  assert (Hu : unicode text).
  { apply (dumps_unicode _ read_float); [done|by apply envelope_ok|by apply envelope_well_formed]. }
  set (x := if decode_responses (client (calls i)) then CText text else CBytes (utf8 text)).
  exists x. split.
  { unfold reply, x. destruct (decode_responses _); [|done]. unfold utf8_strict. rewrite utf8_decode_utf8 by done.
    cbn [mbind option_bind]. by rewrite Henc. }
  assert (Hx : decode read_float (codec i) x = decode read_float (codec i) (CBytes (utf8 text))).
  { unfold x. destruct (decode_responses _); [|done]. by apply decode_text. }
  rewrite Hx. destruct (Z.leb_spec (Z.of_nat (length (utf8 text))) (max_bytes (codec i))) as [Hs|Hs].
  - unfold text. rewrite (decode_envelope float_repr) by (done || (intros ->; destruct v; cbn in Ha; res_inv; done)).
    destruct (schema_version (codec j) =? _); [left|right; by eexists].
    exists (plain a). split; [done|]. by exists j, v, a.
  - right. exists "cache value exceeds the byte limit"%string. unfold decode. cbn [raw_bytes mbind res_bind].
    by replace (max_bytes (codec i) <? _) with true by lia.
Qed.

Lemma reply_lock i b : ascii_text b → ∃ x, reply (client (calls i)) (Some b) = Got x.
Proof using Type.
  intros Hb. unfold reply. destruct (decode_responses _); [|by eexists]. unfold utf8_strict.
  assert (utf8_decode b = Some b) as ->.
  { rewrite <-(utf8_ascii b Hb) at 1. apply utf8_decode_utf8. eapply Forall_impl; [exact Hb|]. cbn. lia. }
  cbn. assert (encodable b = true) as ->; [|by eexists]. apply forallb_forall. intros c Hc%list_elem_of_In.
  unfold ascii_text in Hb. rewrite Forall_forall in Hb. specialize (Hb _ Hc). cbn in Hb.
  by replace (55296 <=? c)%N with false by char_lia.
Qed.

Lemma released_phase_ok i r : pending_ok i r → phase_ok i (released r).
Proof using Type. destruct r as [v|e]; cbn; auto. Qed.

(** The answer of a command keeps the phase in order. *)
Lemma resume_command i p now s a s' :
  (∀ b x, data s !! value_key i = Some (b, x) → entry_ok i b) →
  (∀ b x, data s !! lock_key (key (calls i)) = Some (b, x) → ascii_text b) →
  execute (calls i) p now s = Some (a, s') → phase_ok i p →
  phase_ok i (resume (calls i) p a) ∧ phase_ok i (resume (calls i) p Unavailable).
Proof using Hfloat Hcodec Hwf.
  intros Hv Hlk He Hp. destruct p as [k|k|b k| | |how|r|r n|r|r n| |d|u d|r]; cbn in He; try done.
  - injection He as <- <-. assert (Hk : match k with ForGet => op (calls i) = OpGet | _ => True end) by by destruct k.
    split; [|cbn; apply absorb_ok; by apply after_read_ok].
    unfold visible. destruct (data s !! value_key i) as [[b x]|] eqn:Hd; cbn [mbind option_bind].
    2: { cbn. by apply after_read_ok. }
    destruct (now <? x). 2: { cbn. by apply after_read_ok. }
    destruct (reply_entry i b (Hv _ _ eq_refl)) as (y & -> & [(v & Hdec & Hc)|(msg & Hdec)]); cbn; rewrite Hdec.
    + by apply after_read_ok.
    + done.
  - injection He as <- <-. split; cbn; apply after_read_ok; done || by destruct k.
  - injection He as <- <-. destruct Hp as [_ Hk]. cbn. split.
    + destruct k; cbn; auto.
    + destruct (fail_open (client (calls i))) eqn:Hf; destruct k; cbn; auto.
  - injection He as <- <-. split; [done|]. cbn. by apply absorb_ok.
  - split; [|cbn; by apply absorb_ok]. destruct (visible _ _ _); injection He as <- <-; done.
  - injection He as <- <-. split; [done|]. cbn. apply absorb_ok. by apply released_phase_ok.
  - injection He as <- <-. split; [|cbn; apply absorb_ok; by apply released_phase_ok]. unfold visible.
    destruct (data s !! lock_key (key (calls i))) as [[b x]|] eqn:Hd; cbn [mbind option_bind]; [|cbn [CacheClient.resume reply]; case_match; exact Hp].
    destruct (now <? x); [|cbn [CacheClient.resume reply]; case_match; exact Hp].
    destruct (reply_lock i b (Hlk _ _ eq_refl)) as [y ->]. cbn [CacheClient.resume]. case_match; exact Hp.
  - injection He as <- <-. split; cbn; [|apply absorb_ok]; by apply released_phase_ok.
  - case_bool_decide; injection He as <- <-; split; cbn; try apply absorb_ok; by apply released_phase_ok.
Qed.

(** What a command leaves in the store. *)
Lemma execute_values i p now s a s' :
  execute (calls i) p now s = Some (a, s') → phase_ok i p →
  (∀ j b x, data s !! value_key j = Some (b, x) → entry_ok j b) →
  (∀ j b x, data s !! lock_key (key (calls j)) = Some (b, x) → ascii_text b) →
  (∀ j b x, data s' !! value_key j = Some (b, x) → entry_ok j b) ∧
  (∀ j b x, data s' !! lock_key (key (calls j)) = Some (b, x) → ascii_text b).
Proof using Hkeys Hascii.
  intros He Hp Hv Hl.
  assert (Hdel : ∀ k, (∀ j b x, data (redis_delete k s) !! value_key j = Some (b, x) → entry_ok j b) ∧
    (∀ j b x, data (redis_delete k s) !! lock_key (key (calls j)) = Some (b, x) → ascii_text b)).
  { intros k. split; intros j b x Hd; cbn in Hd; apply lookup_delete_Some in Hd as [_ Hd]; eauto. }
  destruct p as [k|k|b k| | |how|r|r n|r|r n| |d|u d|r]; cbn in He; try done; try (injection He as <- <-; by split);
    try (injection He as <- <-; apply Hdel).
  - injection He as <- <-. destruct Hp as [(v & Hpr & Henc) _]. split; intros j b' x.
    + cbn. rewrite lookup_insert_Some. intros [[Hk [= <- _]]|[_ Hd]]; [|by eapply Hv].
      exists i, v. split_and!; [|done..]. by apply (proj1 (cache_keys_injective _ _ (Hkeys i) (Hkeys j))).
    + cbn. rewrite lookup_insert_Some. intros [[Hk _]|[_ Hd]]; [|by eapply Hl].
      by destruct (cache_keys_injective _ _ (Hkeys i) (Hkeys j)) as (_ & _ & []).
  - destruct (visible _ _ _); injection He as <- <-; [by split|]. split; intros j b' x.
    + cbn. rewrite lookup_insert_Some. intros [[Hk _]|[_ Hd]]; [|by eapply Hv].
      by destruct (cache_keys_injective _ _ (Hkeys j) (Hkeys i)) as (_ & _ & []).
    + cbn. rewrite lookup_insert_Some. intros [[Hk [= <- _]]|[_ Hd]]; [|by eapply Hl].
      by rewrite utf8_ascii.
  - case_bool_decide; injection He as <- <-; [apply Hdel|by split].
Qed.

(** What the loader, the clock and a sleep answer. *)
Lemma resume_answer w l w' i p a :
  l ∈ ls → answers w l w' i p a → phase_ok i p →
  phase_ok i (resume (calls i) p a).
Proof using Type.
  intros Hl Ha Hp. destruct p as [k|k|b k| | |how|r|r n|r|r n| |d|u d|r]; destruct a as [| | | | | |r'|t1 t2|]; try done.
  - cbn in Ha. subst l. destruct r' as [v|e].
    + destruct how; cbn; [by left|by apply store_ok..].
    + destruct how; cbn; by left.
  - cbn. by destruct (t1 <? d).
Qed.

Lemma genuine_step w l w' : l ∈ ls → genuine w → step w l w' → genuine w'.
Proof using Hfloat Hkeys Hascii Hcodec Hwf.
  intros Hin [Gp Gv Gl] Hs.
  assert (Hstore : (∀ i b x, data (store_ w') !! value_key i = Some (b, x) → entry_ok i b) ∧
    (∀ i b x, data (store_ w') !! lock_key (key (calls i)) = Some (b, x) → ascii_text b)).
  { destruct (step_store _ _ _ _ _ _ Hs) as [->|(i & p & a & _ & Hp & He)]; [by split|].
    eapply execute_values; eauto. }
  destruct Hstore. split; [|done..]. intros i p' Hp'.
  destruct (decide (actor l = Some i)) as [Hi|Hi]; [|rewrite (step_others _ _ _ _ _ _ _ Hs Hi) in Hp'; by apply Gp].
  destruct (step_actor _ _ _ _ _ _ _ Hs Hi) as [(_ & Hst & _)|(p & a & Hp & Hres & Ha)].
  { rewrite Hst in Hp'. injection Hp' as <-. apply start_ok. }
  rewrite Hres in Hp'. injection Hp' as <-. specialize (Gp _ _ Hp).
  destruct (execute (calls i) p (redis_now w) (store_ w)) as [[b s]|] eqn:He.
  - destruct (resume_command i p (redis_now w) (store_ w) b s) as [H1 H2]; [eauto..|]. destruct Ha as [[-> _]| ->]; done.
  - by eapply resume_answer.
Qed.

Lemma genuine_runs w ls1 w' : ls1 ⊆ ls → genuine w → runs step w ls1 w' → genuine w'.
Proof using Hfloat Hkeys Hascii Hcodec Hwf.
  intros Hin Hg Hr. induction Hr as [|w1 l w2 ls1 w3 Hs _ IH]; [done|].
  apply IH; [set_solver|]. eapply genuine_step; [|done..]. set_solver.
Qed.
End values.

(** Nothing of the calls is cached yet. *)
Definition untouched (calls : nat → Call) (w : world) : Prop :=
  initial w ∧ ∀ i, data (store_ w) !! render (key (calls i)) = None ∧ data (store_ w) !! lock_key (key (calls i)) = None.

(** C29: What a call ends with, whatever Redis does in between. A value is one
    that the call's own loader gave, or the JSON value of one that some call for
    the same key loaded or stored; a miss is an answer to [get] alone. An
    exception is the loader's, or about the arguments or about a value that cannot
    be stored: the cache raises one of its own only in a client that does not
    fail open. *)
Theorem cache_call_answers float_repr read_float calls w0 ls w i r :
  float_text_ok float_repr read_float →
  (∀ j, valid_key (key (calls j))) → (∀ j, ascii_text (token (calls j))) →
  (∀ j, codec_ok (client_codec (client (calls j)))) →
  (∀ j v a, produced calls ls j v → to_json float_repr v = Ok a → well_formed a) →
  untouched calls w0 → runs (step float_repr read_float calls) w0 ls w →
  phases w !! i = Some (Finished r) →
  match r with
  | Ok (Value (Some v)) => Loads i (Ok v) ∈ ls ∨ from_cache float_repr calls ls i v
  | Ok (Value None) => op (calls i) = OpGet
  | Ok (Flag _) => True
  | Err CacheUnavailableError => fail_open (client (calls i)) = false
  | Err (Raised e) => own_exception float_repr calls ls i e
  end.
Proof.
  intros Hf Hk Ha Hc Hw [Hp Hd] Hr Hi.
  assert (Hg : genuine float_repr calls ls w0).
  { unfold initial in Hp. split; intros j p.
    - by rewrite Hp, lookup_empty.
    - intros x. by rewrite (proj1 (Hd j)).
    - intros x. by rewrite (proj2 (Hd j)). }
  eapply genuine_runs in Hr as [Gp _ _]; [|done..]. specialize (Gp _ _ Hi). by destruct r as [[[]|]|[]].
Qed.

Definition demo_history : list label :=
  [Begins 0; Served 0; Served 0; Loads 0 (Ok demo_value); Served 0; Served 0; Served 0; Served 0; Begins 1; Served 1].

Lemma demo_produced wait i v : produced (demo_calls wait) demo_history i v → v = demo_value.
Proof.
  intros [Hv|(ttl & [=])]. unfold demo_history in Hv.
  repeat (apply elem_of_cons in Hv as [Hv|Hv]; [congruence|]). by apply elem_of_nil in Hv.
Qed.

(** The second caller gets the JSON value of what the first one loaded. *)
Lemma cache_call_answers_witness :
  let w := played demo_float_text demo_read_float (demo_calls 0) demo_world demo_history in
  phases w !! 1%nat = Some (Finished (Ok (Value (Some (plain demo_json))))) ∧
  (Loads 1 (Ok (plain demo_json)) ∈ demo_history ∨
   from_cache demo_float_text (demo_calls 0) demo_history 1 (plain demo_json)).
Proof.
  intros w. assert (Hw : phases w !! 1%nat = Some (Finished (Ok (Value (Some (plain demo_json)))))) by (by vm_compute).
  split; [exact Hw|]. destruct (demo_tokens 0) as (Hk & Ha & Hf).
  apply (cache_call_answers demo_float_text demo_read_float (demo_calls 0) demo_world demo_history w 1
    (Ok (Value (Some (plain demo_json)))) demo_float_ok
    Hk Ha); [| | | |exact Hw].
  - intros j. unfold codec_ok. cbn. lia.
  - intros j v a Hv%demo_produced Hj. subst v. assert (a = demo_json) as -> by (revert Hj; vm_compute; congruence).
    apply well_formed_dict. split_and!; [apply (bool_decide_unpack _); vm_compute; reflexivity|..]; repeat constructor.
  - split; [done|]. intros j. split; apply lookup_empty.
  - apply played_runs. by vm_compute.
Defined.

(** ** Every call ends *)

(** The polls that a remaining time leaves room for. *)
Definition polls (x : Z) : Z := if x <=? 0 then 0 else (x - 1) / POLL_INTERVAL + 1.

Lemma polls_nonneg x : 0 ≤ polls x.
Proof. unfold polls, POLL_INTERVAL. destruct (Z.leb_spec x 0); [done|]. pose proof (Z.div_pos (x - 1) 25000). lia. Qed.

Lemma polls_mono x y : x ≤ y → polls x ≤ polls y.
Proof.
  intros Hxy. pose proof (polls_nonneg y). unfold polls, POLL_INTERVAL in *.
  destruct (Z.leb_spec x 0); [done|]. replace (y <=? 0) with false in * by lia.
  pose proof (Z.div_le_mono (x - 1) (y - 1) 25000). lia.
Qed.

Lemma polls_sleep x : 0 < x → polls (x - Z.min POLL_INTERVAL x) + 1 ≤ polls x.
Proof.
  intros Hx. unfold polls, POLL_INTERVAL. replace (x <=? 0) with false by lia.
  destruct (Z.leb_spec (x - Z.min 25000 x) 0).
  - pose proof (Z.div_pos (x - 1) 25000). lia.
  - rewrite Z.min_l by lia. replace (x - 1) with (x - 25000 - 1 + 1 * 25000) by lia. rewrite Z.div_add by lia. lia.
Qed.

Section termination.
Context (float_repr : pyfloat → str) (read_float : str → pyfloat) (calls : nat → Call).
#[local] Abbreviation step := (step float_repr read_float calls).
#[local] Abbreviation resume := (resume float_repr read_float).

#[local] Arguments wait_of : simpl never.
#[local] Arguments polls : simpl never.

(** A bound on the steps that a call has left when its clock reads [now]. *)
Definition polling_left (deadline now : Z) : Z := 3 + 4 * polls (deadline - now).
Definition after_get_steps (i : nat) (now : Z) (k : after_get) : Z :=
  match k with ForGet => 0 | First => 6 + 4 * polls (wait_of (calls i)) | Polling d => polling_left d now end.
Definition steps_left (i : nat) (now : Z) (p : phase) : Z :=
  match p with
  | Finished _ => 0
  | Unwatch _ | DeleteLock _ _ | DeleteValue => 1
  | GetLock _ _ => 2
  | WatchLock _ => 3
  | SetValue _ (HeldStore _) => 4
  | SetValue _ _ => 1
  | Load Held => 5
  | Load Late => 2
  | Load Open => 1
  | CheckClock d => polling_left d now
  | StartClock => 4 + 4 * polls (wait_of (calls i))
  | Acquire => 6 + 4 * polls (wait_of (calls i))
  | Sleeping u d => polling_left d (Z.max u now) + 3
  | DeleteCorrupt k => after_get_steps i now k + 1
  | GetValue k => after_get_steps i now k + 2
  end.

Definition total_steps (i : nat) : Z := 9 + 4 * polls (wait_of (calls i)).
Definition call_left (i : nat) (w : world) : Z :=
  match phases w !! i with None => total_steps i | Some p => steps_left i (loop_now w) p end.

Lemma after_get_steps_pos i now k : 0 ≤ after_get_steps i now k.
Proof using Type.
  destruct k as [| |d]; cbn; unfold polling_left; pose proof (polls_nonneg (wait_of (calls i)));
    try pose proof (polls_nonneg (d - now)); lia.
Qed.

Lemma steps_left_pos i now p : 0 ≤ steps_left i now p.
Proof using Type.
  destruct p as [k|k|b []| | |[]| | | | | |d|u d|]; cbn; unfold polling_left; try lia;
    try (pose proof (after_get_steps_pos i now k); lia);
    try (pose proof (polls_nonneg (wait_of (calls i))); lia);
    try (pose proof (polls_nonneg (d - now)); lia); pose proof (polls_nonneg (d - Z.max u now)); lia.
Qed.

(** Time only takes polls away. *)
Lemma steps_left_mono i now now' p : now ≤ now' → steps_left i now' p ≤ steps_left i now p.
Proof using Type.
  intros Hn.
  assert (Hw : ∀ d a b, a ≤ b → polling_left d b ≤ polling_left d a).
  { intros d a b Hab. unfold polling_left. pose proof (polls_mono (d - b) (d - a)). lia. }
  destruct p as [[| |d]|[| |d]|b []| | |[]| | | | | |d|u d|]; cbn; try lia; try (specialize (Hw d now now' Hn); lia).
  specialize (Hw d (Z.max u now) (Z.max u now')). lia.
Qed.

Lemma absorb_left i now p : 0 ≤ steps_left i now p → steps_left i now (absorb (calls i) p) ≤ steps_left i now p.
Proof using Type. intros Hp. unfold absorb. by destruct (fail_open _). Qed.

Lemma after_read_left i now k available v :
  steps_left i now (after_read k available v) ≤ after_get_steps i now k.
Proof using Type.
  pose proof (after_get_steps_pos i now k). pose proof (polls_nonneg (wait_of (calls i))).
  destruct k as [| |d], v; cbn; try lia; destruct available; cbn; try lia; unfold polling_left;
    pose proof (polls_nonneg (d - now)); lia.
Qed.

Lemma start_left i now : steps_left i now (start float_repr (calls i)) < total_steps i.
Proof using Type.
  unfold start, total_steps. pose proof (polls_nonneg (wait_of (calls i))).
  destruct (op (calls i)) as [|v ttl| |ttl lease wait]; cbn; try lia; destruct (_ ;; _); cbn; lia.
Qed.

(** A step of a call takes it closer to its end. *)
Lemma resume_command_left i p now rnow s a s' :
  execute (calls i) p rnow s = Some (a, s') →
  steps_left i now (resume (calls i) p a) < steps_left i now p ∧
  steps_left i now (resume (calls i) p Unavailable) < steps_left i now p.
Proof using Type.
  intros He.
  assert (Hr : ∀ r, steps_left i now (absorb (calls i) (released r)) = 0) by (intros r; unfold absorb; by destruct (fail_open _)).
  assert (Hread : ∀ k av v, steps_left i now (absorb (calls i) (after_read k av v)) < after_get_steps i now k + 1).
  { intros k av v. pose proof (after_read_left i now k av v). pose proof (absorb_left i now (after_read k av v) (steps_left_pos _ _ _)). lia. }
  assert (Hrep : ∀ o, (∃ e, reply (client (calls i)) o = ClientRaises e) ∨ ∃ x, reply (client (calls i)) o = Got x).
  { intros [b|]; [|right; by eexists]. cbn. destruct (decode_responses _); [|right; by eexists].
    destruct (utf8_strict b); [right|left]; by eexists. }
  destruct p as [k|k|b k| | |how|r|r n|r|r n| |d|u d|r]; cbn in He; try done.
  - injection He as <- <-. pose proof (after_get_steps_pos i now k). split; [|cbn; specialize (Hread k false None); lia].
    destruct (Hrep (visible rnow s (render (key (calls i))))) as [[e ->]|[[x|] ->]]; cbn; [lia| |].
    + destruct (decode _ _ _) as [v|[]]; cbn; try lia. pose proof (after_read_left i now k true (Some v)). lia.
    + pose proof (after_read_left i now k true None). lia.
  - injection He as <- <-. pose proof (after_read_left i now k true None). split; cbn; lia.
  - injection He as <- <-. split; destruct k; cbn; unfold after_write, raise_after_write; try case_match; cbn; lia.
  - injection He as <- <-. split; cbn; [lia|]. unfold absorb. case_match; cbn; lia.
  - pose proof (polls_nonneg (wait_of (calls i))).
    assert (Hu : steps_left i now (resume (calls i) Acquire Unavailable) < steps_left i now Acquire)
      by (cbn; unfold absorb; destruct (fail_open _); cbn; lia).
    destruct (visible _ _ _); injection He as <- <-; (split; [cbn; lia|done]).
  - injection He as <- <-. split; cbn; [lia|]. rewrite Hr. lia.
  - injection He as <- <-. split; [|cbn; rewrite Hr; lia].
    destruct (Hrep (visible rnow s (lock_key (key (calls i))))) as [[e ->]|[x ->]]; cbn; [lia|]. case_match; cbn; lia.
  - injection He as <- <-. split; cbn; [lia|]. rewrite Hr. lia.
  - destruct (bool_decide _); injection He as <- <-; (split; cbn; [lia|rewrite Hr; lia]).
Qed.

Lemma resume_answer_left w l w' i p a :
  answers w l w' i p a → loop_now w ≤ loop_now w' →
  steps_left i (loop_now w') (resume (calls i) p a) < steps_left i (loop_now w) p.
Proof using Type.
  intros Ha Hn. destruct p as [k|k|b k| | |how|r|r n|r|r n| |d|u d|r]; destruct a as [| | | | | |r'|t1 t2|]; try done.
  - destruct r' as [v|e], how; cbn; try lia; unfold CacheClient.store; destruct (encode _ _ _); cbn; lia.
  - destruct Ha as (H1 & H2 & ->). cbn. unfold polling_left. pose proof (polls_mono (t1 + wait_of (calls i) - t2) (wait_of (calls i))). lia.
  - destruct Ha as (H1 & H2 & ->). cbn. unfold polling_left. pose proof (polls_nonneg (d - loop_now w)).
    destruct (Z.ltb_spec t1 d); cbn; [|lia]. unfold polling_left.
    pose proof (polls_mono (d - t1) (d - loop_now w)).
    assert (polls (d - Z.max (t2 + Z.min POLL_INTERVAL (d - t2)) t2) + 1 ≤ polls (d - t1)); [|lia].
    destruct (Z.ltb_spec t2 d) as [Ht|Ht].
    + pose proof (polls_sleep (d - t2)) as Hs. pose proof (polls_mono (d - t2) (d - t1)).
      rewrite Z.max_l by (unfold POLL_INTERVAL; lia).
      replace (d - (t2 + Z.min POLL_INTERVAL (d - t2))) with (d - t2 - Z.min POLL_INTERVAL (d - t2)) by lia. lia.
    + rewrite Z.max_r by (unfold POLL_INTERVAL; lia).
      assert (polls (d - t2) = 0) as -> by (unfold polls; by replace (d - t2 <=? 0) with true by lia).
      pose proof (polls_sleep (d - t1)). pose proof (polls_nonneg (d - t1 - Z.min POLL_INTERVAL (d - t1))). lia.
  - destruct Ha as [H1 H2]. cbn. rewrite H2. rewrite Z.max_r by lia. lia.
Qed.

Lemma step_loop_now w l w' : step w l w' → loop_now w ≤ loop_now w'.
Proof using Type. destruct 1; cbn; lia. Qed.

Lemma call_left_step w l w' i :
  step w l w' → call_left i w' + (if decide (actor l = Some i) then 1 else 0) ≤ call_left i w.
Proof using Type.
  intros Hs. pose proof (step_loop_now _ _ _ Hs) as Hn. unfold call_left. case_decide as Hi.
  - destruct (step_actor _ _ _ _ _ _ _ Hs Hi) as [(-> & -> & _)|(p & a & -> & -> & Ha)].
    + pose proof (start_left i (loop_now w')). lia.
    + destruct (execute (calls i) p (redis_now w) (store_ w)) as [[b s]|] eqn:He.
      * destruct (resume_command_left i p (loop_now w') _ _ _ _ He) as [H1 H2].
        pose proof (steps_left_mono i _ _ p Hn). destruct Ha as [[-> _]| ->]; lia.
      * pose proof (resume_answer_left _ _ _ _ _ _ Ha Hn). lia.
  - rewrite (step_others _ _ _ _ _ _ _ Hs Hi). destruct (phases w !! i) as [p|]; [|lia].
    pose proof (steps_left_mono i _ _ p Hn). lia.
Qed.
End termination.

Definition taken (i : nat) (ls : list label) : Z := Z.of_nat (length (filter (λ l, actor l = Some i) ls)).

(** C30: Every call ends. However the callers interleave and whatever fails, a
    call takes at most nine steps and four more for each poll that its polling_left
    time leaves room for - a dozen without polling_left, some sixteen hundred at the
    ten seconds that the client allows; and until it is finished it can take its
    next step, once it has slept as long as it set out to. *)
Theorem cache_calls_end float_repr read_float calls w0 ls w i :
  initial w0 → runs (step float_repr read_float calls) w0 ls w →
  taken i ls ≤ 9 + 4 * polls (wait_of (calls i)) ∧ 9 + 4 * polls (milliseconds MAX_WAIT_MS) = 1609 ∧
  ((∃ r, phases w !! i = Some (Finished r)) ∨
   ∃ ls' w' , (∀ l, l ∈ ls' → actor l = None ∨ actor l = Some i) ∧ taken i ls' = 1 ∧
     runs (step float_repr read_float calls) w ls' w').
Proof.
  intros Hi Hr. split_and!; [|done|].
  - assert (Hc : call_left calls i w + taken i ls ≤ call_left calls i w0).
    { clear Hi. unfold taken. induction Hr as [|w1 l w2 ls w3 Hs _ IH]; [cbn; lia|].
      apply (call_left_step float_repr read_float calls _ _ _ i) in Hs. rewrite filter_cons. case_decide; cbn [length]; lia. }
    assert (0 ≤ call_left calls i w).
    { unfold call_left. destruct (phases w !! i); [apply steps_left_pos|]. unfold total_steps.
      pose proof (polls_nonneg (wait_of (calls i))). lia. }
    unfold call_left at 2 in Hc. unfold initial in Hi. rewrite Hi, lookup_empty in Hc. unfold total_steps in Hc. lia.
  - assert (Hone : ∀ l w', actor l = Some i → step float_repr read_float calls w l w' → ∃ ls' w',
      (∀ l, l ∈ ls' → actor l = None ∨ actor l = Some i) ∧ taken i ls' = 1 ∧ runs (step float_repr read_float calls) w ls' w').
    { intros l w' Hl Hs. exists [l], w'. split_and!; [|by unfold taken; rewrite filter_cons, decide_True|eauto].
      intros l' Hl'. apply list_elem_of_singleton in Hl' as ->. by right. }
    destruct (phases w !! i) as [p|] eqn:Hp; [|right; eapply Hone; [|by apply step_begins]; done].
    assert (Hserve : (∃ a s, execute (calls i) p (redis_now w) (store_ w) = Some (a, s)) → ∃ ls' w',
      (∀ l, l ∈ ls' → actor l = None ∨ actor l = Some i) ∧ taken i ls' = 1 ∧ runs (step float_repr read_float calls) w ls' w').
    { intros (a & s & He). eapply Hone; [|by eapply step_served]. done. }
    destruct p as [k|k|b k| | |how|r|r n|r|r n| |d|u d|r]; try (right; apply Hserve; cbn; by eexists _, _).
    + right. apply Hserve. cbn. destruct (visible _ _ _); by eexists _, _.
    + right. eapply Hone; [|by eapply (step_loads _ _ _ _ _ _ (Ok PNone))]. done.
    + right. apply Hserve. cbn. destruct (bool_decide _); by eexists _, _.
    + right. eapply Hone; [|eapply (step_reads _ _ _ _ _ _ (loop_now w) (loop_now w)); [done|by left|done..]]. done.
    + right. eapply Hone; [|eapply (step_reads _ _ _ _ _ _ (loop_now w) (loop_now w)); [done|right; by eexists|done..]]. done.
    + right. set (w1 := World (store_ w) (redis_now w + 0) (loop_now w + Z.max 0 (u - loop_now w)) (phases w)).
      exists [Passes 0 (Z.max 0 (u - loop_now w)); Wakes i]. eexists. split_and!.
      * intros l' Hl. apply elem_of_cons in Hl as [->|Hl]; [by left|]. apply list_elem_of_singleton in Hl as ->. by right.
      * unfold taken. rewrite !filter_cons. rewrite decide_False by done. by rewrite decide_True.
      * eapply runs_cons; [apply (step_passes _ _ _ w); lia|]. eapply runs_cons; [|apply runs_nil].
        apply (step_wakes _ _ _ w1 i u d); [done|cbn; lia].
    + left. by eexists.
Qed.

Lemma cache_calls_end_witness :
  let ls := [Begins 0; Begins 1; Served 0; Served 1; Served 0; Served 1; Reads 1 0 0; Reads 1 0 0; Passes 0 25000; Wakes 1] in
  let w := played demo_float_text demo_read_float (demo_calls 50) demo_world ls in
  phases w !! 1%nat = Some (GetValue (Polling 50000)) ∧ taken 1 ls = 6 ∧ taken 1 ls ≤ 9 + 4 * 2 ∧
  ∃ ls' w', taken 1 ls' = 1 ∧ runs (step demo_float_text demo_read_float (demo_calls 50)) w ls' w'.
Proof.
  intros ls w. assert (Hw : phases w !! 1%nat = Some (GetValue (Polling 50000))) by (by vm_compute).
  split; [exact Hw|]. split; [by vm_compute|].
  destruct (cache_calls_end demo_float_text demo_read_float (demo_calls 50) demo_world ls w 1) as (Ht & _ & [[r Hr]|(ls' & w' & _ & H1 & H2)]).
  - done.
  - apply played_runs. by vm_compute.
  - congruence.
  - split; [exact Ht|]. by exists ls', w'.
Defined.
