(* ===== verification/Urls.v ===== *)
(** * URLs, forms and base64 of the standard library

    [urllib.parse.urlsplit] with the parts of its result, [urlencode], and the
    URL-safe base64 alphabet; what a URL of a given host looks like, and that a
    form is read back. *)

From S2P Require Import Prelude Regex PyValues CoreTypes AuditTrail AuditSpecs Errors Texts ErrorSpecs Json JsonSpecs.

(** ** Splitting *)

(** [s.rpartition(c)], with no result where there is no separator. *)
Fixpoint rpartition_on (c : N) (s : str) : option (str * str) :=
  match s with
  | [] => None
  | x :: s =>
      match rpartition_on c s with
      | Some (a, b) => Some (x :: a, b)
      | None => if (x =? c)%N then Some ([], s) else None
      end
  end.

(** Up to the first character of [p], and the rest from there. *)
Fixpoint until (p : N → bool) (s : str) : str * str :=
  match s with
  | [] => ([], [])
  | c :: s' => if p c then ([], s) else let '(a, b) := until p s' in (c :: a, b)
  end.

(** [before, sep, after = s.partition(c)]: [before] and [after]. *)
Definition cut (c : N) (s : str) : str * str := default (s, []) (partition_on c s).

Record SplitResult := Split { scheme : str; netloc : str; url_path : str; query : str; fragment : str }.

Definition SCHEME_CHARS : cls := [lower; upper; digit; chr "+"; chr "-"; chr "."].
Definition ascii_letter (c : N) : bool := in_cls [lower; upper] c.
Definition unsafe_url_char (c : N) : bool := (c =? 9)%N || (c =? 10)%N || (c =? 13)%N.
Definition authority_end (c : N) : bool := in_cls [chr "/"; chr "?"; chr "#"] c.

Fixpoint lstrip (p : N → bool) (s : str) : str :=
  match s with c :: s' => if p c then lstrip p s' else s | [] => [] end.

(** Control characters and spaces are stripped in front; tabs and line ends go
    wherever they are. *)
Definition clean_url (url : str) : str :=
  filter (λ c, unsafe_url_char c = false) (lstrip (λ c, (c <=? 32)%N) url).

Definition split_scheme (url : str) : str * str :=
  match partition_on 58 url with
  | Some ((c :: _) as name, rest) =>
      if ascii_letter c && forallb (in_cls SCHEME_CHARS) name then (ascii_lower <$> name, rest) else ([], url)
  | _ => ([], url)
  end.

Section urlsplit.
(** [_checknetloc], for an authority that is not ASCII; [ipaddress.IPv6Address]
    accepts; [str.lower]. *)
Context (nfkc_safe : str → bool) (ipv6_literal : str → bool) (lower_text : str → str).

(** [re.match] of a pattern that ends in [.+\Z], whose dot is no line end. *)
Definition check_bracketed_host (host : str) : res pyexn unit :=
  require (match host with
           | 118%N :: _ =>
               match partition_on 46 host with
               | Some (_ :: (_ :: _) as digits, (_ :: _) as rest) =>
                   forallb (in_cls [rng "a" "f"; rng "A" "F"; digit]) digits && negb (bool_decide (10%N ∈ rest))
               | _ => false
               end
           | _ => ipv6_literal host
           end) (ValueError "invalid address in brackets").

(** The text after the last [@], and the user information before it. *)
Definition host_and_port (netloc : str) : str := match rpartition_on 64 netloc with Some (_, h) => h | None => netloc end.

Definition check_bracketed_netloc (netloc : str) : res pyexn unit :=
  match partition_on 91 (host_and_port netloc) with
  | Some (before, bracketed) =>
      require (bool_decide (before = [])) (ValueError "Invalid IPv6 URL");;
      let '(host, port) := cut 93 bracketed in
      require (match port with [] | 58%N :: _ => true | _ => false end) (ValueError "Invalid IPv6 URL");;
      check_bracketed_host host
  | None => check_bracketed_host (cut 58 (host_and_port netloc)).1
  end.

(** After the two slashes. *)
Definition split_authority (url : str) : res pyexn (str * str) :=
  let '(netloc, url) := until authority_end url in
  require (eqb (bool_decide (91%N ∈ netloc)) (bool_decide (93%N ∈ netloc))) (ValueError "Invalid IPv6 URL");;
  (if bool_decide (91%N ∈ netloc) then check_bracketed_netloc netloc else Ok tt);;
  Ok (netloc, url).

Definition split_netloc (url : str) : res pyexn (str * str) :=
  match url with 47%N :: 47%N :: url => split_authority url | _ => Ok ([], url) end.

Definition urlsplit (url : str) : res pyexn SplitResult :=
  let '(scheme, url) := split_scheme (clean_url url) in
  '(netloc, url) ← split_netloc url;
  let '(url, fragment) := cut 35 url in
  let '(path, query) := cut 63 url in
  require (forallb (λ c, c <? 128)%N netloc || nfkc_safe netloc)
    (ValueError "netloc contains invalid characters under NFKC normalization");;
  Ok (Split scheme netloc path query fragment).

(** [_hostinfo], with no port for an empty one. *)
Definition hostinfo (u : SplitResult) : str * option str :=
  let '(host, port) :=
    match partition_on 91 (host_and_port (netloc u)) with
    | Some (_, bracketed) => let '(host, port) := cut 93 bracketed in (host, (cut 58 port).2)
    | None => cut 58 (host_and_port (netloc u))
    end in
  (host, match port with [] => None | _ => Some port end).

(** A zone keeps its case. *)
Definition lower_host (host : str) : str :=
  match partition_on 37 host with
  | Some (name, zone) => lower_text name ++ 37%N :: zone
  | None => lower_text host
  end.

Definition hostname (u : SplitResult) : option str :=
  match (hostinfo u).1 with [] => None | host => Some (lower_host host) end.

Definition port (u : SplitResult) : res pyexn (option Z) :=
  match (hostinfo u).2 with
  | None => Ok None
  | Some port =>
      require (forallb is_digit port) (ValueError "Port could not be cast to integer value");;
      require (bool_decide (length port ≤ MAX_STR_DIGITS)%nat) digits_error;;
      require (decimal port <=? 65535) (ValueError "Port out of range 0-65535");;
      Ok (Some (decimal port))
  end.

Definition username (u : SplitResult) : option str :=
  '(info, _) ← rpartition_on 64 (netloc u); Some (cut 58 info).1.
Definition password (u : SplitResult) : option str :=
  '(info, _) ← rpartition_on 64 (netloc u); snd <$> partition_on 58 info.
End urlsplit.

(** The truth value of a text that may be missing. *)
Definition truthy (s : option str) : bool := match s with Some (_ :: _) => true | _ => false end.

(** ** Forms and base64 *)

Definition ALWAYS_SAFE : cls := [upper; lower; digit; chr "_"; chr "."; chr "-"; chr "~"].
Definition upper_hex (d : N) : N := if (d <? 10)%N then (48 + d)%N else (55 + d)%N.

(** [quote_plus] of a byte. *)
Definition quote_byte (b : N) : str :=
  if in_cls ALWAYS_SAFE b then [b]
  else if (b =? 32)%N then [43%N]
  else [37%N; upper_hex (b / 16); upper_hex (b mod 16)].

(** UTF-8 is strict: a lone surrogate raises. *)
Definition quote_plus (s : str) : res pyexn str :=
  require (encodable s) (ValueError "surrogates not allowed");; Ok (utf8 s ≫= quote_byte).

Definition urlencode (params : list (str * str)) : res pyexn str :=
  join_on 38 <$> traverse (λ kv, k ← quote_plus kv.1; v ← quote_plus kv.2; Ok (k ++ 61%N :: v)) params.

Definition base64url_char (i : N) : N :=
  if (i <? 26)%N then (65 + i)%N else if (i <? 52)%N then (71 + i)%N else if (i <? 62)%N then (i - 4)%N
  else if (i =? 62)%N then 45%N else 95%N.

(** [urlsafe_b64encode] without its padding. *)
Fixpoint base64url (b : list N) : str :=
  match b with
  | x :: y :: z :: b =>
      base64url_char (x / 4) :: base64url_char (x mod 4 * 16 + y / 16)
        :: base64url_char (y mod 16 * 4 + z / 64) :: base64url_char (z mod 64) :: base64url b
  | [x; y] => [base64url_char (x / 4); base64url_char (x mod 4 * 16 + y / 16); base64url_char (y mod 16 * 4)]
  | [x] => [base64url_char (x / 4); base64url_char (x mod 4 * 16)]
  | [] => []
  end%N.

(** ** Lemmas on splitting *)

Lemma rpartition_on_None c s : rpartition_on c s = None ↔ c ∉ s.
Proof.
  induction s as [|x s IH]; cbn; [split; [intros _; apply not_elem_of_nil|done]|].
  rewrite not_elem_of_cons. destruct (rpartition_on c s) as [[a b]|].
  - split; [done|]. intros [_ Hs]. by apply IH in Hs.
  - destruct (N.eqb_spec x c) as [->|Hx]; [split; [done|naive_solver]|]. split; [intros _|done].
    split; [congruence|by apply IH].
Qed.

Lemma rpartition_on_Some c s a b : rpartition_on c s = Some (a, b) ↔ s = a ++ c :: b ∧ c ∉ b.
Proof.
  revert a b. induction s as [|x s IH]; intros a b; cbn; [split; [done|by intros [? _]; destruct a]|].
  destruct (rpartition_on c s) as [[a' b']|] eqn:Hs.
  - pose proof (proj1 (IH a' b') eq_refl) as [-> Hb]. split.
    + intros [= <- <-]. done.
    + intros [He Hb']. destruct a as [|y a].
      * injection He as -> <-. exfalso. apply Hb', elem_of_app. right. by left.
      * injection He as -> He. symmetry in He. destruct (IH a b) as [_ Hi].
        assert (a' ++ c :: b' = a ++ c :: b ∧ c ∉ b) as Hi'%Hi by done. by injection Hi' as -> ->.
  - apply rpartition_on_None in Hs. destruct (N.eqb_spec x c) as [->|Hx].
    + split; [by intros [= <- <-]|]. intros [He _]. destruct a as [|y a]; [by injection He as ->|].
      injection He as -> He. exfalso. apply Hs. rewrite He. apply elem_of_app. right. by left.
    + split; [done|]. intros [He _]. destruct a as [|y a]; [by injection He|]. injection He as _ ->.
      exfalso. apply Hs, elem_of_app. right. by left.
Qed.

Lemma until_spec p s a b :
  until p s = (a, b) → s = a ++ b ∧ Forall (λ c, p c = false) a ∧ (b = [] ∨ ∃ c r, b = c :: r ∧ p c = true).
Proof.
  revert a b. induction s as [|c s IH]; intros a b; cbn; [intros [= <- <-]; auto|].
  destruct (p c) eqn:Hc; [intros [= <- <-]; split_and!; [done|done|eauto]|].
  destruct (until p s) as [a' b']. intros [= <- <-]. destruct (IH _ _ eq_refl) as (-> & Ha & Hb). auto.
Qed.

Lemma partition_on_None c s : partition_on c s = None ↔ c ∉ s.
Proof.
  induction s as [|x s IH]; cbn; [split; [intros _; apply not_elem_of_nil|done]|].
  rewrite not_elem_of_cons. destruct (N.eqb_spec x c) as [->|Hx]; [split; [done|naive_solver]|].
  destruct (partition_on c s) as [[a b]|]; cbn.
  - split; [done|]. intros [_ Hs]. by apply IH in Hs.
  - split; [intros _|done]. split; [congruence|by apply IH].
Qed.

(** What [partition] gives, with its separator or without. *)
Lemma cut_spec c s a b : cut c s = (a, b) → c ∉ a ∧ (s = a ∧ b = [] ∨ s = a ++ c :: b).
Proof.
  unfold cut. destruct (partition_on c s) as [[a' b']|] eqn:Hp; cbn; intros [= <- <-].
  - apply partition_on_Some in Hp as [-> Ha]. auto.
  - apply partition_on_None in Hp. auto.
Qed.

Lemma split_scheme_spec url name rest :
  split_scheme url = (name, rest) → name ≠ [] → ∃ raw, url = raw ++ 58%N :: rest ∧ ascii_lower <$> raw = name.
Proof.
  unfold split_scheme. destruct (partition_on 58 url) as [[[|c raw] r]|] eqn:Hp; [by intros [= <- <-]| |by intros [= <- <-]].
  case_match; intros [= <- <-]; [|done]. intros _. apply partition_on_Some in Hp as [-> _]. eauto.
Qed.

(** ** The authority of a URL *)

Definition lower_ok (lower_text : str → str) : Prop :=
  (∀ s, Forall (λ c, (c < 128)%N) s → lower_text s = ascii_lower <$> s) ∧
  ∀ c s, (c < 128)%N → ∃ t, lower_text (c :: s) = ascii_lower c :: t.
(** An IPv6 address without a zone is ASCII and has a colon in it. *)
Definition ipv6_ok (ipv6_literal : str → bool) : Prop :=
  ∀ s, ipv6_literal s = true → 37%N ∉ s → Forall (λ c, (c < 128)%N) s ∧ 58%N ∈ s.

Section authority.
Context (nfkc_safe ipv6_literal : str → bool) (lower_text : str → str).
Context (Hlower : lower_ok lower_text) (Hipv6 : ipv6_ok ipv6_literal).
#[local] Abbreviation split_url := (urlsplit nfkc_safe ipv6_literal).

Lemma urlsplit_Ok url u :
  split_url url = Ok u → scheme u ≠ [] → netloc u ≠ [] →
  (∃ raw rest, clean_url url = raw ++ lit "://" ++ netloc u ++ rest ∧ ascii_lower <$> raw = scheme u ∧
     (rest = [] ∨ ∃ c r, rest = c :: r ∧ authority_end c = true)) ∧
  (91%N ∈ netloc u → check_bracketed_netloc ipv6_literal (netloc u) = Ok tt).
Proof using Type.
  unfold urlsplit. destruct (split_scheme (clean_url url)) as [name rest] eqn:Hs. intros Hu. res_inv.
  destruct x as [net tail]. destruct (cut 35 tail) as [tail' frag], (cut 63 tail') as [path q]. res_inv. injection Hu as <-.
  cbn [scheme netloc]. intros Hname Hnet. apply split_scheme_spec in Hs as (raw & -> & Hraw); [|done].
  assert (Hsl : ∃ r, rest = 47%N :: 47%N :: r).
  { unfold split_netloc in Hx. clear -Hx Hnet. repeat case_match; try (injection Hx as <- <-; done); subst; eauto. }
  destruct Hsl as [r ->]. unfold split_netloc, split_authority in Hx. destruct (until authority_end r) as [net' url'] eqn:Hut.
  apply until_spec in Hut as (-> & _ & Hr). res_inv. injection Hx as -> ->. split.
  - exists raw, tail. split_and!; [reflexivity|done|done].
  - intros Hin. rewrite bool_decide_eq_true_2 in Hx2 by done. by destruct x1.
Qed.

(** A host that is a plain name: no address, no zone. *)
Definition plain_host (h : str) : Prop := 58%N ∉ h ∧ 37%N ∉ h ∧ ∀ t, h ≠ 118%N :: t.

Lemma lower_host_plain host :
  plain_host (lower_host lower_text host) → 37%N ∉ host ∧ lower_host lower_text host = lower_text host.
Proof using Type.
  unfold lower_host. destruct (partition_on 37 host) as [[n z]|] eqn:Hz.
  - intros (_ & Hper & _). exfalso. apply Hper, elem_of_app. right. by left.
  - apply partition_on_None in Hz. done.
Qed.

(** In brackets there are only addresses. *)
Lemma bracketed_not_plain host :
  check_bracketed_host ipv6_literal host = Ok tt → 37%N ∉ host → ¬ plain_host (lower_text host).
Proof using Hlower Hipv6.
  destruct Hlower as [Hall Hhead]. unfold check_bracketed_host. intros Hc Hz (Hcol & _ & Hv). res_inv.
  assert (Hcase : (∃ t, host = 118%N :: t) ∨ ipv6_literal host = true).
  { repeat case_match; try (by right); left; eauto. }
  destruct Hcase as [[t ->]|Hip].
  - destruct (Hhead 118%N t ltac:(lia)) as [t' Ht]. by apply (Hv t').
  - destruct (Hipv6 _ Hip Hz) as [Ha Hin]. apply Hcol. rewrite (Hall _ Ha). by apply (list_elem_of_fmap_2 ascii_lower _ 58%N).
Qed.

Lemma host_and_port_spec net :
  (64%N ∉ net ∧ host_and_port net = net ∧ rpartition_on 64 net = None) ∨
  ∃ info, net = info ++ 64%N :: host_and_port net ∧ rpartition_on 64 net = Some (info, host_and_port net).
Proof using Type.
  unfold host_and_port. destruct (rpartition_on 64 net) as [[info h]|] eqn:Hr.
  - right. pose proof Hr as [? _]%rpartition_on_Some. eauto.
  - left. by apply rpartition_on_None in Hr as ?.
Qed.

Lemma no_credentials u :
  truthy (username u) = false → truthy (password u) = false →
  ∃ info, netloc u = info ++ host_and_port (netloc u) ∧ info ∈ [[]; lit "@"; lit ":@"].
Proof using Type.
  unfold username, password. intros Hu Hp.
  destruct (host_and_port_spec (netloc u)) as [(_ & -> & _)|(info & Hn & Hr)]; [by exists []; repeat constructor|].
  rewrite Hr in Hu, Hp. cbn in Hu, Hp. exists (info ++ [64%N]). split; [by rewrite <-app_assoc|].
  destruct (cut 58 info) as [a b] eqn:Hc. pose proof Hc as [Ha Hs]%cut_spec. cbn in Hu.
  destruct a; [|done]. destruct Hs as [ [-> ->] | -> ]; [right; left|]. cbn in Hp. destruct b; [|done]. right. right. left.
Qed.

Lemma authority_shape url u h p :
  split_url url = Ok u → scheme u ≠ [] → hostname lower_text u = Some h → plain_host h →
  truthy (username u) = false → truthy (password u) = false → port u = Ok p →
  ∃ info host ps, netloc u = info ++ host ++ ps ∧ info ∈ [[]; lit "@"; lit ":@"] ∧ lower_text host = h ∧
    (p = None ∧ ps ∈ [[]; lit ":"] ∨
     ∃ ds, ps = 58%N :: ds ∧ ds ≠ [] ∧ forallb is_digit ds = true ∧ p = Some (decimal ds)).
Proof using Hlower Hipv6.
  intros Hs Hsch Hh Hplain Hu Hp Hport.
  destruct (no_credentials _ Hu Hp) as (info & Hnet & Hinfo).
  assert (Hne : netloc u ≠ []).
  { intros Hn. unfold hostname, hostinfo in Hh. by rewrite Hn in Hh. }
  apply urlsplit_Ok in Hs as [_ Hbr]; [|done..].
  unfold hostname, port, hostinfo in *. destruct (partition_on 91 (host_and_port (netloc u))) as [[before br]|] eqn:Hpart.
  - exfalso. assert (Hin : 91%N ∈ netloc u).
    { rewrite Hnet. apply partition_on_Some in Hpart as [-> _]. rewrite !elem_of_app. right. right. by left. }
    specialize (Hbr Hin). unfold check_bracketed_netloc in Hbr. rewrite Hpart in Hbr. destruct (cut 93 br) as [host rest]. cbn in Hh.
    res_inv. destruct host as [|c host]; [done|]. cbn in Hh.
    injection Hh as <-. destruct (lower_host_plain _ Hplain) as [Hz He]. rewrite He in Hplain.
    by eapply bracketed_not_plain.
  - destruct (cut 58 (host_and_port (netloc u))) as [host ps] eqn:Hc. apply cut_spec in Hc as [Hnc Hsh]. cbn in Hh, Hport.
    destruct host as [|c host]; [done|].
    injection Hh as <-. destruct (lower_host_plain _ Hplain) as [_ He]. symmetry in He.
    destruct ps as [|d ps].
    + injection Hport as <-. destruct Hsh as [[Hsh _]|Hsh].
      * exists info, (c :: host), []. split_and!; [by rewrite Hnet, Hsh, <-(app_nil_r (c :: host)) at 1|done|done|]. left. split; [done|by left].
      * exists info, (c :: host), (lit ":"). split_and!; [by rewrite Hnet, Hsh at 1|done|done|]. left. split; [done|by repeat constructor].
    + destruct Hsh as [[_ ?]|Hsh]; [done|]. cbn [hostinfo] in Hport. res_inv. injection Hport as <-.
      exists info, (c :: host), (58%N :: d :: ps). split_and!; [by rewrite Hnet, Hsh at 1|done|done|]. right. exists (d :: ps). done.
Qed.
End authority.

(** ** Forms are read back *)

Definition hex_of (c : N) : option N :=
  if ((48 <=? c) && (c <=? 57))%N then Some (c - 48)%N
  else if ((65 <=? c) && (c <=? 70))%N then Some (c - 55)%N else None.

(** What the receiver of a form does: [parse_qsl] without its options. *)
Fixpoint unquote_plus (s : str) : option (list N) :=
  match s with
  | [] => Some []
  | c :: r =>
      if (c =? 43)%N then cons 32%N <$> unquote_plus r
      else if (c =? 37)%N then
        match r with
        | h :: l :: r => h ← hex_of h; l ← hex_of l; cons (h * 16 + l)%N <$> unquote_plus r
        | _ => None
        end
      else cons c <$> unquote_plus r
  end.

Definition form_pair (s : str) : option (str * str) :=
  '(k, v) ← partition_on 61 s; k ← unquote_plus k; v ← unquote_plus v;
  k ← utf8_decode k; v ← utf8_decode v; Some (k, v).
Definition form_decode (q : str) : option (list (str * str)) := mapM form_pair (split_on 38 q).

(** A decidable property of bytes is checked on all of them. *)
Lemma byte_forall (f : N → bool) :
  forallb f (N.of_nat <$> List.seq 0 256) = true → ∀ b, (b < 256)%N → f b = true.
Proof.
  rewrite forallb_forall. intros Hf b Hb. apply Hf, list_elem_of_In, list_elem_of_fmap.
  exists (N.to_nat b). split; [lia|]. apply elem_of_seq. lia.
Qed.

(** The characters of a quoted text. *)
Definition quoted_char (c : N) : bool := in_cls (chr "%" :: chr "+" :: ALWAYS_SAFE) c.

Lemma quote_byte_chars b : (b < 256)%N → Forall (λ c, quoted_char c = true) (quote_byte b).
Proof.
  intros Hb. assert (Hf : forallb quoted_char (quote_byte b) = true) by (revert b Hb; apply byte_forall; by vm_compute).
  apply Forall_forall. intros c Hc. rewrite forallb_forall in Hf. by apply Hf, list_elem_of_In.
Qed.

Lemma unquote_quote_byte b r : (b < 256)%N → unquote_plus (quote_byte b ++ r) = cons b <$> unquote_plus r.
Proof.
  intros Hb. unfold quote_byte. destruct (in_cls ALWAYS_SAFE b) eqn:Hs.
  { assert (Hn : negb (in_cls ALWAYS_SAFE b) || negb ((b =? 43)%N || (b =? 37)%N) = true)
      by (clear Hs; revert b Hb; apply byte_forall; by vm_compute).
    rewrite Hs in Hn. apply negb_true_iff, orb_false_iff in Hn as [H1 H2]. cbn. by rewrite H1, H2. }
  destruct (N.eqb_spec b 32) as [->|_]; [done|]. cbn [app unquote_plus].
  change (37 =? 43)%N with false. change (37 =? 37)%N with true. cbn [app].
  assert (Hx : bool_decide (hex_of (upper_hex (b / 16)) = Some (b / 16)%N ∧ hex_of (upper_hex (b mod 16)) = Some (b mod 16)%N) = true)
    by (clear Hs; revert b Hb; apply byte_forall; by vm_compute).
  apply bool_decide_eq_true in Hx as [-> ->]. cbn. f_equal. f_equal. pose proof (N.div_mod b 16). lia.
Qed.

Lemma utf8_bytes s : unicode s → Forall (λ b, (b < 256)%N) (utf8 s).
Proof.
  induction 1 as [|c s Hc _ IH]; [constructor|]. change (utf8 (c :: s)) with (utf8_char c ++ utf8 s).
  apply Forall_app. split; [|done]. unfold utf8_char.
  assert (Hm : ∀ x, (x mod 64 < 64)%N) by (intros x; by apply N.mod_lt).
  change (c / 64 ^ 1)%N with (c / 64)%N. change (64 ^ 2)%N with 4096%N. change (64 ^ 3)%N with 262144%N.
  pose proof (Hm c). pose proof (Hm (c / 64)%N). pose proof (Hm (c / 4096)%N). pose proof (Hm (c / 64 ^ 0)%N).
  destruct (N.ltb_spec c 128), (N.ltb_spec c 2048), (N.ltb_spec c 65536);
    repeat (apply Forall_cons_2 || apply Forall_nil_2); try lia.
  - pose proof (N.Div0.div_lt_upper_bound c 64 32). lia.
  - pose proof (N.Div0.div_lt_upper_bound c 4096 16). lia.
  - pose proof (N.Div0.div_lt_upper_bound c 262144 8). lia.
Qed.

Lemma quote_plus_back s q : quote_plus s = Ok q → unicode s →
  Forall (λ c, quoted_char c = true) q ∧ (b ← unquote_plus q; utf8_decode b) = Some s.
Proof.
  unfold quote_plus. intros Hq Hs. res_inv. injection Hq as <-.
  enough (Hb : ∀ b, Forall (λ b, (b < 256)%N) b → Forall (λ c, quoted_char c = true) (b ≫= quote_byte) ∧ unquote_plus (b ≫= quote_byte) = Some b).
  { destruct (Hb (utf8 s) (utf8_bytes s Hs)) as [Hc ->]. split; [done|]. by apply utf8_decode_utf8. }
  induction 1 as [|y b Hy _ [IH1 IH2]]; [by split|]. cbn. split; [apply Forall_app; split; [by apply quote_byte_chars|done]|].
  by rewrite unquote_quote_byte, IH2.
Qed.

(** Whoever decodes the form gets the parameters. *)
Lemma form_roundtrip params q :
  urlencode params = Ok q → params ≠ [] → Forall (λ kv, unicode kv.1 ∧ unicode kv.2) params → form_decode q = Some params.
Proof.
  unfold urlencode. intros Hq Hne Hu. destruct (traverse _ params) as [ps|] eqn:Ht; [|done]. injection Hq as <-.
  apply traverse_Forall2 in Ht.
  assert (Hfree : ∀ c q, Forall (λ c, quoted_char c = true) q → quoted_char c = false → c ∉ q).
  { intros c q Hf Hc Hin. rewrite Forall_forall in Hf. by rewrite (Hf _ Hin) in Hc. }
  assert (Hp : Forall (λ p, 38%N ∉ p) ps ∧ mapM form_pair ps = Some params ∧ ps ≠ []).
  { destruct params as [|kv params]; [done|]. clear Hne. remember (kv :: params) as kvs eqn:Hk. split_and!.
    3: { subst. by inversion Ht. }
    all: clear kv params Hk; induction Ht as [|[k v] p kvs ps Hkv _ IH]; [by constructor|];
      apply Forall_cons in Hu as [[Hk Hv] Hu]; specialize (IH Hu); cbn in Hkv, Hk, Hv; res_inv; injection Hkv as <-;
      destruct (quote_plus_back _ _ Hx Hk) as [Hck Hbk], (quote_plus_back _ _ Hx0 Hv) as [Hcv Hbv].
    - constructor; [|done]. apply not_elem_of_app. split; [by apply Hfree|]. apply not_elem_of_cons. split; [done|by apply Hfree].
    - assert (Hfp : form_pair (x ++ 61%N :: x0) = Some (k, v)).
      { unfold form_pair. rewrite (proj2 (partition_on_Some 61 _ x x0)) by (split; [done|by apply Hfree]). cbn.
        destruct (unquote_plus x) as [bk|]; [|done]. destruct (unquote_plus x0) as [bv|]; [|done]. cbn in *. by rewrite Hbk, Hbv. }
      change ((y ← form_pair (x ++ 61%N :: x0); ys ← mapM form_pair ps; Some (y :: ys)) = Some ((k, v) :: kvs)).
      by rewrite Hfp, IH. }
  destruct Hp as (Hf & Hm & Hne'). unfold form_decode. by rewrite split_join.
Qed.

(** ** Base64 is injective *)

Definition base64url_value (c : N) : N :=
  if (c =? 45)%N then 62%N else if (c =? 95)%N then 63%N
  else if (c <? 58)%N then (c + 4)%N else if (c <? 91)%N then (c - 65)%N else (c - 71)%N.

Lemma base64url_char_inj i j : (i < 64)%N → (j < 64)%N → base64url_char i = base64url_char j → i = j.
Proof.
  intros Hi Hj He.
  assert (Hv : ∀ k, (k < 256)%N → bool_decide ((k < 64)%N → base64url_value (base64url_char k) = k) = true)
    by (apply byte_forall; by vm_compute).
  assert (Hk : ∀ k, (k < 64)%N → base64url_value (base64url_char k) = k).
  { intros k Hk. specialize (Hv k ltac:(lia)). apply bool_decide_eq_true in Hv. auto. }
  rewrite <-(Hk i), <-(Hk j) by done. by f_equal.
Qed.

(** A byte in two parts, which replace the quotients and remainders of [H]. *)
Lemma byte_parts d x : d ≠ 0%N → ∃ q r, (x / d = q ∧ x mod d = r ∧ x = d * q + r ∧ r < d)%N.
Proof. intros Hd. exists (x / d)%N, (x mod d)%N. split_and!; [done..|by apply N.div_mod|by apply N.mod_lt]. Qed.

Ltac parts d x H :=
  let Hq := fresh in let Hr := fresh in
  destruct (byte_parts d x ltac:(done)) as (?q & ?r & Hq & Hr & ? & ?); rewrite ?Hq, ?Hr in H; clear Hq Hr.
Ltac sixbits H := apply base64url_char_inj in H; [|lia..].

Lemma base64url_inj b b' :
  Forall (λ x, (x < 256)%N) b → Forall (λ x, (x < 256)%N) b' → base64url b = base64url b' → b = b'.
Proof.
  revert b b'. fix IH 1. intros b b' Hb Hb' He.
  destruct b as [|x [|y [|z b]]], b' as [|x' [|y' [|z' b']]]; cbn in He; try done; try discriminate;
    repeat match goal with H : Forall _ (_ :: _) |- _ => apply Forall_cons in H as [? H] end;
    parts 4%N x He; parts 4%N x' He.
  - injection He as E1 E2. sixbits E1. sixbits E2. f_equal. lia.
  - parts 16%N y He. parts 16%N y' He. injection He as E1 E2 E3. sixbits E1. sixbits E2. sixbits E3. f_equal; [lia|]. f_equal. lia.
  - parts 16%N y He. parts 16%N y' He. parts 64%N z He. parts 64%N z' He. injection He as E1 E2 E3 E4 E5.
    sixbits E1. sixbits E2. sixbits E3. sixbits E4.
    f_equal; [lia|]. f_equal; [lia|]. f_equal; [lia|]. by apply IH.
Qed.
