(* ===== verification/OidcProvider.v ===== *)
(** * The adapter of an identity provider (auth/oidc/providers.py, auth/oidc/settings.py)

    Pinned endpoints, the cached discovery documents, the authorization URL and
    the exchange of a code for the verified claims of an ID token. *)

From S2P Require Import Prelude Regex PyValues CoreTypes AuditTrail AuditSpecs Events Outbox Errors Texts ErrorSpecs Identity Sessions Passwords AuthEvents Challenges Administration AuthService ExternalSignIn Json JsonSpecs Urls.

Definition ISSUERS (p : ProviderName) : str :=
  match p with GOOGLE => lit "https://accounts.google.com" | YAHOO => lit "https://api.login.yahoo.com" end.
Definition ALLOWED_HOSTS (p : ProviderName) : list str :=
  match p with
  | GOOGLE => [lit "accounts.google.com"; lit "oauth2.googleapis.com"; lit "www.googleapis.com"]
  | YAHOO => [lit "api.login.yahoo.com"]
  end.
Definition DOCUMENT_LIMIT : Z := 262144.
Definition TOKEN_RESPONSE_LIMIT : Z := 65536.
Definition ID_TOKEN_LIMIT : Z := 32768.

Record ProviderConfig := NewProviderConfig {
  enabled : bool;
  client_id : str;
  client_secret : str;
  config_redirect_uri : str;
  pkce_verified : bool }.

Record OidcSettings := NewOidcSettings {
  google : ProviderConfig;
  yahoo : ProviderConfig;
  attempt_seconds : Z;
  http_timeout_seconds : pyfloat }.

Definition config_of (settings : OidcSettings) (p : ProviderName) : ProviderConfig :=
  match p with GOOGLE => google settings | YAHOO => yahoo settings end.

(** A decoded JSON object. *)
Abbreviation doc := (list (pyval * pyval)).

(** The exceptions of httpx and of joserfc, and Python's own. *)
Inductive oidc_error := HTTPError | JoseError | Python (e : pyexn).

(** What the registry of claims is asked to check, besides that [exp], [iat] and
    [sub] are there. *)
Record Requested := Request { leeway : Z; want_iss : str; want_aud : str; want_nonce : str }.

(** The request of the token endpoint. *)
Record TokenRequest := NewTokenRequest {
  endpoint : str;
  basic_auth : str * str;
  form : list (str * str) }.

Definition strip_python {A} (r : res pyexn A) : res oidc_error A :=
  match r with Ok a => Ok a | Err e => Err (Python e) end.

(** The [except] clauses of the adapter. *)
Definition caught (e : oidc_error) : bool :=
  match e with
  | HTTPError | JoseError => true
  | Python (ValueError _ | TypeError _ | KeyError) => true
  | Python _ => false
  end.

(** ** Comparisons with a clock *)

(** [v > t] and [v < t] for a number of seconds and a reading of the clock. *)
Definition later_than (v : pyval) (t : datetime) : bool :=
  match v with
  | PInt z => t <? seconds z
  | PFloat (FFin m e) => if 0 <=? e then t <? seconds (m * 2 ^ e) else t * 2 ^ (- e) <? seconds m
  | PFloat (FInf negative) => negb negative
  | _ => false
  end.
Definition earlier_than (v : pyval) (t : datetime) : bool :=
  match v with
  | PInt z => seconds z <? t
  | PFloat (FFin m e) => if 0 <=? e then seconds (m * 2 ^ e) <? t else seconds m <? t * 2 ^ (- e)
  | PFloat (FInf negative) => negative
  | _ => false
  end.

Definition is_number (v : pyval) : bool := match v with PInt _ | PFloat _ => true | _ => false end.

(** [gt=0, le=k] of a float field; whether NaN, which the field allows, passes
    these comparisons is up to pydantic. *)
Definition positive_at_most (nan_passes : bool) (k : Z) (f : pyfloat) : bool :=
  match f with
  | FNan => nan_passes
  | FInf _ => false
  | FFin m _ => (0 <? m) && float_between_0 k f
  end.

(** ** The adapter *)

(** The adapter: each URL with the time its document expires. *)
Abbreviation document_cache := (gmap str (datetime * doc)).
Definition Adapter (T : Type) : Type := document_cache → res oidc_error T * document_cache.

#[export] Instance Adapter_ret : MRet Adapter := λ T a s, (Ok a, s).
#[export] Instance Adapter_bind : MBind Adapter := λ T U f m s,
  match m s with (Ok a, s) => f a s | (Err e, s) => (Err e, s) end.

Definition attempted {T} (r : res oidc_error T) : Adapter T := λ s, (r, s).
Definition python {T} (r : res pyexn T) : Adapter T := attempted (strip_python r).

Section provider.
Context (nfkc_safe ipv6_literal : str → bool) (lower_text : str → str).
#[local] Abbreviation urlsplit := (urlsplit nfkc_safe ipv6_literal).
#[local] Abbreviation hostname := (hostname lower_text).

(** ** Settings *)

(** [ProviderConfig.validate_enabled]. *)
Definition validate_enabled (c : ProviderConfig) : res pyexn ProviderConfig :=
  if enabled c then
    uri ← urlsplit (config_redirect_uri c);
    require (negb (bool_decide (client_id c = []) || bool_decide (client_secret c = [])
                   || negb (bool_decide (scheme uri = lit "https")) || negb (truthy (hostname uri))
                   || negb (bool_decide (query uri = [])) || negb (bool_decide (fragment uri = []))
                   || truthy (username uri) || truthy (password uri)))
      (ValueError "enabled providers require credentials and exact HTTPS callback");;
    Ok c
  else Ok c.

(** The bounds of the fields, and [OidcSettings.yahoo_gate]. *)
Definition oidc_settings (nan_passes : bool) (google yahoo : ProviderConfig) (attempt_seconds : Z) (http_timeout : pyfloat)
    : res pyexn OidcSettings :=
  google ← validate_enabled google;
  yahoo ← validate_enabled yahoo;
  require ((120 <=? attempt_seconds) && (attempt_seconds <=? 900)) (ValueError "attempt_seconds");;
  require (positive_at_most nan_passes 15 http_timeout) (ValueError "http_timeout_seconds");;
  require (negb (enabled yahoo && negb (pkce_verified yahoo)))
    (ValueError "verify Yahoo S256 enforcement in the sandbox before enabling it");;
  Ok (NewOidcSettings google yahoo attempt_seconds http_timeout).

(** ** Endpoints *)

Definition safe_url (p : ProviderName) (value : option pyval) : res pyexn str :=
  match value with
  | Some (PStr value) =>
      url ← urlsplit value;
      require (negb (negb (bool_decide (scheme url = lit "https"))
                     || negb (bool_decide (hostname url ∈ Some <$> ALLOWED_HOSTS p))
                     || truthy (username url) || truthy (password url) || negb (bool_decide (fragment url = []))))
        (ValueError "untrusted provider endpoint");;
      port ← port url;
      require (bool_decide (port ∈ [None; Some 443])) (ValueError "untrusted provider endpoint");;
      Ok value
  | _ => Err (ValueError "missing provider endpoint")
  end.

(** ** Documents *)

Context (sha256 : list N → list N) (read_float : str → pyfloat).
(** [jwt.decode] with the keys of a document, and [JWTClaimsRegistry.validate]. *)
Context (decode_token : str → doc → res oidc_error doc) (registry : Requested → doc → bool).
(** The network: a GET and the POST of a code, each with [raise_for_status]. *)
Context (http_get : str → res oidc_error (list N)) (http_post : TokenRequest → res oidc_error (list N)).
(** [time.monotonic] and [time.time], by the readings of a call. *)
Context (mono : nat → datetime) (wall : nat → datetime).

Definition json_object (msg : string) (body : list N) : res pyexn doc :=
  value ← loads_bytes read_float body;
  match value with
  | PDict kvs => require (forallb (λ kv, match kv.1 with PStr _ => true | _ => false end) kvs) (ValueError msg);; Ok kvs
  | _ => Err (ValueError msg)
  end.

(** [k] counts the readings of the clock. *)
Definition fetch_document (k : nat) (url : str) : Adapter doc := λ s,
  match (body ← http_get url;
         strip_python
           (require (Z.of_nat (length body) <=? DOCUMENT_LIMIT) (ValueError "provider document too large");;
            json_object "invalid provider document" body)) with
  | Ok d => (Ok d, <[url := (mono (S k) + seconds 300, d)]> s)
  | Err e => (Err e, s)
  end.

Definition cached_document (k : nat) (url : str) : Adapter doc := λ s,
  match s !! url with
  | Some (expires, d) => if mono k <? expires then (Ok d, s) else fetch_document k url s
  | None => fetch_document k url s
  end.

Definition provider_document (p : ProviderName) (k : nat) (url : str) : Adapter doc :=
  python (safe_url p (Some (PStr url)));; cached_document k url.

Definition discovery_url (p : ProviderName) : str := ISSUERS p ++ lit "/.well-known/openid-configuration".

Definition as_texts (v : pyval) : option (list str) :=
  match v with PList l => mapM as_str l | _ => None end.

(** The issuer and the code challenge methods of discovery metadata. *)
Definition check_metadata (p : ProviderName) (config : ProviderConfig) (value : doc) : res pyexn doc :=
  require (bool_decide ((v ← item "issuer" value; as_str v) = Some (ISSUERS p))) (ValueError "issuer mismatch");;
  require (match as_texts (default (PList []) (item "code_challenge_methods_supported" value)) with
           | Some supported => bool_decide (lit "S256" ∈ supported) || pkce_verified config
           | None => false
           end) (ValueError "S256 support is not established");;
  Ok value.

Definition discovery (p : ProviderName) (config : ProviderConfig) : Adapter doc :=
  value ← provider_document p 0 (discovery_url p);
  python (check_metadata p config value).

(** The [except] clauses at the end of both methods. *)
Definition or_failed {T} (m : Adapter T) (s : document_cache) : (T + (error_class + oidc_error)) * document_cache :=
  match m s with
  | (Ok a, s) => (inl a, s)
  | (Err e, s) => (inr (if caught e then inl ExternalLoginFailedError else inr e), s)
  end.

(** ** The authorization URL *)

(** [verifier.encode("ascii")] refuses what is not ASCII. *)
Definition challenge (verifier : str) : res pyexn str :=
  require (forallb (λ c, c <? 128)%N verifier) (ValueError "ordinal not in range(128)");;
  Ok (base64url (sha256 verifier)).

Definition authorization_params (config : ProviderConfig) (state : str) (attempt : Attempt) (challenge : str)
    : list (str * str) :=
  [(lit "client_id", client_id config); (lit "redirect_uri", redirect_uri attempt);
   (lit "response_type", lit "code"); (lit "scope", lit "openid email profile");
   (lit "state", state); (lit "nonce", nonce attempt);
   (lit "code_challenge_method", lit "S256"); (lit "code_challenge", challenge)]
  ++ (if bool_decide (intent attempt = REAUTHENTICATE) then [(lit "max_age", lit "0")] else []).

Definition build_authorization_url (p : ProviderName) (config : ProviderConfig) (state : str) (attempt : Attempt)
    : Adapter str :=
  metadata ← discovery p config;
  challenge ← python (challenge (verifier attempt));
  url ← python (safe_url p (item "authorization_endpoint" metadata));
  query ← python (urlencode (authorization_params config state attempt challenge));
  mret (url ++ 63%N :: query).
Definition authorization_url p config state attempt := or_failed (build_authorization_url p config state attempt).

(** ** The exchange *)

Definition token_form (code : str) (attempt : Attempt) : list (str * str) :=
  [(lit "grant_type", lit "authorization_code"); (lit "code", code);
   (lit "redirect_uri", redirect_uri attempt); (lit "code_verifier", verifier attempt)].

(** The [id_token] of the response to a code. *)
Definition request_token (p : ProviderName) (config : ProviderConfig) (code : str) (attempt : Attempt) (metadata : doc)
    : res oidc_error str :=
  url ← strip_python (safe_url p (item "token_endpoint" metadata));
  content ← http_post (NewTokenRequest url (client_id config, client_secret config) (token_form code attempt));
  strip_python
    (require (Z.of_nat (length content) <=? TOKEN_RESPONSE_LIMIT) (ValueError "token response too large");;
     token ← json_object "invalid token response" content;
     match item "id_token" token with
     | Some (PStr encoded) =>
         require (Z.of_nat (length encoded) <=? ID_TOKEN_LIMIT) (ValueError "missing ID token");; Ok encoded
     | _ => Err (ValueError "missing ID token")
     end).

(** [claims["name"]]. *)
Definition claim_of (name : string) (claims : doc) : res pyexn pyval :=
  match item name claims with Some v => Ok v | None => Err KeyError end.

Definition check_audience (client_id : str) (claims : doc) : res pyexn unit :=
  audiences ← claim_of "aud" claims;
  require (match audiences with PStr _ => true | v => bool_decide (is_Some (as_texts v)) end) (ValueError "invalid audience");;
  require (negb ((match audiences with PList l => (1 <? length l)%nat | _ => false end
                  || bool_decide (is_Some (item "azp" claims)))
                 && negb (bool_decide ((v ← item "azp" claims; as_str v) = Some client_id))))
    (ValueError "authorized party mismatch").

Definition check_issued (attempt : Attempt) (now : datetime) (claims : doc) : res pyexn unit :=
  issued ← claim_of "iat" claims;
  require (is_number issued && negb (later_than issued (now + seconds 30))
           && negb (earlier_than issued (seconds (started_at attempt - 60))))
    (ValueError "issued-at outside this handshake").

Definition check_subject (claims : doc) : res pyexn str :=
  subject ← claim_of "sub" claims;
  match subject with
  | PStr s => require ((1 <=? length s) && (length s <=? 255))%nat (ValueError "invalid subject");; Ok s
  | _ => Err (ValueError "invalid subject")
  end.

Definition check_fresh (attempt : Attempt) (now : datetime) (claims : doc) : res pyexn unit :=
  require (negb (bool_decide (intent attempt = REAUTHENTICATE))
           || match item "auth_time" claims with
              | Some (PInt t) => negb (t <? started_at attempt - 30) && negb (now + seconds 30 <? seconds t)
              | _ => false
              end) (ValueError "fresh provider authentication was not established").

(** From the claims of a token whose signature is good. *)
Definition verified_identity (p : ProviderName) (config : ProviderConfig) (attempt : Attempt) (claims : doc)
    : res oidc_error Claims :=
  require (registry (Request 30 (ISSUERS p) (client_id config) (nonce attempt)) claims) JoseError;;
  strip_python
    (check_audience (client_id config) claims;;
     check_issued attempt (wall 0%nat) claims;;
     subject ← check_subject claims;
     check_fresh attempt (wall 1%nat) claims;;
     Ok (Identity p subject
           (v ← item "email" claims; as_str v)
           (match item "email_verified" claims with Some (PBool b) => b | _ => false end)
           (match item "auth_time" claims with Some (PInt t) => Some t | _ => None end))).

Definition exchange_code (p : ProviderName) (config : ProviderConfig) (code : str) (attempt : Attempt) : Adapter Claims :=
  metadata ← discovery p config;
  encoded ← attempted (request_token p config code attempt metadata);
  url ← python (safe_url p (item "jwks_uri" metadata));
  keys ← provider_document p 2 url;
  claims ← attempted (decode_token encoded keys);
  attempted (verified_identity p config attempt claims).
Definition exchange p config code attempt := or_failed (exchange_code p config code attempt).
End provider.
