(* ===== verification/OidcSpecs.v ===== *)
(** * What the adapter of an identity provider guarantees

    Endpoints are on the provider's own hosts; an identity stands on a token
    that was signed for this client, this handshake and this browser; and the
    authorization URL carries what the provider needs for it. *)

From S2P Require Import Prelude Regex PyValues CoreTypes AuditTrail AuditSpecs Events Outbox Errors Texts ErrorSpecs Identity Sessions Passwords AuthEvents Challenges Administration AuthService ExternalSignIn Json JsonSpecs Urls OidcProvider.

(** ** Endpoints *)

Lemma allowed_hosts_plain p h : h ∈ ALLOWED_HOSTS p → plain_host h.
Proof.
  intros Hh. assert (Hb : forallb (λ h, bool_decide (58%N ∉ h) && bool_decide (37%N ∉ h) && negb (bool_decide (head h = Some 118%N)))
    (ALLOWED_HOSTS p) = true) by (by destruct p; vm_compute).
  rewrite forallb_forall in Hb. apply list_elem_of_In in Hh. specialize (Hb _ Hh). bool_inv.
  split_and!; [done..|]. by intros t ->.
Qed.

(** An endpoint that is accepted is HTTPS on one of the provider's own hosts,
    at the default port, without credentials and without a fragment - whatever
    the metadata says, and however the URL is spelled. *)
Theorem safe_url_pinned nfkc_safe ipv6_literal lower_text p value url :
  lower_ok lower_text → ipv6_ok ipv6_literal →
  safe_url nfkc_safe ipv6_literal lower_text p value = Ok url →
  value = Some (PStr url) ∧
  ∃ name info host ps rest, clean_url url = name ++ lit "://" ++ info ++ host ++ ps ++ rest ∧
    ascii_lower <$> name = lit "https" ∧ info ∈ [[]; lit "@"; lit ":@"] ∧ lower_text host ∈ ALLOWED_HOSTS p ∧
    (ps ∈ [[]; lit ":"] ∨ ∃ ds, ps = 58%N :: ds ∧ forallb is_digit ds = true ∧ decimal ds = 443) ∧
    (rest = [] ∨ ∃ c r, rest = c :: r ∧ authority_end c = true).
Proof.
  intros Hl Hi Hs. unfold safe_url in Hs. destruct value as [[]|]; try done. res_inv. injection Hs as ->. bool_inv.
  split; [done|]. rename x into u.
  match goal with H : scheme u = _ |- _ => rename H into Hsch end. assert (Hne : scheme u ≠ []) by by rewrite Hsch.
  match goal with H : hostname _ _ ∈ _ |- _ => apply list_elem_of_fmap in H as (h & Hh & Hin) end.
  destruct (authority_shape _ _ _ Hl Hi _ _ _ _ Hx Hne Hh (allowed_hosts_plain _ _ Hin) ltac:(done) ltac:(done) Hx1)
    as (info & host & ps & Hnet & Hinfo & Hhost & Hport).
  assert (Hnet' : netloc u ≠ []) by (intros Hn; unfold hostname, hostinfo in Hh; by rewrite Hn in Hh).
  destruct (urlsplit_Ok _ _ _ _ Hx Hne Hnet') as [(name & rest & Hu & Hname & Hr) _].
  exists name, info, host, ps, rest. split_and!; [by rewrite Hu, Hnet, <-!app_assoc|congruence|done|by rewrite Hhost| |done].
  destruct Hport as [[-> Hp]|(ds & -> & _ & Hd & ->)]; [by left|right]. exists ds. split_and!; [done..|].
  match goal with H : Some (decimal ds) ∈ _ |- _ => by apply elem_of_cons in H as [[=]|[= ->]%list_elem_of_singleton] end.
Qed.

(** Concrete stand-ins: ASCII only. *)
Definition demo_safe_url := safe_url (λ _, false) (λ _, false) (fmap ascii_lower).

Lemma demo_lower_ok : lower_ok (fmap ascii_lower).
Proof. split; [done|]. intros c s _. by eexists. Qed.
Lemma demo_ipv6_ok : ipv6_ok (λ _, false).
Proof. done. Qed.

(** The real endpoint passes, with its port too; its name in the user
    information, in a fragment, behind a backslash or as a suffix does not. *)
Lemma safe_url_pinned_witness :
  let url := lit "https://oauth2.googleapis.com:443/token" in
  demo_safe_url GOOGLE (Some (PStr url)) = Ok url ∧
  forallb (λ u, match demo_safe_url GOOGLE (Some (PStr (lit u))) with Ok _ => false | Err _ => true end)
    ["https://oauth2.googleapis.com@evil.example/"; "https://evil.example/#oauth2.googleapis.com";
     "https://oauth2.googleapis.com\@evil.example/"; "https://oauth2.googleapis.com.evil.example/";
     "http://oauth2.googleapis.com/token"; "https://oauth2.googleapis.com:444/token";
     "https://evil[oauth2.googleapis.com]/"] = true ∧
  ∃ name info host ps rest, clean_url url = name ++ lit "://" ++ info ++ host ++ ps ++ rest ∧
    ascii_lower <$> host ∈ ALLOWED_HOSTS GOOGLE.
Proof.
  intros url. assert (Hu : demo_safe_url GOOGLE (Some (PStr url)) = Ok url) by (by vm_compute).
  split; [exact Hu|]. split; [by vm_compute|].
  destruct (safe_url_pinned _ _ _ _ _ _ demo_lower_ok demo_ipv6_ok Hu) as (_ & name & info & host & ps & rest & Hc & _ & _ & Hh & _).
  by exists name, info, host, ps, rest.
Defined.

(** ** The adapter's monad *)

Lemma Adapter_bind_Ok {T U} (m : Adapter T) (f : T → Adapter U) s u s' :
  (m ≫= f) s = (Ok u, s') ↔ ∃ t s1, m s = (Ok t, s1) ∧ f t s1 = (Ok u, s').
Proof. unfold mbind, Adapter_bind. destruct (m s) as [[t|e] s1]; naive_solver. Qed.

Lemma Adapter_bind_Err {T U} (m : Adapter T) (f : T → Adapter U) s e s' :
  (m ≫= f) s = (Err e, s') ↔ m s = (Err e, s') ∨ ∃ t s1, m s = (Ok t, s1) ∧ f t s1 = (Err e, s').
Proof. unfold mbind, Adapter_bind. destruct (m s) as [[t|e'] s1]; naive_solver. Qed.

Lemma attempted_Ok {T} (r : res oidc_error T) t s s' : attempted r s = (Ok t, s') ↔ r = Ok t ∧ s' = s.
Proof. unfold attempted. naive_solver. Qed.

Lemma strip_python_Ok {T} (r : res pyexn T) t : strip_python r = Ok t ↔ r = Ok t.
Proof. destruct r; cbn; naive_solver. Qed.

Lemma python_Ok {T} (r : res pyexn T) t s s' : python r s = (Ok t, s') ↔ r = Ok t ∧ s' = s.
Proof. unfold python. by rewrite attempted_Ok, strip_python_Ok. Qed.

(** Inversion of runs that succeed. *)
Ltac adapter_inv :=
  repeat match goal with
  | H : (_ ≫= _) _ = (Ok _, _) |- _ => apply Adapter_bind_Ok in H as (? & ? & ? & H)
  | H : python _ _ = (Ok _, _) |- _ => apply python_Ok in H as [H ->]
  | H : attempted _ _ = (Ok _, _) |- _ => apply attempted_Ok in H as [H ->]
  end.

Section provider.
Context (nfkc_safe ipv6_literal : str → bool) (lower_text : str → str).
Context (sha256 : list N → list N) (read_float : str → pyfloat).
Context (decode_token : str → doc → res oidc_error doc) (registry : Requested → doc → bool).
Context (http_get : str → res oidc_error (list N)) (http_post : TokenRequest → res oidc_error (list N)).
Context (mono wall : nat → datetime).
#[local] Abbreviation safe := (safe_url nfkc_safe ipv6_literal lower_text).
#[local] Abbreviation provider_document := (provider_document nfkc_safe ipv6_literal lower_text read_float http_get mono).
#[local] Abbreviation discovery := (discovery nfkc_safe ipv6_literal lower_text read_float http_get mono).

(** The document of a URL: what the network gives for it, parsed. *)
Definition document_at (url : str) (d : doc) : Prop :=
  ∃ body, http_get url = Ok body ∧ Z.of_nat (length body) ≤ DOCUMENT_LIMIT ∧
    json_object read_float "invalid provider document" body = Ok d.

(** The cache holds only what was fetched. *)
Definition cache_ok (s : document_cache) : Prop := ∀ url x, s !! url = Some x → document_at url x.2.

Lemma fetch_document_Ok k url s d s' :
  fetch_document read_float http_get mono k url s = (Ok d, s') → cache_ok s → document_at url d ∧ cache_ok s'.
Proof using Type.
  unfold fetch_document. intros Hf Hs. case_match eqn:Hd; [|done]. injection Hf as <- <-.
  apply bind_Ok in Hd as (body & Hg & Hp). apply strip_python_Ok in Hp. res_inv. bool_inv.
  assert (document_at url a) by (by exists body). split; [done|].
  intros url' x' [[<- <-]|[_ ?]]%lookup_insert_Some; [done|by apply (Hs _ _)].
Qed.

Lemma document_Ok p k url s d s' :
  provider_document p k url s = (Ok d, s') → cache_ok s → safe p (Some (PStr url)) = Ok url ∧ document_at url d ∧ cache_ok s'.
Proof using Type.
  unfold OidcProvider.provider_document. intros Hd Hs. adapter_inv.
  assert (Hu : safe p (Some (PStr url)) = Ok url).
  { pose proof H as Hs'. unfold safe_url in Hs'. res_inv. injection Hs' as <-. done. }
  split; [done|]. unfold cached_document in Hd. destruct (s !! url) as [[expires d']|] eqn:Hc; [|by eapply fetch_document_Ok].
  destruct (_ <? _); [|by eapply fetch_document_Ok]. injection Hd as <- <-. split; [by apply (Hs _ (expires, d'))|done].
Qed.

Lemma discovery_Ok p config s meta s' :
  discovery p config s = (Ok meta, s') → cache_ok s →
  document_at (discovery_url p) meta ∧ check_metadata p config meta = Ok meta ∧ cache_ok s'.
Proof using Type.
  unfold OidcProvider.discovery. intros Hd Hs. adapter_inv. apply document_Ok in H as (_ & Hdoc & Hs'); [|done].
  pose proof Hd as Hm. unfold check_metadata in Hm. res_inv. injection Hm as <-. done.
Qed.

(** ** Which exceptions come out *)

(** Python's own exceptions are among those that the adapter catches. *)
Definition tame {T} (r : res pyexn T) : Prop := ∀ e, r = Err e → caught (Python e) = true.

Lemma tame_Ok {T} (t : T) : tame (Ok t).
Proof using Type. done. Qed.
Lemma tame_ValueError {T} msg : tame (Err (ValueError msg) : res pyexn T).
Proof using Type. by intros e [= <-]. Qed.
Lemma tame_KeyError {T} : tame (Err KeyError : res pyexn T).
Proof using Type. by intros e [= <-]. Qed.
Lemma tame_require b msg : tame (require b (ValueError msg)).
Proof using Type. unfold require. intros e. destruct b; [done|]. by intros [= <-]. Qed.
Lemma tame_bind {T U} (m : res pyexn T) (f : T → res pyexn U) : tame m → (∀ t, tame (f t)) → tame (m ≫= f).
Proof using Type. intros Hm Hf e He. destruct m as [t|e']; [by apply (Hf t)|]. cbn in He. injection He as ->. by apply Hm. Qed.

Ltac tame_auto :=
  repeat first
    [ apply tame_Ok | apply tame_ValueError | apply tame_KeyError | apply tame_require | progress cbv zeta
    | apply tame_bind; [|intros ?] | done | case_match ].

Lemma tame_port u : tame (port u).
Proof using Type. unfold port, digits_error. tame_auto. Qed.

Lemma tame_urlsplit url : tame (urlsplit nfkc_safe ipv6_literal url).
Proof using Type.
  unfold urlsplit. destruct (split_scheme _) as [name rest].
  assert (Hb : ∀ h, tame (check_bracketed_host ipv6_literal h)) by (intros h; apply tame_require).
  apply tame_bind; [|intros [net tail]; destruct (cut 35 tail) as [? ?], (cut 63 _) as [? ?]; tame_auto].
  unfold split_netloc. destruct rest as [|c1 [|c2 rest]]; [apply tame_Ok|repeat case_match; apply tame_Ok|].
  assert (Hn : ∀ r, tame (split_authority ipv6_literal r)).
  { intros r. unfold split_authority. destruct (until _ _) as [net tail]. apply tame_bind; [apply tame_require|intros _].
    apply tame_bind; [|intros _; apply tame_Ok]. case_match; [|apply tame_Ok]. unfold check_bracketed_netloc.
    destruct (partition_on _ _) as [[before br]|]; [|apply Hb]. apply tame_bind; [apply tame_require|intros _].
    destruct (cut 93 br). apply tame_bind; [apply tame_require|intros _; apply Hb]. }
  repeat case_match; first [apply tame_Ok|apply Hn].
Qed.

Lemma tame_safe_url p value : tame (safe p value).
Proof using Type.
  unfold safe_url. destruct value as [[]|]; try apply tame_ValueError.
  apply tame_bind; [apply tame_urlsplit|intros u]. apply tame_bind; [apply tame_require|intros _].
  apply tame_bind; [apply tame_port|intros o]. tame_auto.
Qed.

Lemma tame_json_object msg body : tame (json_object read_float msg body).
Proof using Type.
  unfold json_object. apply tame_bind; [|intros v; tame_auto].
  intros e He. apply loads_bytes_Err in He as [->|[->| ->]]; done.
Qed.

Lemma tame_check_metadata p config value : tame (check_metadata p config value).
Proof using Type. unfold check_metadata. tame_auto. Qed.

(** An exception that the adapter does not catch comes from outside of it. *)
Definition outside (e : oidc_error) : Prop :=
  (∃ url, http_get url = Err e) ∨ (∃ q, http_post q = Err e) ∨ ∃ t k, decode_token t k = Err e.
Definition settled {T} (r : res oidc_error T) : Prop := ∀ e, r = Err e → caught e = true ∨ outside e.
Definition settles {T} (m : Adapter T) : Prop := ∀ s e s', m s = (Err e, s') → caught e = true ∨ outside e.

Lemma settled_python {T} (r : res pyexn T) : tame r → settled (strip_python r).
Proof using Type. intros Hr e He. destruct r; [done|]. injection He as <-. left. by apply Hr. Qed.
Lemma settled_bind {T U} (r : res oidc_error T) (f : T → res oidc_error U) :
  settled r → (∀ t, settled (f t)) → settled (r ≫= f).
Proof using Type. intros Hr Hf e He. destruct r; [by eapply Hf|]. apply Hr. by injection He as ->. Qed.
Lemma settles_attempted {T} (r : res oidc_error T) : settled r → settles (attempted r).
Proof using Type. intros Hr s e s' [= He _]. by apply Hr. Qed.
Lemma settles_python {T} (r : res pyexn T) : tame r → settles (python r).
Proof using Type. intros Hr. by apply settles_attempted, settled_python. Qed.
Lemma settles_bind {T U} (m : Adapter T) (f : T → Adapter U) : settles m → (∀ t, settles (f t)) → settles (m ≫= f).
Proof using Type. intros Hm Hf s e s' [He|(t & s1 & _ & He)]%Adapter_bind_Err; [by eapply Hm|by eapply Hf]. Qed.
Lemma settles_ret {T} (t : T) : settles (mret t).
Proof using Type. done. Qed.

Lemma settles_document p k url : settles (provider_document p k url).
Proof using Type.
  apply settles_bind; [apply settles_python, tame_safe_url|intros _ s e s' He].
  assert (Hf : fetch_document read_float http_get mono k url s = (Err e, s') → caught e = true ∨ outside e).
  { unfold fetch_document. intros Hf. case_match eqn:Hd; [done|]. injection Hf as -> _.
    revert Hd. apply settled_bind; [|intros body; apply settled_python, tame_bind; [apply tame_require|intros _; apply tame_json_object]].
    intros e' He'. right. left. eauto. }
  unfold cached_document in He. repeat case_match; auto; done.
Qed.

Lemma settles_discovery p config : settles (discovery p config).
Proof using Type. apply settles_bind; [apply settles_document|intros v; apply settles_python, tame_check_metadata]. Qed.

Lemma settled_request_token p config code attempt meta :
  settled (request_token nfkc_safe ipv6_literal lower_text read_float http_post p config code attempt meta).
Proof using Type.
  apply settled_bind; [apply settled_python, tame_safe_url|intros url].
  apply settled_bind; [intros e He; right; right; left; eauto|intros content]. apply settled_python.
  apply tame_bind; [apply tame_require|intros _]. apply tame_bind; [apply tame_json_object|intros token]. tame_auto.
Qed.

Lemma settled_verified_identity p config attempt claims : settled (verified_identity registry wall p config attempt claims).
Proof using Type.
  apply settled_bind; [intros e He; unfold require in He; case_match; [done|]; injection He as <-; by left|intros _].
  apply settled_python. unfold check_audience, check_issued, check_subject, check_fresh, claim_of. tame_auto.
Qed.

Lemma settles_exchange p config code attempt :
  settles (exchange_code nfkc_safe ipv6_literal lower_text read_float decode_token registry http_get http_post mono wall
             p config code attempt).
Proof using Type.
  apply settles_bind; [apply settles_discovery|intros meta].
  apply settles_bind; [apply settles_attempted, settled_request_token|intros encoded].
  apply settles_bind; [apply settles_python, tame_safe_url|intros url].
  apply settles_bind; [apply settles_document|intros keys].
  apply settles_bind; [apply settles_attempted; intros e He; right; right; right; eauto|intros claims].
  apply settles_attempted, settled_verified_identity.
Qed.

Lemma tame_urlencode params : tame (urlencode params).
Proof using Type.
  unfold urlencode. enough (Ht : tame (traverse (λ kv : str * str, k ← quote_plus kv.1; v ← quote_plus kv.2; Ok (k ++ 61%N :: v)) params)).
  { intros e He. destruct (traverse _ _); [done|]. apply Ht. by injection He as ->. }
  induction params as [|kv params IH]; cbn; [done|]. unfold quote_plus. tame_auto.
Qed.

Lemma settles_authorization p config state attempt :
  settles (build_authorization_url nfkc_safe ipv6_literal lower_text sha256 read_float http_get mono p config state attempt).
Proof using Type.
  apply settles_bind; [apply settles_discovery|intros meta].
  apply settles_bind; [apply settles_python; unfold challenge; tame_auto|intros c].
  apply settles_bind; [apply settles_python, tame_safe_url|intros url].
  apply settles_bind; [apply settles_python, tame_urlencode|intros q]. apply settles_ret.
Qed.

(** What both methods end with when they fail. *)
Lemma or_failed_Err {T} (m : Adapter T) s r s' :
  settles m → or_failed m s = (inr r, s') → r = inl ExternalLoginFailedError ∨ ∃ e, r = inr e ∧ caught e = false ∧ outside e.
Proof using Type.
  unfold or_failed. intros Hm Hr. destruct (m s) as [[t|e] s1] eqn:He; [done|]. injection Hr as <- <-.
  destruct (Hm _ _ _ He) as [Hc|Ho]; [rewrite Hc; by left|]. destruct (caught e) eqn:Hc; [by left|right; eauto].
Qed.
End provider.

(** ** The exchange *)

(** What [JWTClaimsRegistry.validate] promises for the values it is given. *)
Definition registry_ok (registry : Requested → doc → bool) : Prop :=
  ∀ r claims, registry r claims = true →
    (v ← item "iss" claims; as_str v) = Some (want_iss r) ∧ (v ← item "nonce" claims; as_str v) = Some (want_nonce r) ∧
    (item "aud" claims = Some (PStr (want_aud r)) ∨ ∃ l, item "aud" claims = Some (PList l) ∧ PStr (want_aud r) ∈ l).

(** The claims are for this client and this handshake. *)
Definition for_this_handshake (p : ProviderName) (config : ProviderConfig) (attempt : Attempt) (claims : doc) : Prop :=
  (v ← item "iss" claims; as_str v) = Some (ISSUERS p) ∧ (v ← item "nonce" claims; as_str v) = Some (nonce attempt) ∧
  (item "aud" claims = Some (PStr (client_id config)) ∨
   ∃ l, item "aud" claims = Some (PList l) ∧ PStr (client_id config) ∈ l ∧
     (length l = 1%nat ∨ (v ← item "azp" claims; as_str v) = Some (client_id config))) ∧
  (item "azp" claims = None ∨ (v ← item "azp" claims; as_str v) = Some (client_id config)).

(** They were issued between a minute before the handshake began and half a
    minute from now, and a reauthentication took place since it began. *)
Definition timely (wall : nat → datetime) (attempt : Attempt) (claims : doc) : Prop :=
  (∃ issued, item "iat" claims = Some issued ∧ is_number issued = true ∧
     later_than issued (wall 0%nat + seconds 30) = false ∧ earlier_than issued (seconds (started_at attempt - 60)) = false) ∧
  (intent attempt = REAUTHENTICATE → ∃ t, item "auth_time" claims = Some (PInt t) ∧
     started_at attempt - 30 ≤ t ∧ seconds t ≤ wall 1%nat + seconds 30).

(** The identity says what the claims say. *)
Definition speaks_for (p : ProviderName) (claims : doc) (identity : Claims) : Prop :=
  claims_provider identity = p ∧ item "sub" claims = Some (PStr (subject identity)) ∧
  (1 ≤ length (subject identity) ≤ 255)%nat ∧ claims_email identity = (v ← item "email" claims; as_str v) ∧
  (email_verified identity = true ↔ item "email_verified" claims = Some (PBool true)) ∧
  (∀ t, auth_time identity = Some t ↔ item "auth_time" claims = Some (PInt t)).

Lemma as_texts_PStr l ss s : as_texts (PList l) = Some ss → PStr s ∈ l → s ∈ ss.
Proof.
  unfold as_texts. intros Hm Hin. apply mapM_Some in Hm. apply list_elem_of_lookup in Hin as [i Hi].
  destruct (Forall2_lookup_l _ _ _ _ _ Hm Hi) as (x & Hx & Hs). injection Hs as ->. by eapply list_elem_of_lookup_2.
Qed.

Lemma verified_identity_Ok registry wall p config attempt claims identity :
  registry_ok registry → verified_identity registry wall p config attempt claims = Ok identity →
  for_this_handshake p config attempt claims ∧ timely wall attempt claims ∧ speaks_for p claims identity.
Proof.
  intros Hreg. unfold verified_identity. intros (u & Hr & Hv)%bind_Ok. destruct (registry _ _) eqn:Hg; [|done].
  apply strip_python_Ok in Hv. apply Hreg in Hg as (Hiss & Hnonce & Haud). cbn in Hiss, Hnonce, Haud.
  unfold check_audience, check_issued, check_subject, check_fresh, claim_of in Hv. res_inv. injection Hv as <-.
  destruct (item "aud" claims) as [aud|] eqn:Eaud; [|done]. destruct (item "iat" claims) as [iat|] eqn:Eiat; [|done].
  destruct (item "sub" claims) as [sub|] eqn:Esub; [|done].
  injection Hx5 as <-. injection Hx4 as <-. injection Hx3 as <-. split_and!.
  - apply negb_true_iff, andb_false_iff in Hx.
    assert (Hazp : match aud with PList l => (1 <? length l)%nat | _ => false end = false ∧ item "azp" claims = None ∨
      (v ← item "azp" claims; as_str v) = Some (client_id config)).
    { destruct Hx as [[Hl Hn]%orb_false_iff|Hn%negb_false_iff]; bool_inv; [left|by right].
      split; [done|]. by apply eq_None_not_Some. }
    unfold for_this_handshake. rewrite Eaud. split_and!; [done|done| |naive_solver].
    destruct Haud as [[= ->]|(l & [= ->] & Hin)]; [by left|right]. exists l. split_and!; [done|done|].
    destruct Hazp as [[Hl _]|Hazp]; [left|by right]. apply Nat.ltb_ge in Hl.
    destruct l as [|? [|]]; [by apply elem_of_nil in Hin|done|cbn in Hl; lia].
  - unfold timely. split.
    + exists iat. bool_inv. done.
    + intros Hre. rewrite (bool_decide_eq_true_2 _ Hre) in Hx2. cbn in Hx2.
      destruct (item "auth_time" claims) as [[]|]; try done. bool_inv. eauto.
  - unfold speaks_for. cbn. destruct sub; try done. apply bind_Ok in Hx1 as ([] & Hlen & [= ->]).
    unfold require in Hlen. destruct (_ && _) eqn:Hb in Hlen; [|done]. apply andb_true_iff in Hb as [H1 H2]. apply Nat.leb_le in H1, H2.
    split_and!; [done|done|lia|lia|done|..].
    + destruct (item "email_verified" claims) as [[]|]; naive_solver.
    + intros t. destruct (item "auth_time" claims) as [[]|]; naive_solver.
Qed.

(** What an identity stands on: the ID token of the response to this code,
    verifier and redirect, signed with a key of the provider, for this client and
    handshake. *)
Definition stands_on (safe : ProviderName → option pyval → res pyexn str) (read_float : str → pyfloat)
    (decode_token : str → doc → res oidc_error doc) (http_get : str → res oidc_error (list N))
    (http_post : TokenRequest → res oidc_error (list N)) (wall : nat → datetime)
    (p : ProviderName) (config : ProviderConfig) (code : str) (attempt : Attempt) (identity : Claims) : Prop :=
  ∃ meta url content tokens token jwks keys claims,
      document_at read_float http_get (discovery_url p) meta ∧ (v ← item "issuer" meta; as_str v) = Some (ISSUERS p) ∧
      safe p (item "token_endpoint" meta) = Ok url ∧
      http_post (NewTokenRequest url (client_id config, client_secret config) (token_form code attempt)) = Ok content ∧
      json_object read_float "invalid token response" content = Ok tokens ∧ item "id_token" tokens = Some (PStr token) ∧
      safe p (item "jwks_uri" meta) = Ok jwks ∧
      document_at read_float http_get jwks keys ∧ decode_token token keys = Ok claims ∧
      for_this_handshake p config attempt claims ∧ timely wall attempt claims ∧ speaks_for p claims identity.

(** An exchange that succeeds. *)
Lemma exchange_Ok nfkc_safe ipv6_literal lower_text read_float decode_token registry http_get http_post mono wall
    p config code attempt s identity s' :
  registry_ok registry → cache_ok read_float http_get s →
  exchange nfkc_safe ipv6_literal lower_text read_float decode_token registry http_get http_post mono wall
    p config code attempt s = (inl identity, s') →
  stands_on (safe_url nfkc_safe ipv6_literal lower_text) read_float decode_token http_get http_post wall p config code attempt identity.
Proof.
  intros Hreg Hs Hr.
  unfold exchange, or_failed in Hr. destruct (exchange_code _ _ _ _ _ _ _ _ _ _ _ _ _ _ _) as [[i|e] s1] eqn:He; [|done].
  injection Hr as -> <-. unfold exchange_code in He. adapter_inv.
  match goal with H : discovery _ _ _ _ _ _ _ _ _ = _ |- _ => apply discovery_Ok in H as (Hmeta & Hcheck & Hs1); [|done] end.
  match goal with H : provider_document _ _ _ _ _ _ _ _ _ _ = _ |- _ => apply document_Ok in H as (_ & Hkeys & _); [|done] end.
  match goal with H : verified_identity _ _ _ _ _ _ = _ |- _ => apply verified_identity_Ok in H; [|done] end.
  match goal with H : request_token _ _ _ _ _ _ _ _ _ _ = _ |- _ => rename H into Htok end.
  unfold request_token in Htok. apply bind_Ok in Htok as (url & Hurl%strip_python_Ok & Htok).
  apply bind_Ok in Htok as (content & Hpost & Htok%strip_python_Ok). res_inv.
  destruct (item "id_token" x4) as [[]|] eqn:Hid; try done. res_inv. injection Htok as ->.
  unfold check_metadata in Hcheck. res_inv. bool_inv. unfold stands_on. eauto 20.
Qed.

(** C25: What an exchange gives. An identity stands on the ID token of the response
    to exactly this code, verifier and redirect, sent to the pinned token endpoint
    with the client's credentials; its signature was checked against the keys of
    a pinned endpoint; its claims are for this client and this handshake's nonce,
    recent, and fresh where a reauthentication was asked for; and the identity
    says what they say. Anything else is the one refusal, unless the network or
    the token library raises what is not theirs to raise. *)
Theorem exchange_verified nfkc_safe ipv6_literal lower_text read_float decode_token registry http_get http_post mono wall
    p config code attempt s r s' :
  registry_ok registry → cache_ok read_float http_get s →
  exchange nfkc_safe ipv6_literal lower_text read_float decode_token registry http_get http_post mono wall
    p config code attempt s = (r, s') →
  match r with
  | inl identity => stands_on (safe_url nfkc_safe ipv6_literal lower_text) read_float decode_token http_get http_post wall
                      p config code attempt identity
  | inr r => r = inl ExternalLoginFailedError ∨
      ∃ e, r = inr e ∧ caught e = false ∧ outside decode_token http_get http_post e
  end.
Proof.
  intros Hreg Hs Hr. destruct r as [identity|r].
  2: { eapply or_failed_Err, Hr. apply settles_exchange. }
  by eapply exchange_Ok.
Qed.

(** ** A provider *)

Definition demo_document (kvs : list (string * string)) : list N :=
  utf8 (json_dumps (λ _, []) (ADict ((λ kv, (lit kv.1, AStr (lit kv.2))) <$> kvs))).
Definition demo_discovery : list (string * string) :=
  [("issuer", "https://accounts.google.com"); ("authorization_endpoint", "https://accounts.google.com/o/oauth2/v2/auth");
   ("token_endpoint", "https://oauth2.googleapis.com/token"); ("jwks_uri", "https://www.googleapis.com/oauth2/v3/certs")].
Definition demo_get (url : str) : res oidc_error (list N) :=
  if bool_decide (url = discovery_url GOOGLE) then Ok (demo_document demo_discovery)
  else if bool_decide (url = lit "https://www.googleapis.com/oauth2/v3/certs") then Ok (demo_document [])
  else Err HTTPError.
Definition demo_post (r : TokenRequest) : res oidc_error (list N) :=
  if bool_decide (endpoint r = lit "https://oauth2.googleapis.com/token" ∧ (lit "code", lit "c-1") ∈ form r)
  then Ok (demo_document [("id_token", "signed")]) else Err HTTPError.
Definition demo_token_claims (nonce : str) : doc :=
  [(PStr (lit "iss"), PStr (ISSUERS GOOGLE)); (PStr (lit "aud"), PStr (lit "client")); (PStr (lit "nonce"), PStr nonce);
   (PStr (lit "iat"), PInt 10); (PStr (lit "exp"), PInt 3610); (PStr (lit "sub"), PStr (lit "g-1"))].
Definition demo_decode (nonce token : str) (keys : doc) : res oidc_error doc :=
  if bool_decide (token = lit "signed") then Ok (demo_token_claims nonce) else Err JoseError.
Definition demo_registry (r : Requested) (claims : doc) : bool :=
  bool_decide ((v ← item "iss" claims; as_str v) = Some (want_iss r))
  && bool_decide ((v ← item "nonce" claims; as_str v) = Some (want_nonce r))
  && bool_decide ((v ← item "aud" claims; as_str v) = Some (want_aud r)).
Definition demo_config : ProviderConfig :=
  NewProviderConfig true (lit "client") (lit "secret") (lit "https://shop.example/callback") true.

Lemma demo_registry_ok : registry_ok demo_registry.
Proof.
  intros r claims. unfold demo_registry. intros Hr. bool_inv. split_and!; [done..|]. left.
  destruct (item "aud" claims) as [[]|]; try done. match goal with H : _ = Some (want_aud r) |- _ => by injection H as -> end.
Qed.

Definition demo_attempt_of (nonce verifier : str) : Attempt :=
  NewAttempt 1 GOOGLE LOGIN [] nonce verifier (lit "https://shop.example/callback") TO_PROFILE None None 10.

Lemma exchange_verified_witness :
  let r := exchange (λ _, false) (λ _, false) (fmap ascii_lower) (λ _, FNan) (demo_decode (lit "n")) demo_registry demo_get demo_post
             (λ _, 0) (λ _, seconds 10) GOOGLE demo_config (lit "c-1") (demo_attempt_of (lit "n") (lit "v")) ∅ in
  r.1 = inl (Identity GOOGLE (lit "g-1") None false None) ∧
  stands_on demo_safe_url (λ _, FNan) (demo_decode (lit "n")) demo_get demo_post (λ _, seconds 10)
    GOOGLE demo_config (lit "c-1") (demo_attempt_of (lit "n") (lit "v")) (Identity GOOGLE (lit "g-1") None false None).
Proof.
  intros r. assert (Hr : r.1 = inl (Identity GOOGLE (lit "g-1") None false None)) by (by vm_compute).
  split; [exact Hr|].
  assert (Hc : cache_ok (λ _, FNan) demo_get ∅) by (intros url x Hx; by rewrite lookup_empty in Hx).
  pose proof (exchange_verified _ _ _ _ _ _ _ _ _ _ _ _ _ _ _ _ _ demo_registry_ok Hc (surjective_pairing r)) as Ht.
  rewrite Hr in Ht. exact Ht.
Defined.

(** An issue time that is not a number is neither too early nor too late. *)
Lemma nan_issued_in_time attempt now : check_issued attempt now [(PStr (lit "iat"), PFloat FNan)] = Ok tt.
Proof. done. Qed.
