(* ===== verification/Http.v ===== *)
(** * Responses and cookies of the routes (auth/dependencies.py)

    What the routes set on a response, and the cookies of sessions. *)

From S2P Require Import Prelude Regex PyValues.

(** A [Set-Cookie] header; a deleted cookie has no value. All of them are for
    the path [/], hidden from scripts and lax across sites. *)
Record Cookie := NewCookie { cookie_key : str; cookie_value : option str; max_age : Z; secure : bool }.

(** [no_store] is [Cache-Control: no-store]; [location] is for redirects. *)
Record Response (B : Type) := NewResponse {
  status_code : Z;
  no_store : bool;
  set_cookies : list Cookie;
  location : option str;
  body : B }.
Arguments NewResponse {B} status_code no_store set_cookies location body.
Arguments status_code {B} _.
Arguments no_store {B} _.
Arguments set_cookies {B} _.
Arguments location {B} _.
Arguments body {B} _.

(** [Response(status_code=204)], and with its header. *)
Definition no_content : Response unit := NewResponse 204 false [] None tt.
Definition no_content_no_store : Response unit := NewResponse 204 true [] None tt.
(** A body with the header. *)
Definition fresh_body {B} (status : Z) (b : B) : Response B := NewResponse status true [] None b.

Definition cookie_name (secure_cookies : bool) : str :=
  if secure_cookies then lit "__Host-ekumidayomi_session" else lit "ekumidayomi_session".

Definition set_session_cookie {B} (r : Response B) (secret : str) (secure_cookies : bool) (seconds : Z) : Response B :=
  NewResponse (status_code r) true
    (set_cookies r ++ [NewCookie (cookie_name secure_cookies) (Some secret) seconds secure_cookies])
    (location r) (body r).
Definition clear_session_cookie {B} (r : Response B) (secure_cookies : bool) : Response B :=
  NewResponse (status_code r) true
    (set_cookies r ++ [NewCookie (cookie_name secure_cookies) None 0 secure_cookies]) (location r) (body r).

(** What a browser sends back: the last cookie set under a name, or none where
    it was deleted; [sent] is what it had. *)
Definition sends_back {B} (r : Response B) (name : str) (sent : option str) : option str :=
  foldl (λ acc c, if bool_decide (cookie_key c = name) then cookie_value c else acc) sent (set_cookies r).
