(* ===== verification/OidcRoutes.v ===== *)
(** * The routes of external sign-in (api/v1/auth_oidc.py)

    A handshake begins with a one-time attempt, a redirect to the provider and a
    cookie that binds the browser; the callback ends it. *)

From S2P Require Import Prelude Regex PyValues CoreTypes AuditTrail AuditSpecs Events Outbox Errors Texts ErrorSpecs Identity Sessions Passwords AuthEvents Challenges Administration AuthService ExternalSignIn Json JsonSpecs Urls OidcProvider OidcSpecs Http.

(** The adapters of the enabled providers: their configuration. *)
Definition provider_registry (settings : OidcSettings) (p : ProviderName) : option ProviderConfig :=
  if enabled (config_of settings p) then Some (config_of settings p) else None.

Definition browser_cookie (secure_cookies : bool) : str :=
  if secure_cookies then lit "__Host-ekumidayomi_oidc" else lit "ekumidayomi_oidc".

Definition return_path_text (r : ReturnPath) : str :=
  match r with TO_ROOT => lit "/" | TO_PROFILE => lit "/profile" | TO_SHOP => lit "/shop" end.

(** What a request draws: the browser secret, the state, the nonce, the verifier
    and the id of the attempt. *)
Record Drawn := Draw { d_browser : str; d_state : str; d_nonce : str; d_verifier : str; d_attempt_id : uuid }.

Section routes.
Context `{Platform}.
Context (nfkc_safe ipv6_literal : str → bool) (lower_text : str → str).
Context (sha256 : list N → list N) (read_float : str → pyfloat).
Context (decode_token : str → doc → res oidc_error doc) (registry : Requested → doc → bool).
Context (http_get : str → res oidc_error (list N)) (http_post : TokenRequest → res oidc_error (list N)).
Context (mono wall : nat → datetime).
Context (dump : Attempt → str) (load : str → option Attempt) (namespace : str).
Context (oidc : OidcSettings) (secure_cookies : bool).

Definition new_attempt (drawn : Drawn) (p : ProviderName) (intent : Intent) (actor : option Actor) (return_path : ReturnPath)
    (now : datetime) : Attempt :=
  NewAttempt (d_attempt_id drawn) p intent (sha256_hex (d_browser drawn)) (d_nonce drawn) (d_verifier drawn)
    (config_redirect_uri (config_of oidc p)) return_path (actor_user <$> actor) (actor_session <$> actor) (now / 1000000).

Definition set_browser_cookie (browser : str) : Cookie :=
  NewCookie (browser_cookie secure_cookies) (Some browser) (attempt_seconds oidc) secure_cookies.

(** [up] and [now] are the state and the clock of the Redis server. An adapter
    is new in every request: its cache is empty. *)
Definition begin (up : bool) (now : datetime) (drawn : Drawn) (p : ProviderName) (intent : Intent) (actor : option Actor)
    (return_path : ReturnPath) (s : attempts) : (Response unit + (error_class + oidc_error)) * attempts :=
  match provider_registry oidc p with
  | None => (inr (inl ExternalLoginFailedError), s)
  | Some config =>
      match validate_actor_binding (new_attempt drawn p intent actor return_path (wall 0%nat)) with
      | Err e => (inr (inr (Python e)), s)
      | Ok attempt =>
          match create_attempt dump namespace (attempt_seconds oidc) up now (d_state drawn) attempt s with
          | (inr e, s) => (inr (inl e), s)
          | (inl state, s) =>
              match authorization_url nfkc_safe ipv6_literal lower_text sha256 read_float http_get mono p config state attempt ∅ with
              | (inl url, _) => (inl (NewResponse 303 true [set_browser_cookie (d_browser drawn)] (Some url) tt), s)
              | (inr e, _) => (inr e, s)
              end
          end
      end
  end.

(** The three routes that begin, after their dependencies: [require_origin] of
    [start], [current_actor] and [authorize] of the others. *)
Definition start_login (settings : AuthSettings) (origin : option str) : M unit := trusted_origin origin settings.
Definition start_link (settings : AuthSettings) (hint : option uuid) (clock : nat → datetime) (origin cookie : option str)
    : M Actor :=
  actor ← current_actor sha256_hex (lit "POST") origin cookie settings hint (clock 0%nat);
  authorize (clock 1%nat) (clock 2%nat) actor PROFILE_WRITE (Some (recent_auth_seconds settings));;
  mret actor.
Definition start_reauthenticate (settings : AuthSettings) (hint : option uuid) (clock : nat → datetime)
    (origin cookie : option str) : M Actor :=
  actor ← current_actor sha256_hex (lit "POST") origin cookie settings hint (clock 0%nat);
  authorize (clock 1%nat) (clock 2%nat) actor PROFILE_WRITE None;;
  mret actor.

(** ** The callback *)

(** [adapter.exchange], where there is an adapter and a code and no error. *)
Definition callback_identity (p : ProviderName) (code error : option str) (attempt : Attempt) : res oidc_error (option Claims) :=
  match provider_registry oidc p, error, code with
  | Some config, None, Some ((_ :: _) as code) =>
      match exchange nfkc_safe ipv6_literal lower_text read_float decode_token registry http_get http_post mono wall
              p config code attempt ∅ with
      | (inl identity, _) => Ok (Some identity)
      | (inr (inl _), _) => Ok None
      | (inr (inr e), _) => Err e
      end
  | _, _, _ => Ok None
  end.

Definition callback_response (settings : AuthSettings) (attempt : Attempt) (secret : option str) : Response unit :=
  let r := NewResponse 303 true [NewCookie (browser_cookie secure_cookies) None 0 secure_cookies]
             (Some (return_path_text (return_path attempt))) tt in
  match secret with
  | Some secret => set_session_cookie r secret secure_cookies (session_seconds settings)
  | None => r
  end.

(** What a callback ends with: a response, an error of the application, or an
    exception that nobody handles. *)
Inductive callback_end := Redirected (r : Response unit) | Refused (e : exn) | Broken (e : oidc_error).

(** An attempt that needs its actor resolves the session before the exchange. *)
Definition callback_route (settings : AuthSettings) (clock : nat → datetime) (ids : nat → uuid) (hint : option uuid)
    (up : bool) (now : datetime) (p : ProviderName) (state : str) (browser cookie code error : option str)
    (secret correlation_id : str) (s : attempts) (t : txn) : callback_end * attempts * txn :=
  match consume_attempt load namespace up now state (default [] browser) p s with
  | (inr e, s) => (Refused (App e), s, t)
  | (inl attempt, s) =>
      let resolved := match intent attempt with
                      | LOGIN => true
                      | _ => match resolve sha256_hex hint (clock 11%nat) cookie t with (Ok _, _) => true | _ => false end
                      end in
      match (if resolved then callback_identity p code error attempt else Ok None) with
      | Err e => (Broken e, s, t)
      | Ok identity =>
          match callback clock ids hint settings attempt cookie identity secret correlation_id t with
          | (Ok secret, t) => (Redirected (callback_response settings attempt secret), s, t)
          | (Err e, t) => (Refused e, s, t)
          end
      end
  end.
End routes.
