(* ===== verification/OidcRouteSpecs.v ===== *)
(** * What a handshake with an identity provider guarantees

    From the redirect that begins it to the callback that ends it. *)

From S2P Require Import Prelude Regex PyValues CoreTypes AuditTrail AuditSpecs Events Outbox Errors Texts ErrorSpecs Identity Sessions Passwords AuthEvents Challenges Administration AuthService Profile ExternalSignIn Histories ExternalSpecs Json JsonSpecs Urls OidcProvider OidcSpecs Http OidcRoutes.

Section handshake.
Context `{Platform}.
Context (nfkc_safe ipv6_literal : str → bool) (lower_text : str → str).
Context (sha256 : list N → list N) (read_float : str → pyfloat).
Context (decode_token : str → doc → res oidc_error doc) (registry : Requested → doc → bool).
Context (http_get : str → res oidc_error (list N)) (http_post : TokenRequest → res oidc_error (list N)).
Context (mono wall : nat → datetime).
#[local] Abbreviation safe := (safe_url nfkc_safe ipv6_literal lower_text).
#[local] Abbreviation document_at := (document_at read_float http_get).

Lemma empty_cache_ok : cache_ok read_float http_get ∅.
Proof using Type. intros url x Hx. by rewrite lookup_empty in Hx. Qed.

Lemma authorization_url_Ok p config state attempt s url s' :
  cache_ok read_float http_get s →
  authorization_url nfkc_safe ipv6_literal lower_text sha256 read_float http_get mono p config state attempt s = (inl url, s') →
  ∃ meta endpoint q, document_at (discovery_url p) meta ∧ safe p (item "authorization_endpoint" meta) = Ok endpoint ∧
    url = endpoint ++ 63%N :: q ∧
    urlencode (authorization_params config state attempt (base64url (sha256 (verifier attempt)))) = Ok q.
Proof using Type.
  intros Hs Hr. unfold authorization_url, or_failed in Hr.
  destruct (build_authorization_url _ _ _ _ _ _ _ _ _ _ _ _) as [[u|e] s1] eqn:He; [|done]. injection Hr as -> <-.
  unfold build_authorization_url in He. adapter_inv. injection He as <- _.
  match goal with H : discovery _ _ _ _ _ _ _ _ _ = _ |- _ => apply discovery_Ok in H as (Hmeta & _ & _); [|done] end.
  match goal with H : challenge _ _ = _ |- _ => unfold challenge in H; apply bind_Ok in H as (? & _ & [= <-]) end.
  eauto 10.
Qed.

Lemma base64url_unicode b : unicode (base64url b).
Proof using Type.
  assert (Hc : ∀ i, (base64url_char i < 1114112)%N).
  { intros i. unfold base64url_char. destruct (N.ltb_spec i 26), (N.ltb_spec i 52), (N.ltb_spec i 62), (N.eqb_spec i 62); lia. }
  revert b. fix IH 1. intros [|x [|y [|z b]]]; cbn; repeat (apply Forall_cons_2; [apply Hc|]); try apply Forall_nil_2. apply IH.
Qed.

(** What the parameters of an authorization URL are, as their receiver reads them. *)
Lemma authorization_params_read config state attempt q c :
  Forall unicode [client_id config; redirect_uri attempt; state; nonce attempt] → unicode c →
  urlencode (authorization_params config state attempt c) = Ok q →
  form_decode q = Some (authorization_params config state attempt c).
Proof using Type.
  intros Hu Hc Hq. apply (form_roundtrip _ _ Hq); [by unfold authorization_params|].
  rewrite !Forall_cons in Hu. destruct Hu as (H1 & H2 & H3 & H4 & _).
  assert (Hl : ∀ s : string, forallb (λ c, c <? 1114112)%N (lit s) = true → unicode (lit s)).
  { intros s Hs. apply Forall_forall. intros x Hx. rewrite forallb_forall in Hs. apply N.ltb_lt, Hs. by apply list_elem_of_In. }
  unfold authorization_params. apply Forall_app. split; [|case_bool_decide]; repeat apply Forall_cons_2; try apply Forall_nil_2;
    (split; [by apply Hl; vm_compute|try done; by apply Hl; vm_compute]).
Qed.

Context (dump : Attempt → str) (load : str → option Attempt) (namespace : str).
Context (load_dump : ∀ a, validate_actor_binding a = Ok a → load (dump a) = Some a).
Context (oidc : OidcSettings) (secure_cookies : bool).
#[local] Abbreviation begin := (begin nfkc_safe ipv6_literal lower_text sha256 read_float http_get mono wall dump namespace oidc secure_cookies).
#[local] Abbreviation attempt_of drawn p intent actor path := (new_attempt oidc drawn p intent actor path (wall 0%nat)).

(** A redirect was given: the attempt is stored, and the provider gets what
    binds its answer to it. *)
Lemma begin_Ok now drawn p intent actor path s r s' :
  begin true now drawn p intent actor path s = (inl r, s') →
  let config := config_of oidc p in let attempt := attempt_of drawn p intent actor path in
  enabled config = true ∧ validate_actor_binding attempt = Ok attempt ∧
  create_attempt dump namespace (attempt_seconds oidc) true now (d_state drawn) attempt s = (inl (d_state drawn), s') ∧
  ∃ endpoint q, r = NewResponse 303 true [set_browser_cookie oidc secure_cookies (d_browser drawn)] (Some (endpoint ++ 63%N :: q)) tt ∧
    (∃ meta, document_at (discovery_url p) meta ∧ safe p (item "authorization_endpoint" meta) = Ok endpoint) ∧
    urlencode (authorization_params config (d_state drawn) attempt (base64url (sha256 (d_verifier drawn)))) = Ok q.
Proof using Type.
  unfold OidcRoutes.begin, provider_registry. intros Hb. cbv zeta. destruct (enabled (config_of oidc p)) eqn:Hen; [|done].
  destruct (validate_actor_binding _) as [a|] eqn:Hv; [|done].
  assert (a = attempt_of drawn p intent actor path) as ->.
  { unfold validate_actor_binding in Hv. res_inv. by injection Hv. }
  destruct (create_attempt _ _ _ _ _ _ _ _) as [[state|e] s1] eqn:Hc; [|done].
  assert (state = d_state drawn) as ->.
  { unfold create_attempt in Hc. cbn in Hc. destruct (stored _ _ _); [done|]. by injection Hc. }
  destruct (authorization_url _ _ _ _ _ _ _ _ _ _ _ _) as [[url|e] s2] eqn:Hu; [|done]. injection Hb as <- <-.
  apply authorization_url_Ok in Hu as (meta & endpoint & q & Hm & He & -> & Hq); [|apply empty_cache_ok]. eauto 15.
Qed.

(** The identity of a callback stands on what the provider signed. *)
Lemma callback_identity_Ok p code error attempt identity :
  registry_ok registry →
  callback_identity nfkc_safe ipv6_literal lower_text read_float decode_token registry http_get http_post mono wall oidc
    p code error attempt = Ok (Some identity) →
  ∃ c, code = Some c ∧ error = None ∧
    stands_on safe read_float decode_token http_get http_post wall p (config_of oidc p) c attempt identity.
Proof using Type.
  unfold callback_identity, provider_registry. intros Hreg Hc. destruct (enabled _); [|done].
  destruct error; [done|]. destruct code as [[|c code]|]; try done.
  destruct (exchange _ _ _ _ _ _ _ _ _ _ _ _ _ _ _) as [[i|[e|e]] s'] eqn:He; try done. injection Hc as ->.
  apply exchange_Ok in He; [|done|apply empty_cache_ok]. by exists (c :: code).
Qed.

Lemma callback_identity_Err p code error attempt e :
  callback_identity nfkc_safe ipv6_literal lower_text read_float decode_token registry http_get http_post mono wall oidc
    p code error attempt = Err e → caught e = false.
Proof using Type.
  unfold callback_identity. intros Hc. destruct (provider_registry _ _), error; try done. destruct code as [[|c code]|]; try done.
  destruct (exchange _ _ _ _ _ _ _ _ _ _ _ _ _ _ _) as [[i|[e'|e']] s'] eqn:He; try done. injection Hc as ->.
  eapply (or_failed_Err decode_token http_get http_post) in He as [?|(e' & [= ->] & Hc & _)]; [done|done|apply settles_exchange].
Qed.
End handshake.

(** C22: A handshake that signs in, from its redirect to its callback. The redirect
    carries the state, the nonce and the challenge of the verifier. In time and
    with the browser's cookie the callback burns the attempt, and answered with a
    redirect the browser holds the session of an account for the subject of a
    token that was exchanged for this code and verifier and signed for this
    client and this nonce. Refused, at most the denial is on record; and any other
    browser is refused and burns the attempt too. *)
Theorem sign_in_handshake `{Platform} nfkc_safe ipv6_literal lower_text sha256 read_float decode_token registry http_get
    http_post mono wall dump load namespace oidc secure_cookies settings clock ids hint
    now now' drawn p path s r s1 cookie code error secret corr d :
  (∀ a, validate_actor_binding a = Ok a → load (dump a) = Some a) → registry_ok registry →
  table_ok (users d) → linked_ok (externals d) →
  Forall unicode [client_id (config_of oidc p); config_redirect_uri (config_of oidc p); d_state drawn; d_nonce drawn] →
  token_length (d_state drawn) = true → token_length (d_browser drawn) = true →
  now' < now + seconds (attempt_seconds oidc) →
  begin nfkc_safe ipv6_literal lower_text sha256 read_float http_get mono wall dump namespace oidc secure_cookies
    true now drawn p LOGIN None path s = (inl r, s1) →
  let attempt := new_attempt oidc drawn p LOGIN None path (wall 0%nat) in
  let callback browser := callback_route nfkc_safe ipv6_literal lower_text read_float decode_token registry http_get http_post
    mono wall load namespace oidc secure_cookies settings clock ids hint true now' p (d_state drawn) browser cookie code error
    secret corr s1 (Txn d d) in
  let burnt := delete (attempt_key namespace (d_state drawn)) s1 in
  (∃ endpoint q params, location r = Some (endpoint ++ 63%N :: q) ∧ form_decode q = Some params ∧
     (lit "state", d_state drawn) ∈ params ∧ (lit "nonce", d_nonce drawn) ∈ params ∧
     (lit "code_challenge", base64url (sha256 (d_verifier drawn))) ∈ params) ∧
  (let '(fin, s2, t) := callback (sends_back r (browser_cookie secure_cookies) None) in
   s2 = burnt ∧
   match fin with
   | Redirected r' => ∃ identity u c, code = Some c ∧ error = None ∧
       stands_on (safe_url nfkc_safe ipv6_literal lower_text) read_float decode_token http_get http_post wall
         p (config_of oidc p) c attempt identity ∧
       signed_in clock ids settings identity secret u d (durable t) ∧
       location r' = Some (return_path_text path) ∧ sends_back r' (cookie_name secure_cookies) cookie = Some secret
   | Refused e => durable t = d ∨ e = App ExternalLoginFailedError ∧
       ∃ row, durable t = d <| audit ::= λ l, l ++ [row] |> ∧ Audit.outcome row = DENIED
   | Broken e => durable t = d ∧ caught e = false
   end) ∧
  ∀ browser, token_length browser = true → sha256_hex browser ≠ sha256_hex (d_browser drawn) →
    callback (Some browser) = (Refused (App ExternalLoginFailedError), burnt, Txn d d).
Proof.
  intros Hload Hreg Hu Hl Huni Hst Hbr Hx Hb attempt cb burnt.
  apply begin_Ok in Hb as (Hen & Hv & Hc & endpoint & q & -> & _ & Hq).
  assert (Hcons : ∀ browser, token_length browser = true →
    consume_attempt load namespace true now' (d_state drawn) browser p s1 =
      (if bool_decide (browser_hash attempt = sha256_hex browser) then inl attempt else inr ExternalLoginFailedError, burnt)).
  { intros browser Hbl. change p with (attempt_provider attempt). by eapply create_then_consume. }
  split_and!.
  - exists endpoint, q. eexists. split; [done|]. split; [apply (authorization_params_read (config_of oidc p) (d_state drawn) attempt); [exact Huni|apply base64url_unicode|exact Hq]|].
    unfold authorization_params. split_and!; apply elem_of_app; left; [do 4 right; left|do 5 right; left|do 7 right; left].
  - assert (Hcookie : sends_back (NewResponse 303 true [set_browser_cookie oidc secure_cookies (d_browser drawn)]
        (Some (endpoint ++ 63%N :: q)) tt) (browser_cookie secure_cookies) None = Some (d_browser drawn)).
    { unfold sends_back. cbn. by rewrite bool_decide_eq_true_2. }
    rewrite Hcookie. unfold cb, callback_route. cbn [default from_option id]. rewrite Hcons by done.
    rewrite bool_decide_eq_true_2 by done. cbn [intent attempt new_attempt].
    destruct (callback_identity _ _ _ _ _ _ _ _ _ _ _ _ _ _ _) as [identity|e] eqn:Hid.
    + destruct (ExternalSignIn.callback _ _ _ _ _ _ _ _ _ _) as [[sec|e] t] eqn:Hcb; split; [done| |done|].
      * apply callback_Ok in Hcb as (actor & i & -> & Hf).
        apply finish_login in Hf as (_ & u & -> & Hs); [|done..].
        apply callback_identity_Ok in Hid as (c & Hcode & Herr & Hi); [|done].
        exists i, u, c. split_and!; try done. by destruct secure_cookies.
      * destruct (refused_callback clock ids hint settings attempt cookie identity secret corr d e (durable t)) as [Hd|(He & row & Hd & Ho & _)].
        -- unfold run. by rewrite Hcb.
        -- by left.
        -- right. split; [done|]. by exists row.
    + split; [done|]. split; [done|]. by eapply callback_identity_Err.
  - intros browser Hbl Hne. unfold cb, callback_route. cbn [default from_option id]. rewrite Hcons by done.
    rewrite bool_decide_eq_false_2; [done|]. cbn. congruence.
Qed.

Definition demo_drawn : Drawn :=
  Draw demo_secret (lit "a-state-of-twenty-or-more") (lit "n") (lit "v") 70.
Definition demo_oidc : OidcSettings :=
  NewOidcSettings demo_config (NewProviderConfig false [] [] [] false) 600 (FFin 5 0).
Definition demo_begin `{Platform} :=
  begin (λ _, false) (λ _, false) (fmap ascii_lower) id (λ _, FNan) demo_get (λ _, 0) (λ _, seconds 10) demo_dump (lit "test")
    demo_oidc true true 0 demo_drawn GOOGLE LOGIN None TO_SHOP ∅.
Definition demo_redirect `{Platform} : Response unit := match demo_begin.1 with inl r => r | inr _ => no_content end.
Definition demo_callback `{Platform} (browser : option str) :=
  callback_route (λ _, false) (λ _, false) (fmap ascii_lower) (λ _, FNan) (demo_decode (lit "n")) demo_registry demo_get demo_post
    (λ _, 0) (λ _, seconds 10) demo_load (lit "test") demo_oidc true demo_settings (e_clock demo_env) (e_ids demo_env) None
    true 1 GOOGLE (d_state demo_drawn) browser None (Some (lit "c-1")) None (lit "new") (lit "r-1") demo_begin.2 (Txn linked_db linked_db).

Lemma sign_in_handshake_witness :
  let _ := demo_platform in
  let browser := sends_back demo_redirect (browser_cookie true) None in
  match (demo_callback browser).1.1 with
  | Redirected r => sends_back r (cookie_name true) None = Some (lit "new") ∧ location r = Some (lit "/shop")
  | _ => False
  end ∧
  ∃ identity u, signed_in (e_clock demo_env) (e_ids demo_env) demo_settings identity (lit "new") u linked_db
    (durable (demo_callback browser).2).
Proof.
  intros P browser. assert (Hr : demo_begin.1 = inl demo_redirect) by (by vm_compute).
  assert (Hb : demo_begin = (inl demo_redirect, demo_begin.2)) by (rewrite <-Hr; apply surjective_pairing).
  assert (Hend : match (demo_callback browser).1.1 with
    | Redirected r => sends_back r (cookie_name true) None = Some (lit "new") ∧ location r = Some (lit "/shop")
    | _ => False end) by (vm_compute; split; reflexivity).
  split; [exact Hend|]. destruct linked_db_ok as [H1 H2].
  destruct (sign_in_handshake (λ _, false) (λ _, false) (fmap ascii_lower) id (λ _, FNan) (demo_decode (lit "n")) demo_registry
    demo_get demo_post (λ _, 0) (λ _, seconds 10) demo_dump demo_load (lit "test") demo_oidc true demo_settings
    (e_clock demo_env) (e_ids demo_env) None 0 1 demo_drawn GOOGLE TO_SHOP ∅ demo_redirect demo_begin.2 None (Some (lit "c-1"))
    None (lit "new") (lit "r-1") linked_db demo_load_dump demo_registry_ok H1 H2 ltac:(repeat constructor) eq_refl eq_refl
    ltac:(done) Hb) as (_ & Hcb & _).
  clear -Hcb Hend. change (callback_route _ _ _ _ _ _ _ _ _ _ _ _ _ _ _ _ _ _ _ _ _ _ _ _ _ _ _ _ _ _) with (demo_callback browser) in Hcb.
  destruct (demo_callback browser) as [[[r|e|e] s2] t]; cbn [fst snd] in Hend; [|destruct Hend|destruct Hend].
  destruct Hcb as (_ & identity & u & _ & _ & _ & _ & Hs & _). by exists identity, u.
Defined.
