(* ===== verification/Routes.v ===== *)
(** * The routes of identity, profile and administration (api/v1/)

    What each request does: the trusted origin and the session it needs, the
    service it calls on the unit of work, and the response with its cookies. The
    framework parses and bounds paths and queries before, the limits of
    RateLimits.v stand in front of all but the administrators' routes, and the
    routes of external sign-in are in OidcRoutes.v. *)

From S2P Require Import Prelude Regex PyValues CoreTypes AuditTrail Events Outbox Errors Identity Sessions Passwords AuthEvents Challenges Administration AuthService Profile ExternalSignIn Http.

(** ** Bodies *)

Definition DIGITS_6 : regex := rep 6 (Cls [digit]).

(** [EmailInput], [LoginInput], [PasswordInput] and [VerifyInput]. *)
Definition email_input (email : str) : res pyexn str :=
  require (sized 3 320 email) (ValueError "email");; Ok email.
Definition password_input (lo : Z) (password : str) : res pyexn str :=
  require (sized lo 128 password) (ValueError "password");; Ok password.
Definition login_input (email password : str) : res pyexn (str * str) :=
  email ← email_input email; password ← password_input 1 password; Ok (email, password).
Definition verify_input (code password : str) : res pyexn (str * str) :=
  require (fullmatch DIGITS_6 code) (ValueError "code");;
  password ← password_input 15 password;
  Ok (code, password).

(** What a response shows of a row: [ProfileView], [AddressView], [UserView],
    [AuditView]. *)
Record ProfileView := NewProfileView { pv_id : uuid; pv_email : str; pv_display_name : str; pv_phone : option str }.
Record UserView := NewUserView {
  uv_id : uuid; uv_email : str; uv_display_name : str; uv_role : str; uv_is_active : bool;
  uv_email_verified_at : option datetime; uv_created_at : datetime }.
Record AuditView := NewAuditView {
  av_id : uuid; av_actor_kind : ActorKind; av_actor_id : option uuid; av_action : str; av_target_type : str;
  av_target_id : uuid; av_outcome : AuditOutcome; av_occurred_at : datetime; av_correlation_id : str }.

Definition profile_view (u : User.t) : ProfileView :=
  NewProfileView (User.id u) (User.email u) (User.display_name u) (User.phone u).
Definition user_view (u : User.t) : UserView :=
  NewUserView (User.id u) (User.email u) (User.display_name u) (User.role u) (User.is_active u)
    (User.email_verified_at u) (User.created_at u).
Definition audit_view (a : Audit.t) : AuditView :=
  NewAuditView (Audit.id a) (Audit.actor_kind a) (Audit.actor_id a) (Audit.action a) (Audit.target_type a)
    (Audit.target_id a) (Audit.outcome a) (Audit.occurred_at a) (Audit.correlation_id a).

Inductive content :=
| Empty
| ChallengeAccepted (challenge_id : uuid)
| Me (id : uuid) (email display_name : str) (role : Role)
| OneProfile (v : ProfileView)
| OneAddress (id : uuid) (v : AddressInput)
| Addresses (l : list (uuid * AddressInput))
| Identities (l : list ProviderName)
| UserPage (p : APIPage UserView)
| AuditPage (p : APIPage AuditView).

Section routes.
Context `{Platform}.
(** The input of an address: what pydantic strips. *)
Context (trim : str → str).
(** The readings of [utc_now()] and [uuid4()], the cache's answer for a session,
    the secret of a new session, and the settings. *)
Context (clock : nat → datetime) (ids : nat → uuid) (hint : option uuid) (new_secret : str).
Context (settings : AuthSettings) (secure_cookies : bool).

(** What the routes read of a request. *)
Record HttpRequest := NewRequest { origin : option str; session_cookie : option str; request_id : str }.

Inductive route :=
| Register (email : str)
| Verify (challenge_id : uuid) (code password : str)
| SignIn (email password : str)
| MeRoute
| LogoutRoute
| LogoutAllRoute
| ReauthenticateRoute (password : str)
| RequestReset (email : str)
| ConfirmReset (challenge_id : uuid) (code password : str)
| IdentitiesRoute
| RemoveIdentity (provider : ProviderName)
| GetProfile
| PutProfile (data : ProfileInput)
| AddressesRoute
| CreateAddress (data : AddressInput)
| ReplaceAddress (address_id : uuid) (data : AddressInput)
| RemoveAddress (address_id : uuid)
| UsersRoute (page : PageRequest) (role : option Role) (is_active : option bool) (email : option str)
| AccessRoute (target_id : uuid) (role : option Role) (is_active : option bool)
| AuditsRoute (page : PageRequest) (filters : AuditFilters).

Definition method_of (r : route) : str :=
  match r with
  | MeRoute | IdentitiesRoute | GetProfile | AddressesRoute | UsersRoute _ _ _ _ | AuditsRoute _ _ => lit "GET"
  | PutProfile _ | ReplaceAddress _ _ => lit "PUT"
  | RemoveIdentity _ | RemoveAddress _ => lit "DELETE"
  | AccessRoute _ _ _ => lit "PATCH"
  | _ => lit "POST"
  end.

(** [AddressView]: the fields are validated again. *)
Definition address_view (a : Address.t) : res pyexn (uuid * AddressInput) :=
  v ← address_input trim (NewAddressInput (Address.kind a) (Address.recipient a) (Address.line1 a) (Address.line2 a)
        (Address.city a) (Address.region a) (Address.postal_code a) (Address.country_code a) (Address.phone a)
        (Address.is_default a));
  Ok (Address.id a, v).

(** [CurrentActor]; the dependency reads the clock on its own. *)
Definition the_actor (q : HttpRequest) (r : route) : M Actor :=
  current_actor sha256_hex (method_of r) (origin q) (session_cookie q) settings hint (clock 20%nat).
Definition require_origin (q : HttpRequest) : M unit := trusted_origin (origin q) settings.

Definition answer_page {T U} (f : T → U) (c : APIPage U → content) (p : Page T) : M (Response content) :=
  api ← lift (serialize_page p (f <$> items p));
  mret (fresh_body 200 (c api)).

(** ** The handlers *)

Definition empty (r : Response unit) : Response content :=
  NewResponse (status_code r) (no_store r) (set_cookies r) (location r) Empty.

Definition register (q : HttpRequest) (email : str) : M (Response content) :=
  email ← lift (email_input email);
  challenge_id ← begin_registration clock ids settings email (Some (request_id q));
  mret (fresh_body 202 (ChallengeAccepted challenge_id)).

Definition verify (q : HttpRequest) (challenge_id : uuid) (code password : str) : M (Response content) :=
  '(code, password) ← lift (verify_input code password);
  complete_registration clock ids settings challenge_id code password (Some (request_id q));;
  mret (empty no_content_no_store).

Definition sign_in (q : HttpRequest) (email password : str) : M (Response content) :=
  require_origin q;;
  '(email, password) ← lift (login_input email password);
  secret ← login clock ids hint settings email password (session_cookie q) new_secret;
  mret (empty (set_session_cookie no_content secret secure_cookies (session_seconds settings))).

Definition me (q : HttpRequest) : M (Response content) :=
  actor ← the_actor q MeRoute;
  user ← find_user_by_id (actor_user actor);
  match user with
  | None => raise AuthenticationRequiredError
  | Some user => mret (fresh_body 200 (Me (User.id user) (User.email user) (User.display_name user) (actor_role actor)))
  end.

Definition logout_route (q : HttpRequest) : M (Response content) :=
  require_origin q;;
  logout clock hint (session_cookie q);;
  mret (empty (clear_session_cookie no_content secure_cookies)).

Definition logout_all_route (q : HttpRequest) : M (Response content) :=
  actor ← the_actor q LogoutAllRoute;
  logout_all clock actor;;
  mret (empty (clear_session_cookie no_content secure_cookies)).

Definition reauthenticate_route (q : HttpRequest) (password : str) : M (Response content) :=
  actor ← the_actor q (ReauthenticateRoute password);
  password ← lift (password_input 1 password);
  reauthenticate clock actor password;;
  mret (empty no_content_no_store).

Definition request_reset (email : str) : M (Response content) :=
  email ← lift (email_input email);
  identifier ← begin_reset clock ids settings email;
  mret (fresh_body 202 (ChallengeAccepted identifier)).

Definition confirm_reset (q : HttpRequest) (challenge_id : uuid) (code password : str) : M (Response content) :=
  require_origin q;;
  '(code, password) ← lift (verify_input code password);
  complete_reset clock ids settings challenge_id code password (request_id q);;
  mret (empty (clear_session_cookie no_content secure_cookies)).

Definition identities (q : HttpRequest) : M (Response content) :=
  actor ← the_actor q IdentitiesRoute;
  l ← list_identities clock actor;
  mret (fresh_body 200 (Identities l)).

Definition remove_identity (q : HttpRequest) (provider : ProviderName) : M (Response content) :=
  actor ← the_actor q (RemoveIdentity provider);
  unlink clock ids settings actor provider (request_id q);;
  mret (empty no_content_no_store).

Definition get_profile (q : HttpRequest) : M (Response content) :=
  actor ← the_actor q GetProfile;
  user ← authorize (clock 0%nat) (clock 1%nat) actor PROFILE_WRITE None;
  mret (fresh_body 200 (OneProfile (profile_view user))).

Definition put_profile (q : HttpRequest) (payload : ProfileInput) : M (Response content) :=
  actor ← the_actor q (PutProfile payload);
  payload ← lift (profile_input trim (p_display_name payload) (p_phone payload));
  user ← update_profile clock actor payload;
  mret (fresh_body 200 (OneProfile (profile_view user))).

Definition addresses_route (q : HttpRequest) : M (Response content) :=
  actor ← the_actor q AddressesRoute;
  rows ← list_addresses clock actor;
  views ← lift (traverse address_view rows);
  mret (fresh_body 200 (Addresses views)).

Definition create_address (q : HttpRequest) (payload : AddressInput) : M (Response content) :=
  actor ← the_actor q (CreateAddress payload);
  payload ← lift (address_input trim payload);
  row ← save_address clock ids actor payload None;
  '(i, v) ← lift (address_view row);
  mret (fresh_body 201 (OneAddress i v)).

Definition replace_address (q : HttpRequest) (address_id : uuid) (payload : AddressInput) : M (Response content) :=
  actor ← the_actor q (ReplaceAddress address_id payload);
  payload ← lift (address_input trim payload);
  row ← save_address clock ids actor payload (Some address_id);
  '(i, v) ← lift (address_view row);
  mret (fresh_body 200 (OneAddress i v)).

Definition remove_address (q : HttpRequest) (address_id : uuid) : M (Response content) :=
  actor ← the_actor q (RemoveAddress address_id);
  delete_address clock actor address_id;;
  mret (empty no_content_no_store).

Definition users_route (q : HttpRequest) (page : PageRequest) (role : option Role) (is_active : option bool)
    (email : option str) : M (Response content) :=
  actor ← the_actor q (UsersRoute page role is_active email);
  result ← list_users clock normalize actor page role is_active email;
  answer_page user_view UserPage result.

Definition access (q : HttpRequest) (target_id : uuid) (role : option Role) (is_active : option bool)
    : M (Response content) :=
  actor ← the_actor q (AccessRoute target_id role is_active);
  '(role, is_active) ← lift (access_input role is_active);
  change_access float_text clock ids settings actor target_id role is_active (request_id q);;
  mret (empty no_content_no_store).

(** The audit records, by id. *)
Definition audit_table (d : db) : table Audit.t := list_to_map ((λ a, (Audit.id a, a)) <$> audit d).

Definition audits (q : HttpRequest) (page : PageRequest) (filters : AuditFilters) : M (Response content) :=
  actor ← the_actor q (AuditsRoute page filters);
  authorize (clock 0%nat) (clock 1%nat) actor AUDIT_READ None;;
  filters ← match validate_filters filters with Ok f => mret f | Err _ => raise InvalidAuditFiltersError end;
  d ← get;
  result ← lift (query_records filters page (audit_table d));
  answer_page audit_view AuditPage result.

Definition handle (r : route) (q : HttpRequest) : M (Response content) :=
  match r with
  | Register email => register q email
  | Verify i code password => verify q i code password
  | SignIn email password => sign_in q email password
  | MeRoute => me q
  | LogoutRoute => logout_route q
  | LogoutAllRoute => logout_all_route q
  | ReauthenticateRoute password => reauthenticate_route q password
  | RequestReset email => request_reset email
  | ConfirmReset i code password => confirm_reset q i code password
  | IdentitiesRoute => identities q
  | RemoveIdentity p => remove_identity q p
  | GetProfile => get_profile q
  | PutProfile data => put_profile q data
  | AddressesRoute => addresses_route q
  | CreateAddress data => create_address q data
  | ReplaceAddress i data => replace_address q i data
  | RemoveAddress i => remove_address q i
  | UsersRoute page role active email => users_route q page role active email
  | AccessRoute i role active => access q i role active
  | AuditsRoute page filters => audits q page filters
  end.
End routes.
