(* ===== verification/RouteSpecs.v ===== *)
(** * What the routes guarantee

    The boundary of origins and sessions, what responses tell browsers, and the
    life of a session from signing in to signing out. *)

From S2P Require Import Prelude Regex PyValues CoreTypes AuditTrail Events Outbox Errors Identity Sessions Passwords AuthEvents Challenges Administration AuthService Profile ExternalSignIn Histories Http Routes.

Definition safe_method (r : route) : bool := bool_decide (method_of r ∈ lit <$> ["GET"; "HEAD"; "OPTIONS"]).

(** Routes with the dependency [CurrentActor], those that need a trusted origin,
    and those of administrators. *)
Definition personal (r : route) : bool :=
  match r with
  | Register _ | Verify _ _ _ | SignIn _ _ | LogoutRoute | RequestReset _ | ConfirmReset _ _ _ => false
  | _ => true
  end.
Definition guarded (r : route) : bool :=
  match r with
  | SignIn _ _ | LogoutRoute | ConfirmReset _ _ _ => true
  | r => personal r && negb (safe_method r)
  end.
Definition administrative (r : route) : bool :=
  match r with UsersRoute _ _ _ _ | AccessRoute _ _ _ | AuditsRoute _ _ => true | _ => false end.

Section routes.
Context `{Platform} (trim : str → str).
Context (clock : nat → datetime) (ids : nat → uuid) (hint : option uuid) (new_secret : str).
Context (settings : AuthSettings) (secure_cookies : bool).
#[local] Abbreviation handle := (handle trim clock ids hint new_secret settings secure_cookies).
#[local] Abbreviation the_actor := (the_actor clock hint settings).

Definition trusted (q : HttpRequest) : Prop := ∃ o, origin q = Some o ∧ o ∈ allowed_origins settings.

Lemma trusted_origin_run q t :
  (trusted q ∧ trusted_origin (origin q) settings t = (Ok tt, t)) ∨
  (¬ trusted q ∧ trusted_origin (origin q) settings t = (Err (App UntrustedOriginError), t)).
Proof using Type.
  unfold trusted_origin, trusted. destruct (origin q) as [o|]; [|right; split; [|done]; by intros (? & ? & _)].
  case_bool_decide; [left|right]; (split; [|done]); [eauto|]. intros (o' & [= <-] & ?). done.
Qed.

Lemma require_origin_run q t : require_origin settings q t = trusted_origin (origin q) settings t.
Proof using Type. done. Qed.

(** The dependency of personal routes, on every branch. *)
Lemma the_actor_run q r t :
  table_ok (sessions (pending t)) → hashes_unique (sessions (pending t)) →
  (safe_method r = false ∧ ¬ trusted q ∧ the_actor q r t = (Err (App UntrustedOriginError), t)) ∨
  ((safe_method r = true ∨ trusted q) ∧
   ((∃ secret a, session_cookie q = Some secret ∧ authenticates sha256_hex (pending t) (clock 20%nat) secret a ∧
       the_actor q r t = (Ok a, t)) ∨
    ((∀ secret a, session_cookie q = Some secret → ¬ authenticates sha256_hex (pending t) (clock 20%nat) secret a) ∧
       the_actor q r t = (Err (App AuthenticationRequiredError), t)))).
Proof using Type.
  intros Hok Hu. unfold Routes.the_actor, current_actor. fold (safe_method r).
  assert (Hres : (∃ secret a, session_cookie q = Some secret ∧ authenticates sha256_hex (pending t) (clock 20%nat) secret a ∧
       resolve sha256_hex hint (clock 20%nat) (session_cookie q) t = (Ok a, t)) ∨
    ((∀ secret a, session_cookie q = Some secret → ¬ authenticates sha256_hex (pending t) (clock 20%nat) secret a) ∧
       resolve sha256_hex hint (clock 20%nat) (session_cookie q) t = (Err (App AuthenticationRequiredError), t))).
  { destruct t as [d dd]. cbn in *. destruct (resolve _ _ _ _ _) as [[a|e] t'] eqn:Hr.
    - left. destruct (session_cookie q) as [secret|]; [|done].
      apply resolve_authenticates in Hr as [-> Ha]; [|done..]. eauto 10.
    - right. pose proof Hr as [-> ->]%resolve_refuses. split; [|done]. intros secret a Hs Ha. rewrite Hs in Hr.
      assert (Hx : resolve sha256_hex hint (clock 20%nat) (Some secret) (Txn d dd) = (Ok a, Txn d dd))
        by (by apply resolve_authenticates). congruence. }
  unfold mbind at 1 2 3, M_bind at 1 2 3. unfold safe_method in *. case_bool_decide.
  - right. split; [by left|]. exact Hres.
  - destruct (trusted_origin_run q t) as [[Ht ->]|[Ht ->]]; [right; split; [by right|exact Hres]|by left].
Qed.

(** A personal route first finds its actor. *)
Lemma personal_handle r q : personal r = true → ∃ f, handle r q = (the_actor q r ≫= f).
Proof using Type. destruct r; try done; intros _; eexists; reflexivity. Qed.

Lemma run_refused {A B} (m : M A) (f : A → M B) d e : m (Txn d d) = (Err e, Txn d d) → run (m ≫= f) d = (Err e, d).
Proof using Type. intros Hm. unfold run, mbind, M_bind. by rewrite Hm. Qed.

(** An administrator's session. *)
Definition administers (d : db) (q : HttpRequest) : Prop :=
  ∃ secret a u, session_cookie q = Some secret ∧ authenticates sha256_hex d (clock 20%nat) secret a ∧
    users d !! actor_user a = Some u ∧ is_admin u = true.

Lemma run_bind_Ok {A B} (m : M A) (f : A → M B) d b d' :
  run (m ≫= f) d = (Ok b, d') → ∃ a t, m (Txn d d) = (Ok a, t) ∧ ∃ t', f a t = (Ok b, t') ∧ d' = durable t'.
Proof using Type.
  unfold run, mbind, M_bind. destruct (m (Txn d d)) as [[a|e] t]; [|done].
  destruct (f a t) as [r t'] eqn:Hf. intros [= -> <-]. eauto 10.
Qed.

Lemma the_actor_Ok r q t a t' :
  table_ok (sessions (pending t)) → hashes_unique (sessions (pending t)) → the_actor q r t = (Ok a, t') →
  t' = t ∧ ∃ secret, session_cookie q = Some secret ∧ authenticates sha256_hex (pending t) (clock 20%nat) secret a.
Proof using Type.
  intros Hok Hu Ha. destruct (the_actor_run q r t Hok Hu) as [(_ & _ & He)|[_ [(secret & a' & Hc & Hauth & He)|[_ He]]]];
    rewrite Ha in He; try done. injection He as <- ->. eauto.
Qed.

Ltac found_authorize Ha :=
  match goal with H : authorize _ _ _ _ _ _ = _ |- _ => do 7 eexists; split; [exact Ha|split; [|exact H]]; done end.

Lemma administrative_Ok r q d resp d' :
  administrative r = true → table_ok (sessions d) → hashes_unique (sessions d) →
  run (handle r q) d = (Ok resp, d') → administers d q.
Proof using Type.
  intros Hr Hok Hu Hrun.
  assert (Ha : ∃ a p recent now later u t, the_actor q r (Txn d d) = (Ok a, Txn d d) ∧ p ≠ PROFILE_WRITE ∧
    authorize now later a p recent (Txn d d) = (Ok u, t)).
  { destruct r; try done; apply run_bind_Ok in Hrun as (a & t & Ha & t' & Hf & ->);
      pose proof Ha as [-> _]%the_actor_Ok; try done.
    - unfold list_users in Hf. M_inv. found_authorize Ha.
    - M_inv. destruct x as [role' active']. M_inv. unfold change_access in *. M_inv. found_authorize Ha.
    - M_inv. found_authorize Ha. }
  destruct Ha as (a & p & recent & now & later & u & t & Ha & Hp & Hauth).
  apply authorize_Ok in Hauth as [_ (s & role & Hus & _ & Hact & _ & _ & _ & Hrole & Hperm & _)].
  apply the_actor_Ok in Ha as (_ & secret & Hc & Hauth); [|done..]. exists secret, a, u. split_and!; [done..|]. by eapply admin_permits.
Qed.
End routes.

(** The boundary of the routes. A state-changing request of a signed-in route -
    and signing in, signing out and confirming a reset - from an origin that is
    not trusted is refused and changes nothing. A personal route answers only
    for a secret that stands for an actor, and refuses any other without a
    trace. And the routes of administrators answer administrators only. *)
Lemma boundary_enforced `{Platform} trim clock ids hint new_secret settings secure_cookies r q d :
  table_ok (sessions d) → hashes_unique (sessions d) →
  let outcome := run (handle trim clock ids hint new_secret settings secure_cookies r q) d in
  let known := ∃ secret a, session_cookie q = Some secret ∧ authenticates sha256_hex d (clock 20%nat) secret a in
  (guarded r = true → ¬ trusted settings q → outcome = (Err (App UntrustedOriginError), d)) ∧
  (personal r = true → ¬ known → safe_method r = true ∨ trusted settings q →
     outcome = (Err (App AuthenticationRequiredError), d)) ∧
  (∀ resp d', outcome = (Ok resp, d') →
     (personal r = true → known) ∧ (administrative r = true → administers clock d q)).
Proof.
  intros Hok Hu outcome known. subst outcome known. split_and!.
  - intros Hg Hn. destruct (personal r) eqn:Hp.
    + destruct (personal_handle trim clock ids hint new_secret settings secure_cookies r q Hp) as [f ->]. apply run_refused.
      destruct (the_actor_run clock hint settings q r (Txn d d) Hok Hu) as [(_ & _ & He)|[[Hs|Ht] _]]; [done| |done].
      exfalso. unfold guarded in Hg. destruct r; by rewrite ?Hp, ?Hs in Hg.
    + destruct r; try done; cbn [handle]; apply run_refused; rewrite require_origin_run;
        by destruct (trusted_origin_run settings q (Txn d d)) as [[? _]|[_ ->]].
  - intros Hp Hn Hs. destruct (personal_handle trim clock ids hint new_secret settings secure_cookies r q Hp) as [f ->]. apply run_refused.
    destruct (the_actor_run clock hint settings q r (Txn d d) Hok Hu) as [(Hs' & Ht & _)|[_ [(secret & a & ? & ? & _)|[_ He]]]]; [|by destruct Hn; eauto|done].
    destruct Hs as [Hs|Hs]; [congruence|done].
  - intros resp d' Hrun. split.
    + intros Hp. destruct (personal_handle trim clock ids hint new_secret settings secure_cookies r q Hp) as [f Hf]. rewrite Hf in Hrun.
      apply run_bind_Ok in Hrun as (a & t & Ha & _). apply the_actor_Ok in Ha as (_ & secret & Hc & Ha); [|done..]. eauto.
    + intros Hr. by eapply administrative_Ok.
Qed.

(** The handlers that ask for a code, and spend one on a new account, leave the
    origin to the limit in front of them (Server.v). *)
Lemma open_to_any_origin `{Platform} trim clock ids hint new_secret settings secure_cookies email i code password q o c :
  let go r q := handle trim clock ids hint new_secret settings secure_cookies r q in
  let q' := NewRequest o c (request_id q) in
  go (Register email) q' = go (Register email) q ∧ go (Verify i code password) q' = go (Verify i code password) q ∧
  go (RequestReset email) q' = go (RequestReset email) q.
Proof. by split_and!. Qed.

(** ** Responses *)

Section login.
Context `{Platform} (clock : nat → datetime) (ids : nat → uuid) (hint : option uuid) (settings : AuthSettings).

(** Who is signed in, and how the session is made. *)
Lemma issue_Ok now i secret u t secret' t' :
  issue sha256_hex settings now i secret u t = (Ok secret', t') →
  secret' = secret ∧ active_verified u = true ∧
  let s := AuthSession.New i (User.id u) (sha256_hex secret) now now (now + seconds (session_seconds settings)) None in
  sessions (pending t) !! i = None ∧
  (∀ k r, sessions (pending t) !! k = Some r → AuthSession.secret_hash r ≠ sha256_hex secret) ∧
  t' = Txn (pending t <| sessions := put s (sessions (pending t)) |>) (durable t).
Proof using Type.
  unfold issue. intros Hi. M_inv.
  match goal with H : insert_session _ _ = Ok _ |- _ => apply insert_session_Ok in H as (-> & Hn & Hu) end. by split_and!.
Qed.

(** Asking for the actor of a secret that may stand for nobody. *)
Lemma optional_actor now secret t o t' :
  catching AuthenticationRequiredError (a ← resolve sha256_hex hint now secret; mret (Some a)) (mret None) t = (Ok o, t') →
  t' = t ∧ ∀ a, o = Some a → resolve sha256_hex hint now secret t = (Ok a, t).
Proof using Type.
  unfold catching, mbind, M_bind. pose proof (resolve_frame sha256_hex hint now secret t) as Hf.
  destruct (resolve _ _ _ _ t) as [[a|[c|e]] t1]; cbn in Hf; subst t1; cbn; [|case_bool_decide; [|done]|done];
    intros [= <- <-]; naive_solver.
Qed.

Lemma resolve_authenticates_2 now secret t a :
  table_ok (sessions (pending t)) → hashes_unique (sessions (pending t)) →
  resolve sha256_hex hint now (Some secret) t = (Ok a, t) → authenticates sha256_hex (pending t) now secret a.
Proof using Type. destruct t as [d dd]. intros Hok Hu Hr. by apply resolve_authenticates in Hr as [_ Ha]. Qed.

Lemma found_by_email email d u :
  catching InvalidEmailError (find_user_by_email normalize email) (mret None) (Txn d d) = (Ok (Some u), Txn d d) →
  ∃ k, users d !! k = Some u ∧ normalize email = Some (User.email u).
Proof using Type.
  unfold catching. destruct (find_user_by_email _ _ _) as [[o|[c|e]] t1] eqn:Hf; [|case_bool_decide; [|done]|done]; [|done].
  intros [= -> ->]. unfold find_user_by_email, normalize_email in Hf. apply M_bind_Ok in Hf as (e & t & He & Hf).
  destruct (normalize email) as [e'|]; [|done]. injection He as -> <-.
  unfold mbind, M_bind, get in Hf. injection Hf as Hf. apply find_row_Some in Hf as [[k Hk] Hu%bool_decide_eq_true].
  exists k. by rewrite Hu.
Qed.

Lemma login_secret email password previous secret t secret' t' :
  login clock ids hint settings email password previous secret t = (Ok secret', t') → secret' = secret.
Proof using Type.
  unfold login. intros Hl. M_inv. destruct x0 as [u|]; [|done]. M_inv.
  match goal with H : issue _ _ _ _ _ _ _ = _ |- _ => by apply issue_Ok in H as [-> _] end.
Qed.

(** What signing in leaves behind: the new session, unless the browser sent its
    very secret along. *)
Lemma login_Ok email password previous secret d secret' t' :
  identity_ok d → (∀ p, previous = Some p → sha256_hex p ≠ sha256_hex secret) →
  login clock ids hint settings email password previous secret (Txn d d) = (Ok secret', t') →
  secret' = secret ∧ ∃ u, users (durable t') !! User.id u = Some u ∧ active_verified u = true ∧
    normalize email = Some (User.email u) ∧ verify_password argon_verify dummy_hash (credentials d !! User.id u) password = true ∧
    sessions (durable t') !! ids 0%nat =
      Some (AuthSession.New (ids 0%nat) (User.id u) (sha256_hex secret) (clock 0%nat) (clock 0%nat)
              (clock 0%nat + seconds (session_seconds settings)) None).
Proof using Type.
  intros Hok Hprev Hl. unfold login in Hl. M_inv.
  assert (Ht : t = Txn d d).
  { unfold catching in Hx. pose proof (find_user_by_email_frame normalize email (Txn d d)) as Hf.
    destruct (find_user_by_email _ _ _) as [[o|[c|e]] t2]; cbn in Hf; subst t2; [by injection Hx as _ <-| |done].
    case_bool_decide; [by injection Hx as _ <-|done]. }
  subst t. assert (Hu : t0 = Txn d d ∧ ∀ u, x0 = Some u → users d !! User.id u = Some u ∧ normalize email = Some (User.email u)).
  { destruct x as [u|]; [|by M_inv]. unfold find_user_by_id in Hx0. M_inv. split; [done|]. intros u' Hu'.
    destruct Hok as [Hk _]. rewrite (Hk _ _ Hu' : User.id u' = _). split; [done|].
    destruct (found_by_email _ _ _ Hx) as (k & Hk1 & Hn). rewrite (Hk _ _ Hk1 : User.id u = _) in Hu'.
    rewrite Hk1 in Hu'. injection Hu' as <-. done. }
  destruct Hu as [-> Hu]. assert (t1 = Txn d d) as ->.
  { destruct x0; unfold get_credential in Hx1; by M_inv. }
  destruct x0 as [u|]; [|done]. destruct (Hu u eq_refl) as [Hus Hem]. M_inv.
  assert (Hc : users (pending t0) = users d ∧ sessions (pending t0) = sessions d).
  { destruct x1 as [h|]; [|by M_inv]. destruct (needs_rehash _ _); [|by M_inv]. M_inv.
    unfold hash_password, validate_password, set_credential in *. M_inv. done. }
  destruct Hc as [Hcu Hcs]. apply issue_Ok in Hx4 as (-> & Hav & Hn & Hfresh & ->).
  split; [done|]. exists u. cbn [durable]. set (s := AuthSession.New _ _ _ _ _ _ _) in *.
  assert (Hid : identity_ok (pending t0 <| sessions := put s (sessions (pending t0)) |>)).
  { assert (Hok0 : identity_ok (pending t0)) by (unfold identity_ok in *; by rewrite Hcu, Hcs).
    refine (kept_ok _ _ (later_put_session (pending t0) s _ Hok0)). intros _.
    change (AuthSession.id s) with (ids 0%nat). by rewrite Hn. }
  assert (Hkeep : pending t2 = pending t0 <| sessions := put s (sessions (pending t0)) |> ∨
    ∃ a, actor_session a ≠ ids 0%nat ∧ pending t2 = pending t0 <| sessions := update_where (revocable (actor_user a) (Some (actor_session a)))
      (λ s, s <| AuthSession.revoked_at := Some (clock 2%nat) |>) (put s (sessions (pending t0))) |>).
  { destruct previous as [p|]; [|M_inv; by left]. M_inv.
    match goal with H : catching _ _ _ _ = (Ok ?o, _) |- _ => apply optional_actor in H as [-> Ho]; destruct o as [a|] end; M_inv; [|by left].
    right. exists a. match goal with H : revoke _ _ _ _ = _ |- _ => apply revoke_Ok in H as -> end. split; [|done].
    destruct Hid as (_ & _ & Hid1 & Hid2).
    destruct (resolve_authenticates_2 _ _ (Txn _ _) _ Hid1 Hid2 (Ho a eq_refl)) as (s' & u' & role & _ & Hs' & Hh & _ & _ & _ & _ & _ & ->).
    cbn. intros He. rewrite He in Hs'. cbn in Hs'. unfold put in Hs'. change (row_id s) with (ids 0%nat) in Hs'.
    rewrite lookup_insert_eq in Hs'. injection Hs' as <-. by apply (Hprev p). }
  assert (Hs : sessions (pending t2) !! ids 0%nat = Some s ∧ users (pending t2) = users d).
  { assert (Hput : put s (sessions (pending t0)) !! ids 0%nat = Some s) by apply lookup_insert_eq.
    destruct Hkeep as [->|(a & Ha & ->)]; [by split|]. split; [|done].
    change (update_where (revocable (actor_user a) (Some (actor_session a)))
      (λ s, s <| AuthSession.revoked_at := Some (clock 2%nat) |>) (put s (sessions (pending t0))) !! ids 0%nat = Some s).
    rewrite lookup_update_where, Hput. cbn [fmap option_fmap option_map]. unfold revocable.
    rewrite (bool_decide_eq_false_2 (AuthSession.id s = actor_session a)) by (cbn; congruence). by rewrite andb_false_r. }
  apply andb_true_iff in Hx2 as [Hpw _]. unfold get_credential in Hx1. M_inv.
  destruct Hs as [-> ->]. by split_and!.
Qed.
End login.

Section session.
Context `{Platform} (trim : str → str) (clock : nat → datetime) (ids : nat → uuid) (hint : option uuid) (new_secret : str).
Context (settings : AuthSettings) (secure_cookies : bool).
#[local] Abbreviation handle := (handle trim clock ids hint new_secret settings secure_cookies).

Lemma the_actor_known r q t secret a :
  table_ok (sessions (pending t)) → hashes_unique (sessions (pending t)) → session_cookie q = Some secret →
  authenticates sha256_hex (pending t) (clock 20%nat) secret a → safe_method r = true ∨ trusted settings q →
  the_actor clock hint settings q r t = (Ok a, t).
Proof using Type.
  intros Hok Hu Hc Ha Hs. destruct (the_actor_run clock hint settings q r t Hok Hu)
    as [(Hs' & Ht & _)|[_ [(secret' & a' & Hc' & Ha' & ->)|[Hn _]]]].
  - destruct Hs as [Hs|Hs]; [congruence|done].
  - rewrite Hc in Hc'. injection Hc' as <-. destruct t as [d dd]. cbn in *.
    assert (Hx : ∀ a, authenticates sha256_hex d (clock 20%nat) secret a →
      resolve sha256_hex hint (clock 20%nat) (Some secret) (Txn d dd) = (Ok a, Txn d dd)).
    { intros b Hb. by apply resolve_authenticates. }
    pose proof (Hx _ Ha). pose proof (Hx _ Ha'). congruence.
  - by destruct (Hn _ _ Hc Ha).
Qed.

(** What a sign-in answers and leaves behind. *)
Lemma sign_in_Ok email password q resp d d1 :
  identity_ok d → (∀ p, session_cookie q = Some p → sha256_hex p ≠ sha256_hex new_secret) →
  run (handle (SignIn email password) q) d = (Ok resp, d1) →
  trusted settings q ∧ identity_ok d1 ∧
  resp = empty (set_session_cookie no_content new_secret secure_cookies (session_seconds settings)) ∧
  ∃ u, users d1 !! User.id u = Some u ∧ active_verified u = true ∧ normalize email = Some (User.email u) ∧
    verify_password argon_verify dummy_hash (credentials d !! User.id u) password = true ∧
    sessions d1 !! ids 0%nat =
      Some (AuthSession.New (ids 0%nat) (User.id u) (sha256_hex new_secret) (clock 0%nat) (clock 0%nat)
              (clock 0%nat + seconds (session_seconds settings)) None).
Proof using Type.
  intros Hok Hp Hrun. cbn [Routes.handle] in Hrun. unfold sign_in in Hrun.
  apply run_bind_Ok in Hrun as ([] & t & Ho & t' & Hrun & ->). rewrite require_origin_run in Ho.
  destruct (trusted_origin_run settings q (Txn d d)) as [[Ht He]|[_ He]]; rewrite He in Ho; [|done]. injection Ho as <-.
  M_inv. destruct x as [email' password']. M_inv.
  assert (email' = email ∧ password' = password) as [-> ->].
  { unfold login_input, email_input, password_input in *. res_inv. by simplify_eq. }
  match goal with Hl : login _ _ _ _ _ _ _ _ _ = _ |- _ => rename Hl into Hlog end.
  pose proof (evolves_run later _ d (evolves_login (Txn d d) clock ids hint settings email password (session_cookie q) new_secret)) as Hev.
  unfold run in Hev. rewrite Hlog in Hev. apply login_Ok in Hlog as (-> & Hu); [|done..].
  split_and!; [done|by apply Hev|done|done].
Qed.

(** Signing out with a secret that stands for an actor ends its session. *)
Lemma logout_known q d a secret s :
  identity_ok d → trusted settings q → session_cookie q = Some secret →
  authenticates sha256_hex d (clock 0%nat) secret a → sessions d !! actor_session a = Some s →
  AuthSession.secret_hash s = sha256_hex secret →
  ∃ d', run (handle LogoutRoute q) d = (Ok (empty (clear_session_cookie no_content secure_cookies)), d') ∧
    identity_ok d' ∧ ∀ now b, ¬ authenticates sha256_hex d' now secret b.
Proof using Type.
  intros Hok Ht Hc Ha Hs Hh. pose proof Hok as (_ & _ & Hs1 & Hs2).
  set (d' := d <| sessions := update_where (revocable (actor_user a) (Some (actor_session a)))
      (λ s, s <| AuthSession.revoked_at := Some (clock 1%nat) |>) (sessions d) |>).
  assert (Hl : logout clock hint (session_cookie q) (Txn d d) = (Ok tt, Txn d' d')).
  { rewrite Hc. unfold logout, catching, mbind, M_bind.
    assert (resolve sha256_hex hint (clock 0%nat) (Some secret) (Txn d d) = (Ok a, Txn d d)) as ->
      by (by apply resolve_authenticates). done. }
  assert (Hok' : identity_ok d').
  { pose proof (evolves_run later _ d (evolves_logout (Txn d d) clock hint (session_cookie q))) as Hev.
    unfold run in Hev. rewrite Hl in Hev. by apply Hev. }
  exists d'. split_and!; [|done|].
  - cbn [Routes.handle]. unfold logout_route, run, mbind, M_bind. rewrite require_origin_run.
    destruct (trusted_origin_run settings q (Txn d d)) as [[_ ->]|[? _]]; [|done]. by rewrite Hl.
  - intros now b (s' & u' & role' & _ & Hs' & Hh' & Hr' & _).
    assert (Hk : sessions d' !! actor_session a =
      Some (if revocable (actor_user a) (Some (actor_session a)) s then s <| AuthSession.revoked_at := Some (clock 1%nat) |> else s)).
    { change (sessions d') with (update_where (revocable (actor_user a) (Some (actor_session a)))
        (λ s, s <| AuthSession.revoked_at := Some (clock 1%nat) |>) (sessions d)). by rewrite lookup_update_where, Hs. }
    destruct Ha as (s0 & u & role & _ & Hs0 & _ & Hr & _ & Hus & _ & _ & ->). cbn [actor_user actor_session] in *.
    rewrite Hs in Hs0. injection Hs0 as <-. destruct Hok as (Hu1 & _).
    assert (Hrev : revocable (User.id u) (Some (AuthSession.id s)) s = true).
    { unfold revocable. rewrite (Hu1 _ _ Hus : User.id u = _), Hr. by rewrite !bool_decide_eq_true_2. }
    rewrite Hrev in Hk. destruct Hok' as (_ & _ & _ & Hs2').
    assert (AuthSession.id s = AuthSession.id s') as Heq by (apply (Hs2' _ _ _ _ Hk Hs'); cbn; congruence).
    rewrite <-Heq, Hk in Hs'. injection Hs' as <-. done.
Qed.
End session.

(** The cookies a route sets. *)
Definition cookies_of (new_secret : str) (settings : AuthSettings) (secure_cookies : bool) (r : route) : list Cookie :=
  match r with
  | SignIn _ _ => [NewCookie (cookie_name secure_cookies) (Some new_secret) (session_seconds settings) secure_cookies]
  | LogoutRoute | LogoutAllRoute | ConfirmReset _ _ _ => [NewCookie (cookie_name secure_cookies) None 0 secure_cookies]
  | _ => []
  end.

(** Every answer of a route. *)
Lemma responses_shape `{Platform} trim clock ids hint new_secret settings secure_cookies r q d resp d' :
  run (handle trim clock ids hint new_secret settings secure_cookies r q) d = (Ok resp, d') →
  no_store resp = true ∧ status_code resp ∈ [200; 201; 202; 204] ∧ location resp = None ∧
  set_cookies resp = cookies_of new_secret settings secure_cookies r.
Proof.
  intros Hrun. unfold run in Hrun. destruct (handle _ _ _ _ _ _ _ r q (Txn d d)) as [x t] eqn:Hh. injection Hrun as -> _.
  destruct r; cbn [handle] in Hh;
    unfold register, verify, sign_in, me, logout_route, logout_all_route, reauthenticate_route, request_reset, confirm_reset,
      identities, remove_identity, get_profile, put_profile, addresses_route, create_address, replace_address, remove_address,
      users_route, access, audits, answer_page in Hh; M_inv;
    repeat match goal with p : (_ * _)%type |- _ => destruct p end; M_inv;
    repeat match goal with H : context [match ?o with Some _ => _ | None => _ end] |- _ => destruct o; M_inv end;
    try (split_and!; [reflexivity|set_solver|reflexivity|reflexivity]).
  match goal with Hl : login _ _ _ _ _ _ _ _ _ = _ |- _ => apply login_secret in Hl as -> end.
  split_and!; [reflexivity|set_solver|reflexivity|reflexivity].
Qed.

(** What a route sends on success. Whatever the request did, its response is
    marked as not to be stored and its status is a success; the session cookie
    of a sign-in carries the new secret for the life of a session and is secure
    where cookies are; signing out, everywhere or here, and confirming a reset
    delete it; and no other route touches a cookie or redirects. *)
Theorem responses_private `{Platform} trim clock ids hint new_secret settings secure_cookies r q d resp d' :
  run (handle trim clock ids hint new_secret settings secure_cookies r q) d = (Ok resp, d') →
  no_store resp = true ∧ status_code resp ∈ [200; 201; 202; 204] ∧ location resp = None ∧
  set_cookies resp = cookies_of new_secret settings secure_cookies r.
Proof. apply responses_shape. Qed.

(** C20: A browser's session from end to end. An answered sign-in came from a trusted
    origin with the password of an active, verified account, and the browser then
    holds the new secret. Until the session expires [GET /auth/me] with that
    cookie shows this account and changes nothing; signing out with it deletes
    the cookie; and from then on no personal route answers the secret, however
    it is kept and whatever the time. *)
Theorem browser_session `{Platform} trim clock ids hint new_secret settings secure_cookies q email password resp d d1 :
  identity_ok d → fullmatch SECRET_PATTERN new_secret = true →
  (∀ p, session_cookie q = Some p → sha256_hex p ≠ sha256_hex new_secret) →
  run (handle trim clock ids hint new_secret settings secure_cookies (SignIn email password) q) d = (Ok resp, d1) →
  let name := cookie_name secure_cookies in
  let cookie := sends_back resp name (session_cookie q) in
  let in_time (now : datetime) := now < clock 0%nat + seconds (session_seconds settings) in
  trusted settings q ∧ cookie = Some new_secret ∧ ∃ u,
    users d1 !! User.id u = Some u ∧ active_verified u = true ∧ normalize email = Some (User.email u) ∧
    verify_password argon_verify dummy_hash (credentials d !! User.id u) password = true ∧
    ∀ role, role_of (User.role u) = Some role → ∀ clock' ids' hint' secret' q', session_cookie q' = cookie →
      let handle' := handle trim clock' ids' hint' secret' settings secure_cookies in
      (in_time (clock' 20%nat) → run (handle' MeRoute q') d1 =
         (Ok (fresh_body 200 (Me (User.id u) (User.email u) (User.display_name u) role)), d1)) ∧
      (in_time (clock' 0%nat) → trusted settings q' →
       ∃ resp' d2, run (handle' LogoutRoute q') d1 = (Ok resp', d2) ∧ sends_back resp' name cookie = None ∧
         ∀ clock2 ids2 hint2 secret2 r q2, session_cookie q2 = Some new_secret → personal r = true →
           safe_method r = true ∨ trusted settings q2 →
           run (handle trim clock2 ids2 hint2 secret2 settings secure_cookies r q2) d2
           = (Err (App AuthenticationRequiredError), d2)).
Proof.
  intros Hok Hm Hp Hrun name cookie in_time.
  apply sign_in_Ok in Hrun as (Ht & Hok1 & -> & u & Hu & Ha & He & Hpw & Hs); [|done..].
  assert (Hc : cookie = Some new_secret).
  { unfold cookie, sends_back. cbn. by rewrite bool_decide_eq_true_2. }
  split_and!; [done..|]. exists u. split_and!; [done..|]. intros role Hr clock' ids' hint' secret' q' Hq handle'.
  rewrite Hc in Hq.
  set (s := AuthSession.New _ _ _ _ _ _ _) in Hs.
  assert (Hauth : ∀ now, in_time now → authenticates sha256_hex d1 now new_secret (NewActor (User.id u) (ids 0%nat) role (clock 0%nat))).
  { intros now Hn. exists s, u, role. by split_and!. }
  pose proof Hok1 as (_ & _ & Hs1 & Hs2). split.
  - intros Hn. unfold handle'. cbn [handle]. unfold me, run, mbind, M_bind.
    rewrite (the_actor_known clock' hint' settings MeRoute q' (Txn d1 d1) _ _ Hs1 Hs2 Hq (Hauth _ Hn) (or_introl eq_refl)).
    unfold find_user_by_id, mbind, M_bind, get. cbn [pending actor_user]. by rewrite Hu.
  - intros Hn Ht'.
    destruct (logout_known trim clock' ids' hint' secret' settings secure_cookies q' d1 _ _ s Hok1 Ht' Hq (Hauth _ Hn) Hs eq_refl)
      as (d2 & Hl & Hok2 & Hnone).
    eexists _, d2. split_and!; [exact Hl| |].
    + unfold sends_back. cbn. by rewrite bool_decide_eq_true_2.
    + intros clock2 ids2 hint2 secret2 r q2 Hq2 Hpers Hsafe. destruct Hok2 as (_ & _ & G1 & G2).
      destruct (personal_handle trim clock2 ids2 hint2 secret2 settings secure_cookies r q2 Hpers) as [f ->]. apply run_refused.
      destruct (the_actor_run clock2 hint2 settings q2 r (Txn d2 d2) G1 G2) as [(Hs' & Hnt & _)|[_ [(sec & a & Hx & Hx' & _)|[_ He']]]];
        [destruct Hsafe as [Hsafe|]; [congruence|done]| |done].
      rewrite Hq2 in Hx. injection Hx as <-. by destruct (Hnone _ _ Hx').
Qed.

(** ** Evaluated requests *)

Definition demo_origin : str := lit "https://ekumidayomi.com".
Definition route_settings : AuthSettings := NewAuthSettings 604800 60 600 5 60 300 [demo_origin] ∅ (lit "v1").
Definition route_db : db := two_users <| credentials := {[1 := lit "a password of the admin"]} |>.
Definition other_secret : str := replicate 43 98%N.
Definition demo_request (cookie : option str) : HttpRequest := NewRequest (Some demo_origin) cookie (lit "r-1").
Definition demo_handle `{Platform} := handle id (e_clock demo_env) (e_ids demo_env) None other_secret route_settings true.
Definition demo_sign_in : route := SignIn (User.email demo_user) (lit "a password of the admin").

Lemma route_db_ok : identity_ok route_db.
Proof. destruct demo_db_ok as (H1 & H2 & H3). split_and!; [exact two_users_ok|exact two_users_unique|exact H1|exact H3]. Qed.

Lemma demo_sign_in_runs :
  let _ := demo_platform in ∃ resp d1, run (demo_handle demo_sign_in (demo_request None)) route_db = (Ok resp, d1) ∧ users d1 = users route_db.
Proof. intros P. eexists _, _. split; vm_compute; reflexivity. Qed.

Lemma responses_private_witness :
  let _ := demo_platform in
  ∃ resp d', run (demo_handle LogoutRoute (demo_request (Some demo_secret))) route_db = (Ok resp, d') ∧
    set_cookies resp = [NewCookie (lit "__Host-ekumidayomi_session") None 0 true].
Proof.
  intros P. eexists _, _. match goal with |- ?x ∧ _ => assert (Hx : x) by (vm_compute; reflexivity) end.
  split; [exact Hx|]. exact (proj2 (proj2 (proj2 (responses_private _ _ _ _ _ _ _ _ _ _ _ _ Hx)))).
Defined.

(** The administrator signs in, asks who she is, and signs out. *)
Lemma browser_session_witness :
  let _ := demo_platform in
  ∃ resp d1, run (demo_handle demo_sign_in (demo_request None)) route_db = (Ok resp, d1) ∧
    sends_back resp (cookie_name true) None = Some other_secret ∧
    ∃ u resp' d2, normalize (User.email demo_user) = Some (User.email u) ∧
      run (demo_handle LogoutRoute (demo_request (Some other_secret))) d1 = (Ok resp', d2) ∧
      run (demo_handle MeRoute (demo_request (Some other_secret))) d2 = (Err (App AuthenticationRequiredError), d2).
Proof.
  intros P. destruct demo_sign_in_runs as (resp & d1 & Hrun & Husers). exists resp, d1. split; [exact Hrun|].
  assert (Ht : trusted route_settings (demo_request (Some other_secret))) by (exists demo_origin; split; [done|by left]).
  destruct (browser_session id (e_clock demo_env) (e_ids demo_env) None other_secret route_settings true (demo_request None)
    (User.email demo_user) (lit "a password of the admin") resp route_db d1 route_db_ok eq_refl ltac:(done) Hrun)
    as (_ & Hc & u & Hu & Ha & He & _ & Hrest).
  split; [exact Hc|]. destruct (role_of (User.role u)) as [role|] eqn:Hr.
  - destruct (Hrest role eq_refl (e_clock demo_env) (e_ids demo_env) None other_secret (demo_request (Some other_secret)) (eq_sym Hc))
      as [_ Hout]. destruct (Hout ltac:(done) Ht) as (resp' & d2 & Hl & _ & Hno).
    exists u, resp', d2. split_and!; [exact He|exact Hl|].
    exact (Hno (e_clock demo_env) (e_ids demo_env) None other_secret MeRoute (demo_request (Some other_secret)) eq_refl eq_refl
      (or_introl eq_refl)).
  - exfalso. rewrite Husers in Hu. cbn in Hu. apply lookup_insert_Some in Hu as [[_ <-]|[_ [_ <-]%lookup_singleton_Some]]; done.
Defined.
