(* ===== verification/Server.v ===== *)
(** * A request through the routers (api/v1/router.py)

    What stands in front of a route and in which order: the body that the
    framework reads, the limit of the router with its origin check, the
    dependencies of the route, and the route itself; and a server that answers
    one request after the other while other processes change the database. *)

From S2P Require Import Prelude Regex PyValues CoreTypes AuditTrail Events Outbox Errors Identity Sessions Passwords AuthEvents Challenges Administration AuthService Profile ExternalSignIn RateLimits Http Routes.

(** What the dependencies read of the settings of the application. *)
Record AppConfig := NewAppConfig {
  auth_settings : AuthSettings;
  profile_limits : ProfileRateLimitSettings;
  cookies_secure : bool;
  api_prefix : str;
  namespace : str;
  limit_secret : str }.

(** A body that is not JSON, a JSON object that the model of the route refuses,
    or the payload of the route; the text of a challenge id is what the client
    wrote, of which there are several for one UUID. *)
Inductive Body :=
| Unreadable (size : Z)
| Unfit (size : Z) (email challenge_id : option str)
| Fits (size : Z) (challenge_id : str).

(** A request, with what is drawn for it: whether Redis answers, the clock of
    Redis and the random members of the limit, and what the route draws. *)
Record Arrival := NewArrival {
  target : route;
  resend : bool;
  request : HttpRequest;
  client : option str;
  body : Body;
  redis_up : nat → bool;
  redis_clock : nat → Z;
  member : nat → str;
  utc : nat → datetime;
  fresh_ids : nat → uuid;
  cached : option uuid;
  drawn_secret : str }.

Inductive Router := IDENTITY | PROFILE | ADMINISTRATION.

Definition router_of (r : route) : Router :=
  match r with
  | GetProfile | PutProfile _ | AddressesRoute | CreateAddress _ | ReplaceAddress _ _ | RemoveAddress _ => PROFILE
  | UsersRoute _ _ _ _ | AccessRoute _ _ _ | AuditsRoute _ _ => ADMINISTRATION
  | _ => IDENTITY
  end.

(** The path of a route below the prefix, with the names of its parameters in
    the routers that do not look at them. *)
Definition path_of (again : bool) (r : route) : str :=
  match r with
  | Register _ => if again then lit "/auth/register/resend" else lit "/auth/register"
  | Verify _ _ _ => lit "/auth/register/verify"
  | SignIn _ _ => lit "/auth/login"
  | MeRoute => lit "/auth/me"
  | LogoutRoute => lit "/auth/logout"
  | LogoutAllRoute => lit "/auth/logout-all"
  | ReauthenticateRoute _ => lit "/auth/reauthenticate"
  | RequestReset _ => lit "/auth/password-reset/request"
  | ConfirmReset _ _ _ => lit "/auth/password-reset/confirm"
  | IdentitiesRoute => lit "/auth/oidc/identities"
  | RemoveIdentity p => lit "/auth/oidc/" ++ provider_name p
  | GetProfile | PutProfile _ => lit "/profile"
  | AddressesRoute | CreateAddress _ => lit "/profile/addresses"
  | ReplaceAddress _ _ | RemoveAddress _ => lit "/profile/addresses/{address_id}"
  | UsersRoute _ _ _ _ => lit "/admin/users"
  | AccessRoute _ _ _ => lit "/admin/users/{user_id}/access"
  | AuditsRoute _ _ => lit "/admin/audits"
  end.

Definition has_body (r : route) : bool :=
  match r with
  | Register _ | Verify _ _ _ | SignIn _ _ | ReauthenticateRoute _ | RequestReset _ | ConfirmReset _ _ _
  | PutProfile _ | CreateAddress _ | ReplaceAddress _ _ | AccessRoute _ _ _ => true
  | _ => false
  end.

(** The fields of a payload that the limit reads. *)
Definition email_of (r : route) : option str :=
  match r with Register email | SignIn email _ | RequestReset email => Some email | _ => None end.
Definition challenge_of (r : route) (text : str) : option str :=
  match r with Verify _ _ _ | ConfirmReset _ _ _ => Some text | _ => None end.

Definition readable (a : Arrival) : bool :=
  match body a with Unreadable _ => negb (has_body (target a)) | _ => true end.
Definition fitting (a : Arrival) : bool :=
  match body a with Fits _ _ => true | _ => negb (has_body (target a)) end.

Section server.
Context `{Platform}.
(** What pydantic strips from the lines of an address. *)
Context (trim : str → str).
Context (config : AppConfig).

(** [hmac.new(key.encode(), value.encode(), sha256).hexdigest()] *)
Definition limit_digest (key value : str) : str := hex 64 (hmac_sha256 (utf8 key) (utf8 value)).

Definition auth_request_of (a : Arrival) : auth_request :=
  let '(size, email, challenge) :=
    match body a with
    | Unreadable size => (size, None, None)
    | Unfit size email challenge => (size, email, challenge)
    | Fits size text => (size, email_of (target a), challenge_of (target a) text)
    end in
  AuthRequest (method_of (target a)) (api_prefix config ++ path_of (resend a) (target a)) (origin (request a))
    (client a) (default [] (session_cookie (request a))) size email challenge.

(** [Depends(identify_rate_limit)] *)
Definition identity_gate (q : auth_request) (up : nat → bool) (clock : nat → Z) (member : nat → str) : R unit :=
  identify_rate_limit limit_digest normalize up clock member (allowed_origins (auth_settings config))
    (api_prefix config) (namespace config) (limit_secret config) q.

(** [Depends(profile_rate_limit)] *)
Definition profile_gate (a : Arrival) (actor : Actor) : R unit :=
  profile_rate_limit limit_digest (redis_up a 0%nat) (redis_clock a 0%nat) (member a 0%nat) (namespace config)
    (limit_secret config) (api_prefix config) (profile_limits config) (method_of (target a))
    (api_prefix config ++ path_of (resend a) (target a)) actor.

(** The dependencies of the route itself. *)
Definition dependencies (a : Arrival) : M unit :=
  match target a with
  | Register _ | Verify _ _ _ | RequestReset _ => mret tt
  | SignIn _ _ | LogoutRoute | ConfirmReset _ _ _ => require_origin (auth_settings config) (request a)
  | r => the_actor (utc a) (cached a) (auth_settings config) (request a) r;; mret tt
  end.

Inductive Served :=
| Unprocessable
| Stopped (e : limited)
| Handled (r : res exn (Response content))
| Passed.

Record Server := NewServer { limits : redis; database : db }.

(** After the limit: dependencies raise before the body is refused. *)
Definition reach (a : Arrival) (s : Server) : Served * Server :=
  if fitting a then
    let '(r, d) := run (handle trim (utc a) (fresh_ids a) (cached a) (drawn_secret a) (auth_settings config)
                          (cookies_secure config) (target a) (request a)) (database s) in
    (Handled r, NewServer (limits s) d)
  else match (run (dependencies a) (database s)).1 with
       | Err e => (Handled (Err e), s)
       | Ok _ => (Unprocessable, s)
       end.

Definition behind (gate : R unit) (next : Server → Served * Server) (s : Server) : Served * Server :=
  match gate (limits s) with
  | (Err e, l) => (Stopped e, NewServer l (database s))
  | (Ok _, l) => next (NewServer l (database s))
  end.

(** The limit of profiles needs the actor, which is resolved before it. *)
Definition serve (a : Arrival) (s : Server) : Served * Server :=
  if negb (readable a) then (Unprocessable, s)
  else match router_of (target a) with
       | IDENTITY => behind (identity_gate (auth_request_of a) (redis_up a) (redis_clock a) (member a)) (reach a) s
       | PROFILE =>
           match (run (the_actor (utc a) (cached a) (auth_settings config) (request a) (target a)) (database s)).1 with
           | Err e => (Handled (Err e), s)
           | Ok actor => behind (profile_gate a actor) (reach a) s
           end
       | ADMINISTRATION => reach a s
       end.

(** ** Histories *)

(** Requests; requests to the routes of OidcRoutes.v, which stand behind the
    same limit; and whatever else changes the database. *)
Inductive event :=
| Arrives (a : Arrival)
| Handshake (rest : str) (q : auth_request) (up : nat → bool) (clock : nat → Z) (member : nat → str) (after : db)
| Meanwhile (after : db).

Definition handshake_request (rest : str) (q : auth_request) : auth_request :=
  AuthRequest (q_method q) (api_prefix config ++ lit "/auth/oidc/" ++ rest) (q_origin q) (q_client q) (q_cookie q)
    (q_body_size q) (q_email q) (q_challenge_id q).

Definition serve_event (e : event) (s : Server) : Served * Server :=
  match e with
  | Arrives a => serve a s
  | Handshake rest q up clock member after =>
      behind (identity_gate (handshake_request rest q) up clock member)
        (λ s, (Passed, NewServer (limits s) after)) s
  | Meanwhile after => (Passed, NewServer (limits s) after)
  end.

Fixpoint serve_all (es : list event) (s : Server) : list (event * Served) * Server :=
  match es with
  | [] => ([], s)
  | e :: es => let '(r, s) := serve_event e s in let '(l, s) := serve_all es s in ((e, r) :: l, s)
  end.
End server.
