(* ===== verification/OidcServer.v ===== *)
(** * Handshakes through the routers (api/v1/router.py, api/v1/auth_oidc.py)

    The four routes that begin and end a handshake with an identity provider,
    behind the limit of the identity routes; and the server as a whole: its
    limits, its database and the handshakes in Redis. *)

From S2P Require Import Prelude Regex PyValues CoreTypes AuditTrail Events Outbox Errors Identity Sessions Passwords AuthEvents Challenges Administration AuthService Profile ExternalSignIn RateLimits Json Urls OidcProvider Http OidcRoutes Routes Server.

(** What the routes use of urllib, hashlib, joserfc and pydantic. *)
Class OidcLibrary := {
  nfkc_text : str → bool;
  ipv6_text : str → bool;
  lowered : str → str;
  sha256_bytes : list N → list N;
  float_of : str → pyfloat;
  token_of : str → doc → res oidc_error doc;
  claims_check : Requested → doc → bool;
  attempt_json : Attempt → str;
  attempt_of_json : str → option Attempt }.

(** What the dependencies of all routes read of the settings. *)
Record WebConfig := NewWebConfig { app : AppConfig; oidc : OidcSettings }.

(** The four routes, with their query as it comes. *)
Inductive Action :=
| Start (return_path : option str)
| Link
| Reauthenticate
| Callback (state : str) (code error : option str).

(** A request to one of them, for a provider as the path names it, with what is
    drawn for it and what the provider answers. *)
Record OidcArrival := NewOidcArrival {
  action : Action;
  provider_text : str;
  oidc_request : HttpRequest;
  browser : option str;
  oidc_client : option str;
  body_size : Z;
  body_email : option str;
  body_challenge : option str;
  gate_up : nat → bool;
  gate_clock : nat → Z;
  gate_member : nat → str;
  store_up : bool;
  store_now : datetime;
  provider_get : str → res oidc_error (list N);
  provider_post : TokenRequest → res oidc_error (list N);
  mono : nat → datetime;
  wall : nat → datetime;
  oidc_utc : nat → datetime;
  oidc_ids : nat → uuid;
  oidc_cached : option uuid;
  drawn : Drawn;
  oidc_secret : str }.

Definition oidc_method (a : Action) : str := match a with Callback _ _ _ => lit "GET" | _ => lit "POST" end.
Definition action_path (a : Action) : str :=
  match a with
  | Start _ => lit "/start" | Link => lit "/link" | Reauthenticate => lit "/reauthenticate" | Callback _ _ _ => lit "/callback"
  end.
Definition oidc_path (o : OidcArrival) : str := lit "/auth/oidc/" ++ provider_text o ++ action_path (action o).

(** [Literal["/", "/profile", "/shop"] = "/profile"] *)
Definition return_path_of (text : option str) : option ReturnPath :=
  match text with
  | None => Some TO_PROFILE
  | Some t => find (λ r, bool_decide (return_path_text r = t)) [TO_ROOT; TO_PROFILE; TO_SHOP]
  end.

(** The bounds of the query. *)
Definition at_most (n : Z) (o : option str) : bool := match o with Some s => Z.of_nat (length s) <=? n | None => true end.
Definition query_fits (a : Action) : bool :=
  match a with
  | Start r => bool_decide (is_Some (return_path_of r))
  | Link | Reauthenticate => true
  | Callback state code error =>
      (20 <=? Z.of_nat (length state)) && (Z.of_nat (length state) <=? 128) && at_most 4096 code && at_most 128 error
  end.

Inductive OidcServed :=
| OidcUnprocessable
| OidcStopped (e : limited)
| Ends (e : callback_end).

(** The state of the whole server. *)
Record Web := NewWeb { server : Server; handshakes : attempts }.
Definition with_limits (l : redis) (w : Web) : Web := NewWeb (NewServer l (database (server w))) (handshakes w).

Inductive Visitor := Browses (a : Arrival) | Shakes (o : OidcArrival).
Inductive Answer := Plainly (r : Served) | InHandshake (r : OidcServed).

Section oidc.
Context `{Platform, OidcLibrary}.
(** What pydantic strips from the lines of an address. *)
Context (trim : str → str).
Context (config : WebConfig).
#[local] Abbreviation settings := (auth_settings (app config)).
#[local] Abbreviation secure_cookies := (cookies_secure (app config)).
#[local] Abbreviation space := (namespace (app config)).

Definition oidc_auth_request (o : OidcArrival) : auth_request :=
  AuthRequest (oidc_method (action o)) (api_prefix (app config) ++ oidc_path o) (origin (oidc_request o)) (oidc_client o)
    (default [] (session_cookie (oidc_request o))) (body_size o) (body_email o) (body_challenge o).
Definition oidc_gate (o : OidcArrival) : R unit :=
  identity_gate (app config) (oidc_auth_request o) (gate_up o) (gate_clock o) (gate_member o).

(** The dependencies of the routes. *)
Definition oidc_actor (o : OidcArrival) : M Actor :=
  current_actor sha256_hex (lit "POST") (origin (oidc_request o)) (session_cookie (oidc_request o)) settings
    (oidc_cached o) (oidc_utc o 0%nat).
Definition oidc_dependencies (o : OidcArrival) : M unit :=
  match action o with
  | Start _ => start_login settings (origin (oidc_request o))
  | Link | Reauthenticate => oidc_actor o;; mret tt
  | Callback _ _ _ => mret tt
  end.

(** A redirect to the provider, or what stands in its way. *)
Definition begins (o : OidcArrival) (p : ProviderName) (intent : Intent) (actor : option Actor) (path : ReturnPath) (w : Web)
    : OidcServed * Web :=
  let '(r, s) := begin nfkc_text ipv6_text lowered sha256_bytes float_of (provider_get o) (mono o) (wall o) attempt_json space
                   (oidc config) secure_cookies (store_up o) (store_now o) (drawn o) p intent actor path (handshakes w) in
  (Ends (match r with
         | inl r => Redirected r
         | inr (inl c) => OidcRoutes.Refused (App c)
         | inr (inr e) => Broken e
         end), NewWeb (server w) s).

(** Beginning for an actor. *)
Definition begins_for (m : M Actor) (o : OidcArrival) (p : ProviderName) (intent : Intent) (w : Web) : OidcServed * Web :=
  match (run m (database (server w))).1 with
  | Err e => (Ends (OidcRoutes.Refused e), w)
  | Ok actor => begins o p intent (Some actor) TO_PROFILE w
  end.

Definition oidc_handle (o : OidcArrival) (p : ProviderName) (w : Web) : OidcServed * Web :=
  let q := oidc_request o in
  match action o with
  | Start r =>
      match (run (start_login settings (origin q)) (database (server w))).1 with
      | Err e => (Ends (OidcRoutes.Refused e), w)
      | Ok _ => begins o p LOGIN None (default TO_PROFILE (return_path_of r)) w
      end
  | Link => begins_for (start_link settings (oidc_cached o) (oidc_utc o) (origin q) (session_cookie q)) o p LINK w
  | Reauthenticate =>
      begins_for (start_reauthenticate settings (oidc_cached o) (oidc_utc o) (origin q) (session_cookie q)) o p REAUTHENTICATE w
  | Callback state code error =>
      let d := database (server w) in
      let '(e, s, t) :=
        callback_route nfkc_text ipv6_text lowered float_of token_of claims_check (provider_get o) (provider_post o) (mono o)
          (wall o) attempt_of_json space (oidc config) secure_cookies settings (oidc_utc o) (oidc_ids o) (oidc_cached o)
          (store_up o) (store_now o) p state (browser o) (session_cookie q) code error (oidc_secret o) (request_id q)
          (handshakes w) (Txn d d) in
      (Ends e, NewWeb (NewServer (limits (server w)) (durable t)) s)
  end.

(** After the limit: dependencies raise before the path and the query are refused. *)
Definition oidc_reach (o : OidcArrival) (w : Web) : OidcServed * Web :=
  match provider_of (provider_text o), query_fits (action o) with
  | Some p, true => oidc_handle o p w
  | _, _ => match (run (oidc_dependencies o) (database (server w))).1 with
            | Err e => (Ends (OidcRoutes.Refused e), w)
            | Ok _ => (OidcUnprocessable, w)
            end
  end.

Definition oidc_serve (o : OidcArrival) (w : Web) : OidcServed * Web :=
  match oidc_gate o (limits (server w)) with
  | (Err e, l) => (OidcStopped e, with_limits l w)
  | (Ok _, l) => oidc_reach o (with_limits l w)
  end.

(** Any request to the routers. *)
Definition answer (v : Visitor) (w : Web) : Answer * Web :=
  match v with
  | Browses a => let '(r, s) := serve trim (app config) a (server w) in (Plainly r, NewWeb s (handshakes w))
  | Shakes o => let '(r, w) := oidc_serve o w in (InHandshake r, w)
  end.
End oidc.
