(* ===== verification/ServerSpecs.v ===== *)
(** * What the server guarantees in front of its routes

    How often a route of identity is reached for one account and from one
    address, over any history of requests; and what a request from a foreign
    site, without a session, or without Redis comes to. *)

From S2P Require Import Prelude Regex PyValues CoreTypes AuditTrail AuditSpecs Events Outbox Errors Identity Sessions Passwords AuthEvents Challenges Administration AuthService Profile ExternalSignIn Histories RateLimits Http Routes RouteSpecs Server.

(** ** One key of the limiter *)

Section one_key.
Context (K : str) (W L : Z) (HW : 0 < W) (HL : 1 ≤ L).

(** The admitted calls of the key, and the calls still to come. *)
Definition keeps (s : redis) (h vs : list visit) : Prop := ∃ t, tracked K W L t s h ∧ orderly t h vs.

Lemma tracked_later t t' s h : t ≤ t' → tracked K W L t s h → tracked K W L t' s h.
Proof using Type.
  intros Ht [Hs Hp Hd Hw]. split; [|eapply Forall_impl; [exact Hp|]; cbn; lia|done|done].
  intros now Hnow. apply Hs. lia.
Qed.

Lemma keeps_skip s h v vs : keeps s h (v :: vs) → keeps s h vs.
Proof using Type.
  intros (t & Htr & Ho). apply orderly_step in Ho as (Ht & _ & Ho & _).
  exists (at_ms v). split; [by eapply tracked_later|done].
Qed.

Lemma keeps_other s s' h vs : s' !! K = s !! K → keeps s h vs → keeps s' h vs.
Proof using Type.
  intros He (t & [Hs Hp Hd Hw] & Ho). exists t. split; [|done]. split; [|done..].
  intros now Hnow. rewrite <-Hs by done. unfold zread. by rewrite He.
Qed.

Lemma keeps_visit s h v vs retry s' :
  keeps s h (v :: vs) → sliding_window (v_now v) K W L (v_member v) s = (retry, s') →
  ∃ h', keeps s' h' vs ∧ h ⊆+ h' ∧ (retry = 0 → h' = v :: h).
Proof using All.
  intros (t & Htr & Ho) Hsw. apply orderly_step in Ho as (Ht & Hm & Ho1 & Ho2).
  destruct (visit_step K W L HW HL t s h v retry s' Htr Ht Hm Hsw) as [[Hr Htr']|[Hr Htr']].
  - exists h. split_and!; [by exists (at_ms v)|done|lia].
  - exists (v :: h). split_and!; [by exists (at_ms v)|by apply submseteq_cons|done].
Qed.

Lemma sliding_window_other now key w l m s : key ≠ K → (sliding_window now key w l m s).2 !! K = s !! K.
Proof using Type. intros Hk. unfold sliding_window. destruct (_ <=? _); cbn; by rewrite lookup_insert_ne. Qed.

Section enforce.
Context (digest : str → str → str).

(** One check of the limiter, by the key it is about. *)
Lemma enforce_run up c m ns op i secret lim win s r s' :
  1 ≤ lim → 1 ≤ win → enforce digest up c m ns op i secret lim win s = (r, s') →
  (s' = s ∧ ∃ e, r = Err e) ∨
  ∃ retry, sliding_window c (rate_limit_key digest ns (lit "auth") op i secret) (win * 1000) lim m s = (retry, s') ∧
    (r = Ok tt → retry = 0).
Proof using Type.
  intros Hl Hw. unfold enforce. generalize (rate_limit_key digest ns (lit "auth") op i secret). intros key.
  unfold sliding_window_retry_after, positive, demand, mbind, R_bind.
  rewrite (proj2 (Z.ltb_ge lim 1)), (proj2 (Z.ltb_ge win 1)) by done. cbn [negb mret R_ret].
  destruct up; cbn [refuse mret R_ret]; [|intros [= <- <-]; left; eauto].
  destruct (sliding_window _ _ _ _ _ _) as [retry s1] eqn:Hsw.
  assert (Hr : 0 ≤ retry).
  { revert Hsw. unfold sliding_window. destruct (_ <=? _); intros [= <- _]; lia. }
  rewrite (proj2 (Z.ltb_ge retry 0)) by done. cbn [negb mret R_ret].
  destruct (0 <? retry) eqn:Hp; bool_inv.
  - intros Hx. right. exists retry. unfold raise_error, refuse in Hx. injection Hx as <- <-.
    split; [done|]. by destruct (identity_rate_limit_error _).
  - intros [= <- <-]. right. exists retry. split; [done|]. intros _. lia.
Qed.

Lemma keeps_enforce up c m ns op i secret lim win s h vs r s' :
  1 ≤ lim → 1 ≤ win →
  (rate_limit_key digest ns (lit "auth") op i secret = K → win * 1000 = W ∧ lim = L) →
  keeps s h (Visit c m :: vs) → enforce digest up c m ns op i secret lim win s = (r, s') →
  ∃ h', keeps s' h' vs ∧ h ⊆+ h' ∧
    (r = Ok tt → rate_limit_key digest ns (lit "auth") op i secret = K → Visit c m :: h ⊆+ h').
Proof using All.
  intros Hl Hw Hrule Hk Hrun. destruct (enforce_run _ _ _ _ _ _ _ _ _ _ _ _ Hl Hw Hrun) as [[-> [e ->]]|(retry & Hsw & Hr)].
  { exists h. split_and!; [by eapply keeps_skip|done|done]. }
  destruct (decide (rate_limit_key digest ns (lit "auth") op i secret = K)) as [HK|HK].
  - destruct (Hrule HK) as [Heq1 Heq2]. rewrite HK, Heq1, Heq2 in Hsw.
    destruct (keeps_visit s h (Visit c m) vs retry s' Hk Hsw) as (h' & Hk' & Hsub & Hz).
    exists h'. split_and!; [done|done|]. intros Hok _. by rewrite (Hz (Hr Hok)).
  - exists h. split_and!; [|done|done]. eapply keeps_other; [|by eapply keeps_skip].
    rewrite <-(sliding_window_other c _ (win * 1000) lim m s HK). by rewrite Hsw.
Qed.
End enforce.
End one_key.

(** ** Keys and rules *)

Lemma app_inj_tail_length {A} (a b c d : list A) : length c = length d → a ++ c = b ++ d → a = b ∧ c = d.
Proof. intros Hl. by apply app_inj_2. Qed.

Section keys.
Context `{Platform}.

(** Different operations count under different keys, and the limits of profiles
    under others still. *)
Lemma limit_key_operation ns op i op' i' secret :
  rate_limit_key limit_digest ns (lit "auth") op i secret = rate_limit_key limit_digest ns (lit "auth") op' i' secret → op = op'.
Proof using Type.
  unfold rate_limit_key, private_identifier, limit_digest. intros Hk.
  apply app_inv_head in Hk. apply app_inv_head in Hk. do 3 apply app_inv_head in Hk. rewrite !(app_assoc _ (lit ":")) in Hk.
  apply app_inj_tail_length in Hk as [Hk _]; [|by rewrite !hex_length]. by apply app_inj_tail_length in Hk as [Hk _].
Qed.

Lemma limit_key_scope ns op i op' i' secret :
  rate_limit_key limit_digest ns (lit "users") op i secret ≠ rate_limit_key limit_digest ns (lit "auth") op' i' secret.
Proof using Type. unfold rate_limit_key. intros Hk. by do 2 apply app_inv_head in Hk. Qed.
End keys.

(** The rule of a path and the name of its counter. *)
Definition rule_of (path : str) : option (Z * Z * Z) :=
  if starts_with (lit "/auth/oidc/") path then Some (30, 10, 300) else lookup_path path LIMITS.
Definition operation_of (path : str) : str := dashes (strip_slash path).

Lemma lstrip_slash_app l c m : c ≠ 47%N → lstrip_slash (l ++ c :: m) = lstrip_slash l ++ c :: m.
Proof.
  intros Hc. induction l as [|x l IH]; cbn [app lstrip_slash]; [by rewrite (proj2 (N.eqb_neq c 47))|].
  by destruct (x =? 47)%N.
Qed.

Lemma handshake_operation rest : ∃ x, operation_of (lit "/auth/oidc/" ++ rest) = lit "auth-oidc" ++ x.
Proof.
  unfold operation_of, strip_slash. change (lstrip_slash (lit "/auth/oidc/" ++ rest)) with (lit "auth/oidc/" ++ rest).
  change (lit "auth/oidc/" ++ rest) with (lit "auth/oidc" ++ lit "/" ++ rest). rewrite reverse_app.
  change (reverse (lit "auth/oidc")) with (99%N :: reverse (lit "auth/oid")).
  rewrite lstrip_slash_app by done. rewrite reverse_app.
  change (reverse (99%N :: reverse (lit "auth/oid"))) with (lit "auth/oidc").
  unfold dashes. rewrite fmap_app. eauto.
Qed.

Lemma starts_with_app part s : starts_with part s = true → ∃ rest, s = part ++ rest.
Proof.
  revert s. induction part as [|c part IH]; intros s Hs; [by exists s|]. destruct s as [|x s]; [done|].
  cbn in Hs. bool_inv. match goal with H : starts_with part s = true |- _ => apply IH in H as [rest ->] end.
  exists rest. cbn. f_equal. by symmetry; apply N.eqb_eq.
Qed.

Lemma rule_cases path rule :
  rule_of path = Some rule →
  (rule = (30, 10, 300) ∧ ∃ x, operation_of path = lit "auth-oidc" ++ x) ∨
  (path, rule) ∈ LIMITS.
Proof.
  unfold rule_of. destruct (starts_with _ path) eqn:Hs.
  - intros [= <-]. left. split; [done|]. apply starts_with_app in Hs as [rest ->]. apply handshake_operation.
  - intros Hl. right. unfold lookup_path in Hl. destruct (find _ LIMITS) as [[p r]|] eqn:Hf; [|done].
    cbn in Hl. injection Hl as ->. apply find_some in Hf as [Hin Hp]. apply bool_decide_eq_true in Hp. cbn in Hp. subst.
    by apply list_elem_of_In.
Qed.

Definition suffix (by_client : bool) : str := if by_client then lit "-ip" else lit "-account".

Lemma LIMITS_operations :
  forallb (λ a, negb (bool_decide (take 9 (operation_of a.1) = lit "auth-oidc")) &&
    forallb (λ b, negb (bool_decide (operation_of a.1 = operation_of b.1)) || bool_decide (a.2 = b.2)) LIMITS) LIMITS = true.
Proof. vm_compute. reflexivity. Qed.

Lemma LIMITS_handshakes path rule x : (path, rule) ∈ LIMITS → operation_of path ≠ lit "auth-oidc" ++ x.
Proof.
  intros Hin Ho. pose proof LIMITS_operations as Hall. rewrite forallb_forall in Hall.
  specialize (Hall _ ltac:(apply list_elem_of_In; exact Hin)). bool_inv. cbn [fst] in *.
  match goal with H : take 9 _ ≠ _ |- _ => apply H end. by rewrite Ho.
Qed.

Lemma LIMITS_same path rule path' rule' :
  (path, rule) ∈ LIMITS → (path', rule') ∈ LIMITS → operation_of path = operation_of path' → rule = rule'.
Proof.
  intros Hin Hin' Ho. pose proof LIMITS_operations as Hall. rewrite forallb_forall in Hall.
  specialize (Hall _ ltac:(apply list_elem_of_In; exact Hin)). apply andb_true_iff in Hall as [_ Hall].
  rewrite forallb_forall in Hall. specialize (Hall _ ltac:(apply list_elem_of_In; exact Hin')). cbn [fst snd] in Hall.
  rewrite Ho, bool_decide_eq_true_2 in Hall by done. cbn [negb orb] in Hall. by apply bool_decide_eq_true in Hall.
Qed.

(** A counter has one rule, and counts either addresses or accounts. *)
Lemma counter_rule path rule path' rule' b b' :
  rule_of path = Some rule → rule_of path' = Some rule' →
  operation_of path ++ suffix b = operation_of path' ++ suffix b' → rule = rule' ∧ b = b'.
Proof.
  intros Hr Hr' He. assert (b = b') as <-.
  { destruct b, b'; try done; exfalso; apply (f_equal reverse) in He; rewrite !reverse_app in He; done. }
  split; [|done]. apply app_inv_tail in He.
  apply rule_cases in Hr as [[-> [x Hx]]|Hin]; apply rule_cases in Hr' as [[-> [x' Hx']]|Hin']; [done| | |by eapply LIMITS_same].
  - rewrite Hx in He. by destruct (LIMITS_handshakes _ _ x Hin').
  - rewrite Hx' in He. by destruct (LIMITS_handshakes _ _ x' Hin).
Qed.

(** ** Counting along a history *)

Section counting.
Context `{Platform} (trim : str → str) (config : AppConfig).
#[local] Abbreviation serve := (serve trim config).
#[local] Abbreviation serve_all := (serve_all trim config).
#[local] Abbreviation serve_event := (serve_event trim config).
#[local] Abbreviation identity_gate := (identity_gate config).

(** The random members and clock readings of a check, by address and by account. *)
Definition checks (clock : nat → Z) (member : nat → str) : list visit :=
  [Visit (clock 0%nat) (member 0%nat); Visit (clock 1%nat) (member 1%nat)].
Definition draws (e : event) : list visit :=
  match e with
  | Arrives a => checks (redis_clock a) (member a)
  | Handshake _ _ _ clock member _ => checks clock member
  | Meanwhile _ => []
  end.

(** The limited path, whether clients or accounts are counted, and which one. *)
Context (path : str) (ip account window : Z) (by_client : bool) (who : str).
Context (Hrule : rule_of path = Some (ip, account, window)).

Definition the_limit : Z := if by_client then ip else account.
Definition the_key : str :=
  rate_limit_key limit_digest (namespace config) (lit "auth") (operation_of path ++ suffix by_client) who (limit_secret config).
Definition the_check (clock : nat → Z) (member : nat → str) : visit :=
  let i := if by_client then 0%nat else 1%nat in Visit (clock i) (member i).
#[local] Abbreviation keeps := (keeps the_key (window * 1000) the_limit).

(** A request that counts: on the path, from the client or for the account. *)
Definition counts (q : auth_request) : bool :=
  bool_decide (removeprefix (api_prefix config) (q_path q) = path) &&
  if by_client then bool_decide (default (lit "unknown") (q_client q) = who)
  else bool_decide (request_identity normalize q path = who ∧ who ≠ []).

Lemma LIMITS_positive : forallb (λ r, let '(a, b, w) := r.2 in (1 <=? a) && (1 <=? b) && (1 <=? w)) LIMITS = true.
Proof using Type. vm_compute. reflexivity. Qed.

Lemma rule_positive p a b w : rule_of p = Some (a, b, w) → 1 ≤ a ∧ 1 ≤ b ∧ 1 ≤ w.
Proof using Type.
  intros [[[= -> -> ->] _]|Hin]%rule_cases; [lia|]. pose proof LIMITS_positive as Hall. rewrite forallb_forall in Hall.
  specialize (Hall _ ltac:(apply list_elem_of_In; exact Hin)). cbn in Hall. bool_inv. lia.
Qed.

(** One check of another or the same counter. *)
Lemma keeps_check up c m p a b w (kind : bool) i s h vs r s' :
  rule_of p = Some (a, b, w) → keeps s h (Visit c m :: vs) →
  enforce limit_digest up c m (namespace config) (operation_of p ++ suffix kind) i (limit_secret config)
    (if kind then a else b) w s = (r, s') →
  ∃ h', keeps s' h' vs ∧ h ⊆+ h' ∧ (r = Ok tt → p = path → kind = by_client → i = who → Visit c m :: h ⊆+ h').
Proof using Hrule.
  intros Hp Hk Hrun. destruct (rule_positive _ _ _ _ Hp) as (Ha & Hb & Hw).
  destruct (rule_positive _ _ _ _ Hrule) as (Ha' & Hb' & Hw').
  assert (Hlim : 1 ≤ the_limit) by (unfold the_limit; by destruct by_client).
  destruct (keeps_enforce the_key (window * 1000) the_limit ltac:(lia) Hlim limit_digest up c m (namespace config)
    (operation_of p ++ suffix kind) i (limit_secret config) (if kind then a else b) w s h vs r s') as (h' & H1 & H2 & H3);
    [by destruct kind|done| |done|done|].
  - intros HK%limit_key_operation. destruct (counter_rule _ _ _ _ _ _ Hp Hrule HK) as [[= <- <- <-] ->]. unfold the_limit. split; [done|]. destruct by_client; congruence.
  - exists h'. split_and!; [done|done|]. intros Hr -> -> ->. by apply H3.
Qed.

(** The limit in front of a request. *)
Lemma keeps_gate q up clock member s h vs r s' :
  keeps s h (checks clock member ++ vs) → identity_gate q up clock member s = (r, s') →
  ∃ h', keeps s' h' vs ∧ h ⊆+ h' ∧ (r = Ok tt → counts q = true → the_check clock member :: h ⊆+ h').
Proof using Hrule.
  intros Hk. cbn [checks app] in Hk. unfold Server.identity_gate, identify_rate_limit. set (p := removeprefix _ _).
  unfold mbind, R_bind, demand. destruct (_ || _); cbn [mret R_ret refuse];
    [|intros [= <- <-]; exists h; split_and!; [by do 2 eapply keeps_skip|done|done]].
  fold (rule_of p). destruct (rule_of p) as [[[a b] w]|] eqn:Hp.
  2: { intros [= <- <-]. exists h. split_and!; [by do 2 eapply keeps_skip|done|]. intros _ Hc.
       unfold counts in Hc. fold p in Hc. bool_inv. congruence. }
  fold (operation_of p). destruct (enforce _ _ _ _ _ _ _ _ _ _ _) as [r1 s1] eqn:He1.
  destruct (keeps_check _ _ _ p a b w true _ _ _ _ _ _ Hp Hk He1) as (h1 & Hk1 & Hsub1 & Hc1).
  destruct r1 as [[]|e].
  2: { intros [= <- <-]. exists h1. split_and!; [by eapply keeps_skip|done|done]. }
  destruct (negb _); cbn [mret R_ret refuse];
    [|intros [= <- <-]; exists h1; split_and!; [by eapply keeps_skip|done|done]].
  destruct (request_identity normalize q p) as [|x i] eqn:Hi.
  - intros [= <- <-]. exists h1. split_and!; [by eapply keeps_skip|done|]. intros _ Hc.
    unfold counts in Hc. fold p in Hc. apply andb_true_iff in Hc as [Hpath%bool_decide_eq_true Hc].
    unfold the_check. destruct by_client; bool_inv; [by apply Hc1|]. subst p. destruct Hc as [Hc ?]. congruence.
  - intros He2. destruct (keeps_check _ _ _ p a b w false _ _ _ _ _ _ Hp Hk1 He2) as (h2 & Hk2 & Hsub2 & Hc2).
    exists h2. split_and!; [done|by etrans|]. intros Hr Hc.
    unfold counts in Hc. fold p in Hc. apply andb_true_iff in Hc as [Hpath%bool_decide_eq_true Hc].
    unfold the_check. destruct by_client eqn:Hb; bool_inv.
    + etrans; [|exact Hsub2]. by apply Hc1.
    + etrans; [|apply Hc2]; try done; [by apply submseteq_skip|]. destruct Hc as [Hc _]. congruence.
Qed.

(** The limit of profiles counts elsewhere, and routes do not touch the counters. *)
Lemma retry_after_other K up down c key l w m s :
  key ≠ K → (sliding_window_retry_after up down c key l w m s).2 !! K = s !! K.
Proof using Type.
  intros HK. unfold sliding_window_retry_after, positive, demand, mbind, R_bind.
  destruct l; try done. destruct (negb _); [|done]. cbn [mret R_ret refuse]. destruct w; try done. destruct (negb _); [|done].
  cbn [mret R_ret refuse]. destruct up; [|done]. cbn [mret R_ret refuse].
  pose proof (sliding_window_other K c key (z0 * 1000) z m s HK) as Ho. destruct (sliding_window _ _ _ _ _ _) as [retry s'].
  by destruct (negb _).
Qed.

Lemma profile_gate_other a actor s : (profile_gate config a actor s).2 !! the_key = s !! the_key.
Proof using Type.
  unfold profile_gate, profile_rate_limit. destruct (profile_rate_limit_operation _ _ _) as [[operation group]|]; [|done].
  cbn zeta. unfold mbind, R_bind, unless_refused.
  match goal with |- context [sliding_window_retry_after ?u ?d ?c ?k ?l ?w ?m ?t] =>
    pose proof (retry_after_other the_key u d c k l w m t ltac:(unfold the_key; apply limit_key_scope)) as Ho;
    destruct (sliding_window_retry_after u d c k l w m t) as [r s'] end.
  cbn [snd] in Ho. destruct r as [z|[]]; cbn [snd]; try (by destruct (0 <? _)); done.
Qed.

Lemma enter_limits a s : limits (reach trim config a s).2 = limits s.
Proof using Type. unfold reach. destruct (fitting a); [by destruct (run _ _)|by destruct (run _ _).1]. Qed.

Lemma behind_refused gate next s : (∀ u, (gate (limits s)).1 ≠ Ok u) →
  ∃ e, (gate (limits s)).1 = Err e ∧ behind gate next s = (Stopped e, NewServer (gate (limits s)).2 (database s)).
Proof using Type. intros Hg. unfold behind. destruct (gate (limits s)) as [[u|e] l]; [by destruct (Hg u)|eauto]. Qed.

(** The request that an event brings to the limit of identity. *)
Definition request_of (e : event) : option auth_request :=
  match e with
  | Arrives a => Some (auth_request_of config a)
  | Handshake rest q _ _ _ _ => Some (handshake_request config rest q)
  | Meanwhile _ => None
  end.
Definition check_of (e : event) : option visit :=
  match e with
  | Arrives a => Some (the_check (redis_clock a) (member a))
  | Handshake _ _ _ clock member _ => Some (the_check clock member)
  | Meanwhile _ => None
  end.

(** The route was reached. *)
Definition reached (r : Served) : bool := match r with Handled _ | Passed => true | _ => false end.

(** The times at which counted requests reached the path. *)
Definition count_at (l : event * Served) : option visit :=
  match request_of l.1 with
  | Some q => if reached l.2 && counts q then check_of l.1 else None
  | None => None
  end.

Lemma removeprefix_app prefix s : removeprefix prefix (prefix ++ s) = s.
Proof using Type.
  unfold removeprefix. assert (starts_with prefix (prefix ++ s) = true) as ->.
  { induction prefix as [|c p IH]; [done|]. cbn. by rewrite N.eqb_refl. }
  apply drop_app_length.
Qed.

Lemma unlimited_router a : router_of (target a) ≠ IDENTITY → counts (auth_request_of config a) = false.
Proof using Hrule.
  intros Hr. apply not_true_iff_false. unfold counts. intros [Hp%bool_decide_eq_true _]%andb_true_iff.
  assert (Hq : q_path (auth_request_of config a) = api_prefix config ++ path_of (resend a) (target a))
    by (unfold auth_request_of; by destruct (body a)).
  rewrite Hq, removeprefix_app in Hp. subst path. destruct (target a); done.
Qed.

Lemma keeps_behind q up clock member next s h vs r s' :
  (∀ s, limits (next s).2 = limits s) →
  keeps (limits s) h (checks clock member ++ vs) → behind (identity_gate q up clock member) next s = (r, s') →
  ∃ h', keeps (limits s') h' vs ∧ h ⊆+ h' ∧
    (reached r && counts q = true → the_check clock member :: h ⊆+ h').
Proof using Hrule.
  intros Hnext Hk. unfold behind. destruct (identity_gate _ _ _ _ _) as [g l] eqn:Hg.
  destruct (keeps_gate _ _ _ _ _ _ _ _ _ Hk Hg) as (h' & Hk' & Hsub & Hc). destruct g as [[]|e].
  - intros Hn. exists h'. pose proof (Hnext (NewServer l (database s))) as Hl. rewrite Hn in Hl. cbn [snd limits] in Hl.
    rewrite Hl. split_and!; [done|done|]. intros [_ Hq]%andb_true_iff. by apply Hc.
  - intros [= <- <-]. exists h'. by split_and!.
Qed.

(** One event: the calls still to come, the history, and what was counted. *)
Lemma keeps_event e s h vs r s' :
  keeps (limits s) h (draws e ++ vs) → serve_event e s = (r, s') →
  ∃ h', keeps (limits s') h' vs ∧ option_list (count_at (e, r)) ++ h ⊆+ h'.
Proof using Hrule.
  assert (Hfree : ∀ clock member l, keeps l h (checks clock member ++ vs) → keeps l h vs)
    by (intros clock member l Hk; cbn [checks app] in Hk; by do 2 eapply keeps_skip).
  intros Hk. destruct e as [a|rest q up clock member after|after]; cbn [Server.serve_event draws] in *.
  - unfold Server.serve. destruct (readable a); cbn [negb]; [|intros [= <- <-]; exists h; split; [by eapply Hfree|done]].
    destruct (router_of (target a)) eqn:Hro.
    + intros Hb. apply (keeps_behind _ _ _ _ _ _ _ _ _ _ (enter_limits a) Hk) in Hb as (h' & Hk' & Hsub & Hc).
      exists h'. split; [done|]. unfold count_at. cbn [fst snd request_of check_of]. destruct (_ && _); [by apply Hc|done].
    + assert (Hno : ∀ r', option_list (count_at (Arrives a, r')) = []).
      { intros r'. unfold count_at. cbn [fst snd request_of]. rewrite unlimited_router by congruence. by rewrite andb_false_r. }
      rewrite Hno. destruct (run _ _).1 as [actor|e]; [|intros [= <- <-]; exists h; split; [by eapply Hfree|done]].
      intros Hb. exists h. split; [|done]. apply Hfree in Hk. eapply keeps_other; [|exact Hk].
      rewrite <-(profile_gate_other a actor (limits s)). revert Hb. unfold behind.
      destruct (profile_gate config a actor (limits s)) as [[[]|e] l]; [|by intros [= <- <-]].
      intros Hb. pose proof (enter_limits a (NewServer l (database s))) as Hl. rewrite Hb in Hl. cbn [snd limits] in Hl |- *.
      by rewrite Hl.
    + assert (Hno : ∀ r', option_list (count_at (Arrives a, r')) = []).
      { intros r'. unfold count_at. cbn [fst snd request_of]. rewrite unlimited_router by congruence. by rewrite andb_false_r. }
      rewrite Hno. intros Hb. exists h. split; [|done]. apply Hfree in Hk.
      pose proof (enter_limits a s) as Hl. rewrite Hb in Hl. cbn [snd] in Hl. by rewrite Hl.
  - intros Hb. eapply keeps_behind in Hb as (h' & Hk' & Hsub & Hc); [|done|exact Hk].
    exists h'. split; [done|]. unfold count_at. cbn [fst snd request_of check_of]. destruct (_ && _); [by apply Hc|done].
  - intros [= <- <-]. exists h. split; [exact Hk|done].
Qed.

(** Along a history: all that was counted was admitted under the key. *)
Lemma keeps_all es s h l s' :
  keeps (limits s) h (es ≫= draws) → serve_all es s = (l, s') →
  ∃ h', keeps (limits s') h' [] ∧ omap count_at l ++ h ⊆+ h'.
Proof using Hrule.
  revert s h l s'. induction es as [|e es IH]; intros s h l s' Hk; [intros [= <- <-]; by exists h|].
  cbn [Server.serve_all]. cbn [mbind list_bind] in Hk. destruct (serve_event e s) as [r s1] eqn:He.
  destruct (serve_all es s1) as [l1 s2] eqn:Hes. intros [= <- <-].
  destruct (keeps_event _ _ _ _ _ _ Hk He) as (h1 & Hk1 & Hsub1).
  destruct (IH _ _ _ _ Hk1 Hes) as (h2 & Hk2 & Hsub2). exists h2. split; [done|].
  etrans; [|exact Hsub2]. cbn [omap list_omap]. destruct (count_at (e, r)) as [v|]; cbn [option_list app] in *.
  - rewrite Permutation_middle. by apply submseteq_app.
  - by apply submseteq_app.
Qed.

Lemma counted_within es s l s' T :
  limits s !! the_key = None → orderly 0 [] (es ≫= draws) → serve_all es s = (l, s') →
  Z.of_nat (length (filter (λ v, T - window * 1000 < at_ms v ≤ T) (omap count_at l))) ≤ the_limit.
Proof using Hrule.
  intros Hs Ho Hrun. destruct (rule_positive _ _ _ _ Hrule) as (Ha & Hb & Hw).
  assert (Hl : 1 ≤ the_limit) by (unfold the_limit; by destruct by_client).
  destruct (keeps_all es s [] l s') as (h' & (t & Htr & _) & Hsub); [|done|].
  { exists 0. split; [by apply tracked_start|done]. }
  pose proof (tr_within _ _ _ _ _ _ Htr T) as Hin. etrans; [|exact Hin]. apply Nat2Z.inj_le.
  rewrite app_nil_r in Hsub. apply submseteq_Permutation in Hsub as [k Hk].
  rewrite Hk, filter_app, length_app. lia.
Qed.
End counting.

(** ** What stops a request *)

Section guards.
Context `{Platform} (trim : str → str) (config : AppConfig).
#[local] Abbreviation serve := (serve trim config).
#[local] Abbreviation settings := (auth_settings config).

Lemma auth_request_shape a : let q := auth_request_of config a in
  q_method q = method_of (target a) ∧ q_origin q = origin (request a) ∧
  q_path q = api_prefix config ++ path_of (resend a) (target a).
Proof using Type. unfold auth_request_of. by destruct (body a). Qed.

Definition safe_or_trusted (a : Arrival) : Prop := safe_method (target a) = true ∨ trusted settings (request a).

(** The origin check of the limit, and the limit while Redis does not answer,
    for any request. *)
Lemma gate_foreign q up clock member l :
  q_method q ∉ SAFE_METHODS → (∀ o, q_origin q = Some o → o ∉ allowed_origins settings) →
  identity_gate config q up clock member l = (Err (Refused UntrustedOriginError), l).
Proof using Type.
  intros Hm Ho. unfold identity_gate, identify_rate_limit. rewrite (bool_decide_eq_false_2 _ Hm).
  unfold mbind, R_bind, demand. cbn [orb]. destruct (q_origin q) as [o|]; [|done]. by rewrite bool_decide_eq_false_2 by auto.
Qed.

Lemma gate_closed q path clock member l :
  q_path q = api_prefix config ++ path → rule_of path ≠ None →
  q_method q ∈ SAFE_METHODS ∨ (∃ o, q_origin q = Some o ∧ o ∈ allowed_origins settings) →
  identity_gate config q (λ _, false) clock member l = (Err (Refused IdentityUnavailableError), l).
Proof using Type.
  intros Hp Hr Hs. unfold identity_gate, identify_rate_limit. rewrite Hp, removeprefix_app. unfold mbind, R_bind, demand.
  assert (bool_decide (q_method q ∈ SAFE_METHODS) ||
    match q_origin q with Some o => bool_decide (o ∈ allowed_origins settings) | None => false end = true) as ->.
  { apply orb_true_iff. destruct Hs as [Hs|(o & -> & Ho)]; [left|right]; by apply bool_decide_eq_true. }
  cbn [mret R_ret]. fold (rule_of path). destruct (rule_of path) as [[[ip account] window]|] eqn:Hrule; [|done].
  destruct (rule_positive _ _ _ _ Hrule) as (Hi & _ & Hw).
  unfold enforce, sliding_window_retry_after, positive, demand, mbind, R_bind.
  by rewrite (proj2 (Z.ltb_ge ip 1)), (proj2 (Z.ltb_ge window 1)).
Qed.

Lemma gate_untrusted a up clock member l :
  ¬ safe_or_trusted a →
  identity_gate config (auth_request_of config a) up clock member l = (Err (Refused UntrustedOriginError), l).
Proof using Type.
  intros Hn. destruct (auth_request_shape a) as (Hm & Ho & _). apply gate_foreign.
  - rewrite Hm. intros Hs. destruct Hn. left. by apply bool_decide_eq_true.
  - intros o Horig Hin. rewrite Ho in Horig. destruct Hn. right. by exists o.
Qed.

Lemma gate_down a clock member l :
  safe_or_trusted a → rule_of (path_of (resend a) (target a)) ≠ None →
  identity_gate config (auth_request_of config a) (λ _, false) clock member l
  = (Err (Refused IdentityUnavailableError), l).
Proof using Type.
  intros Hs Hr. destruct (auth_request_shape a) as (Hm & Ho & Hp). apply (gate_closed _ (path_of (resend a) (target a))); [done..|].
  rewrite Hm, Ho. destruct Hs as [Hs|Hs]; [left|by right]. by apply bool_decide_eq_true in Hs.
Qed.

(** Whatever does not reach a route leaves the database as it is. *)
Lemma stopped_unchanged a s r s' :
  serve a s = (r, s') → (∀ x, r ≠ Handled x) → database s' = database s.
Proof using Type.
  assert (Henter : ∀ s, reach trim config a s = (r, s') → (∀ x, r ≠ Handled x) → database s' = database s).
  { intros s0. unfold reach. destruct (fitting a); [destruct (run _ _); intros [= <- _] Hn; by destruct (Hn r0)|].
    destruct (run _ _).1; by intros [= <- <-]. }
  unfold Server.serve, behind. destruct (negb _); [by intros [= _ <-]|]. destruct (router_of _).
  - destruct (identity_gate _ _ _ _ _ _) as [[[]|e] l]; [|by intros [= _ <-]]. intros He Hn. by apply Henter in He.
  - destruct (run _ _).1; [|by intros [= _ <-]].
    destruct (profile_gate _ _ _ _) as [[[]|e'] l]; [|by intros [= _ <-]]. intros He Hn. by apply Henter in He.
  - apply Henter.
Qed.

(** A request that the route answers has passed what stands in front of it. *)
Lemma handled_run a s resp s' :
  serve a s = (Handled (Ok resp), s') →
  (router_of (target a) = IDENTITY → safe_or_trusted a) ∧
  run (handle trim (utc a) (fresh_ids a) (cached a) (drawn_secret a) settings (cookies_secure config) (target a)
         (request a)) (database s) = (Ok resp, database s').
Proof using Type.
  assert (Henter : ∀ s, reach trim config a s = (Handled (Ok resp), s') →
    run (handle trim (utc a) (fresh_ids a) (cached a) (drawn_secret a) settings (cookies_secure config) (target a)
         (request a)) (database s) = (Ok resp, database s')).
  { intros s0. unfold reach. destruct (fitting a); [|by destruct (run _ _).1].
    destruct (run _ _) as [r d]. by intros [= -> <-]. }
  unfold Server.serve, behind. destruct (negb _); [done|]. destruct (router_of _).
  - destruct (identity_gate _ _ _ _ _ _) as [g l] eqn:Hg. destruct g as [[]|e]; [|done].
    intros He%Henter. split; [|exact He]. intros _. unfold safe_or_trusted.
    destruct (safe_method (target a)) eqn:Hs; [by left|]. right.
    destruct (origin (request a)) as [o|] eqn:Ho; [destruct (decide (o ∈ allowed_origins settings)); [by exists o|]|];
      (rewrite gate_untrusted in Hg; [done|]; intros [?|(o' & Ho' & Hin)]; congruence).
  - destruct (run _ _).1; [|done].
    destruct (profile_gate _ _ _ _) as [[[]|e'] l]; [|done]. intros He%Henter. by split.
  - intros He%Henter. by split.
Qed.
End guards.

(** Who is known to the dependencies of a request. *)
Definition known `{Platform} (d : db) (a : Arrival) : Prop :=
  ∃ secret x, session_cookie (request a) = Some secret ∧ authenticates sha256_hex d (utc a 20%nat) secret x.

(** The class of the error that a request ends in. *)
Definition refused_with (r : Served) : option error_class :=
  match r with Stopped (Refused c) | Handled (Err (App c)) => Some c | _ => None end.

Section boundary.
Context `{Platform} (trim : str → str) (config : AppConfig).
#[local] Abbreviation settings := (auth_settings config).
#[local] Abbreviation serve := (serve trim config).

Lemma untrusted_actor a d : table_ok (sessions d) → hashes_unique (sessions d) → ¬ safe_or_trusted config a →
  the_actor (utc a) (cached a) settings (request a) (target a) (Txn d d) = (Err (App UntrustedOriginError), Txn d d).
Proof using Type.
  intros Hok Hu Hn.
  by destruct (the_actor_run (utc a) (cached a) settings (request a) (target a) (Txn d d) Hok Hu) as [(_ & _ & He)|[Hs _]].
Qed.

Lemma unknown_actor a d : table_ok (sessions d) → hashes_unique (sessions d) → ¬ known d a →
  ∃ c, the_actor (utc a) (cached a) settings (request a) (target a) (Txn d d) = (Err (App c), Txn d d) ∧
    (safe_or_trusted config a → c = AuthenticationRequiredError).
Proof using Type.
  intros Hok Hu Hn.
  destruct (the_actor_run (utc a) (cached a) settings (request a) (target a) (Txn d d) Hok Hu)
    as [(Hs & Ht & He)|[_ [(secret & x & Hc & Ha & _)|[_ He]]]].
  - exists UntrustedOriginError. split; [done|]. intros [?|?]; congruence.
  - destruct Hn. by exists secret, x.
  - by exists AuthenticationRequiredError.
Qed.

(** A personal route without its actor, behind everything else. *)
Lemma enter_refused a s e :
  personal (target a) = true →
  the_actor (utc a) (cached a) settings (request a) (target a) (Txn (database s) (database s))
    = (Err e, Txn (database s) (database s)) →
  reach trim config a s = (Handled (Err e), s).
Proof using Type.
  intros Hp He. unfold reach. destruct (fitting a).
  - destruct (personal_handle trim (utc a) (fresh_ids a) (cached a) (drawn_secret a) settings (cookies_secure config)
      (target a) (request a) Hp) as [f ->]. rewrite (run_refused _ f _ _ He). by destruct s.
  - assert (Hd : run (dependencies config a) (database s) = (Err e, database s)).
    { unfold dependencies. destruct (target a); try done; by apply run_refused. }
    by rewrite Hd.
Qed.
End boundary.

(** The routes of Routes.v behind everything that stands in front of them. *)
Lemma routes_guarded `{Platform} trim config a s r s' :
  table_ok (sessions (database s)) → hashes_unique (sessions (database s)) → readable a = true →
  serve trim config a s = (r, s') →
  (safe_method (target a) = false → ¬ trusted (auth_settings config) (request a) →
     refused_with r = Some UntrustedOriginError ∧ s' = s) ∧
  (personal (target a) = true → ¬ known (database s) a →
     (∀ resp, r ≠ Handled (Ok resp)) ∧ database s' = database s) ∧
  (redis_up a = (λ _, false) → router_of (target a) = IDENTITY → rule_of (path_of (resend a) (target a)) ≠ None →
     is_Some (refused_with r) ∧ s' = s) ∧
  ((∀ x, r ≠ Handled x) → database s' = database s) ∧
  (∀ resp, r = Handled (Ok resp) →
     (personal (target a) = true → known (database s) a) ∧
     (administrative (target a) = true → administers (utc a) (database s) (request a))).
Proof.
  intros Hok Hu Hread Hs.
  assert (Hself : NewServer (limits s) (database s) = s) by (by destruct s).
  assert (Hanswer : ∀ resp, r = Handled (Ok resp) →
     (personal (target a) = true → known (database s) a) ∧
     (administrative (target a) = true → administers (utc a) (database s) (request a))).
  { intros resp ->. apply handled_run in Hs as [_ Hrun]. destruct (boundary_enforced trim (utc a) (fresh_ids a) (cached a) (drawn_secret a) (auth_settings config)
      (cookies_secure config) (target a) (request a) (database s) Hok Hu) as (_ & _ & Hans). by eapply Hans. }
  split_and!; [| | |by eapply stopped_unchanged|done].
  - intros Hm Ht. assert (Hn : ¬ safe_or_trusted config a) by (intros [?|?]; congruence).
    revert Hs. unfold Server.serve. rewrite Hread. cbn [negb]. destruct (router_of (target a)) eqn:Hro.
    + unfold behind. rewrite gate_untrusted by done. rewrite Hself. by intros [= <- <-].
    + unfold run. rewrite untrusted_actor by done. by intros [= <- <-].
    + rewrite (enter_refused trim config a s (App UntrustedOriginError)); [by intros [= <- <-]|by destruct (target a)|].
      by apply untrusted_actor.
  - intros Hp Hk. split; [intros resp ->; by destruct (Hanswer resp eq_refl) as [? _]; auto|].
    destruct (unknown_actor config a (database s) Hok Hu Hk) as (c & Hc & _).
    revert Hs. unfold Server.serve. rewrite Hread. cbn [negb]. destruct (router_of (target a)) eqn:Hro.
    + unfold behind. destruct (identity_gate _ _ _ _ _ _) as [[[]|e] l]; [|by intros [= _ <-]].
      rewrite (enter_refused trim config a _ (App c)) by done. by intros [= _ <-].
    + unfold run. rewrite Hc. by intros [= _ <-].
    + rewrite (enter_refused trim config a s (App c)) by done. by intros [= _ <-].
  - intros Hup Hro Hrule. revert Hs. unfold Server.serve. rewrite Hread, Hro, Hup. cbn [negb]. unfold behind.
    destruct (safe_method (target a)) eqn:Hm.
    + rewrite gate_down by (done || by left). rewrite Hself. by intros [= <- <-].
    + destruct (trusted_origin_run (auth_settings config) (request a) (Txn (database s) (database s))) as [[Ht _]|[Ht _]].
      * rewrite gate_down by (done || by right). rewrite Hself. by intros [= <- <-].
      * rewrite gate_untrusted by (intros [?|?]; congruence). rewrite Hself. by intros [= <- <-].
Qed.

(** ** Attempts *)

(** A request that reached [sign_in] for the account of an address, at the time
    of its check. *)
Definition sign_in_at `{Platform} (account : str) (l : event * Served) : option visit :=
  match l with
  | (Arrives a, Handled _) =>
      match target a, body a with
      | SignIn email _, Fits _ _ =>
          if bool_decide (normalize email = Some account) then Some (Visit (redis_clock a 1%nat) (member a 1%nat)) else None
      | _, _ => None
      end
  | _ => None
  end.

Lemma sign_in_counts `{Platform} config account x v :
  account ≠ [] → sign_in_at account x = Some v → count_at config (lit "/auth/login") false account x = Some v.
Proof.
  intros Hne. destruct x as [e r]. unfold sign_in_at. destruct e as [a| |]; try done.
  destruct r as [| |res|]; try done. destruct (target a) as [| |email password| | | | | | | | | | | | | | | | |] eqn:Ht; try done.
  destruct (body a) as [| |size text] eqn:Hb; try done. case_bool_decide as Hn; [|done]. intros [= <-].
  unfold count_at. cbn [fst snd request_of reached andb check_of the_check].
  assert (Hq : auth_request_of config a = AuthRequest (lit "POST") (api_prefix config ++ lit "/auth/login")
    (origin (request a)) (client a) (default [] (session_cookie (request a))) size (Some email) None)
    by (unfold auth_request_of; by rewrite Hb, Ht).
  rewrite Hq. unfold counts, request_identity, body_identity. cbn [q_path q_method q_email q_challenge_id].
  rewrite removeprefix_app, Hn, !bool_decide_eq_true_2 by done. cbn [andb].
  destruct account as [|c account]; [done|]. by rewrite bool_decide_eq_true_2.
Qed.

Lemma omap_filter_le {A B} (f g : A → option B) (P : B → Prop) `{∀ x, Decision (P x)} l :
  (∀ x y, f x = Some y → g x = Some y) → (length (filter P (omap f l)) ≤ length (filter P (omap g l)))%nat.
Proof.
  intros Hfg. induction l as [|x l IH]; [done|]. cbn [omap list_omap]. destruct (f x) as [y|] eqn:Hf.
  - rewrite (Hfg _ _ Hf), !filter_cons. case_decide; cbn; lia.
  - destruct (g x); [rewrite filter_cons; case_decide; cbn; lia|done].
Qed.

(** C4: Attempts are bounded from the network to the service. Over any history of
    requests to a server that has counted none - to all routes, from anybody,
    with any bodies, while the database changes in between - no span of the
    window of a limited path holds more requests that reached a route on it from
    one client address than its first limit, nor more for one account than its
    second; so at most ten password checks for one account get through in five
    minutes, however its address is spelled. The clock of Redis must not run
    backwards and its random members must be distinct. *)
Theorem attempts_bounded `{Platform} trim config path ip account window es s l s' T :
  rule_of path = Some (ip, account, window) → limits s = ∅ → orderly 0 [] (es ≫= draws) →
  serve_all trim config es s = (l, s') →
  let within w (vs : list visit) := Z.of_nat (length (filter (λ v, T - w * 1000 < at_ms v ≤ T) vs)) in
  (∀ who, within window (omap (count_at config path true who) l) ≤ ip) ∧
  (∀ who, within window (omap (count_at config path false who) l) ≤ account) ∧
  (∀ who, who ≠ [] → within 300 (omap (sign_in_at who) l) ≤ 10).
Proof.
  intros Hrule Hs Ho Hrun within.
  assert (Hno : ∀ k, limits s !! k = None) by (intros k; by rewrite Hs).
  split_and!.
  - intros who. by apply (counted_within trim config path ip account window true who Hrule es s l s' T).
  - intros who. by apply (counted_within trim config path ip account window false who Hrule es s l s' T).
  - intros who Hne. etrans; [apply Nat2Z.inj_le, omap_filter_le; intros x y; by apply sign_in_counts|].
    by apply (counted_within trim config (lit "/auth/login") 30 10 300 false who eq_refl es s l s' T).
Qed.

(** ** Evaluated requests *)

Definition demo_config : AppConfig :=
  NewAppConfig route_settings (NewProfileLimits 20 60 600) true (lit "/api/v1") (lit "production") (lit "key").
Definition demo_arrival (r : route) (site : str) (cookie : option str) (b : Body) (i : Z) (up : bool) : Arrival :=
  NewArrival r false (NewRequest (Some site) cookie (lit "r-1")) (Some (lit "203.0.113.7")) b (λ _, up)
    (λ n, 1000000 * i + Z.of_nat n) (λ n, [Z.to_N i; N.of_nat n]) (e_clock demo_env) (e_ids demo_env) None other_secret.
Definition demo_server : Server := NewServer ∅ route_db.

(** A guess a second, twelve times. *)
Definition demo_guess (i : Z) : event :=
  Arrives (demo_arrival (SignIn (User.email demo_user) (lit "guess")) demo_origin None (Fits 80 []) i true).
Definition demo_guesses : list event := demo_guess <$> seqZ 1 12.

Lemma demo_guesses_orderly : orderly 0 [] (demo_guesses ≫= draws).
Proof.
  split_and!.
  - apply (bool_decide_eq_true_1 (StronglySorted _ _)). vm_compute. reflexivity.
  - apply (bool_decide_eq_true_1 (Forall _ _)). vm_compute. reflexivity.
  - apply (bool_decide_eq_true_1 (NoDup _)). vm_compute. reflexivity.
Qed.

(** The last two guesses do not reach the password. *)
Lemma attempts_bounded_witness :
  let _ := demo_platform in
  let attempts := omap (sign_in_at (User.email demo_user)) (serve_all id demo_config demo_guesses demo_server).1 in
  length attempts = 10%nat ∧
  Z.of_nat (length (filter (λ v, 12000 - 300 * 1000 < at_ms v ≤ 12000) attempts)) ≤ 10.
Proof.
  intros P. split; [vm_compute; reflexivity|].
  apply (attempts_bounded id demo_config (lit "/auth/login") 30 10 300 demo_guesses demo_server
    (serve_all id demo_config demo_guesses demo_server).1 (serve_all id demo_config demo_guesses demo_server).2 12000 eq_refl eq_refl
    demo_guesses_orderly); [by destruct (serve_all _ _ _ _)|done].
Defined.
