(* ===== verification/Boundary.v ===== *)
(** * The boundary of the server

    What stops a request on any route of the versioned API - of identity,
    handshakes, profiles and administration - and what a stopped request leaves. *)

From S2P Require Import Prelude Regex PyValues CoreTypes AuditTrail Events Outbox Errors Identity Sessions Passwords AuthEvents Challenges Administration AuthService Profile ExternalSignIn Histories ExternalSpecs RateLimits Http Json Urls OidcProvider OidcSpecs OidcRoutes OidcRouteSpecs Routes RouteSpecs Server OidcServer ServerSpecs.

(** ** Requests of any kind *)

Definition request_of_visitor (v : Visitor) : HttpRequest :=
  match v with Browses a => request a | Shakes o => oidc_request o end.

(** Requests that may change state, whose body the framework can read, whose
    route needs an actor, and whose path is limited. *)
Definition state_changing (v : Visitor) : bool :=
  match v with
  | Browses a => negb (safe_method (target a))
  | Shakes o => match action o with Callback _ _ _ => false | _ => true end
  end.
Definition parsed (v : Visitor) : bool := match v with Browses a => readable a | Shakes _ => true end.
Definition needs_actor (v : Visitor) : bool :=
  match v with
  | Browses a => personal (target a)
  | Shakes o => match action o with Link | Reauthenticate => true | _ => false end
  end.
Definition for_administrators (v : Visitor) : bool :=
  match v with Browses a => administrative (target a) | Shakes _ => false end.
Definition limited_path (v : Visitor) : bool :=
  match v with
  | Browses a => bool_decide (is_Some (rule_of (path_of (resend a) (target a)))) && match router_of (target a) with IDENTITY => true | _ => false end
  | Shakes _ => true
  end.
Definition redis_down (v : Visitor) : Prop :=
  match v with Browses a => redis_up a = λ _, false | Shakes o => gate_up o = λ _, false end.

(** How a request ended: refused with a class of error, at a route, or answered. *)
Definition refused_as (r : Answer) : option error_class :=
  match r with
  | Plainly r => refused_with r
  | InHandshake (OidcStopped (RateLimits.Refused c)) | InHandshake (Ends (OidcRoutes.Refused (App c))) => Some c
  | _ => None
  end.
Definition reached (r : Answer) : bool :=
  match r with Plainly (Handled _) | InHandshake (Ends _) => true | _ => false end.
Definition answered (r : Answer) : bool :=
  match r with Plainly (Handled (Ok _)) | InHandshake (Ends (Redirected _)) => true | _ => false end.

(** The secret of the request stands for an actor. *)
Definition visitor_known `{Platform} (d : db) (v : Visitor) : Prop :=
  match v with
  | Browses a => known d a
  | Shakes o => ∃ secret x, session_cookie (oidc_request o) = Some secret ∧ authenticates sha256_hex d (oidc_utc o 0%nat) secret x
  end.
Definition visitor_administers `{Platform} (d : db) (v : Visitor) : Prop :=
  match v with Browses a => administers (utc a) d (request a) | Shakes _ => False end.

(** ** Handshakes *)

Lemma post_unsafe : lit "POST" ∉ SAFE_METHODS.
Proof. apply (bool_decide_eq_false_1 (lit "POST" ∈ SAFE_METHODS)). by vm_compute. Qed.
Lemma get_safe : lit "GET" ∈ SAFE_METHODS.
Proof. apply (bool_decide_eq_true_1 (lit "GET" ∈ SAFE_METHODS)). by vm_compute. Qed.

Section handshakes.
Context `{Platform, OidcLibrary} (config : WebConfig).
#[local] Abbreviation settings := (auth_settings (app config)).

(** The dependency of the routes that link or reauthenticate. *)
Lemma oidc_actor_run o d :
  table_ok (sessions d) → hashes_unique (sessions d) →
  (¬ trusted settings (oidc_request o) ∧ oidc_actor config o (Txn d d) = (Err (App UntrustedOriginError), Txn d d)) ∨
  (trusted settings (oidc_request o) ∧
   ((visitor_known d (Shakes o) ∧ ∃ x, oidc_actor config o (Txn d d) = (Ok x, Txn d d)) ∨
    (¬ visitor_known d (Shakes o) ∧ oidc_actor config o (Txn d d) = (Err (App AuthenticationRequiredError), Txn d d)))).
Proof using Type.
  intros Hok Hu. change (oidc_actor config o) with
    (the_actor (λ _, oidc_utc o 0%nat) (oidc_cached o) settings (oidc_request o) LogoutAllRoute).
  destruct (the_actor_run (λ _, oidc_utc o 0%nat) (oidc_cached o) settings (oidc_request o) LogoutAllRoute (Txn d d) Hok Hu)
    as [(_ & Ht & He)|[[Hs|Ht] Hres]]; [by left|by vm_compute in Hs|right]. split; [done|].
  destruct Hres as [(secret & x & Hc & Ha & He)|[Hn He]]; [left|right].
  - split; [by exists secret, x|by exists x].
  - split; [|done]. intros (secret & x & Hc & Ha). by eapply Hn.
Qed.

(** A route that needs an actor, without one. *)
Lemma oidc_unknown o d :
  table_ok (sessions d) → hashes_unique (sessions d) → ¬ visitor_known d (Shakes o) →
  ∃ e, oidc_actor config o (Txn d d) = (Err e, Txn d d).
Proof using Type.
  intros Hok Hu Hn. destruct (oidc_actor_run o d Hok Hu) as [[_ He]|[_ [[Hk _]|[_ He]]]]; [eauto|done|eauto].
Qed.

(** Linking and reauthenticating ask for the actor first. *)
Lemma start_link_actor o d e :
  oidc_actor config o (Txn d d) = (Err e, Txn d d) →
  run (start_link settings (oidc_cached o) (oidc_utc o) (origin (oidc_request o)) (session_cookie (oidc_request o))) d = (Err e, d) ∧
  run (start_reauthenticate settings (oidc_cached o) (oidc_utc o) (origin (oidc_request o)) (session_cookie (oidc_request o))) d
    = (Err e, d).
Proof using Type. intros He. split; by apply run_refused. Qed.

Lemma with_limits_same w : with_limits (limits (server w)) w = w.
Proof using Type. by destruct w as [[] ?]. Qed.

(** Without its actor such a request ends in the error, whatever its query. *)
Lemma oidc_reach_refused o w e :
  needs_actor (Shakes o) = true → oidc_actor config o (Txn (database (server w)) (database (server w))) =
    (Err e, Txn (database (server w)) (database (server w))) →
  oidc_reach config o w = (Ends (OidcRoutes.Refused e), w).
Proof using Type.
  intros Hn He. destruct (start_link_actor o _ _ He) as [Hl Hr].
  assert (Hd : run (oidc_dependencies config o) (database (server w)) = (Err e, database (server w))).
  { unfold oidc_dependencies. cbn in Hn. destruct (action o); try done; by apply run_refused. }
  unfold oidc_reach, oidc_handle, begins_for. rewrite Hd. cbn [fst]. cbn in Hn.
  destruct (provider_of _); [|done]. destruct (query_fits _); [|done]. destruct (action o); try done; by rewrite ?Hl, ?Hr.
Qed.

Lemma oidc_gate_foreign o l :
  state_changing (Shakes o) = true → ¬ trusted settings (oidc_request o) →
  oidc_gate config o l = (Err (RateLimits.Refused UntrustedOriginError), l).
Proof using Type.
  intros Hs Ht. apply gate_foreign.
  - unfold oidc_auth_request. cbn [q_method]. unfold state_changing in Hs. destruct (action o); try done; exact post_unsafe.
  - intros site Ho Hin. destruct Ht. by exists site.
Qed.

Lemma oidc_gate_closed o l :
  gate_up o = (λ _, false) → state_changing (Shakes o) = false ∨ trusted settings (oidc_request o) →
  oidc_gate config o l = (Err (RateLimits.Refused IdentityUnavailableError), l).
Proof using Type.
  intros Hup Hs. unfold oidc_gate. rewrite Hup. apply (gate_closed _ _ (oidc_path o)); [done|done|].
  destruct Hs as [Hs|(site & Ho & Hin)]; [left|right; by exists site].
  unfold oidc_auth_request. cbn [q_method]. unfold state_changing in Hs. destruct (action o); try done. exact get_safe.
Qed.

(** What does not get to a route leaves the database and the handshakes. *)
Lemma oidc_stopped o w r w' :
  oidc_serve config o w = (r, w') → reached (InHandshake r) = false →
  database (server w') = database (server w) ∧ handshakes w' = handshakes w.
Proof using Type.
  unfold oidc_serve. destruct (oidc_gate _ _ _) as [[u|e] l]; [|by intros [= <- <-]].
  assert (Hends : ∀ w r w', oidc_handle config o GOOGLE w = (r, w') ∨ oidc_handle config o YAHOO w = (r, w') → ∃ e, r = Ends e).
  { intros w1 r1 w1' Hor. assert (Hb : ∀ p i a path r w', begins config o p i a path w1 = (r, w') → ∃ e, r = Ends e).
    { intros p i a path r2 w2. unfold begins. destruct (begin _ _ _ _ _ _ _ _ _ _ _ _ _ _ _ _ _ _ _ _). intros [= <- _]. by eexists. }
    destruct Hor as [Hr|Hr]; unfold oidc_handle, begins_for in Hr; destruct (action o);
      try (destruct (run _ _).1; [by eapply Hb|by injection Hr as <- _; eexists]);
      destruct (callback_route _ _ _ _ _ _ _ _ _ _ _ _ _ _ _ _ _ _ _ _ _ _ _ _ _ _ _ _ _ _) as [[e1 s1] t1];
      injection Hr as <- _; by eexists. }
  unfold oidc_reach. destruct (provider_of _) as [p|]; [destruct (query_fits _)|].
  - intros Hh. destruct (Hends _ _ _ ltac:(destruct p; [by left|by right])) as [e ->]. done.
  - destruct (run _ _).1; by intros [= <- <-].
  - destruct (run _ _).1; by intros [= <- <-].
Qed.
End handshakes.

(** ** The boundary *)

Section boundary.
Context `{Platform, OidcLibrary} (trim : str → str) (config : WebConfig).

(** The property, for a request and what came of it. *)
Definition guards (v : Visitor) (w : Web) (r : Answer) (w' : Web) : Prop :=
  let unchanged := database (server w') = database (server w) ∧ handshakes w' = handshakes w in
  (state_changing v = true → ¬ trusted (auth_settings (app config)) (request_of_visitor v) →
     w' = w ∧ answered r = false ∧ (parsed v = true → refused_as r = Some UntrustedOriginError)) ∧
  (needs_actor v = true → ¬ visitor_known (database (server w)) v → answered r = false ∧ unchanged) ∧
  (redis_down v → limited_path v = true → w' = w ∧ answered r = false ∧ (parsed v = true → is_Some (refused_as r))) ∧
  (reached r = false → unchanged) ∧
  (answered r = true → (needs_actor v = true → visitor_known (database (server w)) v) ∧
     (for_administrators v = true → visitor_administers (database (server w)) v)).

Lemma browsing_guarded a w r w' :
  table_ok (sessions (database (server w))) → hashes_unique (sessions (database (server w))) →
  answer trim config (Browses a) w = (r, w') → guards (Browses a) w r w'.
Proof using Type.
  intros Hok Hu. unfold answer. destruct (serve trim (app config) a (server w)) as [x s'] eqn:Hs. intros [= <- <-].
  destruct w as [s hs]. cbn [server] in *.
  destruct (readable a) eqn:Hread.
  - destruct (routes_guarded trim (app config) a s x s' Hok Hu Hread Hs) as (H1 & H2 & H3 & H4 & H5).
    assert (Hans : answered (Plainly x) = true → ∃ resp, x = Handled (Ok resp)).
    { destruct x as [| |[resp|]|]; try done. by exists resp. }
    assert (Hno : ∀ c, refused_with x = Some c → answered (Plainly x) = false) by (intros c; by destruct x as [|[]|[|[]]|]).
    split_and!.
    + intros Hm%negb_true_iff Ht. destruct (H1 Hm Ht) as [Hr ->]. split_and!; [done|by eapply Hno|done].
    + intros Hp Hk. destruct (H2 Hp Hk) as [Hr Hd]. split_and!; [|done|done].
      apply not_true_is_false. intros Ha. destruct (Hans Ha) as [resp Hx]. by destruct (Hr resp).
    + intros Hd [Hrule Hro]%andb_true_iff. apply bool_decide_eq_true in Hrule.
      destruct (H3 Hd) as [[c Hc] ->]; [by destruct (router_of (target a))|by destruct Hrule as [? ->]|].
      split_and!; [done|by eapply Hno|eauto].
    + intros Hr. split; [|done]. apply H4. intros y ->. by destruct y.
    + intros Ha. destruct (Hans Ha) as [resp Hx]. by destruct (H5 resp Hx).
  - assert (x = Unprocessable ∧ s' = s) as [-> ->].
    { unfold Server.serve in Hs. rewrite Hread in Hs. by injection Hs as <- <-. }
    unfold guards. cbn. rewrite Hread. split_and!; intros; by split_and!.
Qed.

Lemma handshake_guarded o w r w' :
  table_ok (sessions (database (server w))) → hashes_unique (sessions (database (server w))) →
  answer trim config (Shakes o) w = (r, w') → guards (Shakes o) w r w'.
Proof using Type.
  intros Hok Hu. unfold answer. destruct (oidc_serve config o w) as [x w1] eqn:Hs. intros [= <- <-].
  assert (Hunknown : needs_actor (Shakes o) = true → ¬ visitor_known (database (server w)) (Shakes o) →
    answered (InHandshake x) = false ∧ database (server w1) = database (server w) ∧ handshakes w1 = handshakes w).
  { intros Hn Hk. destruct (oidc_unknown config o _ Hok Hu Hk) as [e He]. unfold oidc_serve in Hs.
    destruct (oidc_gate _ _ _) as [[u|e'] l]; [|by injection Hs as <- <-].
    rewrite (oidc_reach_refused config o (with_limits l w) e Hn He) in Hs. by injection Hs as <- <-. }
  assert (Hgate : ∀ e, oidc_gate config o (limits (server w)) = (Err (RateLimits.Refused e), limits (server w)) →
    x = OidcStopped (RateLimits.Refused e) ∧ w1 = w).
  { intros e He. unfold oidc_serve in Hs. rewrite He, with_limits_same in Hs. by injection Hs as <- <-. }
  split_and!.
  - intros Hm Ht. destruct (Hgate _ (oidc_gate_foreign config o _ Hm Ht)) as [-> ->]. by split_and!.
  - exact Hunknown.
  - intros Hd _. destruct (state_changing (Shakes o)) eqn:Hm.
    + destruct (trusted_origin_run (auth_settings (app config)) (oidc_request o) (Txn (database (server w)) (database (server w))))
        as [[Ht _]|[Ht _]].
      * destruct (Hgate _ (oidc_gate_closed config o _ Hd (or_intror Ht))) as [-> ->]. split_and!; [done..|by eexists].
      * destruct (Hgate _ (oidc_gate_foreign config o _ Hm Ht)) as [-> ->]. split_and!; [done..|by eexists].
    + destruct (Hgate _ (oidc_gate_closed config o _ Hd (or_introl Hm))) as [-> ->]. split_and!; [done..|by eexists].
  - by apply (oidc_stopped config o w x w1).
  - intros Ha. split; [|done]. intros Hn. destruct (oidc_actor_run config o (database (server w)) Hok Hu)
      as [[_ He]|[_ [[Hk _]|[_ He]]]]; [|done|].
    all: exfalso; unfold oidc_serve in Hs; destruct (oidc_gate _ _ _) as [[u|e'] l]; [|by injection Hs as <- <-].
    all: rewrite (oidc_reach_refused config o (with_limits l w) _ Hn He) in Hs; by injection Hs as <- <-.
Qed.
End boundary.

(** C5: The boundary of the server, limits and routes together, for every route
    behind the routers: identity, the four routes of a handshake with a provider
    and those of its identities, profiles, administration. A state-changing
    request from a site that is not trusted is not answered and leaves no trace:
    not even a counter moves. It is refused as untrusted, or, where its body is
    not even JSON, as unprocessable. A route that needs an actor does not answer
    without a session that stands for one, and then neither the database nor the
    handshakes change. While Redis does not answer, the limited routes of identity
    are closed to everybody, the callback included, and change nothing. What does
    not get to a route changes neither database nor handshakes. And an answer of
    a route that needs an actor went to one, an answer of an administrators'
    route to an administrator. *)
Theorem requests_guarded `{Platform, OidcLibrary} trim config v w r w' :
  table_ok (sessions (database (server w))) → hashes_unique (sessions (database (server w))) →
  answer trim config v w = (r, w') →
  let unchanged := database (server w') = database (server w) ∧ handshakes w' = handshakes w in
  (state_changing v = true → ¬ trusted (auth_settings (app config)) (request_of_visitor v) →
     w' = w ∧ answered r = false ∧ (parsed v = true → refused_as r = Some UntrustedOriginError)) ∧
  (needs_actor v = true → ¬ visitor_known (database (server w)) v → answered r = false ∧ unchanged) ∧
  (redis_down v → limited_path v = true → w' = w ∧ answered r = false ∧ (parsed v = true → is_Some (refused_as r))) ∧
  (reached r = false → unchanged) ∧
  (answered r = true → (needs_actor v = true → visitor_known (database (server w)) v) ∧
     (for_administrators v = true → visitor_administers (database (server w)) v)).
Proof.
  intros Hok Hu Hr. destruct v as [a|o].
  - by apply (browsing_guarded trim config a).
  - by apply (handshake_guarded trim config o).
Qed.

(** ** Evaluated requests *)

Definition demo_library : OidcLibrary := {|
  nfkc_text := λ _, false; ipv6_text := λ _, false; lowered := fmap ascii_lower; sha256_bytes := id; float_of := λ _, FNan;
  token_of := demo_decode (lit "n"); claims_check := demo_registry; attempt_json := demo_dump; attempt_of_json := demo_load |}.
Definition demo_web : WebConfig := NewWebConfig ServerSpecs.demo_config demo_oidc.
Definition demo_shake (a : Action) (site : str) (up : bool) : OidcArrival :=
  NewOidcArrival a (lit "google") (NewRequest (Some site) None (lit "r-1")) None (Some (lit "203.0.113.7")) 0 None None
    (λ _, up) (λ n, Z.of_nat n) (λ n, [N.of_nat n]) true 0 demo_get demo_post (λ _, 0) (λ _, seconds 10)
    (e_clock demo_env) (e_ids demo_env) None demo_drawn other_secret.

(** A foreign site asks for a code or begins a handshake, a stranger links a
    provider, a callback comes while Redis is down - and the administrator lists
    her users, and a visitor is sent to the provider. *)
Lemma requests_guarded_witness :
  let _ := demo_platform in let _ := demo_library in
  let before := NewWeb demo_server ∅ in
  let go v := answer id demo_web v before in
  let browse r site cookie := Browses (demo_arrival r site cookie (Fits 80 []) 1 true) in
  let evil := lit "https://evil.example" in
  let admin := browse (UsersRoute (NewPageRequest 1 10) None None None) demo_origin (Some demo_secret) in
  (go (browse (Register (lit "ada@example.com")) evil None)).2 = before ∧
  refused_as (go (Shakes (demo_shake (Start None) evil true))).1 = Some UntrustedOriginError ∧
  handshakes (go (Shakes (demo_shake Link demo_origin true))).2 = ∅ ∧
  (go (Shakes (demo_shake (Callback (lit "a-state-of-twenty-or-more") None None) demo_origin false))).2 = before ∧
  answered (go (Shakes (demo_shake (Start None) demo_origin true))).1 = true ∧
  visitor_administers (database (server before)) admin.
Proof.
  intros P L before go browse evil admin. destruct route_db_ok as (_ & _ & H1 & H2).
  pose proof (λ v, requests_guarded id demo_web v before _ _ H1 H2 (surjective_pairing _)) as Hall. fold go in Hall.
  assert (Hevil : ∀ q, origin q = Some evil → ¬ trusted (auth_settings (app demo_web)) q).
  { intros q Hq (o & Ho & Hin). rewrite Hq in Ho. injection Ho as <-. by apply list_elem_of_singleton in Hin. }
  split_and!.
  - by apply (proj1 (Hall (browse (Register (lit "ada@example.com")) evil None))); [by vm_compute|apply Hevil].
  - by apply (proj1 (Hall (Shakes (demo_shake (Start None) evil true)))); [|apply Hevil|].
  - refine (proj2 (proj2 (proj1 (proj2 (Hall (Shakes (demo_shake Link demo_origin true)))) eq_refl _))).
    by intros (secret & x & Hc & _).
  - by apply (proj1 (proj2 (proj2 (Hall (Shakes (demo_shake (Callback (lit "a-state-of-twenty-or-more") None None) demo_origin false)))))).
  - by vm_compute.
  - refine (proj2 (proj2 (proj2 (proj2 (proj2 (Hall admin)))) _) eq_refl). by vm_compute.
Defined.
