(* ===== verification/Isolation.v ===== *)
(** * Customers do not reach each other

    A request to a personal route changes rows of its own actor only, and what
    the profile routes answer depends on rows of its own actor only. *)

From S2P Require Import Prelude Regex PyValues CoreTypes AuditTrail AuditSpecs Events Outbox Errors Identity Sessions Passwords AuthEvents Challenges Administration AuthService Profile ExternalSignIn Histories RateLimits Http Routes RouteSpecs Server ServerSpecs.

(** ** The rows of others *)

(** No row of anybody but [A] is changed, added or removed. *)
Definition others {R} (owner : R → uuid) (A : uuid) (t t' : table R) : Prop :=
  ∀ k r, owner r ≠ A → t !! k = Some r ↔ t' !! k = Some r.

#[export] Instance others_preorder {R} (owner : R → uuid) A : PreOrder (others owner A).
Proof. split; [by intros t k r|]. intros t1 t2 t3 H12 H23 k r Hr. by rewrite (H12 k r Hr), (H23 k r Hr). Qed.

Section others.
Context {R : Type} `{Keyed R} (owner : R → uuid) (A : uuid).
Implicit Types t : table R.

Lemma others_update_where p f t :
  (∀ r, p r = true → owner r = A ∧ owner (f r) = A) → others owner A t (update_where p f t).
Proof.
  intros Hf k r Hr. rewrite lookup_update_where. destruct (t !! k) as [a|]; cbn; [|done].
  destruct (p a) eqn:Hp; [|done]. destruct (Hf a Hp). split; [intros [= ->]|intros [= <-]]; congruence.
Qed.

Lemma others_put a t : owner a = A → (∀ b, t !! row_id a = Some b → owner b = A) → others owner A t (put a t).
Proof.
  intros Ha Hb k r Hr. unfold put. destruct (decide (k = row_id a)) as [->|Hk].
  - rewrite lookup_insert_eq. split; [intros Hk; by apply Hb in Hk|intros [= ->]; congruence].
  - by rewrite lookup_insert_ne.
Qed.

Lemma others_delete k t : (∀ b, t !! k = Some b → owner b = A) → others owner A t (delete k t).
Proof.
  intros Hb i r Hr. destruct (decide (i = k)) as [->|Hk].
  - rewrite lookup_delete_eq. split; [intros Hi; by apply Hb in Hi|done].
  - by rewrite lookup_delete_ne.
Qed.
End others.

(** What a step of [A] leaves alone. *)
Record apart (A : uuid) (d d' : db) : Prop := {
  ap_users : others User.id A (users d) (users d');
  ap_sessions : others AuthSession.user_id A (sessions d) (sessions d');
  ap_addresses : others Address.user_id A (addresses d) (addresses d');
  ap_externals : others ExternalIdentity.user_id A (externals d) (externals d');
  ap_rest : credentials d' = credentials d ∧ challenges d' = challenges d ∧ outbox d' = outbox d;
  ap_audit : audit d `prefix_of` audit d' }.

#[export] Instance apart_preorder A : PreOrder (apart A).
Proof.
  split; [by split|]. intros d1 d2 d3 [? ? ? ? (? & ? & ?) ?] [? ? ? ? (? & ? & ?) ?].
  split; try (by etrans). split_and!; congruence.
Qed.

Section calls.
Context `{Platform} (clock : nat → datetime) (ids : nat → uuid) (settings : AuthSettings).

Lemma apart_authorize B t now later a p recent : evolves (apart B) t (authorize now later a p recent).
Proof using Type. apply evolves_still; [apply _|apply authorize_frame]. Qed.
Lemma apart_record B t r : evolves (apart B) t (record_audit r).
Proof using Type.
  unfold record_audit. evolves_auto. apply evolves_modify. split; try done. cbn. by eexists.
Qed.
Hint Resolve apart_authorize apart_record : service.

Lemma authorize_same now later a p recent t u t' : authorize now later a p recent t = (Ok u, t') → t' = t.
Proof using Type. intros Ha. pose proof (authorize_frame now later a p recent t) as Hf. by rewrite Ha in Hf. Qed.

Lemma own_update_profile t actor data :
  table_ok (users (pending t)) → evolves (apart (actor_user actor)) t (update_profile clock actor data).
Proof using Type.
  intros Hok. unfold update_profile. evolves_auto.
  match goal with H : authorize _ _ _ _ _ _ = _ |- _ => apply authorize_Ok in H as [-> (s & role & Hu & _)] end.
  apply evolves_modify. pose proof (Hok _ _ Hu) as Hid. change (User.id a = actor_user actor) in Hid.
  split; try done. apply others_put; [done|]. intros b Hb. pose proof (Hok _ _ Hb) as Hb'.
  change (User.id b = User.id a) in Hb'. congruence.
Qed.

Lemma own_delete_address t actor i : evolves (apart (actor_user actor)) t (delete_address clock actor i).
Proof using Type.
  unfold delete_address. evolves_auto. apply evolves_modify. split; try done.
  match goal with H : own_address _ _ _ = Some _ |- _ => apply own_address_Some in H as [Hi Ho] end.
  apply others_delete. intros b Hb. cbn in *. congruence.
Qed.

Lemma own_write_address t actor data a :
  Address.user_id a = actor_user actor →
  (∀ b, addresses (pending t) !! Address.id a = Some b → Address.user_id b = actor_user actor) →
  evolves (apart (actor_user actor)) t (write_address actor data a).
Proof using Type.
  intros Ha Hb. unfold write_address.
  assert (Hset : ∀ x, default_of (actor_user actor) (a_kind data) x = true → Address.user_id x = actor_user actor).
  { intros x Hx. unfold default_of, owned_by in Hx. by bool_inv. }
  assert (Hclear : ∀ tt, others Address.user_id (actor_user actor) tt
    (update_where (default_of (actor_user actor) (a_kind data)) (λ a, a <| Address.is_default := false |>) tt)).
  { intros tt0. apply others_update_where. intros x Hx. split; exact (Hset x Hx). }
  assert (Hput : ∀ tt tt', others Address.user_id (actor_user actor) (addresses (pending t)) tt →
    flush_address (assign data a) tt = Ok tt' → others Address.user_id (actor_user actor) tt tt').
  { intros t0 t1 Ht Hf. unfold flush_address in Hf. res_inv. injection Hf as <-. apply others_put; [exact Ha|].
    intros b Hb'. destruct (decide (Address.user_id b = actor_user actor)) as [|Hne]; [done|].
    apply (Hb b). by apply (Ht _ _ Hne). }
  destruct (a_is_default data); evolves_auto; apply evolves_modify; (split; try done); cbn.
  - match goal with Hf : flush_address _ _ = Ok _ |- _ => refine (Hput _ _ _ Hf) end. apply Hclear.
  - match goal with Hf : flush_address _ _ = Ok _ |- _ => by refine (Hput _ _ _ Hf) end.
Qed.

Lemma own_save_address t actor data address_id :
  table_ok (addresses (pending t)) → (address_id = None → addresses (pending t) !! ids 0%nat = None) →
  evolves (apart (actor_user actor)) t (save_address clock ids actor data address_id).
Proof using Type.
  intros Hok Hfresh. unfold save_address. evolves_auto. apply authorize_same in H0 as ->.
  destruct address_id as [i|].
  - destruct (own_address actor i _) as [x|] eqn:Ho; M_inv. apply own_address_Some in Ho as [Hi Ho].
    apply own_write_address; [done|]. intros b Hb. pose proof (Hok _ _ Hi) as Hid. change (Address.id x = i) in Hid. congruence.
  - M_inv. apply own_write_address; [done|]. intros b Hb. cbn in Hb. by rewrite Hfresh in Hb.
Qed.

Lemma own_logout_all t actor : evolves (apart (actor_user actor)) t (logout_all clock actor).
Proof using Type.
  unfold logout_all, revoke. evolves_auto. apply evolves_modify. split; try done. cbn.
  apply others_update_where. intros s Hs. unfold revocable in Hs. bool_inv. by split.
Qed.

Lemma own_reauthenticate t actor password :
  table_ok (sessions (pending t)) →
  (∀ s, sessions (pending t) !! actor_session actor = Some s → AuthSession.user_id s = actor_user actor) →
  evolves (apart (actor_user actor)) t (reauthenticate clock actor password).
Proof using Type.
  intros Hok Hs. unfold reauthenticate, get_credential, find_user_by_id. evolves_auto.
  apply evolves_modify. split; try done. pose proof (Hs _ eq_refl) as Hu. pose proof (Hok _ _ Heqo0) as Hid.
  change (AuthSession.id t1 = actor_session actor) in Hid. apply others_put; [done|].
  intros b Hb. change (row_id _) with (AuthSession.id t1) in Hb. rewrite Hid in Hb. apply Hs. congruence.
Qed.

Lemma own_unlink t actor provider corr :
  table_ok (externals (pending t)) → evolves (apart (actor_user actor)) t (unlink clock ids settings actor provider corr).
Proof using Type.
  intros Hok. unfold unlink, lock_email, session_audit_actor. evolves_auto. apply evolves_modify. split; try done. cbn.
  apply authorize_same in H1 as ->. apply find_row_Some in Heqo0 as [[k Hk] Hp]. pose proof (Hok _ _ Hk) as Hid.
  change (ExternalIdentity.id t2 = k) in Hid. unfold by_user_provider, by_user in Hp. bool_inv.
  apply others_delete. intros b Hb. congruence.
Qed.

(** ** Personal routes *)

Context (trim : str → str) (hint : option uuid) (new_secret : str) (secure_cookies : bool).

Lemma apart_bind B {X Y} t (m : M X) (f : X → M Y) :
  evolves (apart B) t m → (∀ x t', m t = (Ok x, t') → evolves (apart B) t' (f x)) → evolves (apart B) t (m ≫= f).
Proof using Type. apply evolves_bind, _. Qed.

Lemma apart_answer B {X} t (m : M X) (f : X → M (Response content)) :
  evolves (apart B) t m → (∀ x t', (f x t').2 = t') → evolves (apart B) t (m ≫= f).
Proof using Type. intros Hm Hf. apply apart_bind; [done|]. intros x t' _. by apply evolves_still; [apply _|]. Qed.

(** What a personal route does once its actor is known. *)
Lemma own_handle r q d actor :
  personal r = true → administrative r = false →
  table_ok (users d) → table_ok (sessions d) → table_ok (addresses d) → table_ok (externals d) →
  addresses d !! ids 0%nat = None →
  (∀ s, sessions d !! actor_session actor = Some s → AuthSession.user_id s = actor_user actor) →
  the_actor clock hint settings q r (Txn d d) = (Ok actor, Txn d d) →
  evolves (apart (actor_user actor)) (Txn d d) (handle trim clock ids hint new_secret settings secure_cookies r q).
Proof using Type.
  intros Hp Ha Hu Hs Had Hx Hfresh Hown Hactor.
  assert (Hbind : ∀ f : Actor → M (Response content), evolves (apart (actor_user actor)) (Txn d d) (f actor) →
    evolves (apart (actor_user actor)) (Txn d d) (the_actor clock hint settings q r ≫= f)).
  { intros f Hf. apply apart_bind; [apply evolves_still; [apply _|by rewrite Hactor]|].
    intros x t' Hx'. rewrite Hactor in Hx'. by injection Hx' as <- <-. }
  assert (Hlift : ∀ X (m : res pyexn X) (f : X → M (Response content)),
    (∀ x, m = Ok x → evolves (apart (actor_user actor)) (Txn d d) (f x)) →
    evolves (apart (actor_user actor)) (Txn d d) (lift m ≫= f)).
  { intros X m f Hf. apply apart_bind; [by apply evolves_lift, _|]. intros x t' Hm. apply lift_Ok in Hm as [Hm ->]. by apply Hf. }
  destruct r; try done; cbn [handle]; apply Hbind.
  - unfold find_user_by_id. evolves_auto.
  - apply apart_bind; [apply own_logout_all|]. intros x t' _. evolves_auto.
  - apply Hlift. intros x _. apply apart_bind; [by apply own_reauthenticate|]. intros y t' _. evolves_auto.
  - unfold list_identities. evolves_auto.
  - apply apart_bind; [by apply own_unlink|]. intros x t' _. evolves_auto.
  - evolves_auto.
  - apply Hlift. intros x _. apply apart_bind; [by apply own_update_profile|]. intros y t' _. evolves_auto.
  - unfold list_addresses. evolves_auto.
  - apply Hlift. intros x _. apply apart_bind; [by apply own_save_address|]. intros y t' _. evolves_auto.
  - apply Hlift. intros x _. apply apart_bind; [by apply own_save_address|]. intros y t' _. evolves_auto.
  - apply apart_bind; [apply own_delete_address|]. intros x t' _. evolves_auto.
Qed.
End calls.

(** ** What an answer depends on *)

(** The rows of [A] are the same in two tables. *)
Definition mine {R} (owner : R → uuid) (A : uuid) (t t' : table R) : Prop :=
  ∀ k r, owner r = A → t !! k = Some r ↔ t' !! k = Some r.

Record agree (A : uuid) (d d' : db) : Prop := {
  ag_user : users d !! A = users d' !! A;
  ag_sessions : mine AuthSession.user_id A (sessions d) (sessions d');
  ag_addresses : mine Address.user_id A (addresses d) (addresses d');
  ag_externals : mine ExternalIdentity.user_id A (externals d) (externals d') }.

Definition tables_ok (d : db) : Prop :=
  table_ok (users d) ∧ table_ok (sessions d) ∧ hashes_unique (sessions d) ∧ table_ok (addresses d) ∧ table_ok (externals d).

Lemma lexle_antisymm xs ys : lexle xs ys → lexle ys xs → xs = ys.
Proof.
  revert ys. induction xs as [|x xs IH]; intros [|y ys]; try done. rewrite !lexle_cons.
  intros [?|[-> ?]] [?|[? ?]]; [lia..|]. f_equal. by apply IH.
Qed.

Section select.
Context {R : Type} `{Keyed R} (owner : R → uuid) (A : uuid) (p : R → bool) (key : R → list Z) (t t' : table R).
Context (Hok : table_ok t) (Hok' : table_ok t') (Hmine : mine owner A t t') (Hp : ∀ r, p r = true → owner r = A).

Lemma select_mine_Permutation : select p key t ≡ₚ select p key t'.
Proof using All.
  apply NoDup_Permutation; [by eapply NoDup_fmap_1, select_NoDup..|]. intros r.
  rewrite !elem_of_select by done. split; intros [Hr Hl]; (split; [done|]); by apply (Hmine _ _ (Hp r Hr)).
Qed.

(** Rows with different keys come in one order. *)
Lemma select_mine : (∀ r r', key r = key r' → row_id r = row_id r') → select p key t = select p key t'.
Proof using All.
  intros Hkey. eapply StronglySorted_unique_strong; [|apply select_Sorted..|apply select_mine_Permutation].
  intros r r' Hr Hr' H1 H2. apply elem_of_select in Hr as [Hpr Hr]; [|done]. apply elem_of_select in Hr' as [Hpr' Hr']; [|done].
  pose proof (Hkey r r' (lexle_antisymm _ _ H1 H2)) as Hid. apply (Hmine _ _ (Hp r Hpr)) in Hr. rewrite Hid in Hr. congruence.
Qed.

Lemma sorted_keys (l : list R) : StronglySorted (key_le key) l → StronglySorted (λ xs ys, Is_true (lexle xs ys)) (key <$> l).
Proof using Type.
  induction 1 as [|x l _ IH Hx]; [constructor|]. cbn. constructor; [done|]. by apply Forall_fmap.
Qed.

(** In any case their keys do. *)
Lemma select_keys : key <$> select p key t = key <$> select p key t'.
Proof using All.
  eapply StronglySorted_unique_strong; [|apply sorted_keys, select_Sorted..|by rewrite select_mine_Permutation].
  intros xs ys _ _. apply lexle_antisymm.
Qed.
End select.

Lemma traverse_by {E X Y Z} (f : X → res E Y) (g : Z → res E Y) (h : X → Z) l :
  (∀ x, f x = g (h x)) → traverse f l = traverse g (h <$> l).
Proof. intros Hf. induction l as [|x l IH]; [done|]. cbn. by rewrite Hf, IH. Qed.

(** Calls that answer the same on two databases and change neither. *)
Definition same_answer {X} (d d' : db) (m m' : M X) : Prop :=
  ∃ r, m (Txn d d) = (r, Txn d d) ∧ m' (Txn d' d') = (r, Txn d' d').

Section reading.
Context (d d' : db).
#[local] Abbreviation same m := (same_answer d d' m m).

Lemma same_pure {X} (m : M X) : (∀ t, m t = ((m (Txn d d)).1, t)) → same m.
Proof using Type. intros Hm. eexists. split; apply Hm. Qed.
Lemma same_ret {X} (x : X) : same (mret x).
Proof using Type. by eexists. Qed.
Lemma same_raise {X} c : same (@raise X c).
Proof using Type. by eexists. Qed.
Lemma same_check b c : same (check b c).
Proof using Type. destruct b; by eexists. Qed.
Lemma same_lift {X} (r : res pyexn X) : same (lift r).
Proof using Type. destruct r; by eexists. Qed.
Lemma same_get {X} (f : db → M X) : same_answer d d' (f d) (f d') → same (get ≫= f).
Proof using Type. done. Qed.
Lemma same_bind {X Y} (m : M X) (f : X → M Y) : same m → (∀ x, same (f x)) → same (m ≫= f).
Proof using Type.
  intros (r & H1 & H2) Hf. unfold same_answer, mbind, M_bind. rewrite H1, H2. destruct r as [x|e]; [apply Hf|by eexists].
Qed.
End reading.

Definition reading (r : route) : bool :=
  match r with MeRoute | IdentitiesRoute | GetProfile | AddressesRoute => true | _ => false end.

Section answers.
Context `{Platform} (clock : nat → datetime) (ids : nat → uuid) (d d' : db) (actor : Actor).
Context (Hok : tables_ok d) (Hok' : tables_ok d') (Hagree : agree (actor_user actor) d d').
Context (s : AuthSession.t) (Hs : sessions d !! actor_session actor = Some s) (Howner : AuthSession.user_id s = actor_user actor).
#[local] Abbreviation same m := (same_answer d d' m m).

Lemma same_user : same (find_user_by_id (actor_user actor)).
Proof using Hagree. unfold find_user_by_id. apply same_get. rewrite (ag_user _ _ _ Hagree). by eexists. Qed.

Lemma same_authorize now later p recent : same (authorize now later actor p recent).
Proof using Hagree Hs Howner.
  unfold authorize. apply same_bind; [apply same_user|]. intros u. apply same_get.
  rewrite (proj1 (ag_sessions _ _ _ Hagree _ _ Howner) Hs), Hs.
  destruct u as [u|]; [|apply same_raise]. apply same_bind; [apply same_check|]. intros _.
  destruct (role_of _); [|apply same_raise]. apply same_bind; [apply same_check|]. intros _.
  apply same_bind; [apply same_check|]. intros _. apply same_ret.
Qed.

Lemma same_list_addresses : same (list_addresses clock actor).
Proof using All.
  unfold list_addresses. apply same_bind; [apply same_authorize|]. intros _. apply same_get.
  destruct Hok as (_ & _ & _ & H1 & _), Hok' as (_ & _ & _ & H2 & _).
  rewrite (select_mine Address.user_id (actor_user actor) _ oldest_address _ _ H1 H2 (ag_addresses _ _ _ Hagree)).
  - apply same_ret.
  - intros r Hr. by apply bool_decide_eq_true in Hr.
  - intros r r' [=]. done.
Qed.

Lemma same_list_identities : same (list_identities clock actor).
Proof using All.
  unfold list_identities. apply same_bind; [apply same_authorize|]. intros _. apply same_get.
  destruct Hok as (_ & _ & _ & _ & H1), Hok' as (_ & _ & _ & _ & H2).
  set (g := λ key : list Z, match provider_of (Z.to_N <$> key) with
    | Some p => Ok p | None => @Err pyexn _ (ValueError "not a valid ProviderName") end).
  rewrite !(traverse_by _ g oldest_provider); [|intros e; unfold g, oldest_provider; rewrite <-list_fmap_compose;
    rewrite (list_fmap_ext _ id); [by rewrite list_fmap_id|intros i x _; apply N2Z.id]..].
  rewrite (select_keys ExternalIdentity.user_id (actor_user actor) _ oldest_provider _ _ H1 H2 (ag_externals _ _ _ Hagree)).
  - apply same_lift.
  - intros r Hr. by apply bool_decide_eq_true in Hr.
Qed.
End answers.

(** The rows behind an actor. *)
Lemma actor_session_owned `{Platform} d now secret a :
  table_ok (users d) → authenticates sha256_hex d now secret a →
  ∃ s, sessions d !! actor_session a = Some s ∧ AuthSession.user_id s = actor_user a.
Proof.
  intros Hok (s & u & role & _ & Hs & _ & _ & _ & Hu & _ & _ & ->). exists s. split; [done|].
  by rewrite (Hok _ _ Hu : User.id u = _).
Qed.

Lemma authenticates_agree `{Platform} d d' now secret a :
  table_ok (users d) → agree (actor_user a) d d' →
  authenticates sha256_hex d now secret a → authenticates sha256_hex d' now secret a.
Proof.
  intros Hok Hag (s & u & role & Hf & Hs & Hh & Hr & He & Hu & Ha & Hro & ->).
  pose proof (Hok _ _ Hu : User.id u = _) as Hid. cbn in Hag. exists s, u, role. split_and!; try done.
  - by apply (ag_sessions _ _ _ Hag).
  - rewrite <-Hid, <-(ag_user _ _ _ Hag), Hid. done.
Qed.

Section requests.
Context `{Platform} (trim : str → str) (clock : nat → datetime) (ids : nat → uuid) (hint : option uuid) (new_secret : str).
Context (settings : AuthSettings) (secure_cookies : bool) (q : HttpRequest) (secret : str) (actor : Actor) (d d' : db).
Context (Hcookie : session_cookie q = Some secret) (Hauth : authenticates sha256_hex d (clock 20%nat) secret actor).
Context (Hok : tables_ok d).
#[local] Abbreviation handle := (handle trim clock ids hint new_secret settings secure_cookies).
#[local] Abbreviation the_actor := (the_actor clock hint settings).

Lemma same_actor r : tables_ok d' → agree (actor_user actor) d d' → safe_method r = true →
  the_actor q r (Txn d d) = (Ok actor, Txn d d) ∧ the_actor q r (Txn d' d') = (Ok actor, Txn d' d').
Proof using Hcookie Hauth Hok.
  intros Hok' Hag Hr. destruct Hok as (Hu & H1 & H2 & _), Hok' as (_ & H1' & H2' & _). split.
  - by apply (the_actor_known clock hint settings r q (Txn d d) secret); [..|left].
  - apply (the_actor_known clock hint settings r q (Txn d' d') secret); [done..| |by left].
    by eapply authenticates_agree.
Qed.

Lemma same_handle r : tables_ok d' → agree (actor_user actor) d d' → reading r = true →
  same_answer d d' (handle r q) (handle r q).
Proof using Hcookie Hauth Hok.
  intros Hok' Hag Hr. destruct (actor_session_owned _ _ _ _ (proj1 Hok) Hauth) as (s & Hs & Ho).
  assert (Hbind : ∀ f : Actor → M (Response content), safe_method r = true → same_answer d d' (f actor) (f actor) →
    same_answer d d' (the_actor q r ≫= f) (the_actor q r ≫= f)).
  { intros f Hsafe (x & H1 & H2). destruct (same_actor r Hok' Hag Hsafe) as [E1 E2]. exists x.
    unfold mbind, M_bind. by rewrite E1, E2. }
  destruct r; try done; cbn [Routes.handle]; (apply Hbind; [vm_compute; reflexivity|]).
  - apply same_bind; [by apply same_user|]. intros [u|]; [apply same_ret|apply same_raise].
  - apply same_bind; [by eapply same_list_identities|]. intros l. apply same_ret.
  - apply same_bind; [by eapply same_authorize|]. intros u. apply same_ret.
  - apply same_bind; [by eapply same_list_addresses|]. intros l. apply same_bind; [apply same_lift|].
    intros v. apply same_ret.
Qed.

(** A personal request as a whole. *)
Lemma own_run r :
  personal r = true → administrative r = false → addresses d !! ids 0%nat = None →
  safe_method r = true ∨ trusted settings q →
  apart (actor_user actor) d (run (handle r q) d).2.
Proof using Hcookie Hauth Hok.
  intros Hp Ha Hfresh Hsafe. destruct Hok as (Hu & H1 & H2 & H3 & H4).
  destruct (actor_session_owned _ _ _ _ Hu Hauth) as (s & Hs & Ho).
  apply (evolves_run (apart (actor_user actor))), own_handle; try done; [intros s' Hs'; congruence|].
  by apply (the_actor_known clock hint settings r q (Txn d d) secret).
Qed.
End requests.

Section server.
Context `{Platform} (trim : str → str) (config : AppConfig) (a : Arrival).
#[local] Abbreviation settings := (auth_settings config).
#[local] Abbreviation handled d := (run (handle trim (utc a) (fresh_ids a) (cached a) (drawn_secret a) settings
  (cookies_secure config) (target a) (request a)) d).

(** Who acts, and on what. *)
Definition acts (d d2 : db) : Prop :=
  ∃ secret x, session_cookie (request a) = Some secret ∧ authenticates sha256_hex d (utc a 20%nat) secret x ∧
    apart (actor_user x) d d2.

Lemma personal_run d :
  tables_ok d → personal (target a) = true → administrative (target a) = false → addresses d !! fresh_ids a 0%nat = None →
  (handled d).2 = d ∨ acts d (handled d).2.
Proof using Type.
  intros Hok Hp Ha Hfresh. pose proof Hok as (_ & H1 & H2 & _).
  destruct (personal_handle trim (utc a) (fresh_ids a) (cached a) (drawn_secret a) settings (cookies_secure config)
    (target a) (request a) Hp) as [f Hf].
  destruct (the_actor_run (utc a) (cached a) settings (request a) (target a) (Txn d d) H1 H2)
    as [(_ & _ & He)|[Hsafe [(secret & x & Hc & Hx & _)|[_ He]]]].
  - left. by rewrite Hf, (run_refused _ f d _ He).
  - right. exists secret, x. split_and!; [done..|]. by eapply own_run.
  - left. by rewrite Hf, (run_refused _ f d _ He).
Qed.

Lemma serve_database s :
  (serve trim config a s).2.(database) = database s ∨ (serve trim config a s).2.(database) = (handled (database s)).2.
Proof using Type.
  assert (Hreach : ∀ l, database (reach trim config a (NewServer l (database s))).2 = database s ∨
    database (reach trim config a (NewServer l (database s))).2 = (handled (database s)).2).
  { intros l. unfold reach. destruct (fitting a); [right|left; by destruct (run _ _).1]. cbn [limits database]. by destruct (run _ _). }
  destruct s as [l d]. cbn [database limits] in *. unfold serve, behind. cbn [limits database].
  destruct (negb _); [by left|]. destruct (router_of _); [|destruct (run _ _).1; [|by left]|apply Hreach];
    (match goal with |- context [match ?g l with _ => _ end] => destruct (g l) as [[[]|e] l'] end; [apply Hreach|by left]).
Qed.

Lemma reading_same l d d' secret x :
  reading (target a) = true → session_cookie (request a) = Some secret →
  authenticates sha256_hex d (utc a 20%nat) secret x → tables_ok d → tables_ok d' → agree (actor_user x) d d' →
  (serve trim config a (NewServer l d')).1 = (serve trim config a (NewServer l d)).1.
Proof using Type.
  intros Hr Hc Hx Hok Hok' Hag.
  assert (Hreach : ∀ l, (reach trim config a (NewServer l d')).1 = (reach trim config a (NewServer l d)).1).
  { intros l'. unfold reach. assert (fitting a = true) as -> by (unfold fitting; destruct (body a), (target a); done).
    cbn [limits database]. unfold run.
    destruct (same_handle trim (utc a) (fresh_ids a) (cached a) (drawn_secret a) settings (cookies_secure config)
      (request a) secret x d d' Hc Hx Hok (target a) Hok' Hag Hr) as (y & -> & ->). done. }
  assert (Hsafe : safe_method (target a) = true) by (destruct (target a); done).
  destruct (same_actor (utc a) (cached a) settings (request a) secret x d d' Hc Hx Hok (target a) Hok' Hag Hsafe) as [E1 E2].
  unfold serve, behind, run. cbn [limits database]. rewrite E1, E2. cbn [fst].
  destruct (negb _); [done|]. destruct (router_of _); [| |apply Hreach];
    (match goal with |- context [match ?g l with _ => _ end] => destruct (g l) as [[[]|e] l'] end; [apply Hreach|done]).
Qed.
End server.

(** C6: Customers do not reach each other. Whatever a request to a personal route
    carries - the ids of other people's addresses included - either nothing is
    stored, or it came with the secret of a live session, and only rows of that
    session's own account were changed, added or removed: every other account,
    session, address and external identity is as before, passwords, challenges
    and staged events are untouched, and audit evidence only grows. And what the
    routes that show an account, its profile, its addresses or its sign-in
    methods answer depends on that account's rows alone: on any other database
    that has the same rows for it the answer is the same, so nothing about
    anybody else can be learnt from it. *)
Theorem customers_isolated `{Platform} trim config a s r s' :
  tables_ok (database s) → personal (target a) = true → administrative (target a) = false →
  addresses (database s) !! fresh_ids a 0%nat = None →
  serve trim config a s = (r, s') →
  (database s' = database s ∨ acts a (database s) (database s')) ∧
  (reading (target a) = true → ∀ secret x d', session_cookie (request a) = Some secret →
     authenticates sha256_hex (database s) (utc a 20%nat) secret x →
     tables_ok d' → agree (actor_user x) (database s) d' →
     (serve trim config a (NewServer (limits s) d')).1 = r).
Proof.
  intros Hok Hp Ha Hfresh Hs. split.
  - pose proof (serve_database trim config a s) as Hd. rewrite Hs in Hd. cbn [snd] in Hd.
    destruct Hd as [->| ->]; [by left|]. by apply personal_run.
  - intros Hr secret x d' Hc Hx Hok' Hag. destruct s as [l d]. cbn [limits database] in *.
    by rewrite (reading_same trim config a l d d' secret x Hr Hc Hx Hok Hok' Hag), Hs.
Qed.

(** ** Evaluated requests *)

(** An address of each of two accounts. *)
Definition demo_address (i u : uuid) : Address.t :=
  Address.New i u (lit "shipping") (lit "Ada") (lit "1 Main Street") None (lit "Lagos") (lit "Lagos") None (lit "NG") None false 0.
Definition address_db (l : list (uuid * uuid)) : db :=
  route_db <| addresses := list_to_map ((λ '(i, u), (i, demo_address i u)) <$> l) |>.
Definition two_books : db := address_db [(31, 1); (32, 2)].
Definition one_book : db := address_db [(31, 1)].

Lemma address_db_ok l : NoDup l.*1 → tables_ok (address_db l).
Proof.
  intros Hl. destruct route_db_ok as (H1 & _ & H3 & H4). split_and!; try done.
  intros i x Hx. apply elem_of_list_to_map_2, list_elem_of_fmap in Hx as ([j u] & [= -> ->] & _). done.
Qed.

(** She removes her address and not the other, cannot tell whether there is
    another, and is who her secret stands for. *)
Lemma customers_isolated_witness :
  let _ := demo_platform in
  let go r d := serve id demo_config (demo_arrival r demo_origin (Some demo_secret) (Fits 80 []) 1 true) (NewServer ∅ d) in
  let removed := addresses (database (go (RemoveAddress 31) two_books).2) in
  removed !! 31 = None ∧ removed !! 32 = Some (demo_address 32 2) ∧
  database (go (RemoveAddress 32) two_books).2 = two_books ∧
  (go AddressesRoute one_book).1 = (go AddressesRoute two_books).1.
Proof.
  intros P go removed.
  assert (Hok : tables_ok two_books ∧ tables_ok one_book) by (split; apply address_db_ok; cbn; repeat constructor; set_solver).
  assert (Hx : authenticates sha256_hex two_books (e_clock demo_env 20%nat) demo_secret (NewActor 1 5 ADMIN_ROLE 0)).
  { exists demo_session, demo_user, ADMIN_ROLE. by split_and!. }
  pose proof (λ r resp s', customers_isolated id demo_config (demo_arrival r demo_origin (Some demo_secret) (Fits 80 []) 1 true)
    (NewServer ∅ two_books) resp s' (proj1 Hok)) as Hall.
  split_and!; [by vm_compute| |by vm_compute|].
  - destruct (proj1 (Hall (RemoveAddress 31) _ _ eq_refl eq_refl eq_refl (surjective_pairing _))) as [He|(secret & x & Hc & Hx' & Hap)].
    + unfold removed, go. rewrite He. done.
    + injection Hc as <-. cbn [database] in Hx', Hap. assert (actor_user x = 1) as H1.
      { destruct (actor_session_owned _ _ _ _ (proj1 (proj1 Hok)) Hx') as (s' & Hs' & <-).
        destruct Hx' as (s2 & u & role & _ & Hs2 & _ & _ & _ & _ & _ & _ & ->). cbn [actor_session] in Hs'.
        rewrite Hs2 in Hs'. injection Hs' as <-. change (sessions two_books) with ({[5 := demo_session]} : table AuthSession.t) in Hs2.
        apply lookup_singleton_Some in Hs2 as [_ <-]. done. }
      rewrite H1 in Hap. by apply (ap_addresses _ _ _ Hap).
  - refine (proj2 (Hall AddressesRoute _ _ eq_refl eq_refl eq_refl (surjective_pairing _)) eq_refl demo_secret _ _ eq_refl Hx (proj2 Hok) _).
    split; try done. intros i b Hb.
    change (<[31 := demo_address 31 1]> (<[32 := demo_address 32 2]> ∅ : table Address.t) !! i = Some b
            ↔ <[31 := demo_address 31 1]> (∅ : table Address.t) !! i = Some b).
    destruct (decide (i = 31)) as [->|H31]; [by rewrite !lookup_insert_eq|]. rewrite !(lookup_insert_ne _ 31) by done.
    destruct (decide (i = 32)) as [->|H32]; [|by rewrite lookup_insert_ne].
    rewrite lookup_insert_eq. split; [intros [= <-]; done|done].
Defined.
