(* ===== verification/Schema.v ===== *)
(** * Schemas and the operations that change them

    Tables with their columns, constraints, indexes and rules; the operations of
    a migration script as data; what an engine that runs them promises, as an
    interface; and a small engine that keeps the promises. *)

From S2P Require Import Prelude Regex.

Inductive sql_type := SUuid | SString (length : Z) | SInteger | SBoolean | STimestamp | SJsonb.
Record column := Column { c_type : sql_type; c_default : option str; c_nullable : bool }.
Inductive constraint :=
| PrimaryKey (columns : list str)
| Unique (columns : list str)
| CheckExpr (expression : str)
| ForeignKey (columns : list str) (referred : str) (referred_columns : list str) (ondelete : str).
Record index := Index { i_columns : list str; i_unique : bool; i_where : option str }.
Record relation := Relation {
  columns : gmap str column;
  constraints : gmap str constraint;
  indexes : gmap str index;
  rules : gmap str str }.
Abbreviation schema := (gmap str relation).

#[export] Instance sql_type_eq_dec : EqDecision sql_type. Proof. solve_decision. Defined.
#[export] Instance column_eq_dec : EqDecision column. Proof. solve_decision. Defined.
#[export] Instance constraint_eq_dec : EqDecision constraint. Proof. solve_decision. Defined.
#[export] Instance index_eq_dec : EqDecision index. Proof. solve_decision. Defined.
#[export] Instance relation_eq_dec : EqDecision relation. Proof. solve_decision. Defined.

(** The calls of a script on [op]; [CreateRule], [DropRule] and [Rewrite] are
    statements given to [op.execute], the last one an UPDATE of rows. *)
Inductive op :=
| CreateTable (table : str) (cs : list (str * column)) (ks : list (str * constraint))
| DropTable (table : str)
| CreateIndex (name table : str) (i : index)
| DropIndex (name table : str)
| AddColumn (table name : str) (c : column)
| DropColumn (table name : str)
| CreateCheck (name table expression : str)
| DropCheck (name table : str)
| CreateRule (name table event : str)
| DropRule (name table : str)
| Rewrite (table : str).

#[export] Instance op_eq_dec : EqDecision op. Proof. solve_decision. Defined.

(** The operation that takes one back. *)
Definition undo (o : op) : option op :=
  match o with
  | CreateTable t _ _ => Some (DropTable t)
  | CreateIndex n t _ => Some (DropIndex n t)
  | AddColumn t n _ => Some (DropColumn t n)
  | CreateCheck n t _ => Some (DropCheck n t)
  | CreateRule n t _ => Some (DropRule n t)
  | _ => None
  end.
Definition creates (o : op) : bool := match undo o with Some _ => true | None => false end.
Definition rewrites (o : op) : bool := match o with Rewrite _ => true | _ => false end.

(** An engine: what it does with an operation on the states it reaches, and that
    taking back what was just created gives the state before. *)
Class Engine (T : Type) := {
  well_formed : T → Prop;
  exec : op → T → option T;
  exec_well_formed o s s' : well_formed s → exec o s = Some s' → well_formed s';
  exec_undo o u s s' : well_formed s → undo o = Some u → exec o s = Some s' → exec u s' = Some s;
  exec_rewrite t s s' : exec (Rewrite t) s = Some s' → s' = s }.

Definition exec_all `{Engine T} (os : list op) (s : T) : option T := foldl (λ acc o, acc ≫= exec o) (Some s) os.

Section engine.
Context `{Engine T}.

Lemma exec_all_cons o os s : exec_all (o :: os) s = exec o s ≫= exec_all os.
Proof.
  unfold exec_all. cbn. destruct (exec o s); [done|]. cbn. induction os; [done|]. done.
Qed.

Lemma exec_all_app os os' s : exec_all (os ++ os') s = exec_all os s ≫= exec_all os'.
Proof.
  revert s. induction os as [|o os IH]; intros s; [done|].
  rewrite <-app_comm_cons, !exec_all_cons. destruct (exec o s); [apply IH|done].
Qed.

Lemma exec_all_well_formed os s s' : well_formed s → exec_all os s = Some s' → well_formed s'.
Proof.
  revert s. induction os as [|o os IH]; intros s Hs; [by intros [= <-]|].
  rewrite exec_all_cons. destruct (exec o s) eqn:He; [|done]. cbn. eauto using exec_well_formed.
Qed.

(** Operations that only create or rewrite are taken back in reverse order. *)
Lemma exec_all_undo os s s' :
  well_formed s → Forall (λ o, creates o || rewrites o) os → exec_all os s = Some s' →
  exec_all (reverse (omap undo os)) s' = Some s.
Proof.
  revert s. induction os as [|o os IH]; intros s Hs; [by intros _ [= <-]|].
  intros [Ho Hos]%Forall_cons. rewrite exec_all_cons. destruct (exec o s) as [s1|] eqn:He; [|done]. cbn [mbind option_bind]. intros Hr.
  pose proof (IH s1 (exec_well_formed _ _ _ Hs He) Hos Hr) as Hback. unfold creates in Ho.
  assert (Hcons : omap undo (o :: os) = option_list (undo o) ++ omap undo os) by (cbn; by destruct (undo o)).
  rewrite Hcons, reverse_app, exec_all_app, Hback. cbn [mbind option_bind].
  destruct (undo o) as [u|] eqn:Hu.
  - exact (exec_undo _ _ _ _ Hs Hu He).
  - destruct o; try done. by apply exec_rewrite in He as ->.
Qed.
End engine.

(** ** A database *)

(** The words of a CHECK expression. *)
Definition word_char (c : N) : bool :=
  ((97 <=? c) && (c <=? 122) || (48 <=? c) && (c <=? 57) || (c =? 95))%N.
Fixpoint words (w : str) (e : str) : list str :=
  match e with
  | [] => [w]
  | c :: e => if word_char c then words (w ++ [c]) e else w :: words [] e
  end.

Definition mentions (k : constraint) : list str :=
  match k with
  | PrimaryKey cs | Unique cs | ForeignKey cs _ _ _ => cs
  | CheckExpr e => words [] e
  end.
Definition refers_to (t : str) (k : constraint) : bool :=
  match k with ForeignKey _ r _ _ => bool_decide (r = t) | _ => false end.

(** The columns a foreign key refers to form a key. *)
Definition keyed_by (cs : list str) (r : relation) : bool :=
  existsb (λ k, match k.2 with PrimaryKey ks | Unique ks => bool_decide (ks = cs) | _ => false end)
    (map_to_list (constraints r)).
Definition constraint_fits (s : schema) (cs : gmap str column) (k : constraint) : bool :=
  match k with
  | PrimaryKey ks | Unique ks => forallb (λ c, bool_decide (is_Some (cs !! c))) ks
  | CheckExpr _ => true
  | ForeignKey ks r rs _ => forallb (λ c, bool_decide (is_Some (cs !! c))) ks &&
      match s !! r with Some rel => keyed_by rs rel | None => false end
  end.

(** A new column of a table with rows needs a value for them. *)
Definition fills (c : column) : bool := c_nullable c || bool_decide (is_Some (c_default c)).

(** No constraint and no index mentions a column. PostgreSQL would drop those
    with the column; this engine refuses, and keeps the words of CHECK expressions
    apart from the names of new columns. *)
Definition unused (n : str) (r : relation) : bool :=
  negb (existsb (λ k, bool_decide (n ∈ mentions k.2)) (map_to_list (constraints r)))
  && negb (existsb (λ i, bool_decide (n ∈ i_columns i.2)) (map_to_list (indexes r))).
Definition is_check (k : option constraint) : bool := match k with Some (CheckExpr _) => true | _ => false end.

Definition on_table (t : str) (f : relation → option relation) (s : schema) : option schema :=
  r ← s !! t; r' ← f r; Some (<[t := r']> s).

Definition set_columns (m : gmap str column) (r : relation) := Relation m (constraints r) (indexes r) (rules r).
Definition set_constraints (m : gmap str constraint) (r : relation) := Relation (columns r) m (indexes r) (rules r).
Definition set_indexes (m : gmap str index) (r : relation) := Relation (columns r) (constraints r) m (rules r).
Definition set_rules (m : gmap str str) (r : relation) := Relation (columns r) (constraints r) (indexes r) m.

Definition put_new {V} (n : str) (v : V) (m : gmap str V) : option (gmap str V) :=
  match m !! n with Some _ => None | None => Some (<[n := v]> m) end.
Definition take_out {V} (n : str) (m : gmap str V) : option (gmap str V) :=
  match m !! n with Some _ => Some (delete n m) | None => None end.

Definition guard_b {A} (b : bool) (a : option A) : option A := if b then a else None.

Definition run_op (o : op) (s : schema) : option schema :=
  match o with
  | CreateTable t cs ks =>
      guard_b (bool_decide (NoDup cs.*1) && bool_decide (NoDup ks.*1) && bool_decide (s !! t = None)
               && forallb (λ k, constraint_fits s (list_to_map cs) k.2) ks)
        (Some (<[t := Relation (list_to_map cs) (list_to_map ks) ∅ ∅]> s))
  | DropTable t =>
      guard_b (negb (existsb (λ r, negb (bool_decide (r.1 = t)) && existsb (λ k, refers_to t k.2) (map_to_list (constraints r.2)))
                       (map_to_list s)))
        (take_out t s)
  | CreateIndex n t i =>
      on_table t (λ r, guard_b (forallb (λ c, bool_decide (is_Some (columns r !! c))) (i_columns i))
        (m ← put_new n i (indexes r); Some (set_indexes m r))) s
  | DropIndex n t => on_table t (λ r, m ← take_out n (indexes r); Some (set_indexes m r)) s
  | AddColumn t n c => on_table t (λ r, guard_b (fills c && unused n r) (m ← put_new n c (columns r); Some (set_columns m r))) s
  | DropColumn t n => on_table t (λ r, guard_b (unused n r) (m ← take_out n (columns r); Some (set_columns m r))) s
  | CreateCheck n t e => on_table t (λ r, m ← put_new n (CheckExpr e) (constraints r); Some (set_constraints m r)) s
  | DropCheck n t => on_table t (λ r, guard_b (is_check (constraints r !! n)) (Some (set_constraints (delete n (constraints r)) r))) s
  | CreateRule n t e => on_table t (λ r, m ← put_new n e (rules r); Some (set_rules m r)) s
  | DropRule n t => on_table t (λ r, Some (set_rules (delete n (rules r)) r)) s
  | Rewrite t => on_table t Some s
  end.

(** Foreign keys refer to tables that exist. *)
Definition referred_exist (s : schema) : Prop :=
  ∀ t r n k t', s !! t = Some r → constraints r !! n = Some k → refers_to t' k = true → is_Some (s !! t').

Lemma on_table_Some t f s s' :
  on_table t f s = Some s' ↔ ∃ r r', s !! t = Some r ∧ f r = Some r' ∧ s' = <[t := r']> s.
Proof.
  unfold on_table. rewrite bind_Some. setoid_rewrite bind_Some. split.
  - intros (r & Hr & r' & Hf & [= <-]). by exists r, r'.
  - intros (r & r' & Hr & Hf & ->). exists r. split; [done|]. by exists r'.
Qed.

Lemma guard_b_Some {A} b (x : option A) a : guard_b b x = Some a ↔ b = true ∧ x = Some a.
Proof. destruct b; naive_solver. Qed.
Lemma put_new_Some {V} (n : str) (v : V) m m' : put_new n v m = Some m' ↔ m !! n = None ∧ m' = <[n := v]> m.
Proof. unfold put_new. destruct (m !! n); naive_solver. Qed.
Lemma take_out_Some {V} (n : str) (m m' : gmap str V) : take_out n m = Some m' ↔ is_Some (m !! n) ∧ m' = delete n m.
Proof. unfold take_out, is_Some. destruct (m !! n); naive_solver. Qed.

Lemma take_out_put {V} (n : str) (v : V) (m : gmap str V) : m !! n = None → take_out n (<[n := v]> m) = Some m.
Proof. intros Hn. apply take_out_Some. rewrite lookup_insert_eq, delete_insert_id by done. split; [by eexists|done]. Qed.

(** Changing a table twice and back. *)
Lemma on_table_back t f g s s' :
  (∀ r r', f r = Some r' → g r' = Some r) → on_table t f s = Some s' → on_table t g s' = Some s.
Proof.
  intros Hfg (r & r' & Hs & Hf & ->)%on_table_Some. apply on_table_Some. exists r', r.
  split_and!; [apply lookup_insert_eq|auto|]. by rewrite insert_insert_eq, insert_id.
Qed.

(** Changes that add no foreign keys keep the references. *)
Lemma on_table_referred t f s s' :
  (∀ r r' n k, f r = Some r' → constraints r' !! n = Some k → constraints r !! n = Some k ∨ is_check (Some k) = true) →
  referred_exist s → on_table t f s = Some s' → referred_exist s'.
Proof.
  intros Hf Hs (r & r' & Hr & Hf' & ->)%on_table_Some t1 r1 n k t2 H1 Hk Hto.
  assert (Hex : is_Some (s !! t2)).
  { apply lookup_insert_Some in H1 as [[<- <-]|[_ H1]]; [|by eapply Hs].
    destruct (Hf _ _ _ _ Hf' Hk) as [Hk'|Hk']; [by eapply Hs|]. by destruct k. }
  destruct (decide (t = t2)) as [<-|]; [rewrite lookup_insert_eq|rewrite lookup_insert_ne by done]; [by eexists|done].
Qed.

Ltac op_inv :=
  repeat match goal with
  | H : guard_b _ _ = Some _ |- _ => apply guard_b_Some in H as [? H]
  | H : put_new _ _ _ = Some _ |- _ => apply put_new_Some in H as [? ->]
  | H : take_out _ _ = Some _ |- _ => apply take_out_Some in H as [? ->]
  | H : (_ ≫= _) = Some _ |- _ => apply bind_Some in H as (? & ? & H)
  | H : Some _ = Some _ |- _ => injection H as <-
  end.

Lemma run_op_referred o s s' : referred_exist s → run_op o s = Some s' → referred_exist s'.
Proof.
  intros Hs. destruct o; cbn [run_op]; try (apply on_table_referred; [|done]; intros r r' m k Hf Hk; op_inv;
    cbn [constraints set_columns set_indexes set_rules set_constraints] in Hk; try by left).
  - intros Hr t r m k t' Ht Hk Hto. op_inv. apply andb_true_iff in H as [H Hfit]. apply andb_true_iff in H as [_ Hnew].
    apply bool_decide_eq_true in Hnew. destruct (decide (t' = table)) as [->|Hne]; [rewrite lookup_insert_eq; by eexists|].
    rewrite lookup_insert_ne by done. apply lookup_insert_Some in Ht as [[<- <-]|[_ Ht]]; [|by eapply Hs]. cbn in Hk.
    apply elem_of_list_to_map_2 in Hk. rewrite forallb_forall in Hfit. apply list_elem_of_In in Hk.
    pose proof (Hfit _ Hk) as Hf. destruct k; try done. cbn in Hf, Hto. apply bool_decide_eq_true in Hto as ->.
    apply andb_true_iff in Hf as [_ Hf]. by destruct (s !! t').
  - intros Hr t r m k t' Ht Hk Hto. op_inv. apply lookup_delete_Some in Ht as [Hne Ht].
    pose proof (Hs _ _ _ _ _ Ht Hk Hto) as Hex. destruct (decide (t' = table)) as [->|]; [|by rewrite lookup_delete_ne].
    exfalso. apply negb_true_iff in H. apply not_true_iff_false in H. apply H. apply existsb_exists. exists (t, r).
    split; [by apply list_elem_of_In, elem_of_map_to_list|]. cbn. rewrite bool_decide_eq_false_2 by done. cbn.
    apply existsb_exists. exists (m, k). split; [by apply list_elem_of_In, elem_of_map_to_list|done].
  - apply lookup_insert_Some in Hk as [[_ <-]|[_ Hk]]; [by right|by left].
  - apply lookup_delete_Some in Hk as [_ Hk]. by left.
Qed.

Lemma run_op_undo o u s s' : referred_exist s → undo o = Some u → run_op o s = Some s' → run_op u s' = Some s.
Proof.
  intros Hs. destruct o; cbn [undo]; intros [= <-]; cbn [run_op];
    try (apply on_table_back; intros [cs ks ix rs] r' Hf; op_inv; cbn [set_columns set_indexes set_rules set_constraints columns constraints indexes rules] in *).
  - intros Hr. op_inv. apply andb_true_iff in H as [H Hfit]. apply andb_true_iff in H as [_ Hnew]. apply bool_decide_eq_true in Hnew.
    apply guard_b_Some. split; [|by apply take_out_put].
    apply negb_true_iff, not_true_iff_false. rewrite existsb_exists. intros ([t r] & Ht & Hb). cbn in Hb.
    apply andb_true_iff in Hb as [Hne%negb_true_iff%bool_decide_eq_false Hb]. apply existsb_exists in Hb as ([m k] & Hk & Hto). cbn in Hk, Hto.
    apply list_elem_of_In, elem_of_map_to_list in Ht. apply list_elem_of_In, elem_of_map_to_list in Hk. apply lookup_insert_Some in Ht as [[? _]|[_ Ht]]; [done|].
    destruct (Hs _ _ _ _ _ Ht Hk Hto) as [? ?]. congruence.
  - by rewrite take_out_put.
  - apply andb_true_iff in H as [_ H]. apply guard_b_Some. split; [exact H|]. by rewrite take_out_put.
  - by rewrite lookup_insert_eq, delete_insert_id.
  - by rewrite delete_insert_id.
Qed.

#[export, refine] Instance database : Engine schema := {
  well_formed := referred_exist;
  exec := run_op;
  exec_well_formed := run_op_referred;
  exec_undo := run_op_undo }.
Proof. intros t s s' (r & r' & Hr & [= <-] & ->)%on_table_Some. by rewrite insert_id. Defined.
