(* ===== verification/Migrations.v ===== *)
(** * The migrations (migrations/versions/)

    Each revision with its script upwards and downwards, the walk along
    [down_revision], and what the rewriting of old claims does to the rows of the
    outbox. The states the scripts run on are those of any engine of Schema.v. *)

From S2P Require Import Prelude Regex PyValues Events Outbox Schema.

Record Revision := NewRevision {
  revision : str;
  down_revision : option str;
  upgrade : list op;
  downgrade : list op }.
#[export] Instance revision_eq_dec : EqDecision Revision. Proof. solve_decision. Defined.

(** [sa.Column], with [nullable=False], with [nullable=True], and with
    [server_default=sa.text(d)] and [nullable=False]. *)
Definition needed (n : str) (t : sql_type) : str * column := (n, Column t None false).
Definition optional (n : str) (t : sql_type) : str * column := (n, Column t None true).
Definition defaulted (n : str) (t : sql_type) (d : str) : str * column := (n, Column t (Some d) false).

Definition on (cs : list str) : index := Index cs false None.

Definition sprint0_baseline : Revision := NewRevision (lit "0001_sprint0_baseline") None [] [].

Definition outbox_table : Revision :=
  let t := lit "outbox_messages" in
  NewRevision (lit "1118b82ffb5c") (Some (lit "0001_sprint0_baseline"))
    [CreateTable t
       [needed (lit "id") SUuid; needed (lit "event_id") SUuid; needed (lit "idempotency_key") (SString 255);
        needed (lit "event_type") (SString 100); needed (lit "aggregate_type") (SString 100);
        needed (lit "aggregate_id") SUuid; needed (lit "aggregate_version") SInteger;
        needed (lit "occurred_at") STimestamp; needed (lit "payload") SJsonb;
        defaulted (lit "status") (SString 20) (lit "'pending'"); defaulted (lit "attempts") SInteger (lit "0");
        defaulted (lit "available_at") STimestamp (lit "now()"); optional (lit "claimed_at") STimestamp;
        optional (lit "published_at") STimestamp; optional (lit "last_error_code") (SString 100);
        defaulted (lit "created_at") STimestamp (lit "now()"); defaulted (lit "updated_at") STimestamp (lit "now()")]
       [(lit "ck_outbox_messages_aggregate_version_positive", CheckExpr (lit "aggregate_version > 0"));
        (lit "ck_outbox_messages_attempts_non_negative", CheckExpr (lit "attempts >= 0"));
        (lit "pk_outbox_messages", PrimaryKey [lit "id"]);
        (lit "uq_outbox_messages_event_id", Unique [lit "event_id"]);
        (lit "uq_outbox_messages_idempotency_key", Unique [lit "idempotency_key"])];
     CreateIndex (lit "ix_outbox_messages_aggregate_type_aggregate_id_aggregate_version") t
       (on [lit "aggregate_type"; lit "aggregate_id"; lit "aggregate_version"]);
     CreateIndex (lit "ix_outbox_messages_status_available_at") t (on [lit "status"; lit "available_at"])]
    [DropIndex (lit "ix_outbox_messages_status_available_at") t;
     DropIndex (lit "ix_outbox_messages_aggregate_type_aggregate_id_aggregate_version") t;
     DropTable t].

Definition background_jobs : Revision :=
  let t := lit "jobs" in
  NewRevision (lit "734dfb7a6638") (Some (lit "1118b82ffb5c"))
    [CreateTable t
       [needed (lit "id") SUuid; needed (lit "job_type") (SString 100); needed (lit "payload") SJsonb;
        optional (lit "result") SJsonb; needed (lit "idempotency_key") (SString 255);
        defaulted (lit "status") (SString 20) (lit "'pending'"); defaulted (lit "attempts") SInteger (lit "0");
        needed (lit "max_attempts") SInteger; needed (lit "available_at") STimestamp;
        optional (lit "started_at") STimestamp; optional (lit "finished_at") STimestamp;
        optional (lit "lease_expires_at") STimestamp; optional (lit "lease_owner") (SString 100);
        optional (lit "lease_token") SUuid; optional (lit "last_error_code") (SString 100);
        defaulted (lit "created_at") STimestamp (lit "now()"); defaulted (lit "updated_at") STimestamp (lit "now()")]
       [(lit "ck_jobs_attempts_not_above_max", CheckExpr (lit "attempts <= max_attempts"));
        (lit "ck_jobs_attempts_non_negative", CheckExpr (lit "attempts >= 0"));
        (lit "ck_jobs_max_attempts_bounded", CheckExpr (lit "max_attempts BETWEEN 1 AND 100"));
        (lit "pk_jobs", PrimaryKey [lit "id"]);
        (lit "uq_jobs_idempotency_key", Unique [lit "idempotency_key"])];
     CreateIndex (lit "ix_jobs_status_available_at") t (on [lit "status"; lit "available_at"])]
    [DropIndex (lit "ix_jobs_status_available_at") t; DropTable t].

Definition immutable_audit : Revision :=
  let t := lit "audit_records" in
  NewRevision (lit "46ad9a9488c3") (Some (lit "734dfb7a6638"))
    [CreateTable t
       [needed (lit "id") SUuid; needed (lit "actor_kind") (SString 20); optional (lit "actor_id") SUuid;
        needed (lit "action") (SString 100); needed (lit "target_type") (SString 100); needed (lit "target_id") SUuid;
        needed (lit "outcome") (SString 20); needed (lit "occurred_at") STimestamp;
        needed (lit "correlation_id") (SString 128); defaulted (lit "metadata") SJsonb (lit "'{}'::jsonb")]
       [(lit "ck_audit_records_metadata_object", CheckExpr (lit "jsonb_typeof(metadata) = 'object'"));
        (lit "pk_audit_records", PrimaryKey [lit "id"])];
     CreateIndex (lit "ix_audit_records_action_occurred_at_id") t (on [lit "action"; lit "occurred_at"; lit "id"]);
     CreateIndex (lit "ix_audit_records_actor_id_occurred_at_id") t (on [lit "actor_id"; lit "occurred_at"; lit "id"]);
     CreateIndex (lit "ix_audit_records_actor_kind_occurred_at_id") t (on [lit "actor_kind"; lit "occurred_at"; lit "id"]);
     CreateIndex (lit "ix_audit_records_correlation_id") t (on [lit "correlation_id"]);
     CreateIndex (lit "ix_audit_records_occurred_at_id") t (on [lit "occurred_at"; lit "id"]);
     CreateIndex (lit "ix_audit_records_outcome_occurred_at_id") t (on [lit "outcome"; lit "occurred_at"; lit "id"]);
     CreateIndex (lit "ix_audit_records_target_id_occurred_at_id") t (on [lit "target_id"; lit "occurred_at"; lit "id"]);
     CreateIndex (lit "ix_audit_records_target_type_target_id_occurred_at_id") t
       (on [lit "target_type"; lit "target_id"; lit "occurred_at"; lit "id"]);
     CreateRule (lit "audit_records_no_update") t (lit "UPDATE");
     CreateRule (lit "audit_records_no_delete") t (lit "DELETE")]
    [DropRule (lit "audit_records_no_delete") t;
     DropRule (lit "audit_records_no_update") t;
     DropIndex (lit "ix_audit_records_target_type_target_id_occurred_at_id") t;
     DropIndex (lit "ix_audit_records_target_id_occurred_at_id") t;
     DropIndex (lit "ix_audit_records_outcome_occurred_at_id") t;
     DropIndex (lit "ix_audit_records_occurred_at_id") t;
     DropIndex (lit "ix_audit_records_correlation_id") t;
     DropIndex (lit "ix_audit_records_actor_kind_occurred_at_id") t;
     DropIndex (lit "ix_audit_records_actor_id_occurred_at_id") t;
     DropIndex (lit "ix_audit_records_action_occurred_at_id") t;
     DropTable t].

Definition create_users : Revision :=
  let t := lit "users" in
  NewRevision (lit "4f2722ba18ca") (Some (lit "46ad9a9488c3"))
    [CreateTable t
       [needed (lit "id") SUuid; needed (lit "email") (SString 320); needed (lit "display_name") (SString 150);
        optional (lit "phone") (SString 32); needed (lit "role") (SString 20); needed (lit "is_active") SBoolean;
        optional (lit "email_verified_at") STimestamp;
        defaulted (lit "created_at") STimestamp (lit "now()"); defaulted (lit "updated_at") STimestamp (lit "now()")]
       [(lit "pk_users", PrimaryKey [lit "id"]); (lit "uq_users_email", Unique [lit "email"])];
     CreateIndex (lit "ix_users_role_is_active") t (on [lit "role"; lit "is_active"])]
    [DropIndex (lit "ix_users_role_is_active") t; DropTable t].

(** [ForeignKeyConstraint(["user_id"], ["users.id"], ondelete="CASCADE")]. *)
Definition of_user : constraint := ForeignKey [lit "user_id"] (lit "users") [lit "id"] (lit "CASCADE").

Definition create_auth_sessions : Revision :=
  let t := lit "auth_sessions" in
  NewRevision (lit "111bac782bb3") (Some (lit "4f2722ba18ca"))
    [CreateTable t
       [needed (lit "id") SUuid; needed (lit "user_id") SUuid; needed (lit "secret_hash") (SString 64);
        needed (lit "created_at") STimestamp; needed (lit "authenticated_at") STimestamp;
        needed (lit "expires_at") STimestamp; optional (lit "revoked_at") STimestamp]
       [(lit "fk_auth_sessions_user_id_users", of_user); (lit "pk_auth_sessions", PrimaryKey [lit "id"]);
        (lit "uq_auth_sessions_secret_hash", Unique [lit "secret_hash"])];
     CreateIndex (lit "ix_auth_sessions_expires_at") t (on [lit "expires_at"]);
     CreateIndex (lit "ix_auth_sessions_user_id_revoked_at") t (on [lit "user_id"; lit "revoked_at"])]
    [DropIndex (lit "ix_auth_sessions_user_id_revoked_at") t;
     DropIndex (lit "ix_auth_sessions_expires_at") t;
     DropTable t].

Definition challenges_and_leases : Revision :=
  let t := lit "outbox_messages" in
  NewRevision (lit "d6de65ed565c") (Some (lit "111bac782bb3"))
    [CreateTable (lit "email_challenges")
       [needed (lit "id") SUuid; needed (lit "email") (SString 320); needed (lit "purpose") (SString 24);
        needed (lit "key_version") (SString 32); needed (lit "code_hash") (SString 64); needed (lit "attempts") SInteger;
        needed (lit "created_at") STimestamp; needed (lit "expires_at") STimestamp; optional (lit "consumed_at") STimestamp]
       [(lit "ck_email_challenges_attempts_non_negative", CheckExpr (lit "attempts >= 0"));
        (lit "pk_email_challenges", PrimaryKey [lit "id"]);
        (lit "uq_email_challenges_email_purpose", Unique [lit "email"; lit "purpose"])];
     CreateIndex (lit "ix_email_challenges_expires_at") (lit "email_challenges") (on [lit "expires_at"]);
     CreateTable (lit "outbox_worker_controls")
       [needed (lit "worker_group") (SString 100); needed (lit "paused") SBoolean; needed (lit "heartbeat_at") STimestamp]
       [(lit "pk_outbox_worker_controls", PrimaryKey [lit "worker_group"])];
     CreateTable (lit "password_credentials")
       [needed (lit "user_id") SUuid; needed (lit "password_hash") (SString 512);
        defaulted (lit "created_at") STimestamp (lit "now()"); defaulted (lit "updated_at") STimestamp (lit "now()")]
       [(lit "fk_password_credentials_user_id_users", of_user);
        (lit "pk_password_credentials", PrimaryKey [lit "user_id"])];
     AddColumn t (lit "claim_token") (Column SUuid None true);
     AddColumn t (lit "lease_expires_at") (Column STimestamp None true);
     AddColumn t (lit "delivery_fingerprint") (Column (SString 64) None true);
     AddColumn t (lit "delivery_receipts") (Column SJsonb (Some (lit "'{}'::jsonb")) false);
     AddColumn t (lit "retry_budget") (Column SInteger (Some (lit "5")) false);
     AddColumn t (lit "deadline_at") (Column STimestamp None true);
     Rewrite t;
     CreateIndex (lit "ix_outbox_messages_status_lease_expires_at") t (on [lit "status"; lit "lease_expires_at"]);
     CreateCheck (lit "ck_outbox_messages_delivery_receipts_object") t (lit "jsonb_typeof(delivery_receipts) = 'object'");
     CreateCheck (lit "ck_outbox_messages_lease_pair_valid") t
       (lit "(claim_token IS NULL AND lease_expires_at IS NULL) OR (claim_token IS NOT NULL AND lease_expires_at IS NOT NULL)");
     CreateCheck (lit "ck_outbox_messages_retry_budget_positive") t (lit "retry_budget > 0")]
    [DropCheck (lit "ck_outbox_messages_retry_budget_positive") t;
     DropCheck (lit "ck_outbox_messages_lease_pair_valid") t;
     DropCheck (lit "ck_outbox_messages_delivery_receipts_object") t;
     DropIndex (lit "ix_outbox_messages_status_lease_expires_at") t;
     DropColumn t (lit "deadline_at"); DropColumn t (lit "retry_budget"); DropColumn t (lit "delivery_receipts");
     DropColumn t (lit "delivery_fingerprint"); DropColumn t (lit "lease_expires_at"); DropColumn t (lit "claim_token");
     DropTable (lit "password_credentials");
     DropTable (lit "outbox_worker_controls");
     DropIndex (lit "ix_email_challenges_expires_at") (lit "email_challenges");
     DropTable (lit "email_challenges")].

Definition customer_addresses : Revision :=
  let t := lit "user_addresses" in
  NewRevision (lit "caf9c5f2d5ab") (Some (lit "d6de65ed565c"))
    [CreateTable t
       [needed (lit "id") SUuid; needed (lit "user_id") SUuid; needed (lit "kind") (SString 16);
        needed (lit "recipient") (SString 150); needed (lit "line1") (SString 200); optional (lit "line2") (SString 200);
        needed (lit "city") (SString 100); needed (lit "region") (SString 100); optional (lit "postal_code") (SString 20);
        needed (lit "country_code") (SString 2); optional (lit "phone") (SString 32); needed (lit "is_default") SBoolean;
        defaulted (lit "created_at") STimestamp (lit "now()"); defaulted (lit "updated_at") STimestamp (lit "now()")]
       [(lit "fk_user_addresses_user_id_users", of_user); (lit "pk_user_addresses", PrimaryKey [lit "id"])];
     CreateIndex (lit "ix_user_addresses_user_id_kind") t (Index [lit "user_id"; lit "kind"] true (Some (lit "is_default")))]
    [DropIndex (lit "ix_user_addresses_user_id_kind") t; DropTable t].

Definition create_external_identities : Revision :=
  let t := lit "external_identities" in
  NewRevision (lit "6f324ef7deca") (Some (lit "caf9c5f2d5ab"))
    [CreateTable t
       [needed (lit "id") SUuid; needed (lit "user_id") SUuid; needed (lit "provider") (SString 20);
        needed (lit "subject") (SString 255); optional (lit "email_snapshot") (SString 320);
        needed (lit "email_verified") SBoolean; needed (lit "last_login_at") STimestamp;
        defaulted (lit "created_at") STimestamp (lit "now()"); defaulted (lit "updated_at") STimestamp (lit "now()")]
       [(lit "fk_external_identities_user_id_users", of_user); (lit "pk_external_identities", PrimaryKey [lit "id"]);
        (lit "uq_external_identities_provider_subject", Unique [lit "provider"; lit "subject"]);
        (lit "uq_external_identities_user_id_provider", Unique [lit "user_id"; lit "provider"])]]
    [DropTable t].

(** The files of the directory, by name. *)
Definition versions : list Revision :=
  [sprint0_baseline; outbox_table; create_auth_sessions; immutable_audit; create_users; create_external_identities;
   background_jobs; customer_addresses; challenges_and_leases].

(** The order in which they apply: from the base each revision is followed by the
    one that names it. There are at most as many steps as revisions. *)
Fixpoint walk (fuel : nat) (base : option str) (vs : list Revision) : list Revision :=
  match fuel with
  | O => []
  | S fuel => match List.find (λ v, bool_decide (down_revision v = base)) vs with
              | Some v => v :: walk fuel (Some (revision v)) vs
              | None => []
              end
  end.
Definition chain : list Revision := walk (length versions) None versions.

Definition upgrade_head `{Engine T} (s : T) : option T := exec_all (concat (upgrade <$> chain)) s.
Definition downgrade_base `{Engine T} (s : T) : option T := exec_all (concat (downgrade <$> reverse chain)) s.

(** ** The rows of the outbox across [challenges_and_leases] *)

(** A row before the columns of leases. *)
Module OldMsg.
Record t := New {
  id : uuid;
  event_id : uuid;
  idempotency_key : str;
  event_type : str;
  aggregate_type : str;
  aggregate_id : uuid;
  aggregate_version : Z;
  occurred_at : datetime;
  payload : list (pyval * pyval);
  status : OutboxStatus;
  attempts : Z;
  available_at : datetime;
  claimed_at : option datetime;
  published_at : option datetime;
  last_error_code : option str }.
End OldMsg.

(** The values that ADD COLUMN gives to existing rows, and what DROP COLUMN leaves. *)
Definition with_lease_columns (o : OldMsg.t) : Msg.t :=
  Msg.New (OldMsg.id o) (OldMsg.event_id o) (OldMsg.idempotency_key o) (OldMsg.event_type o) (OldMsg.aggregate_type o)
    (OldMsg.aggregate_id o) (OldMsg.aggregate_version o) (OldMsg.occurred_at o) (OldMsg.payload o) (OldMsg.status o)
    (OldMsg.attempts o) (OldMsg.available_at o) (OldMsg.claimed_at o) (OldMsg.published_at o) (OldMsg.last_error_code o)
    None None None ∅ 5 None.
Definition without_lease_columns (m : Msg.t) : OldMsg.t :=
  OldMsg.New (Msg.id m) (Msg.event_id m) (Msg.idempotency_key m) (Msg.event_type m) (Msg.aggregate_type m)
    (Msg.aggregate_id m) (Msg.aggregate_version m) (Msg.occurred_at m) (Msg.payload m) (Msg.status m) (Msg.attempts m)
    (Msg.available_at m) (Msg.claimed_at m) (Msg.published_at m) (Msg.last_error_code m).

(** The UPDATE of unfinished claims of challenge mail; [now] is
    [clock_timestamp()]. *)
Definition stuck (o : OldMsg.t) : bool :=
  bool_decide (OldMsg.event_type o = lit "email_challenge_requested") && bool_decide (OldMsg.status o = PROCESSING).
Definition release_unfinished (now : datetime) (m : Msg.t) : Msg.t :=
  if stuck (without_lease_columns m) then
    m <| Msg.status := FAILED |> <| Msg.available_at := now |> <| Msg.claimed_at := None |>
      <| Msg.claim_token := None |> <| Msg.lease_expires_at := None |>
      <| Msg.last_error_code := Some (lit "leased_delivery_cutover") |>
  else m.

Definition upgrade_rows (now : datetime) (t : table OldMsg.t) : table Msg.t :=
  release_unfinished now <$> (with_lease_columns <$> t).
