(* ===== verification/ModelTables.v ===== *)
(** * The tables that the models declare (db/base.py and the model modules)

    The naming convention and the mixins, and of each model class the table that
    its columns and arguments describe; the conditions on insertion in the other
    files are these constraints. *)

From S2P Require Import Prelude Regex Schema Migrations.

Inductive table_arg :=
| UniqueConstraint (cs : list str)
| CheckConstraint (expression name : str)
| ForeignKeyConstraint (cs : list str) (referred : str) (referred_columns : list str) (ondelete : str)
| IndexOn (cs : list str) (unique : bool) (where_ : option str).

(** Some columns are the primary key. *)
Record model := Model {
  tablename : str;
  primary_key : list str;
  mapped_columns : list (str * column);
  table_args : list table_arg }.

(** [NAMING_CONVENTION]. *)
Definition underscored (parts : list str) : str :=
  match parts with [] => [] | p :: ps => foldl (λ acc q, acc ++ lit "_" ++ q) p ps end.
Definition ix_name (t : str) (cs : list str) : str := underscored (lit "ix" :: t :: cs).
Definition uq_name (t : str) (cs : list str) : str := underscored (lit "uq" :: t :: cs).
Definition ck_name (t name : str) : str := underscored [lit "ck"; t; name].
Definition fk_name (t : str) (cs : list str) (referred : str) : str := underscored (lit "fk" :: t :: cs ++ [referred]).
Definition pk_name (t : str) : str := underscored [lit "pk"; t].

Definition declared_constraint (t : str) (a : table_arg) : option (str * constraint) :=
  match a with
  | UniqueConstraint cs => Some (uq_name t cs, Unique cs)
  | CheckConstraint e n => Some (ck_name t n, CheckExpr e)
  | ForeignKeyConstraint cs r rs d => Some (fk_name t cs r, ForeignKey cs r rs d)
  | IndexOn _ _ _ => None
  end.
Definition declared_index (t : str) (a : table_arg) : option (str * index) :=
  match a with IndexOn cs u w => Some (ix_name t cs, Index cs u w) | _ => None end.
Definition declared (m : model) : str * relation :=
  let t := tablename m in
  (t, Relation (list_to_map (mapped_columns m))
        (list_to_map ((pk_name t, PrimaryKey (primary_key m)) :: omap (declared_constraint t) (table_args m)))
        (list_to_map (omap (declared_index t) (table_args m))) ∅).

(** ** The mixins *)

Definition uuid_primary_key : list (str * column) := [needed (lit "id") SUuid].
Definition timestamps : list (str * column) :=
  [defaulted (lit "created_at") STimestamp (lit "now()"); defaulted (lit "updated_at") STimestamp (lit "now()")].

(** ** The models *)

Definition owned_by_user : table_arg := ForeignKeyConstraint [lit "user_id"] (lit "users") [lit "id"] (lit "CASCADE").

Definition user_model : model := Model (lit "users") [lit "id"]
  (uuid_primary_key ++
   [needed (lit "email") (SString 320); needed (lit "display_name") (SString 150); optional (lit "phone") (SString 32);
    needed (lit "role") (SString 20); needed (lit "is_active") SBoolean; optional (lit "email_verified_at") STimestamp] ++
   timestamps)
  [UniqueConstraint [lit "email"]; IndexOn [lit "role"; lit "is_active"] false None].

Definition auth_session_model : model := Model (lit "auth_sessions") [lit "id"]
  (uuid_primary_key ++
   [needed (lit "user_id") SUuid; needed (lit "secret_hash") (SString 64); needed (lit "created_at") STimestamp;
    needed (lit "authenticated_at") STimestamp; needed (lit "expires_at") STimestamp; optional (lit "revoked_at") STimestamp])
  [owned_by_user; UniqueConstraint [lit "secret_hash"]; IndexOn [lit "user_id"; lit "revoked_at"] false None;
   IndexOn [lit "expires_at"] false None].

Definition external_identity_model : model := Model (lit "external_identities") [lit "id"]
  (uuid_primary_key ++
   [needed (lit "user_id") SUuid; needed (lit "provider") (SString 20); needed (lit "subject") (SString 255);
    optional (lit "email_snapshot") (SString 320); needed (lit "email_verified") SBoolean;
    needed (lit "last_login_at") STimestamp] ++ timestamps)
  [owned_by_user; UniqueConstraint [lit "provider"; lit "subject"]; UniqueConstraint [lit "user_id"; lit "provider"]].

Definition password_credential_model : model := Model (lit "password_credentials") [lit "user_id"]
  ([needed (lit "user_id") SUuid; needed (lit "password_hash") (SString 512)] ++ timestamps)
  [owned_by_user].

Definition email_challenge_model : model := Model (lit "email_challenges") [lit "id"]
  (uuid_primary_key ++
   [needed (lit "email") (SString 320); needed (lit "purpose") (SString 24); needed (lit "key_version") (SString 32);
    needed (lit "code_hash") (SString 64); needed (lit "attempts") SInteger; needed (lit "created_at") STimestamp;
    needed (lit "expires_at") STimestamp; optional (lit "consumed_at") STimestamp])
  [UniqueConstraint [lit "email"; lit "purpose"]; CheckConstraint (lit "attempts >= 0") (lit "attempts_non_negative");
   IndexOn [lit "expires_at"] false None].

Definition address_model : model := Model (lit "user_addresses") [lit "id"]
  (uuid_primary_key ++
   [needed (lit "user_id") SUuid; needed (lit "kind") (SString 16); needed (lit "recipient") (SString 150);
    needed (lit "line1") (SString 200); optional (lit "line2") (SString 200); needed (lit "city") (SString 100);
    needed (lit "region") (SString 100); optional (lit "postal_code") (SString 20); needed (lit "country_code") (SString 2);
    optional (lit "phone") (SString 32); needed (lit "is_default") SBoolean] ++ timestamps)
  [owned_by_user; IndexOn [lit "user_id"; lit "kind"] true (Some (lit "is_default"))].

Definition outbox_message_model : model := Model (lit "outbox_messages") [lit "id"]
  (uuid_primary_key ++
   [needed (lit "event_id") SUuid; needed (lit "idempotency_key") (SString 255); needed (lit "event_type") (SString 100);
    needed (lit "aggregate_type") (SString 100); needed (lit "aggregate_id") SUuid; needed (lit "aggregate_version") SInteger;
    needed (lit "occurred_at") STimestamp; needed (lit "payload") SJsonb;
    defaulted (lit "status") (SString 20) (lit "'pending'"); defaulted (lit "attempts") SInteger (lit "0");
    defaulted (lit "available_at") STimestamp (lit "now()"); optional (lit "claimed_at") STimestamp;
    optional (lit "published_at") STimestamp; optional (lit "last_error_code") (SString 100);
    optional (lit "claim_token") SUuid; optional (lit "lease_expires_at") STimestamp;
    optional (lit "delivery_fingerprint") (SString 64); defaulted (lit "delivery_receipts") SJsonb (lit "'{}'::jsonb");
    defaulted (lit "retry_budget") SInteger (lit "5"); optional (lit "deadline_at") STimestamp] ++ timestamps)
  [UniqueConstraint [lit "event_id"]; UniqueConstraint [lit "idempotency_key"];
   CheckConstraint (lit "aggregate_version > 0") (lit "aggregate_version_positive");
   CheckConstraint (lit "attempts >= 0") (lit "attempts_non_negative");
   CheckConstraint (lit "retry_budget > 0") (lit "retry_budget_positive");
   CheckConstraint (lit "jsonb_typeof(delivery_receipts) = 'object'") (lit "delivery_receipts_object");
   CheckConstraint (lit "(claim_token IS NULL AND lease_expires_at IS NULL) OR " ++
                    lit "(claim_token IS NOT NULL AND lease_expires_at IS NOT NULL)") (lit "lease_pair_valid");
   IndexOn [lit "status"; lit "available_at"] false None; IndexOn [lit "status"; lit "lease_expires_at"] false None;
   IndexOn [lit "aggregate_type"; lit "aggregate_id"; lit "aggregate_version"] false None].

Definition worker_control_model : model := Model (lit "outbox_worker_controls") [lit "worker_group"]
  [needed (lit "worker_group") (SString 100); needed (lit "paused") SBoolean; needed (lit "heartbeat_at") STimestamp] [].

Definition job_model : model := Model (lit "jobs") [lit "id"]
  (uuid_primary_key ++
   [needed (lit "job_type") (SString 100); needed (lit "payload") SJsonb; optional (lit "result") SJsonb;
    needed (lit "idempotency_key") (SString 255); defaulted (lit "status") (SString 20) (lit "'pending'");
    defaulted (lit "attempts") SInteger (lit "0"); needed (lit "max_attempts") SInteger; needed (lit "available_at") STimestamp;
    optional (lit "started_at") STimestamp; optional (lit "finished_at") STimestamp;
    optional (lit "lease_expires_at") STimestamp; optional (lit "lease_owner") (SString 100);
    optional (lit "lease_token") SUuid; optional (lit "last_error_code") (SString 100)] ++ timestamps)
  [UniqueConstraint [lit "idempotency_key"]; CheckConstraint (lit "attempts >= 0") (lit "attempts_non_negative");
   CheckConstraint (lit "max_attempts BETWEEN 1 AND 100") (lit "max_attempts_bounded");
   CheckConstraint (lit "attempts <= max_attempts") (lit "attempts_not_above_max");
   IndexOn [lit "status"; lit "available_at"] false None].

Definition audit_record_model : model := Model (lit "audit_records") [lit "id"]
  (uuid_primary_key ++
   [needed (lit "actor_kind") (SString 20); optional (lit "actor_id") SUuid; needed (lit "action") (SString 100);
    needed (lit "target_type") (SString 100); needed (lit "target_id") SUuid; needed (lit "outcome") (SString 20);
    needed (lit "occurred_at") STimestamp; needed (lit "correlation_id") (SString 128);
    defaulted (lit "metadata") SJsonb (lit "'{}'::jsonb")])
  [CheckConstraint (lit "jsonb_typeof(metadata) = 'object'") (lit "metadata_object");
   IndexOn [lit "occurred_at"; lit "id"] false None; IndexOn [lit "action"; lit "occurred_at"; lit "id"] false None;
   IndexOn [lit "actor_kind"; lit "occurred_at"; lit "id"] false None;
   IndexOn [lit "actor_id"; lit "occurred_at"; lit "id"] false None;
   IndexOn [lit "outcome"; lit "occurred_at"; lit "id"] false None;
   IndexOn [lit "target_id"; lit "occurred_at"; lit "id"] false None;
   IndexOn [lit "target_type"; lit "target_id"; lit "occurred_at"; lit "id"] false None;
   IndexOn [lit "correlation_id"] false None].

(** [_REGISTERED_MODELS]. *)
Definition registered_models : list model :=
  [audit_record_model; job_model; outbox_message_model; worker_control_model; user_model; auth_session_model;
   email_challenge_model; password_credential_model; address_model; external_identity_model].

(** [Base.metadata]. *)
Definition metadata : schema := list_to_map (declared <$> registered_models).
