(* ===== verification/MigrationSpecs.v ===== *)
(** * What the migrations guarantee

    Every script can be taken back; together they build the tables that the
    models declare; and the outbox that the lease migration leaves is one that the
    leased worker can take over. *)

From S2P Require Import Prelude Regex PyValues Events Outbox Delivery LeasedOutbox OutboxLifecycle Schema Migrations ModelTables.

(** ** Scripts *)

(** A revision creates or rewrites, and its script downwards takes back what the
    one upwards created, last first. *)
Definition reversible (v : Revision) : bool :=
  bool_decide (downgrade v = reverse (omap undo (upgrade v))) && forallb (λ o, creates o || rewrites o) (upgrade v).

Lemma versions_reversible : forallb reversible versions = true.
Proof. vm_compute. reflexivity. Qed.

Lemma chain_reversible : forallb reversible chain = true.
Proof. vm_compute. reflexivity. Qed.

Section engine.
Context `{Engine T}.

Lemma reversible_undo v (s s' : T) :
  reversible v = true → well_formed s → exec_all (upgrade v) s = Some s' → exec_all (downgrade v) s' = Some s.
Proof using Type.
  unfold reversible. intros [Hd Hu]%andb_true_iff Hs He. apply bool_decide_eq_true in Hd as ->.
  apply exec_all_undo; [done| |done]. apply Forall_forall. intros o Ho. rewrite forallb_forall in Hu.
  by apply Is_true_true, Hu, list_elem_of_In.
Qed.

Lemma chain_undo vs (s s' : T) :
  forallb reversible vs = true → well_formed s → exec_all (concat (upgrade <$> vs)) s = Some s' →
  exec_all (concat (downgrade <$> reverse vs)) s' = Some s.
Proof using Type.
  revert s. induction vs as [|v vs IH]; intros s Hr Hs; [by intros [= <-]|].
  apply andb_true_iff in Hr as [Hv Hvs]. rewrite fmap_cons, concat_cons, exec_all_app.
  destruct (exec_all (upgrade v) s) as [s1|] eqn:H1; [|done]. cbn [mbind option_bind]. intros H2.
  rewrite reverse_cons, fmap_app, concat_app, exec_all_app.
  rewrite (IH s1 Hvs (exec_all_well_formed _ _ _ Hs H1) H2). cbn [mbind option_bind fmap list_fmap concat].
  rewrite app_nil_r. by apply reversible_undo.
Qed.
End engine.

(** Migrations can be taken back. On any engine whose DROP and REMOVE undo its
    CREATE and ADD, each of the nine revisions undoes on the way down what it did
    on the way up, and so do all of them together, from the base to the head
    and back. *)
Theorem migrations_reversible `{Engine T} (s : T) :
  well_formed s →
  (∀ v s', v ∈ versions → exec_all (upgrade v) s = Some s' → exec_all (downgrade v) s' = Some s) ∧
  (∀ s', upgrade_head s = Some s' → downgrade_base s' = Some s).
Proof.
  intros Hs. split.
  - intros v s' Hv. apply reversible_undo; [|done]. pose proof versions_reversible as Hr. rewrite forallb_forall in Hr.
    by apply Hr, list_elem_of_In.
  - intros s'. by apply chain_undo; [exact chain_reversible|].
Qed.

(** The small engine, from an empty database. *)
Definition head_schema : schema := default ∅ (upgrade_head (∅ : schema)).
Lemma head_reached : upgrade_head (∅ : schema) = Some head_schema.
Proof.
  assert (Hs : match upgrade_head (∅ : schema) with Some _ => true | None => false end = true) by (vm_compute; reflexivity).
  unfold head_schema. by destruct (upgrade_head _).
Qed.

Lemma empty_well_formed : well_formed (∅ : schema).
Proof. intros t r n k t' Ht. by rewrite lookup_empty in Ht. Qed.

Lemma migrations_reversible_witness : downgrade_base head_schema = Some (∅ : schema).
Proof. exact (proj2 (migrations_reversible (∅ : schema) empty_well_formed) head_schema head_reached). Defined.

(** C31: The migrations build what the models declare. The nine revisions form one
    chain; run in its order on an empty database they succeed and leave exactly
    the tables of [Base.metadata] - the same columns with their types, defaults
    and nullability, the same keys, foreign keys, checks and indexes under the
    names of the convention - and, beyond it, the two rules that keep audit
    records from being changed or deleted. *)
Theorem migrations_build_models :
  length chain = 9%nat ∧ chain ≡ₚ versions ∧
  ∃ s : schema, upgrade_head ∅ = Some s ∧ set_rules ∅ <$> s = metadata ∧
    ∀ t r, s !! t = Some r → rules r =
      (if bool_decide (t = lit "audit_records")
       then {[lit "audit_records_no_update" := lit "UPDATE"; lit "audit_records_no_delete" := lit "DELETE"]} else ∅).
Proof.
  split_and!; [reflexivity|apply (bool_decide_unpack _); vm_compute; exact I|]. exists head_schema.
  split_and!; [exact head_reached|apply (bool_decide_unpack _); vm_compute; exact I|].
  assert (Hall : forallb (λ x, bool_decide (rules x.2 = if bool_decide (x.1 = lit "audit_records")
    then {[lit "audit_records_no_update" := lit "UPDATE"; lit "audit_records_no_delete" := lit "DELETE"]} else ∅))
    (map_to_list head_schema) = true) by (vm_compute; reflexivity).
  intros t r Ht. rewrite forallb_forall in Hall.
  by apply (bool_decide_eq_true_1 _ (Hall (t, r) (proj1 (list_elem_of_In _ _) (proj2 (elem_of_map_to_list _ _ _) Ht)))).
Qed.

(** ** Rows *)

(** A well-formed outbox before leases. *)
Record old_outbox_ok (t : table OldMsg.t) : Prop := {
  old_keyed : ∀ k o, t !! k = Some o → OldMsg.id o = k;
  old_unique : ∀ k1 k2 o1 o2, t !! k1 = Some o1 → t !! k2 = Some o2 →
    OldMsg.event_id o1 = OldMsg.event_id o2 ∨ OldMsg.idempotency_key o1 = OldMsg.idempotency_key o2 → k1 = k2;
  old_rows : ∀ k o, t !! k = Some o → 0 < OldMsg.aggregate_version o ∧ 0 ≤ OldMsg.attempts o ≤ 100 ∧
    (is_Some (OldMsg.published_at o) ↔ OldMsg.status o = PUBLISHED) }.

Section rows.
Context (now : datetime).

Lemma upgrade_rows_lookup t k :
  upgrade_rows now t !! k = (λ o, release_unfinished now (with_lease_columns o)) <$> t !! k.
Proof using Type. unfold upgrade_rows. rewrite !lookup_fmap. by destruct (t !! k). Qed.

Lemma without_with o : without_lease_columns (with_lease_columns o) = o.
Proof using Type. by destruct o. Qed.

Lemma release_spared o : stuck o = false → release_unfinished now (with_lease_columns o) = with_lease_columns o.
Proof using Type. intros Hs. unfold release_unfinished. rewrite without_with. by rewrite Hs. Qed.

(** What every row keeps. *)
Lemma release_keeps o :
  let m := release_unfinished now (with_lease_columns o) in
  Msg.id m = OldMsg.id o ∧ Msg.event_id m = OldMsg.event_id o ∧ Msg.idempotency_key m = OldMsg.idempotency_key o ∧
  Msg.event_type m = OldMsg.event_type o ∧ Msg.aggregate_type m = OldMsg.aggregate_type o ∧
  Msg.aggregate_id m = OldMsg.aggregate_id o ∧ Msg.aggregate_version m = OldMsg.aggregate_version o ∧
  Msg.occurred_at m = OldMsg.occurred_at o ∧ Msg.payload m = OldMsg.payload o ∧ Msg.attempts m = OldMsg.attempts o ∧
  Msg.published_at m = OldMsg.published_at o ∧ Msg.retry_budget m = 5 ∧ Msg.deadline_at m = None ∧
  Msg.claim_token m = None ∧ Msg.lease_expires_at m = None ∧
  Msg.status m = (if stuck o then FAILED else OldMsg.status o).
Proof using Type.
  cbv zeta. unfold release_unfinished. rewrite without_with. by destruct (stuck o).
Qed.

Lemma upgrade_rows_ok t : old_outbox_ok t → world_ok (World (Store (upgrade_rows now t) ∅) ∅).
Proof using Type.
  intros [Hk Hu Hr]. unfold world_ok, outbox, events_unique, table_ok. cbn [db messages]. split_and!.
  - intros k m Hm. rewrite upgrade_rows_lookup in Hm. apply fmap_Some in Hm as (o & Ho & ->).
    destruct (release_keeps o) as (Hid & _). change (Msg.id (release_unfinished now (with_lease_columns o)) = k).
    rewrite Hid. by apply Hk.
  - intros k1 k2 m1 m2 H1 H2 He. rewrite upgrade_rows_lookup in H1, H2.
    apply fmap_Some in H1 as (o1 & H1 & ->). apply fmap_Some in H2 as (o2 & H2 & ->).
    destruct (release_keeps o1) as (_ & E1 & I1 & _), (release_keeps o2) as (_ & E2 & I2 & _).
    rewrite E1, E2, I1, I2 in He. by apply (Hu k1 k2 o1 o2).
  - intros k m Hm. rewrite upgrade_rows_lookup in Hm. apply fmap_Some in Hm as (o & Ho & ->).
    destruct (Hr k o Ho) as (Hv & Ha & Hp).
    destruct (release_keeps o) as (_ & _ & _ & _ & _ & _ & Ev & _ & _ & Ea & Ep & Eb & _ & Et & El & Es).
    split; rewrite ?Ev, ?Ea, ?Ep, ?Eb, ?Et, ?El, ?Es; [done|done|lia|done| |by intros [? ?]].
    rewrite Hp. destruct (stuck o) eqn:Hs; [|done]. apply andb_true_iff in Hs as [_ Hs%bool_decide_eq_true].
    rewrite Hs. done.
Qed.
End rows.

(** C11: The cutover to leases. Rows of a well-formed outbox come through the lease
    migration with their identity, content and attempts; the table is one that
    every later history of the outbox keeps well formed, with no claim token on
    any row. Only unfinished claims of challenge mail change state: without the
    rewriting no leased worker would ever claim such a row again; with it none is
    left in processing, and at any time from the migration on the row can be
    claimed when nothing earlier of its aggregate is open and fewer than five
    attempts were made, and is retired when five were. *)
Theorem lease_cutover now t :
  old_outbox_ok t →
  let t' := upgrade_rows now t in
  (∀ ls w, runs step (World (Store t' ∅) ∅) ls w → world_ok w) ∧
  (∀ k, is_Some (t' !! k) ↔ is_Some (t !! k)) ∧
  ∀ k o, t !! k = Some o → ∃ m, t' !! k = Some m ∧
    Msg.claim_token m = None ∧ Msg.attempts m = OldMsg.attempts o ∧ Msg.payload m = OldMsg.payload o ∧
    (stuck o = false → without_lease_columns m = o) ∧
    (stuck o = true →
       (∀ types now' t1, lease_claimable types now' t1 (with_lease_columns o) = false) ∧ Msg.status m = FAILED ∧
       ∀ types now', OldMsg.event_type o ∈ types → now ≤ now' →
         (OldMsg.attempts o < 5 → blocked_by_earlier t' m = false → lease_claimable types now' t' m = true) ∧
         (5 ≤ OldMsg.attempts o → budget_expired types now' m = true ∧ lease_claimable types now' t' m = false)).
Proof.
  intros Hok t'. split_and!.
  - intros ls w Hr. eapply outbox_ok_runs; [exact Hr|]. by apply upgrade_rows_ok.
  - intros k. unfold t'. rewrite upgrade_rows_lookup. apply fmap_is_Some.
  - intros k o Ho. exists (release_unfinished now (with_lease_columns o)).
    destruct (release_keeps now o) as (_ & _ & _ & Ety & _ & _ & _ & _ & Epay & Ea & _ & Eb & _ & Et & El & Es).
    split_and!; [unfold t'; by rewrite upgrade_rows_lookup, Ho|done..| |].
    + intros Hs. by rewrite release_spared, without_with.
    + intros Hs. rewrite Hs in Es. split_and!; [|done|].
      * intros types now' t1. unfold lease_claimable, sql_le. cbn. apply andb_true_iff in Hs as [_ Hs%bool_decide_eq_true].
        rewrite Hs. cbn. by rewrite andb_false_r.
      * intros types now' Hty Hnow. assert (Hav : Msg.available_at (release_unfinished now (with_lease_columns o)) = now).
        { unfold release_unfinished. rewrite without_with. by rewrite Hs. }
        split.
        -- intros Hlt Hbl. unfold lease_claimable. rewrite Ety, Ea, Eb, Es, Hav, Hbl.
           rewrite bool_decide_eq_true_2 by done. cbn [waiting]. rewrite (proj2 (Z.leb_le _ _) Hnow), (proj2 (Z.ltb_lt _ _) Hlt).
           done.
        -- intros Hge. unfold lease_claimable, budget_expired. rewrite Ety, Ea, Eb, Es.
           rewrite bool_decide_eq_true_2 by done. rewrite (proj2 (Z.leb_le _ _) Hge), (proj2 (Z.ltb_ge _ _) Hge).
           split; [done|]. by rewrite andb_false_r.
Qed.

Definition old_row (k attempts : Z) (type_ : string) (st : OutboxStatus) : OldMsg.t :=
  OldMsg.New k k (lit "key" ++ [Z.to_N k]) (lit type_) (lit "email_challenge") k 1 0 [] st attempts 0 (Some 5) None None.
Definition old_outbox : table OldMsg.t :=
  {[1 := old_row 1 2 "email_challenge_requested" PROCESSING; 2 := old_row 2 5 "email_challenge_requested" PROCESSING;
    3 := old_row 3 1 "order_placed" PROCESSING]}.

Lemma old_outbox_well_formed : old_outbox_ok old_outbox.
Proof.
  assert (Hall : ∀ k o, old_outbox !! k = Some o → ∃ a ty, o = old_row k a ty PROCESSING ∧ 0 ≤ a ≤ 100 ∧ 0 ≤ k).
  { unfold old_outbox. intros k o Ho. repeat (apply lookup_insert_Some in Ho as [[<- <-]|[_ Ho]]; [by eexists _, _|]).
    apply lookup_singleton_Some in Ho as [<- <-]. by eexists _, _. }
  split.
  - by intros k o (a & ty & -> & _)%Hall.
  - intros k1 k2 o1 o2 (a1 & ty1 & -> & _ & H1)%Hall (a2 & ty2 & -> & _ & H2)%Hall. cbn. intros [?|He]; [done|].
    injection He as He. lia.
  - intros k o (a & ty & -> & Ha & _)%Hall. cbn. split_and!; try lia; try done.
Qed.

Lemma lease_cutover_witness :
  ∃ m1 m2, upgrade_rows 100 old_outbox !! 1 = Some m1 ∧ upgrade_rows 100 old_outbox !! 2 = Some m2 ∧
    lease_claimable [lit "email_challenge_requested"] 100 (upgrade_rows 100 old_outbox) m1 = true ∧
    budget_expired [lit "email_challenge_requested"] 100 m2 = true.
Proof.
  destruct (lease_cutover 100 old_outbox old_outbox_well_formed) as (_ & _ & Hrows).
  destruct (Hrows 1 (old_row 1 2 "email_challenge_requested" PROCESSING) eq_refl) as (m1 & H1 & _ & _ & _ & _ & G1).
  destruct (Hrows 2 (old_row 2 5 "email_challenge_requested" PROCESSING) eq_refl) as (m2 & H2 & _ & _ & _ & _ & G2).
  exists m1, m2. split_and!; [exact H1|exact H2| |].
  - destruct (G1 eq_refl) as (_ & _ & G). apply (G [lit "email_challenge_requested"] 100); [by left|done|done|].
    vm_compute in H1. injection H1 as <-. vm_compute. reflexivity.
  - destruct (G2 eq_refl) as (_ & _ & G). apply (G [lit "email_challenge_requested"] 100); [by left|done|done].
Defined.
