(* ===== verification/Storage.v ===== *)
(** * Object storage (storage/)

    Keys, declared uploads, the port that adapters implement as an interface with
    its promises, and the store in memory. *)

From S2P Require Import Prelude Regex PyValues Errors Sessions Texts Json JsonSpecs Urls.

(** ** Values (storage/types.py) *)

Definition SHA256 : regex := rep 64 (Cls [rng "a" "f"; digit]).
Definition MIME_TYPES : list str := lit <$> ["image/avif"; "image/jpeg"; "image/png"; "image/webp"].
Definition EXTENSIONS : list str := lit <$> ["avif"; "jpg"; "png"; "webp"].

Record ObjectKey := NewObjectKey { key_value : str }.

(** [ObjectKey.__post_init__]. *)
Definition unsafe_key (value : str) : bool :=
  bool_decide (value = []) || (255 <? Z.of_nat (length value)) || starts_with (lit "/") value
  || bool_decide (92%N ∈ value) || bool_decide (lit ".." ∈ split_on 47 value) || existsb (λ c, (c <? 32)%N) value.
Definition object_key (value : str) : res pyexn ObjectKey :=
  require (negb (unsafe_key value)) (ValueError "object key is unsafe");; Ok (NewObjectKey value).

Definition image_path (product_id object_id : uuid) (extension : str) : str :=
  lit "products/" ++ uuid_str product_id ++ lit "/" ++ uuid_str object_id ++ lit "." ++ extension.
Definition product_image (product_id object_id : uuid) (extension : str) : res pyexn ObjectKey :=
  require (bool_decide (extension ∈ EXTENSIONS)) (ValueError "file extension is not supported");;
  object_key (image_path product_id object_id extension).

(** [size_bytes] is an integer; a bool, which is one in Python, is refused. *)
Record UploadMetadata := NewUploadMetadata { content_type : str; size_bytes : Z; sha256 : str }.
Definition upload_metadata (content_type : str) (size_bytes : Z + bool) (sha256 : str) : res pyexn UploadMetadata :=
  require (bool_decide (content_type ∈ MIME_TYPES)) (ValueError "content type is unsupported");;
  match size_bytes with
  | inl n =>
      require (between_z 1 10485760 n) (ValueError "size_bytes must be between 1 and 10485760");;
      require (fullmatch SHA256 sha256) (ValueError "sha256 must be lowercase hexadecimal");;
      Ok (NewUploadMetadata content_type n sha256)
  | inr _ => Err (ValueError "size_bytes must be between 1 and 10485760")
  end.

Record StoredObject := NewStoredObject { so_key : ObjectKey; so_metadata : UploadMetadata; stored_at : datetime }.
Record SignedAccess := NewSignedAccess { sa_url : str; sa_expires_at : datetime }.
Definition signed_access (url : str) (expires_at : datetime) : res pyexn SignedAccess :=
  require (starts_with (lit "https://") url) (ValueError "signed access must use HTTPS");; Ok (NewSignedAccess url expires_at).

#[export] Instance object_key_eq_dec : EqDecision ObjectKey. Proof. solve_decision. Defined.
#[export] Instance upload_metadata_eq_dec : EqDecision UploadMetadata. Proof. solve_decision. Defined.
#[export] Instance stored_object_eq_dec : EqDecision StoredObject. Proof. solve_decision. Defined.

(** What arrives from an asynchronous iterator: chunks of bytes, and the
    exception that ends it, if one does. *)
Record Upload := NewUpload { chunks : list (list N); broken : option pyexn }.

Definition safe (k : ObjectKey) : Prop := unsafe_key (key_value k) = false.

(** ** The port (storage/ports.py) *)

(** What clients may rely on: a put that answers stored the declared object and
    one that raises changed nothing; a delete removes; and neither touches another
    key. An object that is there can be read for one second up to fifteen
    minutes. *)
Class ObjectStorage (T : Type) := {
  put : datetime → ObjectKey → Upload → UploadMetadata → T → res pyexn StoredObject * T;
  head : ObjectKey → T → option StoredObject;
  sign_read : datetime → ObjectKey → Z → T → res pyexn SignedAccess;
  delete : ObjectKey → T → T;
  put_head now k u m s o s' : put now k u m s = (Ok o, s') →
    o = NewStoredObject k m now ∧ head k s' = Some o ∧ ∀ k', k' ≠ k → head k' s' = head k' s;
  put_raises now k u m s e s' : put now k u m s = (Err e, s') → s' = s;
  delete_head k s : head k (delete k s) = None ∧ ∀ k', k' ≠ k → head k' (delete k s) = head k' s;
  sign_missing now k w s : head k s = None → sign_read now k w s = Err FileNotFoundError;
  sign_bounds now k w s a : sign_read now k w s = Ok a → seconds 1 ≤ w ≤ seconds 900 ∧ sa_expires_at a = now + w }.

(** ** The store in memory (storage/memory.py) *)

Section memory.
(** [hashlib.sha256(content).hexdigest()]. *)
Context (sha256_hex : list N → str).

Abbreviation store := (gmap str (list N * StoredObject)).

Fixpoint receive (limit : Z) (content : list N) (cs : list (list N)) : res pyexn (list N) :=
  match cs with
  | [] => Ok content
  | c :: cs =>
      let content := content ++ c in
      if limit <? Z.of_nat (length content) then Err (ValueError "uploaded object exceeds declared size")
      else receive limit content cs
  end.

Definition memory_put (now : datetime) (k : ObjectKey) (u : Upload) (m : UploadMetadata) (s : store)
    : res pyexn StoredObject * store :=
  match receive (size_bytes m) [] (chunks u), broken u with
  | Err e, _ => (Err e, s)
  | Ok _, Some e => (Err e, s)
  | Ok content, None =>
      if bool_decide (Z.of_nat (length content) = size_bytes m) && bool_decide (sha256_hex content = sha256 m) then
        let stored := NewStoredObject k m now in
        (Ok stored, <[key_value k := (content, stored)]> s)
      else (Err (ValueError "uploaded object does not match declared metadata"), s)
  end.

Definition memory_head (k : ObjectKey) (s : store) : option StoredObject := snd <$> s !! key_value k.

(** [quote] of a byte, which keeps slashes. *)
Definition quote_path_byte (b : N) : str :=
  if in_cls (chr "/" :: ALWAYS_SAFE) b then [b] else [37%N; upper_hex (b / 16); upper_hex (b mod 16)].
Definition quote_path (s : str) : res pyexn str :=
  require (encodable s) (ValueError "surrogates not allowed");; Ok (utf8 s ≫= quote_path_byte).

Definition memory_sign_read (now : datetime) (k : ObjectKey) (expires_in : Z) (s : store) : res pyexn SignedAccess :=
  require (bool_decide (is_Some (s !! key_value k))) FileNotFoundError;;
  require (between_z (seconds 1) (seconds 900) expires_in)
    (ValueError "signed access expiry must be between 1 second and 15 minutes");;
  path ← quote_path (key_value k);
  signed_access (lit "https://storage.test/" ++ path ++ lit "?signature=test-only") (now + expires_in).

Definition memory_delete (k : ObjectKey) (s : store) : store := base.delete (key_value k) s.

Lemma key_value_ne k k' : k' ≠ k → key_value k' ≠ key_value k.
Proof using Type. destruct k, k'. cbn. congruence. Qed.

(** A put that answers, and one that does not. *)
Lemma memory_put_inv now k u m s r s' :
  memory_put now k u m s = (r, s') →
  match r with
  | Ok o => ∃ content, receive (size_bytes m) [] (chunks u) = Ok content ∧ broken u = None ∧
      Z.of_nat (length content) = size_bytes m ∧ sha256_hex content = sha256 m ∧
      o = NewStoredObject k m now ∧ s' = <[key_value k := (content, o)]> s
  | Err _ => s' = s
  end.
Proof using Type.
  unfold memory_put. destruct (receive _ _ _) as [content|e]; [|by intros [= <- <-]].
  destruct (broken u); [by intros [= <- <-]|]. destruct (_ && _) eqn:Hb; [|by intros [= <- <-]].
  intros [= <- <-]. apply andb_true_iff in Hb as [Hl%bool_decide_eq_true Hd%bool_decide_eq_true]. by exists content.
Qed.

#[refine] Instance MemoryObjectStorage : ObjectStorage store := {
  put := memory_put;
  head := memory_head;
  sign_read := memory_sign_read;
  delete := memory_delete }.
Proof using sha256_hex.
  - intros now k u m s o s' (content & _ & _ & _ & _ & -> & ->)%memory_put_inv. unfold memory_head.
    rewrite lookup_insert_eq. split_and!; [done..|]. intros k' Hk. by rewrite lookup_insert_ne by (symmetry; by apply key_value_ne).
  - by intros now k u m s e s' Hs%memory_put_inv.
  - intros k s. unfold memory_head, memory_delete. rewrite lookup_delete_eq. split; [done|].
    intros k' Hk. by rewrite lookup_delete_ne by (symmetry; by apply key_value_ne).
  - intros now k w s. unfold memory_head, memory_sign_read. destruct (s !! key_value k) as [x|]; [done|]. done.
  - intros now k w s a. unfold memory_sign_read, signed_access. intros Ha. res_inv. injection Ha as <-.
    split; [|done]. by apply between_z_true.
Defined.
End memory.
