(* ===== verification/StorageSpecs.v ===== *)
(** * What object storage guarantees

    Keys of images, what is held in memory along any history, and the addresses
    that reads are signed for. *)

From S2P Require Import Prelude Regex PyValues Errors Sessions Texts Json JsonSpecs Urls AuditTrail AuditSpecs Storage.

(** ** Keys *)

Definition uuid_range (i : uuid) : Prop := 0 ≤ i < 16 ^ 32.

Lemma uuid_str_inj i j : uuid_range i → uuid_range j → uuid_str i = uuid_str j → i = j.
Proof. intros Hi Hj He. apply uuid_of_str in Hi, Hj. congruence. Qed.

Lemma uuid_str_printable i : Forall (λ c, (32 <= c)%N) (uuid_str i).
Proof.
  assert (Hh : ∀ n i, Forall (λ c, (32 <= c)%N) (hex n i)).
  { intros n j. eapply Forall_impl; [apply hex_lower_chars|]. intros c Hc%hex_char_cases.
    rewrite !list_elem_of_fmap in Hc. destruct Hc as (d & -> & Hd%elem_of_seqZ). unfold hex_digit. case_match; lia. }
  assert (Hd : Forall (λ c, (32 <= c)%N) [45%N]) by (constructor; [lia|constructor]).
  unfold uuid_str. rewrite !Forall_app. by split_and!.
Qed.

Lemma printable s : forallb (λ c, (32 <=? c)%N) s = true → Forall (λ c, (32 <= c)%N) s.
Proof.
  rewrite forallb_forall. intros Hs. apply Forall_forall. intros c Hc. apply N.leb_le, Hs. by apply list_elem_of_In.
Qed.

Lemma extension_cases e : e ∈ EXTENSIONS → e = lit "avif" ∨ e = lit "jpg" ∨ e = lit "png" ∨ e = lit "webp".
Proof.
  change EXTENSIONS with [lit "avif"; lit "jpg"; lit "png"; lit "webp"]. rewrite !elem_of_cons, elem_of_nil. tauto.
Qed.

Lemma image_parts p o e : e ∈ EXTENSIONS →
  split_on 47 (image_path p o e) = [lit "products"; uuid_str p; uuid_str o ++ lit "." ++ e].
Proof.
  intros He. unfold image_path. change (lit "products/") with (lit "products" ++ [47%N]). rewrite <-app_assoc. cbn [app].
  rewrite split_on_app by (by apply not_in). change (lit "/") with [47%N]. cbn [app].
  rewrite split_on_app by (by apply uuid_str_free).
  rewrite split_on_free; [done|]. rewrite !not_elem_of_app. split_and!; [by apply uuid_str_free|by apply not_in|].
  apply extension_cases in He as [-> |[-> |[-> | ->]]]; by apply not_in.
Qed.

(** Every image has a key, and it is safe. *)
Lemma image_safe p o e : e ∈ EXTENSIONS → unsafe_key (image_path p o e) = false.
Proof.
  intros He. assert (Hx : 1 ≤ Z.of_nat (length e) ≤ 4 ∧ 92%N ∉ e ∧ Forall (λ c, (32 <= c)%N) e).
  { apply extension_cases in He as [-> |[-> |[-> | ->]]]; (split; [cbn; lia|split; [by apply not_in|by apply printable]]). }
  destruct Hx as (Hl & Hb & Hp). unfold unsafe_key. rewrite image_parts by done.
  rewrite !orb_false_iff. split_and!.
  - apply bool_decide_eq_false. done.
  - apply Z.ltb_ge. unfold image_path. rewrite !length_app, !uuid_str_length. cbn. lia.
  - done.
  - apply bool_decide_eq_false. unfold image_path. rewrite !not_elem_of_app.
    split_and!; try (by apply uuid_str_free); try done; by apply not_in.
  - apply bool_decide_eq_false. intros Hd. assert (Hu : ∀ i, 46%N ∉ uuid_str i) by (intros i; by apply uuid_str_free).
    apply elem_of_cons in Hd as [Hd|Hd]; [done|]. apply elem_of_cons in Hd as [Hd|Hd].
    + apply (Hu p). rewrite <-Hd. by left.
    + apply list_elem_of_singleton in Hd. apply (f_equal length) in Hd.
      rewrite !length_app, uuid_str_length in Hd. cbn in Hd. lia.
  - apply not_true_iff_false. rewrite existsb_exists. intros (c & Hc & Hlt). apply list_elem_of_In in Hc.
    assert (Hall : Forall (λ c, (32 <= c)%N) (image_path p o e)).
    { unfold image_path. rewrite !Forall_app. split_and!; try apply uuid_str_printable; try done; by apply printable. }
    rewrite Forall_forall in Hall. apply N.ltb_lt in Hlt. specialize (Hall _ Hc). cbn in Hall. lia.
Qed.

(** Keys of product images. Every product, object and supported extension has a
    key, and no other extension; the key is safe - relative, at most 255
    characters, without parent segments, backslashes and control characters -
    and lies in the folder of its product, and different images have different
    keys. *)
Theorem product_image_keys p o e :
  uuid_range p → uuid_range o →
  (e ∉ EXTENSIONS → product_image p o e = Err (ValueError "file extension is not supported")) ∧
  (e ∈ EXTENSIONS → ∃ k, product_image p o e = Ok k ∧ safe k ∧
     split_on 47 (key_value k) = [lit "products"; uuid_str p; uuid_str o ++ lit "." ++ e] ∧
     ∀ p' o' e', uuid_range p' → uuid_range o' → product_image p' o' e' = Ok k → p' = p ∧ o' = o ∧ e' = e).
Proof.
  intros Hp Ho. split.
  - intros He. unfold product_image. by rewrite bool_decide_eq_false_2.
  - intros He. exists (NewObjectKey (image_path p o e)). split_and!; [|by apply image_safe|by apply image_parts|].
    + unfold product_image, object_key. by rewrite bool_decide_eq_true_2, image_safe.
    + intros p' o' e' Hp' Ho' Hk. unfold product_image, object_key in Hk. res_inv.
      apply (f_equal (λ r, match r with Ok k => key_value k | Err _ => [] end)) in Hk. cbv beta iota in Hk. change (key_value (NewObjectKey ?x)) with x in Hk.
      match goal with H : bool_decide (e' ∈ _) = true |- _ => apply bool_decide_eq_true in H as He' end.
      apply (f_equal (split_on 47)) in Hk. rewrite !image_parts in Hk by done. apply (f_equal tail) in Hk as Ht. cbn [tail] in Ht.
      assert (Hpp : uuid_str p' = uuid_str p) by congruence. assert (Hoe : uuid_str o' ++ lit "." ++ e' = uuid_str o ++ lit "." ++ e) by congruence. clear Hk Ht.
      apply (f_equal (partition_on 46)) in Hoe.
      rewrite (proj2 (partition_on_Some 46 _ (uuid_str o') e')) in Hoe by (split; [done|by apply uuid_str_free]).
      rewrite (proj2 (partition_on_Some 46 _ (uuid_str o) e)) in Hoe by (split; [done|by apply uuid_str_free]).
      assert (uuid_str o' = uuid_str o ∧ e' = e) as [Hoo ->] by (split; congruence). split_and!; [by apply uuid_str_inj..|done].
Qed.

Lemma product_image_keys_witness :
  ∃ k, product_image 1 2 (lit "webp") = Ok k ∧
    split_on 47 (key_value k) = [lit "products"; uuid_str 1; uuid_str 2 ++ lit ".webp"].
Proof.
  destruct (proj2 (product_image_keys 1 2 (lit "webp") ltac:(split; lia) ltac:(split; lia))) as (k & Hk & _ & Hs & _);
    [by vm_compute; do 3 right; left|]. exists k. split; [exact Hk|exact Hs].
Defined.

(** ** What is held *)

Section memory.
Context (sha256_hex : list N → str).
#[local] Instance in_memory : ObjectStorage (gmap str (list N * StoredObject)) := MemoryObjectStorage sha256_hex.

Lemma receive_Ok limit content cs c : receive limit content cs = Ok c → c = content ++ concat cs.
Proof using Type.
  revert content. induction cs as [|x cs IH]; intros content; cbn; [intros [= <-]; by rewrite app_nil_r|].
  destruct (_ <? _); [done|]. intros ->%IH. by rewrite app_assoc.
Qed.

Lemma receive_fits limit content cs :
  Z.of_nat (length (content ++ concat cs)) ≤ limit → receive limit content cs = Ok (content ++ concat cs).
Proof using Type.
  revert content. induction cs as [|x cs IH]; intros content; cbn; [by rewrite app_nil_r|].
  intros Hl. assert (Hx : Z.of_nat (length (content ++ x)) ≤ limit) by (rewrite !length_app in *; lia).
  apply Z.ltb_ge in Hx as ->. rewrite IH; by rewrite <-app_assoc.
Qed.

(** What a put does depends on the content, not on its chunks. *)
Lemma memory_put_run now k u m s :
  (∃ e, memory_put sha256_hex now k u m s = (Err e, s) ∧
     (broken u ≠ None ∨ Z.of_nat (length (concat (chunks u))) ≠ size_bytes m ∨ sha256_hex (concat (chunks u)) ≠ sha256 m)) ∨
  (memory_put sha256_hex now k u m s =
     (Ok (NewStoredObject k m now), <[key_value k := (concat (chunks u), NewStoredObject k m now)]> s) ∧
   broken u = None ∧ Z.of_nat (length (concat (chunks u))) = size_bytes m ∧ sha256_hex (concat (chunks u)) = sha256 m).
Proof using Type.
  destruct (memory_put _ _ _ _ _ _) as [[o|e] s'] eqn:Hp; pose proof Hp as Hi; apply memory_put_inv in Hi.
  - right. destruct Hi as (content & Hr & Hb & Hl & Hd & -> & ->). apply receive_Ok in Hr as ->. by split_and!.
  - left. exists e. subst s'. split; [done|]. destruct (broken u) as [|] eqn:Hb; [by left|].
    destruct (decide (Z.of_nat (length (concat (chunks u))) = size_bytes m)) as [Hl|]; [|by right; left].
    destruct (decide (sha256_hex (concat (chunks u)) = sha256 m)) as [Hd|]; [|by right; right].
    exfalso. unfold memory_put in Hp. rewrite (receive_fits _ [] (chunks u)) in Hp by (cbn; lia). cbn in Hp.
    by rewrite Hb, !bool_decide_eq_true_2 in Hp.
Qed.

(** Calls of a client, with validated keys and metadata. *)
Inductive storage_call :=
| Put (now : datetime) (k : ObjectKey) (u : Upload) (content_type : str) (size_bytes : Z + bool) (sha256 : str)
| Delete (k : ObjectKey).

Inductive storage_step (s : gmap str (list N * StoredObject)) : storage_call → gmap str (list N * StoredObject) → Prop :=
| step_put now k u t n h m : object_key (key_value k) = Ok k → upload_metadata t n h = Ok m →
    storage_step s (Put now k u t n h) (put now k u m s).2
| step_delete k : storage_step s (Delete k) (delete k s).

(** An object that is what it was declared to be. *)
Definition declared (k : str) (content : list N) (o : StoredObject) : Prop :=
  key_value (so_key o) = k ∧ safe (so_key o) ∧ content_type (so_metadata o) ∈ MIME_TYPES ∧
  1 ≤ Z.of_nat (length content) ≤ 10485760 ∧ Z.of_nat (length content) = size_bytes (so_metadata o) ∧
  sha256_hex content = sha256 (so_metadata o) ∧ fullmatch SHA256 (sha256_hex content) = true.

Definition holds_declared (s : gmap str (list N * StoredObject)) : Prop :=
  ∀ k content o, s !! k = Some (content, o) → declared k content o.

Lemma step_holds s c s' : storage_step s c s' → holds_declared s → holds_declared s'.
Proof using Type.
  intros Hstep Hs. destruct Hstep as [now k u t n h m Hk Hm|k].
  - change (put now k u m s) with (memory_put sha256_hex now k u m s). destruct (memory_put_run now k u m s) as [(e & -> & _)|(-> & _ & Hl & Hd)]; [done|].
    cbn [snd]. intros k' content o [[<- [= <- <-]]|[_ Ho]]%lookup_insert_Some; [|by apply Hs].
    unfold object_key in Hk. unfold upload_metadata in Hm. destruct n as [n|]; [|by res_inv]. res_inv. injection Hm as <-.
    cbn [size_bytes sha256] in *.
    repeat match goal with H : bool_decide _ = true |- _ => apply bool_decide_eq_true in H end.
    match goal with H : between_z _ _ _ = true |- _ => apply between_z_true in H end.
    match goal with H : negb _ = true |- _ => apply negb_true_iff in H end.
    unfold declared. cbn. rewrite Hd. split_and!; try done; lia.
  - intros k' content o Ho. change (base.delete (key_value k) s !! k' = Some (content, o)) in Ho. apply lookup_delete_Some in Ho as [_ Ho]. by apply Hs.
Qed.
End memory.

(** ** Signed reads *)

(** The path of an address, decoded. *)
Fixpoint unquote_bytes (s : str) : option (list N) :=
  match s with
  | [] => Some []
  | c :: r =>
      if (c =? 37)%N then
        match r with
        | h :: l :: r => h ← hex_of h; l ← hex_of l; cons (h * 16 + l)%N <$> unquote_bytes r
        | _ => None
        end
      else cons c <$> unquote_bytes r
  end.
Definition path_char (c : N) : bool := in_cls (chr "%" :: chr "/" :: ALWAYS_SAFE) c.

Lemma quote_path_byte_back b r : (b < 256)%N →
  forallb path_char (quote_path_byte b) = true ∧ unquote_bytes (quote_path_byte b ++ r) = cons b <$> unquote_bytes r.
Proof.
  intros Hb. split; [revert b Hb; apply byte_forall; by vm_compute|].
  unfold quote_path_byte. destruct (in_cls (chr "/" :: ALWAYS_SAFE) b) eqn:Hs.
  { assert (Hn : negb (in_cls (chr "/" :: ALWAYS_SAFE) b) || negb (b =? 37)%N = true)
      by (clear Hs; revert b Hb; apply byte_forall; by vm_compute).
    rewrite Hs in Hn. apply negb_true_iff in Hn. cbn. by rewrite Hn. }
  cbn [app unquote_bytes]. change (37 =? 37)%N with true. cbn [app].
  assert (Hx : bool_decide (hex_of (upper_hex (b / 16)) = Some (b / 16)%N ∧ hex_of (upper_hex (b mod 16)) = Some (b mod 16)%N) = true)
    by (clear Hs; revert b Hb; apply byte_forall; by vm_compute).
  apply bool_decide_eq_true in Hx as [-> ->]. cbn. f_equal. f_equal. pose proof (N.div_mod b 16). lia.
Qed.

Lemma quote_path_back s q : quote_path s = Ok q → unicode s →
  forallb path_char q = true ∧ (b ← unquote_bytes q; utf8_decode b) = Some s.
Proof.
  unfold quote_path. intros Hq Hs. res_inv. injection Hq as <-.
  enough (Hb : ∀ b, Forall (λ b, (b < 256)%N) b → forallb path_char (b ≫= quote_path_byte) = true ∧
    unquote_bytes (b ≫= quote_path_byte) = Some b).
  { destruct (Hb (utf8 s) (utf8_bytes s Hs)) as [Hc ->]. split; [done|]. by apply utf8_decode_utf8. }
  induction 1 as [|y b Hy _ [IH1 IH2]]; [by split|]. cbn [mbind list_bind].
  destruct (quote_path_byte_back y (b ≫= quote_path_byte) Hy) as [H1 H2]. rewrite forallb_app, H1, H2, IH2. by split.
Qed.

(** C34: The store in memory holds what was declared. Along any history of puts - in
    any chunks, ending normally or in an exception - and deletes, every object
    has a safe key, an allowed type, between one byte and ten megabytes, exactly
    the declared size, and the declared digest. A put succeeds exactly when its
    content has them, however it is cut into chunks, and otherwise changes
    nothing. And a read is signed exactly for objects that are there, for one
    second to fifteen minutes, at an address whose path decodes to the key. *)
Theorem memory_storage_correct (sha256_hex : list N → str) cs s :
  runs (λ s c s', storage_step sha256_hex s c s') ∅ cs s →
  holds_declared sha256_hex s ∧
  (∀ now k u m, let content := concat (chunks u) in
     (∃ o s', memory_put sha256_hex now k u m s = (Ok o, s') ∧ s' = <[key_value k := (content, o)]> s) ↔
     broken u = None ∧ Z.of_nat (length content) = size_bytes m ∧ sha256_hex content = sha256 m) ∧
  (∀ now k u m e s', memory_put sha256_hex now k u m s = (Err e, s') → s' = s) ∧
  (∀ now k w, unicode (key_value k) → encodable (key_value k) = true →
     ((∃ a, memory_sign_read now k w s = Ok a) ↔ is_Some (s !! key_value k) ∧ seconds 1 ≤ w ≤ seconds 900) ∧
     ∀ a, memory_sign_read now k w s = Ok a → sa_expires_at a = now + w ∧
       ∃ path, sa_url a = lit "https://storage.test/" ++ path ++ lit "?signature=test-only" ∧ forallb path_char path = true ∧
         (b ← unquote_bytes path; utf8_decode b) = Some (key_value k)).
Proof.
  intros Hr. split_and!.
  - assert (H0 : holds_declared sha256_hex ∅) by (intros k c o Ho; by rewrite lookup_empty in Ho).
    revert H0. induction Hr as [|s1 c s2 cs s3 Hs _ IH]; [done|]. intros H1. by eapply IH, step_holds.
  - intros now k u m content. destruct (memory_put_run sha256_hex now k u m s) as [(e & -> & Hx)|(-> & Hx)]; split.
    + by intros (o & s' & Ho & _).
    + intros (Hb & Hl & Hd). naive_solver.
    + done.
    + intros _. by eexists _, _.
  - intros now k u m e s' Hp. by apply memory_put_inv in Hp.
  - intros now k w Hu He. unfold memory_sign_read, signed_access. split.
    + split.
      * intros (a & Ha). res_inv. 
        match goal with H1 : bool_decide _ = true, H2 : between_z _ _ _ = true |- _ =>
          apply bool_decide_eq_true in H1; apply between_z_true in H2; by split end.
      * intros [Hk Hw]. rewrite bool_decide_eq_true_2 by done. cbn [require mbind res_bind].
        rewrite (proj2 (between_z_true _ _ _) Hw). unfold quote_path. rewrite He. eexists. reflexivity.
    + intros a Ha. res_inv. injection Ha as <-. split; [done|].
      match goal with H1 : quote_path _ = Ok ?p |- _ => exists p; split; [done|]; by apply quote_path_back end.
Qed.

Definition demo_upload : Upload := NewUpload [[1; 2]%N; [3%N]] None.
Definition demo_put : storage_call :=
  Put 0 (NewObjectKey (lit "products/a b.png")) demo_upload (lit "image/png") (inl 3) (replicate 64 97%N).
Definition demo_digest (content : list N) : str := replicate 64 97%N.
Definition demo_storage : gmap str (list N * StoredObject) :=
  (memory_put demo_digest 0 (NewObjectKey (lit "products/a b.png")) demo_upload
     (NewUploadMetadata (lit "image/png") 3 (replicate 64 97%N)) ∅).2.

Lemma memory_storage_correct_witness :
  holds_declared demo_digest demo_storage ∧
  ∃ a, memory_sign_read 0 (NewObjectKey (lit "products/a b.png")) (seconds 60) demo_storage = Ok a.
Proof.
  assert (Hr : runs (λ s c s', storage_step demo_digest s c s') ∅ [demo_put] demo_storage).
  { eapply runs_cons; [|apply runs_nil]. by apply (step_put demo_digest ∅ 0 _ demo_upload _ _ _ (NewUploadMetadata (lit "image/png") 3 (replicate 64 97%N))). }
  destruct (memory_storage_correct demo_digest _ _ Hr) as (Hh & _ & _ & Hsign). split; [exact Hh|].
  apply (Hsign 0 (NewObjectKey (lit "products/a b.png")) (seconds 60)); [by repeat constructor|done|].
  split; [by vm_compute; eexists|]. split; by vm_compute.
Defined.
