(* ===== verification/Settings.v ===== *)
(** * Application settings (core/settings.py, core/application.py)

    The settings of a process with the validation of every group of them - of
    authentication, identity providers, mail, the outbox worker and the limits of
    profiles -, what production insists on, and what the application, the clients
    and the routers make of them. *)

From S2P Require Import Prelude Regex PyValues Outbox Delivery Errors Identity Sessions AuthService Profile RateLimits EmailDelivery Urls OidcProvider Http OidcRoutes Routes Server OidcServer.

Inductive AppEnvironment := DEVELOPMENT | TEST | PRODUCTION.
#[export] Instance app_environment_eq_dec : EqDecision AppEnvironment. Proof. solve_decision. Defined.
Definition environment_value (e : AppEnvironment) : str :=
  match e with DEVELOPMENT => lit "development" | TEST => lit "test" | PRODUCTION => lit "production" end.

(** The fields that a validator constrains or the application reads; [oidc] is a
    group of [auth]. *)
Record Settings := NewSettings {
  app_env : AppEnvironment;
  debug : bool;
  api_prefix : str;
  service_name : str;
  trust_incoming_request_ids : bool;
  database_url : str;
  test_database_url : str;
  database_pool_size : Z;
  database_max_overflow : Z;
  database_connect_timeout_seconds : pyfloat;
  redis_url : str;
  redis_connect_timeout_seconds : pyfloat;
  redis_operation_timeout_seconds : pyfloat;
  allowed_hosts : list str;
  cors_origins : list str;
  secure_cookies : bool;
  secret_key : str;
  check_dependencies_on_startup : bool;
  auth : AuthSettings;
  oidc : OidcSettings;
  resend : option ResendSettings;
  outbox_worker : OutboxWorkerSettings;
  profile_rate_limits : ProfileRateLimitSettings }.

Definition SERVICE_NAME : regex := Seq (Cls [lower]) (Star (Cls [lower; digit; chr "-"])).
Definition UNSAFE_SECRETS : list str := lit <$> ["development-only-change-me"; "change-me"; "changeme"; "secret"].
Definition wildcard : str := lit "*".

(** The settings with what the validation of the mail group leaves. *)
Definition with_resend (r : option ResendSettings) (s : Settings) : Settings :=
  NewSettings (app_env s) (debug s) (api_prefix s) (service_name s) (trust_incoming_request_ids s) (database_url s)
    (test_database_url s) (database_pool_size s) (database_max_overflow s) (database_connect_timeout_seconds s) (redis_url s)
    (redis_connect_timeout_seconds s) (redis_operation_timeout_seconds s) (allowed_hosts s) (cors_origins s)
    (secure_cookies s) (secret_key s) (check_dependencies_on_startup s) (auth s) (oidc s) r (outbox_worker s)
    (profile_rate_limits s).

Section settings.
(** Addresses for pydantic; [urlsplit] and [str.lower]. *)
Context `{MailLibrary, OidcLibrary} (nan_passes : bool).

(** The bounds of the fields, and the validators of the groups. *)
Definition validate_fields (s : Settings) : res pyexn Settings :=
  require (sized 1 100 (service_name s) && fullmatch SERVICE_NAME (service_name s)) (ValueError "service_name");;
  require (between_z 1 50 (database_pool_size s)) (ValueError "database_pool_size");;
  require (between_z 0 50 (database_max_overflow s)) (ValueError "database_max_overflow");;
  require (positive_at_most nan_passes 30 (database_connect_timeout_seconds s)) (ValueError "database_connect_timeout_seconds");;
  require (positive_at_most nan_passes 30 (redis_connect_timeout_seconds s)) (ValueError "redis_connect_timeout_seconds");;
  require (positive_at_most nan_passes 30 (redis_operation_timeout_seconds s)) (ValueError "redis_operation_timeout_seconds");;
  validate_auth_settings (auth s);;
  oidc_settings nfkc_text ipv6_text lowered nan_passes (google (oidc s)) (yahoo (oidc s)) (attempt_seconds (oidc s))
    (http_timeout_seconds (oidc s));;
  resend ← match resend s with
           | None => Ok None
           | Some r => r ← validate_resend_settings r; Ok (Some r)
           end;
  Delivery.validate_settings (outbox_worker s);;
  validate_profile_limits (profile_rate_limits s);;
  Ok (with_resend resend s).

Definition validate_environment_safety (s : Settings) : res pyexn Settings :=
  require (negb (bool_decide (app_env s = TEST) && bool_decide (database_url s = test_database_url s)))
    (ValueError "test_database_url must differ from database_url");;
  if bool_decide (app_env s = PRODUCTION) then
    require (negb (debug s)) (ValueError "debug must be disabled in production");;
    require (secure_cookies s) (ValueError "secure_cookies must be enabled in production");;
    require (negb (bool_decide (wildcard ∈ allowed_hosts s))) (ValueError "wildcard allowed_hosts are forbidden in production");;
    require (negb (bool_decide (wildcard ∈ cors_origins s))) (ValueError "wildcard cors_origins are forbidden in production");;
    require (negb (bool_decide (allowed_hosts s = []))) (ValueError "allowed_hosts must not be empty in production");;
    require (negb (bool_decide (lowered (secret_key s) ∈ UNSAFE_SECRETS)))
      (ValueError "a non-placeholder secret_key is required in production");;
    Ok s
  else Ok s.

Definition validate_settings (s : Settings) : res pyexn Settings :=
  s ← validate_fields s; validate_environment_safety s.
End settings.

Definition active_database_url (s : Settings) : str :=
  if bool_decide (app_env s = TEST) then test_database_url s else database_url s.

(** What [create_app] passes to the framework: the hosts it trusts, and the
    origins it lets browsers read from, with or without credentials. *)
Record CorsPolicy := NewCorsPolicy { allow_origins : list str; allow_credentials : bool }.
Record AppOptions := NewAppOptions { app_debug : bool; trusted_hosts : list str; cors : option CorsPolicy; trust_ids : bool }.
Definition create_app (s : Settings) : AppOptions :=
  NewAppOptions (debug s) (allowed_hosts s)
    (match cors_origins s with
     | [] => None
     | os => Some (NewCorsPolicy os (negb (bool_decide (wildcard ∈ os))))
     end)
    (trust_incoming_request_ids s).

(** What [Database] and [create_redis_client] pass to their libraries. *)
Record DatabaseOptions := NewDatabaseOptions {
  engine_url : str; pool_pre_ping : bool; pool_size : Z; max_overflow : Z; connect_timeout : pyfloat; session_timezone : str;
  expire_on_commit : bool; autoflush : bool }.
Definition database_options (s : Settings) : DatabaseOptions :=
  NewDatabaseOptions (active_database_url s) true (database_pool_size s) (database_max_overflow s)
    (database_connect_timeout_seconds s) (lit "UTC") false false.
Record RedisOptions := NewRedisOptions {
  client_url : str; decode_responses : bool; socket_connect_timeout : pyfloat; socket_timeout : pyfloat;
  health_check_interval : Z }.
Definition redis_options (s : Settings) : RedisOptions :=
  NewRedisOptions (redis_url s) true (redis_connect_timeout_seconds s) (redis_operation_timeout_seconds s) 30.

(** What the dependencies of a request read of the settings of its application. *)
Definition request_config (s : Settings) : AppConfig :=
  NewAppConfig (auth s) (profile_rate_limits s) (secure_cookies s) (api_prefix s) (environment_value (app_env s)) (secret_key s).
Definition web_config (s : Settings) : WebConfig := NewWebConfig (request_config s) (oidc s).
