(* ===== verification/SettingsSpecs.v ===== *)
(** * What settings are accepted, and what an application does with them
    (core/settings.py, core/application.py)

    The bounds of every field by number and shape, apart from the validators, and
    the hosts, origins and cookies of an application in production. *)

From S2P Require Import Prelude Regex PyValues Outbox Delivery Errors Identity Sessions AuthService Profile RateLimits AuthEvents Challenges ExternalSignIn Histories EmailDelivery Urls OidcProvider Http OidcRoutes OidcRouteSpecs Routes RouteSpecs Server OidcServer ServerSpecs Boundary Settings.

(** ** Numbers and texts *)

(** [m * 2^e <= m' * 2^e'] *)
Definition dyadic_le (m e m' e' : Z) : Prop := m * 2 ^ Z.max (e - e') 0 ≤ m' * 2 ^ Z.max (e' - e) 0.

(** A number of seconds above zero and of at most [k]. *)
Definition seconds_up_to (k : Z) (f : pyfloat) : Prop := ∃ m e, f = FFin m e ∧ 0 < m ∧ dyadic_le m e k 0.

Lemma float_between_0_dyadic k m e : float_between_0 k (FFin m e) = true ↔ 0 ≤ m ∧ dyadic_le m e k 0.
Proof.
  unfold float_between_0, dyadic_le. rewrite andb_true_iff, Z.leb_le. destruct (Z.leb_spec 0 e).
  - replace (Z.max (e - 0) 0) with e by lia. replace (Z.max (0 - e) 0) with 0 by lia. by rewrite Z.leb_le, Z.mul_1_r.
  - replace (Z.max (e - 0) 0) with 0 by lia. replace (Z.max (0 - e) 0) with (- e) by lia. by rewrite Z.leb_le, Z.mul_1_r.
Qed.

Lemma positive_at_most_true nan_passes k f :
  positive_at_most nan_passes k f = true ↔ (nan_passes = true ∧ f = FNan) ∨ seconds_up_to k f.
Proof.
  unfold positive_at_most, seconds_up_to. destruct f as [|b|m e].
  - naive_solver.
  - naive_solver.
  - rewrite andb_true_iff, Z.ltb_lt, float_between_0_dyadic. split; [naive_solver lia|].
    intros [[_ ?]|(? & ? & [= <- <-] & ? & ?)]; [done|]. naive_solver lia.
Qed.

(** 0.1 is the double 3602879701896397 * 2^-55. *)
Lemma poll_in_range_true f :
  poll_in_range f = true ↔ ∃ m e, f = FFin m e ∧ dyadic_le 3602879701896397 (-55) m e ∧ dyadic_le m e 60 0.
Proof.
  unfold poll_in_range. rewrite andb_true_iff. destruct f as [|b|m e]; [naive_solver..|].
  rewrite float_between_0_dyadic.
  assert ((if -55 <=? e then 3602879701896397 <=? m * 2 ^ (e + 55) else 3602879701896397 * 2 ^ (-55 - e) <=? m) = true
          ↔ dyadic_le 3602879701896397 (-55) m e) as ->.
  { unfold dyadic_le. destruct (Z.leb_spec (-55) e).
    - replace (Z.max (-55 - e) 0) with 0 by lia. replace (Z.max (e - -55) 0) with (e + 55) by lia. by rewrite Z.leb_le, Z.mul_1_r.
    - replace (Z.max (-55 - e) 0) with (-55 - e) by lia. replace (Z.max (e - -55) 0) with 0 by lia. by rewrite Z.leb_le, Z.mul_1_r. }
  split; [intros [[_ Hu] Hl]; by exists m, e|].
  intros (? & ? & [= <- <-] & Hl & Hu). split_and!; try done.
  unfold dyadic_le in Hl. pose proof (Z.pow_pos_nonneg 2 (Z.max (-55 - e) 0)).
  pose proof (Z.pow_pos_nonneg 2 (Z.max (e - -55) 0)). nia.
Qed.

(** [a] to [z], then such letters, digits and hyphens. *)
Definition service_slug (s : str) : Prop :=
  ∃ c rest, s = c :: rest ∧ (97 ≤ c ≤ 122)%N ∧
    Forall (λ x, (97 ≤ x ≤ 122)%N ∨ (48 ≤ x ≤ 57)%N ∨ x = 45%N) rest.

Lemma service_name_slug s : fullmatch SERVICE_NAME s = true ↔ service_slug s.
Proof.
  unfold SERVICE_NAME, service_slug. rewrite fullmatch_matches, matches_seq_iff.
  assert (Hlow : ∀ c, in_cls [lower] c = true ↔ (97 ≤ c ≤ 122)%N)
    by (intros c; unfold in_cls; cbn; rewrite ?orb_false_r, ?orb_true_iff, ?andb_true_iff, ?N.leb_le; lia).
  assert (Hany : ∀ c, in_cls [lower; digit; chr "-"] c = true ↔ (97 ≤ c ≤ 122)%N ∨ (48 ≤ c ≤ 57)%N ∨ c = 45%N)
    by (intros c; unfold in_cls; cbn; rewrite ?orb_false_r, ?orb_true_iff, ?andb_true_iff, ?N.leb_le; lia).
  split.
  - intros (w1 & w2 & -> & H1 & H2). inversion H1 as [|k c Hc| | | | |]; subst. exists c, w2. split; [done|split].
    + by apply Hlow.
    + apply matches_star_cls in H2. eapply Forall_impl; [exact H2|]. intros x. by apply Hany.
  - intros (c & rest & -> & Hc & Hr). exists [c], rest. split_and!; [done| |].
    + constructor. by apply Hlow.
    + apply matches_star_cls. eapply Forall_impl; [exact Hr|]. intros x. by apply Hany.
Qed.

(** ** The bounds of the fields *)

Definition auth_bounds (s : AuthSettings) : Prop :=
  300 ≤ session_seconds s ≤ 2592000 ∧ 1 ≤ cache_seconds s ≤ 300 ∧ 120 ≤ challenge_seconds s ≤ 900 ∧
  1 ≤ challenge_attempts s ≤ 10 ∧ 30 ≤ resend_seconds s ≤ 300 ∧ 60 ≤ recent_auth_seconds s ≤ 900 ∧
  (challenge_keys s = ∅ ∨ is_Some (challenge_keys s !! active_challenge_key s)) ∧
  (∀ name key, challenge_keys s !! name = Some key → 32 ≤ Z.of_nat (length key)) ∧
  (∀ o, o ∈ allowed_origins s → ends_with (lit "/") o = false ∧ contains (lit "*") o = false).

Definition profile_bounds (s : ProfileRateLimitSettings) : Prop :=
  1 ≤ profile_update_limit s ≤ 1000 ∧ 1 ≤ address_mutation_limit s ≤ 2000 ∧ 60 ≤ limits_window_seconds s ≤ 3600.

Definition worker_bounds (s : OutboxWorkerSettings) : Prop :=
  1 ≤ max_attempts s ≤ 100 ∧ 1 ≤ retry_base_seconds s ≤ 300 ∧ retry_base_seconds s ≤ retry_max_seconds s ≤ 3600 ∧
  1 ≤ prepare_seconds s ≤ 30 ∧ 1 ≤ send_seconds s ≤ 60 ∧ 30 ≤ lease_seconds s ≤ 300 ∧
  prepare_seconds s + send_seconds s + 30 < lease_seconds s ∧ 60 ≤ max_age_seconds s ≤ 82800 ∧
  ∃ m e, poll_seconds s = FFin m e ∧ dyadic_le 3602879701896397 (-55) m e ∧ dyadic_le m e 60 0.

(** A provider that is enabled has credentials and a plain https callback. *)
Definition provider_bounds `{OidcLibrary} (c : ProviderConfig) : Prop :=
  enabled c = true →
  client_id c ≠ [] ∧ client_secret c ≠ [] ∧
  ∃ uri, urlsplit nfkc_text ipv6_text (config_redirect_uri c) = Ok uri ∧ scheme uri = lit "https" ∧
    truthy (hostname lowered uri) = true ∧ query uri = [] ∧ fragment uri = [] ∧
    truthy (username uri) = false ∧ truthy (password uri) = false.

(** [seconds_up_to], or a NaN that pydantic lets pass. *)
Definition timeout_bounds (nan_passes : bool) (k : Z) (f : pyfloat) : Prop :=
  (nan_passes = true ∧ f = FNan) ∨ seconds_up_to k f.

Definition oidc_bounds `{OidcLibrary} (nan_passes : bool) (s : OidcSettings) : Prop :=
  provider_bounds (google s) ∧ provider_bounds (yahoo s) ∧ 120 ≤ attempt_seconds s ≤ 900 ∧
  timeout_bounds nan_passes 15 (http_timeout_seconds s) ∧ (enabled (yahoo s) = true → pkce_verified (yahoo s) = true).

(** The mail settings that are accepted, and what becomes of them: the sender is
    in its normal form. *)
Definition resend_accepted `{MailLibrary} (s s' : ResendSettings) : Prop :=
  api_key s ≠ [] ∧ 32 ≤ Z.of_nat (length (fingerprint_key s)) ∧ seconds_up_to 20 (timeout_seconds s) ∧
  ∃ address, email_str (sender s) = Some address ∧
    s' = NewResendSettings (api_key s) address (fingerprint_key s) (timeout_seconds s).

Definition within_bounds `{OidcLibrary} (nan_passes : bool) (s : Settings) : Prop :=
  1 ≤ Z.of_nat (length (service_name s)) ≤ 100 ∧ service_slug (service_name s) ∧
  1 ≤ database_pool_size s ≤ 50 ∧ 0 ≤ database_max_overflow s ≤ 50 ∧
  Forall (timeout_bounds nan_passes 30)
    [database_connect_timeout_seconds s; redis_connect_timeout_seconds s; redis_operation_timeout_seconds s] ∧
  auth_bounds (auth s) ∧ oidc_bounds nan_passes (oidc s) ∧ worker_bounds (outbox_worker s) ∧ profile_bounds (profile_rate_limits s).

(** ** The validators decide them *)

Lemma auth_bounds_Ok s s' : validate_auth_settings s = Ok s' ↔ s' = s ∧ auth_bounds s.
Proof.
  assert (Hkeys : existsb (λ k, Z.of_nat (length k) <? 32) (map_to_list (challenge_keys s)).*2 = false ↔
                  ∀ name key, challenge_keys s !! name = Some key → 32 ≤ Z.of_nat (length key)).
  { rewrite existsb_none. setoid_rewrite Z.ltb_ge. setoid_rewrite <- elem_of_map_to_list. split.
    - intros Hall name key Hk. apply Hall, list_elem_of_fmap. by exists (name, key).
    - intros Hall key ([name k] & -> & Hk)%list_elem_of_fmap. by apply (Hall name). }
  assert (Hsites : existsb (λ o, ends_with (lit "/") o || contains (lit "*") o) (allowed_origins s) = false ↔
                  ∀ o, o ∈ allowed_origins s → ends_with (lit "/") o = false ∧ contains (lit "*") o = false).
  { rewrite existsb_none. by setoid_rewrite orb_false_iff. }
  unfold validate_auth_settings, auth_bounds.
  rewrite !require_then, !between_z_true, !negb_true_iff, bool_decide_eq_true, Hkeys, Hsites.
  naive_solver.
Qed.

Lemma profile_bounds_Ok s s' : validate_profile_limits s = Ok s' ↔ s' = s ∧ profile_bounds s.
Proof. unfold validate_profile_limits, profile_bounds. rewrite !require_then, !between_z_true. naive_solver. Qed.

Lemma worker_bounds_Ok s s' : Delivery.validate_settings s = Ok s' ↔ s' = s ∧ worker_bounds s.
Proof.
  unfold Delivery.validate_settings, worker_bounds. change in_range with between_z.
  rewrite !require_then, !between_z_true, poll_in_range_true, !negb_true_iff, Z.ltb_ge, Z.leb_gt. split.
  - intros (? & ? & ? & ? & ? & ? & ? & ? & ? & ? & [= ->]). split_and?; try done; lia.
  - intros (-> & ? & ? & ? & ? & ? & ? & ? & ? & ?). split_and?; try done; lia.
Qed.

Lemma enabled_bounds_Ok `{OidcLibrary} c c' :
  validate_enabled nfkc_text ipv6_text lowered c = Ok c' ↔ c' = c ∧ provider_bounds c.
Proof.
  unfold validate_enabled, provider_bounds. destruct (enabled c); [|naive_solver].
  destruct (urlsplit _ _ _) as [uri|e]; cbn [mbind res_bind].
  - rewrite require_then, negb_true_iff, !orb_false_iff, !negb_false_iff, !bool_decide_eq_true, !bool_decide_eq_false.
    split; [intros ([[[[[[[? ?] ?] ?] ?] ?] ?] ?] & [= ->]); split; [done|]; intros _; split_and?; try done; by exists uri|].
    intros (-> & Hb). destruct (Hb eq_refl) as (? & ? & ? & [= <-] & ? & ? & ? & ? & ? & ?). by split_and?.
  - split; [done|]. by intros (-> & (_ & _ & ? & ? & _)%(λ Hb, Hb eq_refl)).
Qed.

Lemma oidc_bounds_Ok `{OidcLibrary} nan_passes s s' :
  oidc_settings nfkc_text ipv6_text lowered nan_passes (google s) (yahoo s) (attempt_seconds s) (http_timeout_seconds s) = Ok s' ↔
  s' = s ∧ oidc_bounds nan_passes s.
Proof.
  unfold oidc_settings, oidc_bounds, timeout_bounds. destruct s as [g y n t]. cbn [google yahoo attempt_seconds http_timeout_seconds].
  rewrite (validated_then _ _ _ _ _ (enabled_bounds_Ok g)), (validated_then _ _ _ _ _ (enabled_bounds_Ok y)), !require_then.
  rewrite positive_at_most_true. change ((120 <=? n) && (n <=? 900)) with (between_z 120 900 n).
  rewrite between_z_true, negb_true_iff, andb_false_iff, negb_false_iff. split.
  - intros (? & ? & ? & ? & Hp & [= ->]). split_and?; try done; try lia. intros He. by destruct Hp as [?|?]; [congruence|].
  - intros (-> & ? & ? & ? & ? & Hp). split_and?; try done; try lia. destruct (enabled y); [right; by apply Hp|by left].
Qed.

Lemma resend_accepted_Ok `{MailLibrary} s s' : validate_resend_settings s = Ok s' ↔ resend_accepted s s'.
Proof.
  unfold validate_resend_settings, resend_accepted, email_address.
  assert (Ht : match timeout_seconds s with FFin m e => float_between_0 20 (FFin m e) && negb (m =? 0) | _ => false end = true ↔
               seconds_up_to 20 (timeout_seconds s)).
  { unfold seconds_up_to. destruct (timeout_seconds s) as [| |m e]; [naive_solver..|].
    rewrite andb_true_iff, negb_true_iff, Z.eqb_neq, float_between_0_dyadic. split.
    - intros [[? ?] ?]. exists m, e. split_and?; try done; lia.
    - intros (? & ? & [= <- <-] & ? & ?). split_and?; try done; lia. }
  rewrite require_then, negb_true_iff, bool_decide_eq_false. destruct (email_str (sender s)) as [a|]; cbn [mbind res_bind].
  - rewrite !require_then, Z.leb_le, Ht. naive_solver.
  - naive_solver.
Qed.

Lemma within_bounds_Ok `{MailLibrary, OidcLibrary} nan_passes s s' :
  validate_fields nan_passes s = Ok s' ↔
  within_bounds nan_passes s ∧ ∃ r, option_Forall2 resend_accepted (resend s) r ∧ s' = with_resend r s.
Proof.
  assert (Hr : ∀ r, match resend s with None => Ok None | Some r => r ← validate_resend_settings r; Ok (Some r) end = Ok r ↔
                    option_Forall2 resend_accepted (resend s) r).
  { intros r. destruct (resend s) as [x|].
    - rewrite bind_Ok. setoid_rewrite resend_accepted_Ok. split.
      + intros (y & ? & [= <-]). by constructor.
      + inversion 1; subst. eauto.
    - split; [intros [= <-]; constructor|by inversion 1]. }
  unfold validate_fields, within_bounds, sized.
  rewrite !require_then, andb_true_iff, service_name_slug, !between_z_true, !positive_at_most_true.
  rewrite (validated_then _ _ _ _ _ (auth_bounds_Ok (auth s))),
    (validated_then _ _ _ _ _ (λ y, oidc_bounds_Ok nan_passes (oidc s) y)), bind_Ok.
  setoid_rewrite Hr. rewrite !Forall_cons, Forall_nil.
  split.
  - intros (? & ? & ? & ? & ? & ? & ? & ? & r & Hx & Hv).
    apply (validated_then _ _ _ _ _ (worker_bounds_Ok (outbox_worker s))) in Hv as [? Hv].
    apply (validated_then _ _ _ _ _ (profile_bounds_Ok (profile_rate_limits s))) in Hv as [? [= <-]].
    destruct_and?. split; [|by exists r]. split_and?; (done || by repeat constructor).
  - intros ((? & ? & ? & ? & (? & ? & ? & _) & ? & ? & Hw & Hp) & r & Hx & ->). split_and?; try done; try lia.
    exists r. split; [done|].
    apply (validated_then _ _ _ _ _ (worker_bounds_Ok (outbox_worker s))). split; [done|].
    by apply (validated_then _ _ _ _ _ (profile_bounds_Ok (profile_rate_limits s))).
Qed.

(** ** In production *)

Definition fit_for_production `{OidcLibrary} (s : Settings) : Prop :=
  debug s = false ∧ secure_cookies s = true ∧ allowed_hosts s ≠ [] ∧ wildcard ∉ allowed_hosts s ∧
  wildcard ∉ cors_origins s ∧ lowered (secret_key s) ∉ UNSAFE_SECRETS.

Lemma environment_safety_Ok `{OidcLibrary} s s' :
  validate_environment_safety s = Ok s' ↔
  s' = s ∧ (app_env s = TEST → database_url s ≠ test_database_url s) ∧ (app_env s = PRODUCTION → fit_for_production s).
Proof.
  unfold validate_environment_safety, fit_for_production.
  rewrite require_then, negb_true_iff, andb_false_iff, !bool_decide_eq_false. destruct (decide (app_env s = PRODUCTION)) as [He|He].
  - rewrite (bool_decide_eq_true_2 _ He), !require_then, !negb_true_iff, !bool_decide_eq_false, He. split.
    + intros (? & ? & ? & ? & ? & ? & ? & [= ->]). by split_and?.
    + intros (-> & _ & Hp). destruct (Hp eq_refl) as (? & ? & ? & ? & ? & ?). split; [by left|]. by split_and?.
  - rewrite (bool_decide_eq_false_2 _ He). destruct (decide (app_env s = TEST)); naive_solver.
Qed.

(** [*.domain], and the hosts it stands for. *)
Definition lies_below (pattern host : str) : Prop :=
  ∃ domain sub, pattern = lit "*." ++ domain ∧ host = sub ++ lit "." ++ domain.

(** The trusted host middleware admits a host for one of its patterns. *)
Definition checks_hosts (admits : list str → str → bool) : Prop :=
  ∀ hosts host, admits hosts host = true →
    ∃ pattern, pattern ∈ hosts ∧ (pattern = wildcard ∨ host = pattern ∨ lies_below pattern host).

(** The cookies of an answer. *)
Definition answer_cookies (r : Answer) : list Cookie :=
  match r with
  | Plainly (Handled (Ok resp)) => set_cookies resp
  | InHandshake (Ends (Redirected resp)) => set_cookies resp
  | _ => []
  end.
Definition host_bound (c : Cookie) : Prop := secure c = true ∧ starts_with (lit "__Host-") (cookie_key c) = true.

Section cookies.
Context `{Platform, OidcLibrary} (trim : str → str) (config : WebConfig) (Hsecure : cookies_secure (app config) = true).

Lemma browsing_cookies a s resp s' :
  serve trim (app config) a s = (Handled (Ok resp), s') → Forall host_bound (set_cookies resp).
Proof using Hsecure.
  intros [_ Hr]%handled_run. apply responses_shape in Hr as (_ & _ & _ & ->). rewrite Hsecure.
  destruct (target a); repeat constructor.
Qed.

Lemma beginning_cookies o p intent actor path w :
  Forall host_bound (answer_cookies (InHandshake (begins config o p intent actor path w).1)).
Proof using Hsecure.
  unfold begins. destruct (begin _ _ _ _ _ _ _ _ _ _ _ _ _ _ _ _ _ _ _ _) as [r s] eqn:Hb. cbn [fst].
  destruct r as [resp|[c|e]]; [|constructor..]. revert Hb. unfold begin.
  repeat case_match; intros [= <- <-]. cbn. unfold set_browser_cookie, browser_cookie. rewrite Hsecure. repeat constructor.
Qed.

Lemma callback_cookies settings attempt secret : Forall host_bound (set_cookies (callback_response true settings attempt secret)).
Proof. destruct secret; repeat constructor. Qed.

Lemma handshake_cookies o w : Forall host_bound (answer_cookies (InHandshake (oidc_serve config o w).1)).
Proof using Hsecure.
  unfold oidc_serve. destruct (oidc_gate _ _ _) as [[[]|e] l]; [|constructor]. unfold oidc_reach.
  destruct (provider_of (provider_text o)) as [p|], (query_fits (action o));
    try (destruct (run (oidc_dependencies config o) _).1; constructor).
  unfold oidc_handle. destruct (action o) as [path| | |state code error].
  - destruct (run _ _).1; [apply beginning_cookies|constructor].
  - unfold begins_for. destruct (run _ _).1; [apply beginning_cookies|constructor].
  - unfold begins_for. destruct (run _ _).1; [apply beginning_cookies|constructor].
  - destruct (callback_route _ _ _ _ _ _ _ _ _ _ _ _ _ _ _ _ _ _ _ _ _ _ _ _ _ _ _ _ _ _) as [[e s] t] eqn:Hc. cbn [fst answer_cookies].
    destruct e as [resp|e|e]; [|constructor..]. revert Hc. unfold callback_route. repeat case_match; intros [= <- <- <-];
      rewrite Hsecure; apply callback_cookies.
Qed.

Lemma cookies_host_bound v w r w' : answer trim config v w = (r, w') → Forall host_bound (answer_cookies r).
Proof using Hsecure.
  destruct v as [a|o]; cbn [answer].
  - destruct (serve _ _ _ _) as [x s] eqn:Hs. intros [= <- _]. cbn [answer_cookies].
    destruct x as [| |[resp|e]|]; try constructor. by eapply browsing_cookies.
  - pose proof (handshake_cookies o w) as Hc. destruct (oidc_serve _ _ _) as [x w0]. by intros [= <- _].
Qed.
End cookies.

(** ** The settings of a process *)

(** The connections of a process and their waits are bounded. *)
Lemma connections_bounded `{MailLibrary, OidcLibrary} nan_passes s s' :
  validate_fields nan_passes s = Ok s' →
  1 ≤ pool_size (database_options s') + max_overflow (database_options s') ≤ 100 ∧
  Forall (timeout_bounds nan_passes 30)
    [connect_timeout (database_options s'); socket_connect_timeout (redis_options s'); socket_timeout (redis_options s')].
Proof. intros ((_ & _ & ? & ? & ? & _) & r & _ & ->)%within_bounds_Ok. cbn. split; [lia|done]. Qed.

(** C21: The settings of a process. Accepted are exactly the settings whose fields
    all lie in their bounds - those of the groups for authentication, identity
    providers, mail, the outbox worker and the limits of profiles included -,
    whose test database is another one in tests, and which in production are
    without debugging, the wildcard and placeholder secrets and with secure
    cookies; they come back as they were, but for the sender of mails in its
    normal form. The application made of them never lets every origin read with
    credentials. In production it runs without debugging, lets only listed
    origins read, answers a host only if it is listed or lies below a listed
    domain, and every cookie of any answer of its routes, those of the handshakes
    included, is secure and bound to the host. *)
Theorem settings_safe `{Platform, MailLibrary, OidcLibrary} nan_passes admits s s' :
  checks_hosts admits →
  (validate_settings nan_passes s = Ok s' ↔
     within_bounds nan_passes s ∧ (∃ r, option_Forall2 resend_accepted (resend s) r ∧ s' = with_resend r s) ∧
     (app_env s = TEST → active_database_url s ≠ database_url s) ∧ (app_env s = PRODUCTION → fit_for_production s)) ∧
  (∀ p, cors (create_app s) = Some p → wildcard ∈ allow_origins p → allow_credentials p = false) ∧
  (validate_settings nan_passes s = Ok s' → app_env s = PRODUCTION →
     app_debug (create_app s') = false ∧
     (∀ p, cors (create_app s') = Some p → wildcard ∉ allow_origins p) ∧
     (∀ host, admits (trusted_hosts (create_app s')) host = true →
        ∃ listed, listed ∈ allowed_hosts s ∧ listed ≠ wildcard ∧ (host = listed ∨ lies_below listed host)) ∧
     ∀ trim v w r w', answer trim (web_config s') v w = (r, w') → Forall host_bound (answer_cookies r)).
Proof.
  intros Hadmits.
  assert (Hiff : validate_settings nan_passes s = Ok s' ↔
    within_bounds nan_passes s ∧ (∃ r, option_Forall2 resend_accepted (resend s) r ∧ s' = with_resend r s) ∧
    (app_env s = TEST → active_database_url s ≠ database_url s) ∧ (app_env s = PRODUCTION → fit_for_production s)).
  { unfold validate_settings, active_database_url. rewrite bind_Ok.
    setoid_rewrite within_bounds_Ok. setoid_rewrite environment_safety_Ok.
    split.
    - intros (x & (? & r & Hr & ->) & -> & Ht & Hp). split_and!; [done|by exists r| |done].
      intros He. rewrite bool_decide_eq_true_2 by done. by apply not_eq_sym, Ht.
    - intros (? & (r & Hr & ->) & Ht & Hp). exists (with_resend r s). split; [split; [done|by exists r]|]. split_and!; try done.
      intros He. specialize (Ht He). rewrite bool_decide_eq_true_2 in Ht by done. by apply not_eq_sym. }
  split_and!; [done| |].
  - intros p Hp Hw. unfold create_app in Hp. cbn in Hp. destruct (cors_origins s) as [|o os]; [done|].
    injection Hp as <-. cbn in *. by rewrite bool_decide_eq_true_2.
  - intros (_ & (x & _ & ->) & _ & Hp)%Hiff He. destruct (Hp He) as (Hd & Hc & _ & Hw & Ho & _). split_and!.
    + done.
    + intros p. cbn. destruct (cors_origins s) eqn:Hs; [done|]. by intros [= <-].
    + intros host (listed & Hl & Hh)%Hadmits. exists listed. cbn in Hl. split; [done|].
      assert (listed ≠ wildcard) by (intros ->; done). split; [done|]. by destruct Hh as [?|?].
    + intros trim v w r w'. by apply cookies_host_bound.
Qed.

(** ** Evaluated settings *)

Definition demo_admits (hosts : list str) (host : str) : bool :=
  existsb (λ p, bool_decide (p = wildcard ∨ host = p) || (starts_with (lit "*.") p && ends_with (drop 1 p) host)) hosts.

Lemma demo_admits_ok : checks_hosts demo_admits.
Proof.
  intros hosts host (p & Hp%list_elem_of_In & Hb)%existsb_exists. exists p. split; [done|].
  apply orb_true_iff in Hb as [Hb|[Hs He]%andb_true_iff].
  - apply bool_decide_eq_true in Hb as [?|?]; auto.
  - right; right. apply starts_with_app in Hs as [domain ->]. apply starts_with_app in He as [sub He].
    exists domain, (reverse sub). split; [done|]. rewrite <- (reverse_involutive host), He, reverse_app, reverse_involutive. done.
Qed.

Definition demo_settings (size : Z) (host : string) : Settings :=
  NewSettings PRODUCTION false (lit "/api/v1") (lit "ekumidayomi-api") false (lit "postgresql://live") (lit "postgresql://test")
    size 10 (FFin 5 0) (lit "redis://live") (FFin 2 0) (FFin 2 0) [lit host; lit "*.ekumi.ng"] [lit "https://ekumi.ng"] true
    (lit "a-long-secret") true route_settings demo_oidc (Some demo_resend) default_settings (NewProfileLimits 20 60 600).

(** Settings for production; a pool of 51 connections and the wildcard host are
    refused; foreign hosts are not answered; and the cookie of a redirect. *)
Lemma settings_safe_witness :
  let _ := demo_platform in let _ := EmailDelivery.demo_library in let _ := Boundary.demo_library in
  let s := demo_settings 10 "api.ekumi.ng" in
  validate_settings false s = Ok s ∧
  validate_settings false (demo_settings 51 "api.ekumi.ng") ≠ Ok (demo_settings 51 "api.ekumi.ng") ∧
  demo_admits (trusted_hosts (create_app s)) (lit "evil.example") = false ∧
  let r := (answer id (web_config s) (Shakes (demo_shake (Start None) demo_origin true)) (NewWeb demo_server ∅)).1 in
  length (answer_cookies r) = 1%nat ∧ Forall host_bound (answer_cookies r).
Proof.
  intros P M L s. assert (Hv : validate_settings false s = Ok s) by (vm_compute; reflexivity).
  destruct (settings_safe false demo_admits s s demo_admits_ok) as (_ & _ & Hprod).
  destruct (Hprod Hv eq_refl) as (_ & _ & Hhosts & Hcookies). split_and!.
  - exact Hv.
  - intros Hx. apply (settings_safe false demo_admits _ _ demo_admits_ok) in Hx as ((_ & _ & ? & _) & _). cbn in *. lia.
  - apply not_true_iff_false. intros (listed & Hl & _ & Hh)%Hhosts.
    change (allowed_hosts s) with [lit "api.ekumi.ng"; lit "*.ekumi.ng"] in Hl. rewrite !elem_of_cons, elem_of_nil in Hl.
    destruct Hl as [->|[->|[]]], Hh as [Hh|(domain & sub & Hd & Hh)]; try discriminate Hh; try discriminate Hd.
    injection Hd as <-. apply (f_equal reverse) in Hh. rewrite reverse_app in Hh. vm_compute in Hh. discriminate Hh.
  - intros r. split; [by vm_compute|]. eapply Hcookies. apply surjective_pairing.
Defined.
