(* ===== verification/Observability.v ===== *)
(** * Requests from the outside (api/middleware.py, api/health.py, core/observability.py, core/logging.py)

    The middleware that gives each request its id, and counts and logs it; the two
    health routes; and the lines of the log. *)

From S2P Require Import Prelude Regex PyValues CoreTypes AuditTrail AuditSpecs Errors ErrorSpecs Texts Json JsonSpecs.

(** ** Health *)

Inductive HealthReply := HealthOk | ReadinessOk (checks : gmap str str).

Definition live : HealthReply := HealthOk.

(** Whether PostgreSQL answers a query and Redis a ping. *)
Definition ready (database redis : bool) : res pyexn (HealthReply + app_error) :=
  let word (b : bool) := if b then lit "ok" else lit "failed" in
  let checks : gmap str str := {[lit "postgresql" := word database; lit "redis" := word redis]} in
  if existsb (λ r, bool_decide (r = lit "failed")) (map_to_list checks).*2
  then inr <$> service_not_ready_error checks
  else Ok (inl (ReadinessOk checks)).

(** ** Log records *)

(** A record as the formatter sees it: the extra attributes are any values. *)
Record LogRecord := NewLogRecord {
  created : datetime; levelname : str; logger_name : str; log_message : str; extra : list (str * pyval) }.

Definition SAFE_EXTRA_FIELDS : list str :=
  lit <$> ["method"; "route"; "status_code"; "duration_ms"; "outcome"; "dependency"; "exception_type"].

Definition attribute (name : str) (r : LogRecord) : option pyval :=
  snd <$> List.find (λ kv, bool_decide (kv.1 = name)) (extra r).

(** The id of a line: the record's own, or that of the context at the time. *)
Definition record_id (context : option str) (r : LogRecord) : aval :=
  match attribute (lit "request_id") r with
  | Some (PStr s) => AStr s
  | _ => match context with Some s => AStr s | None => ANull end
  end.

(** ** What a request emits *)

Record Incoming := NewIncoming { in_method : str; in_request_id : option str; route_path : option str }.
(** A reply, with its envelope where it is an error. *)
Record Reply := NewReply { reply_status : Z; reply_headers : gmap str str; error_body : option response }.

(** What goes to the metrics, the tracer and the log of a request; a record is
    formatted when it is logged, with the context variable of that moment. *)
Inductive Emission :=
| Increment (name method route status_code : str)
| Observe (name : str) (duration : pyfloat) (method route status_code : str)
| Annotate (name method route : str) (status_code : Z) (outcome : str)
| Logged (context : option str) (record : LogRecord).

(** The context variable [request_id_context], and what was emitted so far. *)
Record Scope := NewScope { context : option str; emitted : list Emission }.
Definition Scoped (A : Type) : Type := Scope → A * Scope.
#[export] Instance Scoped_ret : MRet Scoped := λ A a s, (a, s).
#[export] Instance Scoped_bind : MBind Scoped := λ A B f m s, let '(a, s) := m s in f a s.

Definition emit (e : Emission) : Scoped unit := λ s, (tt, NewScope (context s) (emitted s ++ [e])).
Definition log (r : LogRecord) : Scoped unit := λ s, emit (Logged (context s) r) s.
Definition read_context : Scoped (option str) := λ s, (context s, s).

(** [bind_request_id] gives the token that [reset_request_id] restores. *)
Definition bind_request_id (value : str) : Scoped (option str) := λ s, (context s, NewScope (Some value) (emitted s)).
Definition reset_request_id (token : option str) : Scoped unit := λ s, (tt, NewScope token (emitted s)).

(** ** The middleware *)

Definition REQUEST_ID_HEADER : str := lit "X-Request-ID".

(** [_request_id]. *)
Definition correlate (trust : bool) (fresh : uuid) (supplied : option str) : str :=
  match supplied with
  | Some h => if trust && fullmatch REQUEST_ID_PATTERN h then h else uuid_str fresh
  | None => uuid_str fresh
  end.

Definition outcome_of (status_code : Z) : str :=
  if status_code <? 400 then lit "success" else if status_code <? 500 then lit "client_error" else lit "server_error".

(** The durations that the clock gives, in seconds and rounded milliseconds, and
    the times at which the two records of a request are made. *)
Record Timing := NewTiming { duration_seconds : pyfloat; duration_ms : pyfloat; completed_at : datetime; failed_at : datetime }.

Definition route_template (q : Incoming) : str := default (lit "unmatched") (route_path q).

(** The record of a request that was answered or broke off. *)
Definition completed (t : Timing) (q : Incoming) (status_code : Z) : LogRecord :=
  NewLogRecord (completed_at t) (lit "INFO") (lit "ekumidayomi.http") (lit "request_completed")
    [(lit "method", PStr (in_method q)); (lit "route", PStr (route_template q)); (lit "status_code", PInt status_code);
     (lit "duration_ms", PFloat (duration_ms t)); (lit "outcome", PStr (outcome_of status_code))].

(** [dispatch]: [call_next] is told the id by the state of the request and finds it
    in the context, and answers or raises. *)
Definition dispatch {E} (trust : bool) (fresh : uuid) (t : Timing) (q : Incoming) (call_next : str → Scoped (E + Reply))
    : Scoped (E + Reply) :=
  let id := correlate trust fresh (in_request_id q) in
  token ← bind_request_id id;
  result ← call_next id;
  let status_code := match result with inr r => reply_status r | inl _ => 500 end in
  let result := match result with
                | inr r => inr (NewReply (reply_status r) (<[REQUEST_ID_HEADER := id]> (reply_headers r)) (error_body r))
                | inl e => inl e
                end in
  let outcome := outcome_of status_code in
  let status := int_str status_code in
  emit (Increment (lit "http_requests_total") (in_method q) (route_template q) status);;
  emit (Observe (lit "http_request_duration_seconds") (duration_seconds t) (in_method q) (route_template q) status);;
  emit (Annotate (lit "http.request") (in_method q) (route_template q) status_code outcome);;
  log (completed t q status_code);;
  reset_request_id token;;
  mret result.

(** ** The whole of a request *)

(** What a route does: it answers, or raises what the handlers of Errors.v turn
    into a response. It reads the context and logs records of its own; as it runs
    in a task of its own, it does not change the context of the middleware. *)
Inductive Handled := Answers (r : Reply) | Raises (x : raised).

Definition run_route (route : str → option str → Handled * list LogRecord) (id : str) : Scoped Handled :=
  context ← read_context;
  let '(result, records) := route id context in
  foldr (λ r rest, log r;; rest) (mret result) records.

Definition reply_of (e : response) : Reply := NewReply (r_status e) (r_headers e) (Some e).

(** The record of an exception that nobody expected; its type is [error_type]. *)
Definition unhandled (t : Timing) (q : Incoming) (error_type id : str) : LogRecord :=
  NewLogRecord (failed_at t) (lit "ERROR") (lit "ekumidayomi.api.errors") (lit "Unhandled application exception")
    [(lit "request_id", PStr id); (lit "method", PStr (in_method q)); (lit "exception_type", PStr error_type)].

(** The handlers of application and validation errors run inside the middleware,
    the one of unexpected exceptions outside of it, once the context is reset.
    [fresh2] is the id that the handlers would draw. *)
Definition serve (trust : bool) (fresh fresh2 : uuid) (t : Timing) (error_type : str) (q : Incoming)
    (route : str → option str → Handled * list LogRecord) : Scoped Reply :=
  let seen id := Request (PStr id) (in_request_id q) fresh2 in
  let id := correlate trust fresh (in_request_id q) in
  result ← dispatch trust fresh t q (λ id,
    result ← run_route route id;
    mret (match result with
          | Answers r => inr r
          | Raises (RaisedOther d) => inl d
          | Raises x => inr (reply_of (handle (seen id) x))
          end));
  match result with
  | inr r => mret r
  | inl d =>
      log (unhandled t q error_type (request_id (seen id)));;
      mret (reply_of (handle (seen id) (RaisedOther d)))
  end.

(** ** The log *)

(** A [bool], [str], [float] or [int] as JSON holds it. *)
Definition scalar (v : pyval) : option aval :=
  match v with
  | PBool b => Some (ABool b)
  | PStr s => Some (AStr s)
  | PFloat f => Some (AFloat f)
  | PInt z => Some (AInt z)
  | _ => None
  end.

(** What [json.dumps] writes for a float, the values that JSON lacks included. *)
Definition log_float (float_repr : pyfloat → str) (f : pyfloat) : str :=
  match f with
  | FNan => lit "NaN"
  | FInf false => lit "Infinity"
  | FInf true => lit "-Infinity"
  | FFin _ _ => float_repr f
  end.

(** [int.__repr__] refuses integers of too many digits. *)
Definition writable (a : aval) : bool :=
  match a with AInt z => bool_decide (length (abs_str (Z.abs z)) ≤ MAX_STR_DIGITS)%nat | _ => true end.

Section formatter.
Context (float_repr : pyfloat → str) (lower_text : str → str).
Context (service_name environment : str).

Definition isoformat (t : datetime) : str := removelast (isoformat_z t) ++ lit "+00:00".

Definition extra_fields (r : LogRecord) : list (str * aval) :=
  omap (λ name, pair name <$> (attribute name r ≫= scalar)) SAFE_EXTRA_FIELDS.

Definition log_payload (context : option str) (r : LogRecord) : list (str * aval) :=
  [(lit "timestamp", AStr (isoformat (created r))); (lit "level", AStr (lower_text (levelname r)));
   (lit "logger", AStr (logger_name r)); (lit "service", AStr service_name); (lit "environment", AStr environment);
   (lit "message", AStr (log_message r)); (lit "request_id", record_id context r)] ++ extra_fields r.

(** A record that cannot be formatted is not written. *)
Definition format (context : option str) (r : LogRecord) : res pyexn str :=
  let payload := log_payload context r in
  require (forallb (λ kv, writable kv.2) payload) digits_error;;
  Ok (json_dumps (log_float float_repr) (ADict payload)).
End formatter.

(** ** Configuration *)

Inductive Formatter := JsonLines (service_name environment : str) | ConsoleLines.

(** The logger of the application: its handlers by their formatters. *)
Record Logger := NewLogger { handlers : list Formatter; level : str; propagate : bool }.

Definition configure_logging (service_name environment level output_format : str) (l : Logger) : Logger :=
  let formatter := if bool_decide (output_format = lit "json") then JsonLines service_name environment else ConsoleLines in
  NewLogger [formatter] level false.

(** A process that is configured again does not write its lines twice. *)
Lemma configure_logging_again s e v o s' e' v' o' l :
  configure_logging s e v o (configure_logging s' e' v' o' l) = configure_logging s e v o l ∧
  length (handlers (configure_logging s e v o l)) = 1%nat.
Proof. done. Qed.
