(* ===== verification/ObservabilitySpecs.v ===== *)
(** * What a request leaves behind

    One safe id per request, under which everything about it is logged, one count
    per request, and log lines that read back as their record. *)

From S2P Require Import Prelude Regex PyValues CoreTypes AuditTrail AuditSpecs Errors ErrorSpecs Texts Json JsonSpecs Observability.

Section requests.
Context (trust : bool) (fresh fresh2 : uuid) (t : Timing) (q : Incoming).

Lemma correlate_safe : fullmatch REQUEST_ID_PATTERN (correlate trust fresh (in_request_id q)) = true.
Proof using Type.
  unfold correlate. destruct (in_request_id q) as [h|]; [|apply uuid_request_id].
  destruct (_ && _) eqn:Hb; [|apply uuid_request_id]. by apply andb_true_iff in Hb as [_ ?].
Qed.

(** The handlers of errors find the id of the middleware. *)
Lemma seen_id id h : fullmatch REQUEST_ID_PATTERN id = true → request_id (Request (PStr id) h fresh2) = id.
Proof using Type. unfold request_id. cbn. by intros ->. Qed.

Lemma handled_id id h x :
  fullmatch REQUEST_ID_PATTERN id = true →
  r_request_id (handle (Request (PStr id) h fresh2) x) = id ∧
  r_headers (handle (Request (PStr id) h fresh2) x) !! REQUEST_ID_HEADER = Some id.
Proof using Type.
  intros Hid. pose proof (seen_id id h Hid) as Hs. destruct x as [e|issues|d].
  - cbn [handle]. split; [|by rewrite <-Hs at 2; apply application_headers].
    unfold handle_application_error. cbn. exact Hs.
  - unfold handle, handle_request_validation_error, error_response. cbn [r_request_id r_headers]. rewrite Hs.
    split; [done|apply lookup_singleton_eq].
  - unfold handle, handle_unexpected_error, error_response. rewrite Hs. destruct id as [|c id]; [done|].
    split; [done|apply lookup_singleton_eq].
Qed.

Lemma run_route_run route id s :
  run_route route id s = ((route id (context s)).1, NewScope (context s) (emitted s ++ (Logged (context s) <$> (route id (context s)).2))).
Proof using Type.
  unfold run_route, read_context, mbind, Scoped_bind. destruct (route id (context s)) as [x rs]. cbn [fst snd].
  destruct s as [c es]. revert es. induction rs as [|r rs IH]; intros es; cbn; [by rewrite app_nil_r|].
  rewrite IH. cbn. by rewrite <-app_assoc.
Qed.
End requests.

(** What a request emits: the records of the route, the count, the duration, the
    annotation and the record of its completion, and the record of an exception
    that nobody expected. *)
Definition request_emissions (t : Timing) (error_type id : str) (q : Incoming) (code : Z) (before : option str)
    (routed : Handled * list LogRecord) : list Emission :=
  (Logged (Some id) <$> routed.2) ++
  [Increment (lit "http_requests_total") (in_method q) (default (lit "unmatched") (route_path q)) (int_str code);
   Observe (lit "http_request_duration_seconds") (duration_seconds t) (in_method q)
     (default (lit "unmatched") (route_path q)) (int_str code);
   Annotate (lit "http.request") (in_method q) (default (lit "unmatched") (route_path q)) code (outcome_of code);
   Logged (Some id) (completed t q code)] ++
  (match routed.1 with Raises (RaisedOther _) => [Logged before (unhandled t q error_type id)] | _ => [] end).

(** C32: Every request is correlated and counted once. Whatever a route does - answers,
    raises an application or validation error, or raises anything else - the
    request has one id of at most 128 safe characters, the caller's only where
    the process trusts it. The route finds this id in its state and its context,
    the reply carries it in its header and an error in its body. Exactly one
    count, one duration, one annotation and one completion record are made,
    under the path of the matched route and with the status of the reply, and one
    record of an unexpected exception; every record that is logged on the way -
    by the route, by the middleware before it resets the context, and by the
    handler of unexpected exceptions after it did - is written under this id,
    unless a record of the route names another. And the context of the caller is
    as before. *)
Theorem request_correlated trust fresh fresh2 t error_type q route s :
  let id := correlate trust fresh (in_request_id q) in
  let routed := route id (Some id) in
  let '(reply, s') := serve trust fresh fresh2 t error_type q route s in
  fullmatch REQUEST_ID_PATTERN id = true ∧
  (id = uuid_str fresh ∨ trust = true ∧ in_request_id q = Some id) ∧
  reply_headers reply !! REQUEST_ID_HEADER = Some id ∧
  (∀ r, routed.1 = Answers r → reply_status reply = reply_status r ∧ error_body reply = error_body r) ∧
  (∀ x, routed.1 = Raises x →
     ∃ e, error_body reply = Some e ∧ e = handle (Request (PStr id) (in_request_id q) fresh2) x ∧ r_request_id e = id ∧
       reply_status reply = r_status e) ∧
  emitted s' = emitted s ++ request_emissions t error_type id q (reply_status reply) (context s) routed ∧
  (∀ c r, Logged c r ∈ request_emissions t error_type id q (reply_status reply) (context s) routed →
     record_id c r = AStr id ∨ (r ∈ routed.2 ∧ is_Some (attribute (lit "request_id") r))) ∧
  context s' = context s.
Proof.
  intros id routed. pose proof (correlate_safe trust fresh q) as Hid. fold id in Hid.
  assert (Hfrom : id = uuid_str fresh ∨ trust = true ∧ in_request_id q = Some id).
  { unfold id, correlate. destruct (in_request_id q) as [h|]; [|by left].
    destruct (trust && _) eqn:Hb; [|by left]. apply andb_true_iff in Hb as [-> _]. by right. }
  assert (Hrec : ∀ code c r, Logged c r ∈ request_emissions t error_type id q code (context s) routed →
    record_id c r = AStr id ∨ (r ∈ routed.2 ∧ is_Some (attribute (lit "request_id") r))).
  { intros code c r. unfold request_emissions. rewrite !elem_of_app, list_elem_of_fmap.
    intros [(r' & [= -> ->] & Hr)|[Hin|Hin]].
    - unfold record_id. destruct (attribute _ r') as [v|] eqn:Ha; [right; eauto|by left].
    - repeat (apply elem_of_cons in Hin as [[= -> ->]|Hin]; [by left|]); try by apply not_elem_of_nil in Hin.
      all: repeat (apply elem_of_cons in Hin as [?|Hin]; [simplify_eq; by left|]); by apply not_elem_of_nil in Hin.
    - destruct routed.1 as [?|[| |]]; try (by apply not_elem_of_nil in Hin).
      apply list_elem_of_singleton in Hin as [= -> ->]. by left. }
  unfold serve, dispatch, bind_request_id, reset_request_id, emit, log, emit, mbind, Scoped_bind, mret, Scoped_ret. fold id.
  rewrite run_route_run. cbn [context emitted]. fold routed.
  assert (Hem : ∀ code x, routed.1 = x → request_emissions t error_type id q code (context s) routed =
    request_emissions t error_type id q code (context s) (x, routed.2)) by (by intros code x <-; destruct routed).
  destruct routed.1 as [r|[e|issues|d]] eqn:Hr.
  - split_and!; [done|done|apply lookup_insert_eq|naive_solver|done| |apply Hrec|done].
    rewrite (Hem _ _ eq_refl). unfold request_emissions. cbn. by rewrite <-!app_assoc.
  - destruct (handled_id fresh2 id (in_request_id q) (RaisedApplication e) Hid) as [H1 H2].
    split_and!; [done|done|apply lookup_insert_eq|done| | |apply Hrec|done]; [intros x [= <-]; eexists; by split_and!|].
    rewrite (Hem _ _ eq_refl). unfold request_emissions. cbn. by rewrite <-!app_assoc.
  - destruct (handled_id fresh2 id (in_request_id q) (RaisedValidation issues) Hid) as [H1 H2].
    split_and!; [done|done|apply lookup_insert_eq|done| | |apply Hrec|done]; [intros x [= <-]; eexists; by split_and!|].
    rewrite (Hem _ _ eq_refl). unfold request_emissions. cbn. by rewrite <-!app_assoc.
  - destruct (handled_id fresh2 id (in_request_id q) (RaisedOther d) Hid) as [H1 H2].
    split_and!; [done|done|done|done| | |apply Hrec|done]; [intros x [= <-]; eexists; by split_and!|].
    rewrite (Hem _ _ eq_refl), (seen_id fresh2 id _ Hid). unfold request_emissions. cbn. by rewrite <-!app_assoc.
Qed.

(** A forged id is replaced, a crash is counted as what is replied, and what the
    route logged before it crashed carries the id. *)
Definition demo_note : LogRecord := NewLogRecord 0 (lit "WARNING") (lit "app") (lit "note") [].
Definition demo_served :=
  serve true 1 2 (NewTiming (FFin 1 0) (FFin 1 0) 5 6) (lit "KeyError") (NewIncoming (lit "GET") (Some (lit "bad id" ++ [10%N])) None)
    (λ _ _, (Raises (RaisedOther (lit "crash")), [demo_note])) (NewScope None []).

Lemma request_correlated_witness :
  reply_headers demo_served.1 !! REQUEST_ID_HEADER = Some (uuid_str 1) ∧ reply_status demo_served.1 = 500 ∧
  Logged (Some (uuid_str 1)) demo_note ∈ emitted demo_served.2 ∧ context demo_served.2 = None.
Proof.
  pose proof (request_correlated true 1 2 (NewTiming (FFin 1 0) (FFin 1 0) 5 6) (lit "KeyError")
    (NewIncoming (lit "GET") (Some (lit "bad id" ++ [10%N])) None)
    (λ _ _, (Raises (RaisedOther (lit "crash")), [demo_note])) (NewScope None [])) as H.
  cbv zeta in H. change (serve _ _ _ _ _ _ _ _) with demo_served in H.
  destruct demo_served as [reply s'] eqn:Hd. destruct H as (_ & _ & Hh & _ & Hb & He & _ & Hc).
  cbn [fst snd]. split; [exact Hh|]. destruct (Hb _ eq_refl) as (e & _ & Hx & _ & ->). split; [by rewrite Hx|].
  split; [|exact Hc]. rewrite He. by left.
Defined.

(** ** Lines of the log *)

(** Not a control character below the space: no line feed, carriage return or
    other break of ASCII. And an ASCII character that is printed. *)
Definition above_c0 (c : N) : Prop := (32 <= c)%N.
Definition ascii_printed (c : N) : Prop := (32 <= c < 127)%N.

Lemma ascii_printed_forall s : forallb (λ c, (32 <=? c)%N && (c <? 127)%N) s = true → Forall ascii_printed s.
Proof.
  rewrite forallb_forall. intros Hs. apply Forall_forall. intros c Hc. apply list_elem_of_In, Hs, andb_true_iff in Hc as [H1 H2].
  apply N.leb_le in H1. by apply N.ltb_lt in H2.
Qed.

Lemma ascii_above s : Forall ascii_printed s → Forall above_c0 s.
Proof. intros Hs. eapply Forall_impl; [exact Hs|]. by intros c []. Qed.
Lemma ascii_not_high s c : Forall ascii_printed s → (127 <= c)%N → c ∉ s.
Proof. rewrite Forall_forall. intros Hs Hc Hin. specialize (Hs _ Hin) as []. lia. Qed.

(** A character is escaped in ASCII, or stands for itself. *)
Lemma escape_cases c : Forall ascii_printed (escape_char c) ∨ (127 <= c)%N ∧ escape_char c = [c].
Proof.
  unfold escape_char. repeat case_bool_decide; try by (left; apply ascii_printed_forall).
  destruct (N.ltb_spec c 32) as [Hc|Hc].
  - left. apply Forall_app. split; [by apply ascii_printed_forall|].
    eapply Forall_impl; [apply hex_lower_chars|]. intros x Hx%hex_char_cases.
    apply list_elem_of_fmap in Hx as (d & -> & Hd%elem_of_seqZ). unfold ascii_printed, hex_digit. case_match; lia.
  - destruct (N.lt_ge_cases c 127); [left; by repeat constructor|by right].
Qed.

(** A text that is fit for a line, with its characters beyond ASCII. *)
Definition line_text (high : N → Prop) (s : str) : Prop :=
  Forall above_c0 s ∧ ∀ c, (127 <= c)%N → c ∈ s ↔ high c.

Lemma line_text_ascii s : Forall ascii_printed s → line_text (λ _, False) s.
Proof. intros Hs. split; [by apply ascii_above|]. intros c Hc. split; [|done]. by apply ascii_not_high. Qed.

Lemma line_text_app P Q s t : line_text P s → line_text Q t → line_text (λ c, P c ∨ Q c) (s ++ t).
Proof.
  intros [H1 H2] [H3 H4]. split; [by apply Forall_app|]. intros c Hc. by rewrite elem_of_app, H2, H4.
Qed.

Lemma line_text_iff P Q s : (∀ c, (127 <= c)%N → P c ↔ Q c) → line_text P s → line_text Q s.
Proof. intros HPQ [H1 H2]. split; [done|]. intros c Hc. by rewrite H2, HPQ. Qed.

Lemma escape_line c : line_text (λ x, x = c) (escape_char c).
Proof.
  destruct (escape_cases c) as [He|[Hc ->]].
  - apply (line_text_iff (λ _, False)); [|by apply line_text_ascii]. intros x Hx. split; [done|]. intros ->.
    unfold escape_char in He. repeat case_bool_decide; subst; try lia.
    destruct (N.ltb_spec c 32); [lia|]. apply Forall_cons in He as [He _]. unfold ascii_printed in He. lia.
  - split; [by constructor; [unfold above_c0; lia|]|]. intros x _. apply list_elem_of_singleton.
Qed.

Lemma json_str_line s : line_text (λ c, c ∈ s) (json_str s).
Proof.
  assert (Hq : line_text (λ _, False) [34%N]) by (apply line_text_ascii; by apply ascii_printed_forall).
  unfold json_str. apply (line_text_iff (λ c, False ∨ c ∈ s ∨ False)); [tauto|].
  apply line_text_app; [done|]. apply line_text_app; [|done].
  induction s as [|c s IH]; [apply (line_text_iff (λ _, False)); [set_solver|by apply line_text_ascii]|].
  cbn [mbind list_bind]. apply (line_text_iff (λ x, x = c ∨ x ∈ s)); [set_solver|].
  apply line_text_app; [apply escape_line|done].
Qed.

Lemma digits_printed ds : Forall (λ c, is_digit c = true) ds → Forall ascii_printed ds.
Proof.
  intros Hd. eapply Forall_impl; [exact Hd|]. intros c Hc. unfold is_digit, in_cls, digit, rng in Hc. cbn in Hc.
  rewrite orb_false_r in Hc. apply andb_true_iff in Hc as [H1%N.leb_le H2%N.leb_le]. unfold ascii_printed. cbn in *. lia.
Qed.

Lemma number_printed minus ds fr ex :
  integer_shape ds → fraction_shape fr → exponent_shape ex → Forall ascii_printed (number_text minus ds fr ex).
Proof.
  intros Hd Hf He. unfold number_text. rewrite !Forall_app. split_and!.
  - destruct minus; by apply ascii_printed_forall.
  - destruct Hd as [->|(c & r & _ & _ & Hd)]; [by apply ascii_printed_forall|by apply digits_printed].
  - destruct Hf as [->|(ds' & -> & _ & Hd')]; [constructor|]. constructor; [done|by apply digits_printed].
  - destruct He as [->|(e & sign & ds' & -> & Hx & Hs & _ & Hd')]; [constructor|].
    constructor; [|apply Forall_app; split; [|by apply digits_printed]].
    + apply orb_true_iff in Hx as [Hx%ch_true|Hx%ch_true]; by subst e.
    + destruct Hs as [->|(c & -> & Hc)]; [constructor|]. constructor; [|constructor].
      unfold is_sign in Hc. apply orb_true_iff in Hc as [Hc%ch_true|Hc%ch_true]; by subst c.
Qed.

Lemma join_line {X} (f : X → str) (P : X → N → Prop) xs :
  (∀ x, x ∈ xs → line_text (P x) (f x)) → line_text (λ c, ∃ x, x ∈ xs ∧ P x c) (join (f <$> xs)).
Proof.
  intros Hf.
  assert (Htail : ∀ ys, ys ⊆ xs → line_text (λ c, ∃ x, x ∈ ys ∧ P x c) ((f <$> ys) ≫= λ y, 44%N :: y)).
  { induction ys as [|y ys IH]; intros Hys; cbn [fmap list_fmap mbind list_bind].
    - apply (line_text_iff (λ _, False)); [set_solver|by apply line_text_ascii].
    - change ((44%N :: f y) ++ (f <$> ys) ≫= λ y, 44%N :: y) with ([44%N] ++ f y ++ (f <$> ys) ≫= λ y, 44%N :: y).
      apply (line_text_iff (λ c, False ∨ P y c ∨ ∃ x, x ∈ ys ∧ P x c)); [set_solver|].
      apply line_text_app; [apply line_text_ascii; by apply ascii_printed_forall|]. apply line_text_app; [apply Hf; set_solver|].
      apply IH. set_solver. }
  destruct xs as [|x xs]; [apply (line_text_iff (λ _, False)); [set_solver|by apply line_text_ascii]|].
  cbn [fmap list_fmap join]. apply (line_text_iff (λ c, P x c ∨ ∃ y, y ∈ xs ∧ P y c)); [set_solver|].
  apply line_text_app; [apply Hf; by left|]. apply Htail. set_solver.
Qed.

Section formatter.
Context (float_repr : pyfloat → str) (read_float : str → pyfloat) (lower_text : str → str).
Context (Hfloat : float_text_ok float_repr read_float).
Context (service environment : str) (context : option str) (r : LogRecord).
#[local] Abbreviation dumps := (json_dumps (log_float float_repr)).
#[local] Abbreviation payload := (log_payload lower_text service environment context r).

Lemma log_float_ok : float_text_ok (log_float float_repr) read_float.
Proof using Hfloat. intros f Hf. destruct f as [| |m e]; [done..|]. by apply Hfloat. Qed.

(** The values of a line are no containers. *)
Definition plain_value (a : aval) : Prop := match a with AList _ | ADict _ => False | _ => True end.

Lemma value_line a : plain_value a → line_text (λ c, ∃ s, a = AStr s ∧ c ∈ s) (dumps a).
Proof using Hfloat.
  assert (Hascii : ∀ t, (∀ s, a ≠ AStr s) → Forall ascii_printed t → line_text (λ c, ∃ s, a = AStr s ∧ c ∈ s) t).
  { intros t Ha Ht. apply (line_text_iff (λ _, False)); [|by apply line_text_ascii]. intros c _. split; [done|].
    intros (s & -> & _). by destruct (Ha s). }
  destruct a as [|[]|z|f|s|l|kvs]; intros Ha; try done; cbn [json_dumps].
  1-3: by apply Hascii, ascii_printed_forall.
  - apply Hascii; [done|]. rewrite int_str_text. apply number_printed; [apply abs_str_shape; lia|by left|by left].
  - apply Hascii; [done|]. destruct f as [|[]|m e]; try by apply ascii_printed_forall.
    destruct (Hfloat (FFin m e) eq_refl) as (_ & minus & ds & fr & ex & He & Hd & Hf & Hx & _). cbn [log_float]. rewrite He.
    by apply number_printed.
  - apply (line_text_iff (λ c, c ∈ s)); [|apply json_str_line]. intros c _.
    split; [by exists s|by intros (s' & [= ->] & ?)].
Qed.

Lemma value_reads a : plain_value a → writable a = true →
  starts_open (log_float float_repr) a ∧ reads_back (log_float float_repr) read_float a.
Proof using Hfloat.
  intros Ha Hw. assert (Hok : (∀ f, a = AFloat f → isfinite f = true) → starts_open (log_float float_repr) a ∧
    reads_back (log_float float_repr) read_float a).
  { intros Hf. assert (json_ok a) by (destruct a; cbn in *; try done; [by apply bool_decide_eq_true in Hw|by apply Hf]).
    split; [by eapply dumps_opens; [apply log_float_ok|]|by apply (scan_dumps _ _ log_float_ok)]. }
  destruct a as [| | |f| | |]; try by apply Hok.
  destruct f as [|[]|m e]; [..|apply Hok; by intros f [= <-]]; (split; [by eexists _, _|]); intros [|fuel] rest Hf _; try done; lia.
Qed.

Lemma extra_fields_keys : (extra_fields r).*1 `sublist_of` SAFE_EXTRA_FIELDS.
Proof using Type.
  unfold extra_fields. generalize SAFE_EXTRA_FIELDS. induction l as [|n l IH]; [constructor|]. cbn [omap list_omap].
  destruct (attribute n r ≫= scalar) as [v|]; cbn; by constructor.
Qed.

Lemma extra_fields_values k a : (k, a) ∈ extra_fields r ↔ k ∈ SAFE_EXTRA_FIELDS ∧ ∃ v, attribute k r = Some v ∧ scalar v = Some a.
Proof using Type.
  unfold extra_fields. rewrite list_elem_of_omap. split.
  - intros (n & Hn & He). apply fmap_Some in He as (a' & He & [= -> ->]). apply bind_Some in He as (v & Hv & Hs). eauto.
  - intros (Hn & v & Hv & Hs). exists k. split; [done|]. by rewrite Hv; cbn; rewrite Hs.
Qed.

Lemma payload_keys : NoDup payload.*1 ∧ Forall (λ kv, Forall ascii_printed kv.1 ∧ plain_value kv.2) payload.
Proof using Type.
  split.
  - unfold log_payload. rewrite fmap_app. eapply sublist_NoDup; [|apply sublist_app; [reflexivity|apply extra_fields_keys]].
    apply (bool_decide_unpack _). vm_compute. exact I.
  - unfold log_payload. apply Forall_app. split.
    + repeat (apply Forall_cons_2; [split; [by apply ascii_printed_forall|try done]|]); [|apply Forall_nil_2].
      cbn [snd]. unfold record_id. destruct (attribute _ r) as [[]|]; try done; by destruct context.
    + apply Forall_forall. intros [k a] (Hk & v & _ & Hs)%extra_fields_values. split.
      * assert (Hall : Forall (Forall ascii_printed) SAFE_EXTRA_FIELDS)
          by (repeat (apply Forall_cons_2; [by apply ascii_printed_forall|]); apply Forall_nil_2).
        rewrite Forall_forall in Hall. by apply Hall.
      * by destruct v; try done; injection Hs as <-.
Qed.

Lemma payload_line : line_text (λ c, ∃ k s, (k, AStr s) ∈ payload ∧ c ∈ s) (dumps (ADict payload)).
Proof using Hfloat.
  cbn [json_dumps]. destruct payload_keys as [_ Hp]. rewrite Forall_forall in Hp.
  apply (line_text_iff (λ c, False ∨ (∃ kv, kv ∈ payload ∧ ∃ s, kv.2 = AStr s ∧ c ∈ s) ∨ False)).
  { intros c _. split.
    - intros [[]|[([k a] & Hin & s & Hs & Hc)|[]]]. cbn in Hs. subst a. by exists k, s.
    - intros (k & s & Hin & Hc). right; left. exists (k, AStr s). split; [done|by exists s]. }
  apply line_text_app; [apply line_text_ascii; by apply ascii_printed_forall|].
  apply line_text_app; [|apply line_text_ascii; by apply ascii_printed_forall].
  apply join_line. intros [k a] [Hk Ha]%Hp. cbn [fst snd] in *.
  apply (line_text_iff (λ c, False ∨ False ∨ ∃ s, a = AStr s ∧ c ∈ s)); [tauto|].
  apply line_text_app; [|apply line_text_app; [apply line_text_ascii; by apply ascii_printed_forall|by apply value_line]].
  apply (line_text_iff (λ c, c ∈ k)); [|apply json_str_line]. intros c Hc. split; [|done]. by apply ascii_not_high.
Qed.
End formatter.

Lemma forallb_false_elem {X} (f : X → bool) l : forallb f l = false → ∃ x, x ∈ l ∧ f x = false.
Proof.
  induction l as [|x l IH]; [done|]. cbn. destruct (f x) eqn:Hx; [intros (y & ? & ?)%IH; set_solver|]. intros _. exists x. set_solver.
Qed.

(** C33: A log line is one object on one line, and leaks no attribute. Whatever a
    record's message, name and attributes hold, formatting it fails only where
    one of the seven safe attributes is an integer of more than 4300 digits, and
    then nothing is written. Otherwise its line has no control character of
    ASCII below the space, so no line feed or carriage return in it; of the other
    characters from U+007F on - which include U+0085, U+2028 and U+2029 - it has
    exactly those of its texts, which [json.dumps] leaves as they are. And it
    reads back as one object: the seven fixed fields with their values, the id of
    the record or of its context among them, followed by the attributes with one
    of seven safe names that are plain values, and no others. *)
Theorem log_line_safe float_repr read_float lower_text service environment context r :
  float_text_ok float_repr read_float →
  match format float_repr lower_text service environment context r with
  | Err e => e = digits_error ∧ ∃ k z, k ∈ SAFE_EXTRA_FIELDS ∧ attribute k r = Some (PInt z) ∧
      (MAX_STR_DIGITS < length (abs_str (Z.abs z)))%nat
  | Ok line =>
      Forall (λ c, (32 <= c)%N) line ∧
      (∀ c, (127 <= c)%N → c ∈ line ↔
         ∃ k s, (k, AStr s) ∈ log_payload lower_text service environment context r ∧ c ∈ s) ∧
      ∃ extras, loads_text read_float line = Ok (plain (ADict
          ([(lit "timestamp", AStr (isoformat (created r))); (lit "level", AStr (lower_text (levelname r)));
            (lit "logger", AStr (logger_name r)); (lit "service", AStr service); (lit "environment", AStr environment);
            (lit "message", AStr (log_message r)); (lit "request_id", record_id context r)] ++ extras))) ∧
        NoDup extras.*1 ∧
        ∀ k a, (k, a) ∈ extras ↔ k ∈ SAFE_EXTRA_FIELDS ∧ ∃ v, attribute k r = Some v ∧ scalar v = Some a
  end.
Proof.
  intros Hfloat. unfold format. destruct (payload_keys lower_text service environment context r) as [Hn Hp].
  rewrite Forall_forall in Hp. destruct (forallb _ _) eqn:Hw; cbn [require mbind res_bind].
  - destruct (payload_line float_repr read_float lower_text Hfloat service environment context r) as [H1 H2].
    split_and!; [exact H1|exact H2|]. exists (extra_fields r). split_and!.
    + rewrite forallb_forall in Hw. assert (Hall : Forall (λ kv, starts_open (log_float float_repr) kv.2 ∧
        reads_back (log_float float_repr) read_float kv.2) (log_payload lower_text service environment context r)).
      { apply Forall_forall. intros kv Hkv. apply (value_reads _ _ Hfloat); [by apply Hp|].
        by apply Hw, list_elem_of_In. }
      apply (loads_reads (log_float float_repr) read_float); [by eexists _, _|].
      by apply (reads_back_dict _ _ (log_float_ok _ _ Hfloat)).
    + unfold log_payload in Hn. rewrite fmap_app in Hn. by apply NoDup_app in Hn as (_ & _ & ?).
    + intros k a. apply extra_fields_values.
  - split; [done|]. apply forallb_false_elem in Hw as ([k a] & Hin & Hw). cbn [snd] in Hw.
    destruct a as [| |z| | | |]; try done. apply bool_decide_eq_false, Nat.nle_gt in Hw.
    unfold log_payload in Hin. apply elem_of_app in Hin as [Hin|Hin].
    { exfalso. repeat (apply elem_of_cons in Hin as [Heq|Hin]; [apply (f_equal snd) in Heq; cbn [snd] in Heq; try done|]);
        [|by apply not_elem_of_nil in Hin].
      unfold record_id in *. destruct (attribute _ r) as [[]|]; try done; by destruct context. }
    apply extra_fields_values in Hin as (Hk & v & Hv & Hs). exists k, z. destruct v; try done. by injection Hs as ->.
Qed.


(** A message that tries to add a line, and a secret among the attributes. *)
Definition demo_record : LogRecord :=
  NewLogRecord 0 (lit "INFO") (lit "app") (lit "hello" ++ [10%N] ++ lit "forged")
    [(lit "duration_ms", PFloat (FFin 3 (-1))); (lit "outcome", PFloat FNan); (lit "password", PStr (lit "hunter2"))].

Lemma log_line_safe_witness :
  match format demo_float_text (λ s, s) (lit "api") (lit "test") (Some (lit "r-1")) demo_record with
  | Ok line => Forall (λ c, (32 <= c)%N) line ∧ contains (lit "hunter2") line = false
  | Err _ => False
  end.
Proof.
  pose proof (log_line_safe demo_float_text demo_read_float (λ s, s) (lit "api") (lit "test") (Some (lit "r-1")) demo_record
    demo_float_ok) as H.
  assert (Hf : contains (lit "hunter2") (default [] (match format demo_float_text (λ s, s) (lit "api") (lit "test")
    (Some (lit "r-1")) demo_record with Ok l => Some l | Err _ => None end)) = false) by (vm_compute; reflexivity).
  assert (Hok : is_ok (format demo_float_text (λ s, s) (lit "api") (lit "test") (Some (lit "r-1")) demo_record) = true)
    by (vm_compute; reflexivity).
  destruct (format _ _ _ _ _ _) as [line|e]; [|done]. split; [exact (proj1 H)|exact Hf].
Defined.
