(* ===== verification/Lifecycle.v ===== *)
(** * Processes and what they hold
    (core/application.py, core/redis.py, db/session.py, db/dependencies.py,
    auth/delivery_worker.py, auth/bootstrap.py, migrations/env.py)

    Which clients and connections a process opens, what it does with them, and
    that it gives them back whatever fails; and the session and the unit of work
    that a request is given, as the transactions of Identity.v. *)

From S2P Require Import Prelude Regex PyValues AuditTrail Events Outbox UnitOfWork Errors Identity.

(** ** Processes *)

Inductive resource := DATABASE | REDIS | SIGNALS | HTTP_CLIENT | CONNECTION.
#[export] Instance resource_eq_dec : EqDecision resource. Proof. solve_decision. Defined.

(** What a process asks of the libraries: a constructor or an entered context, a
    use, a close. *)
Inductive library_call :=
| Open (r : resource)
| Check (r : resource)
| Serve
| Close (r : resource).

(** [Exception], or a [BaseException] outside of it, such as a cancellation. *)
Inductive fault := Fault (e : pyexn) | Cancelled.

Definition startup_failed : fault := Fault (RuntimeError "application dependency startup failed").

Section process.
(** What each call raises, if anything. *)
Context (answers : library_call → option fault).

(** A computation with the trace of the calls that were made; an [Open] is in it
    only when it succeeded, a [Close] in any case. *)
Definition P (A : Type) : Type := list library_call → res fault A * list library_call.

#[local] Instance P_ret : MRet P := λ A a tr, (Ok a, tr).
#[local] Instance P_bind : MBind P := λ A B f m tr,
  match m tr with (Ok a, tr) => f a tr | (Err e, tr) => (Err e, tr) end.

Definition attempt_call (c : library_call) : P unit := λ tr,
  match answers c with
  | None => (Ok tt, tr ++ [c])
  | Some e => (Err e, match c with Open _ => tr | _ => tr ++ [c] end)
  end.
Definition abort {A} (e : fault) : P A := λ tr, (Err e, tr).

(** [try: m except Exception: h] and [try: m finally: f]. *)
Definition except_exception {A} (m h : P A) : P A := λ tr,
  match m tr with (Err (Fault _), tr) => h tr | r => r end.
Definition finally {A} (m : P A) (f : P unit) : P A := λ tr,
  let '(r, tr) := m tr in match f tr with (Ok _, tr) => (r, tr) | (Err e, tr) => (Err e, tr) end.
(** [async with r: m]. *)
Definition inside (r : resource) {A} (m : P A) : P A := attempt_call (Open r);; finally m (attempt_call (Close r)).

(** [lifespan] of [create_app]. *)
Definition lifespan (check_dependencies_on_startup : bool) : P unit :=
  attempt_call (Open DATABASE);;
  except_exception (attempt_call (Open REDIS)) (attempt_call (Close DATABASE);; abort startup_failed);;
  finally
    ((if check_dependencies_on_startup
      then except_exception (attempt_call (Check DATABASE);; attempt_call (Check REDIS)) (abort startup_failed)
      else mret tt);;
     attempt_call Serve)
    (finally (attempt_call (Close REDIS)) (attempt_call (Close DATABASE))).

(** [run] of the mail worker; the signal handlers are set before the [try]. *)
Definition delivery_process : P unit :=
  attempt_call (Open DATABASE);;
  attempt_call (Open SIGNALS);;
  finally (inside HTTP_CLIENT (attempt_call Serve)) (attempt_call (Close SIGNALS);; attempt_call (Close DATABASE)).

(** [run] of the bootstrap; the unit of work is its connection. *)
Definition bootstrap_process : P unit :=
  attempt_call (Open DATABASE);; finally (inside CONNECTION (attempt_call Serve)) (attempt_call (Close DATABASE)).

(** [run_migrations_online]. *)
Definition run_migrations_online : P unit :=
  attempt_call (Open DATABASE);; finally (inside CONNECTION (attempt_call Serve)) (attempt_call (Close DATABASE)).

(** [Database.check_connection]. *)
Definition check_connection : P unit := inside CONNECTION (attempt_call (Check CONNECTION)).
End process.

(** ** What a trace leaves open *)

(** The open resources after a trace, latest first; nothing is used or closed
    that is not open, and what was opened last is closed first. *)
Fixpoint open_after (held : list resource) (tr : list library_call) : option (list resource) :=
  match tr with
  | [] => Some held
  | Open r :: tr => if bool_decide (r ∈ held) then None else open_after (r :: held) tr
  | Check r :: tr => if bool_decide (r ∈ held) then open_after held tr else None
  | Serve :: tr => match held with [] => None | _ => open_after held tr end
  | Close r :: tr => match held with r' :: held => if bool_decide (r = r') then open_after held tr else None | [] => None end
  end.

(** Everything was given back. *)
Definition all_released (tr : list library_call) : Prop := open_after [] tr = Some [].

(** Case analysis on what the calls of a process raise. *)
Ltac each_answer answers :=
  repeat (match goal with |- context [answers ?c] => let E := fresh "E" in destruct (answers c) as [[]|] eqn:E end; cbn).

Lemma processes_release_all answers check p :
  answers (Open REDIS) ≠ Some Cancelled → answers (Open SIGNALS) = None → answers (Close SIGNALS) = None →
  p ∈ [lifespan answers check; delivery_process answers; bootstrap_process answers; run_migrations_online answers;
       check_connection answers] → all_released (p []).2.
Proof.
  intros Hr Hs Hc Hp. unfold all_released. rewrite !elem_of_cons, elem_of_nil in Hp.
  destruct Hp as [->|[->|[->|[->|[->|[]]]]]];
    unfold lifespan, delivery_process, bootstrap_process, run_migrations_online, check_connection, inside, finally,
      except_exception, abort, mbind, P_bind, mret, P_ret, attempt_call; rewrite ?Hs, ?Hc; destruct check; cbn;
    each_answer answers; done.
Qed.

Definition serves (tr : list library_call) : bool := existsb (λ c, match c with Serve => true | _ => false end) tr.
Definition works (a : option fault) : bool := match a with None => true | Some _ => false end.

Lemma lifespan_serves answers check :
  serves (lifespan answers check []).2
  = works (answers (Open DATABASE)) && works (answers (Open REDIS)) &&
    (negb check || works (answers (Check DATABASE)) && works (answers (Check REDIS))).
Proof.
  unfold lifespan, finally, except_exception, abort, mbind, P_bind, mret, P_ret, attempt_call. destruct check; cbn;
    each_answer answers; done.
Qed.

Lemma lifespan_ends answers check : (lifespan answers check []).1 = Ok tt → serves (lifespan answers check []).2 = true.
Proof.
  unfold lifespan, finally, except_exception, abort, mbind, P_bind, mret, P_ret, attempt_call. destruct check; cbn;
    each_answer answers; done.
Qed.

Lemma lifespan_reports answers check :
  (∀ c, answers c ≠ Some Cancelled) → (∀ x, answers (Close x) = None) → answers (Open DATABASE) = None →
  serves (lifespan answers check []).2 = false → (lifespan answers check []).1 = Err startup_failed.
Proof.
  intros Hx Hc Hd. pose proof (Hx (Open REDIS)). pose proof (Hx (Check DATABASE)). pose proof (Hx (Check REDIS)).
  unfold lifespan, finally, except_exception, abort, mbind, P_bind, mret, P_ret, attempt_call. destruct check; cbn;
    rewrite ?Hd, ?Hc; cbn; each_answer answers; rewrite ?Hc; cbn; congruence.
Qed.

(** Whatever the libraries raise, a process that ends has released all that it
    opened, in the reverse order, and used nothing before it was open or after.
    A server serves exactly when both clients exist and the checks, if they are
    asked for, succeed; it ends without an exception only after serving; and a
    start that fails on an [Exception] is reported as such when nothing goes
    wrong in cleaning up. Two gaps of the code are assumptions: the constructor
    of the Redis client raises nothing outside of [Exception], and signal
    handlers can be set and restored. *)
Theorem processes_release answers check :
  answers (Open REDIS) ≠ Some Cancelled → answers (Open SIGNALS) = None → answers (Close SIGNALS) = None →
  (∀ p, p ∈ [lifespan answers check; delivery_process answers; bootstrap_process answers; run_migrations_online answers;
             check_connection answers] → all_released (p []).2) ∧
  let '(r, tr) := lifespan answers check [] in
  (serves tr = works (answers (Open DATABASE)) && works (answers (Open REDIS)) &&
     (negb check || works (answers (Check DATABASE)) && works (answers (Check REDIS)))) ∧
  (r = Ok tt → serves tr = true) ∧
  ((∀ c, answers c ≠ Some Cancelled) → (∀ x, answers (Close x) = None) → answers (Open DATABASE) = None →
   serves tr = false → r = Err startup_failed).
Proof.
  intros Hr Hs Hc. split; [intros p; by apply processes_release_all|].
  rewrite (surjective_pairing (lifespan answers check [])).
  split_and!; [apply lifespan_serves|apply lifespan_ends|apply lifespan_reports].
Qed.

(** A start on which Redis does not answer. *)
Definition redis_down (c : library_call) : option fault :=
  match c with Check REDIS => Some (Fault HandlerError) | _ => None end.

Lemma processes_release_witness :
  (lifespan redis_down true []).1 = Err startup_failed ∧ all_released (lifespan redis_down true []).2 ∧
  (lifespan redis_down true []).2 = [Open DATABASE; Open REDIS; Check DATABASE; Check REDIS; Close REDIS; Close DATABASE].
Proof.
  destruct (processes_release redis_down true) as [Hrel Hlife]; [done|done|done|].
  rewrite (surjective_pairing (lifespan redis_down true [])) in Hlife. split_and!.
  - apply (proj2 (proj2 Hlife)); [by intros [[]|[]| |[]]|by intros []|done|done].
  - apply Hrel. by left.
  - vm_compute. reflexivity.
Defined.

(** ** The transaction of a request *)

(** What a handler does with its session, as a program over it: it reads and
    changes the pending content, commits and rolls back, and ends with an answer
    or an exception. *)
Section requests.
Context {A : Type}.

Inductive program :=
| Return (a : A)
| Raise (e : exn)
| Look (k : db → program)
| Change (f : db → db) (k : program)
| CommitThen (k : program)
| RollbackThen (k : program).

(** In the calculus of the services. *)
Fixpoint service (p : program) : M A :=
  match p with
  | Return a => mret a
  | Raise e => throw e
  | Look k => d ← get; service (k d)
  | Change f k => modify f;; service k
  | CommitThen k => Identity.commit;; service k
  | RollbackThen k => Identity.rollback;; service k
  end.

(** On a unit of work; nothing of the database or of a callback fails here. *)
Definition no_failure (c : Z) : option pyexn := None.

Fixpoint drive (p : program) (u : uow (D := db)) : res exn A * uow (D := db) :=
  match p with
  | Return a => (Ok a, u)
  | Raise e => (Err e, u)
  | Look k => match get_session u with Ok s => drive (k (working s)) u | Err e => (Err (Internal e), u) end
  | Change f k => let '(r, u) := work f u in match r with Ok _ => drive k u | Err e => (Err (Internal e), u) end
  | CommitThen k =>
      let '(r, u) := UnitOfWork.commit no_failure None u in match r with Ok _ => drive k u | Err e => (Err (Internal e), u) end
  | RollbackThen k =>
      let '(r, u) := UnitOfWork.rollback None u in match r with Ok _ => drive k u | Err e => (Err (Internal e), u) end
  end.

(** [get_unit_of_work]: entered, given to the handler, and left. *)
Definition get_unit_of_work (p : program) (d : db) : res exn A * db :=
  let '(r, u) := drive p (enter (new_uow d)).2 in
  (r, committed (exit None None u).2).

(** [Database.session] and [get_session]: the session is rolled back when the
    caller raises, and closed. *)
Definition get_session_scope (m : M A) (d : db) : res exn A * db :=
  match m (Txn d d) with
  | (Err e, t) => let '(_, t) := Identity.rollback t in (Err e, durable t)
  | (Ok a, t) => (Ok a, durable t)
  end.

(** A unit of work that is open on a transaction. *)
Definition open_on (u : uow (D := db)) (t : txn) : Prop :=
  (∃ b, session u = Some (NewSession (pending t) b)) ∧ committed u = durable t ∧ callbacks u = [].

Lemma drive_service p u t :
  open_on u t → (drive p u).1 = (service p t).1 ∧ open_on (drive p u).2 (service p t).2.
Proof using Type.
  revert u t. induction p as [a|e|k IH|f k IH|k IH|k IH]; intros u t Hu; [done|done|..];
    pose proof Hu as ([b Hs] & Hc & Hcb); cbn [drive service]; unfold mbind, M_bind.
  - unfold get_session. rewrite Hs. by apply IH.
  - unfold work, get_session. rewrite Hs. apply IH. split_and!; [by eexists|done|done].
  - unfold UnitOfWork.commit, get_session. rewrite Hs.
    change (callbacks (u <| committed := _ |> <| session := _ |> <| needs_rollback := _ |>)) with (callbacks u).
    rewrite Hcb. apply IH. split_and!; [by eexists|done|done].
  - unfold UnitOfWork.rollback, get_session. rewrite Hs. apply IH.
    split_and!; [|done|done]. unfold discard. cbn. rewrite Hs. cbn. eexists. by rewrite Hc.
Qed.

(** The unit of work of a request is the transaction that the services are
    modelled on: for every handler it answers the same and leaves the same
    database, and so does a plain session, which never commits by itself. *)
Theorem request_scopes_refine (p : program) d :
  get_unit_of_work p d = run (service p) d ∧ get_session_scope (service p) d = run (service p) d.
Proof using Type.
  assert (Hopen : open_on (enter (new_uow d)).2 (Txn d d)) by (split_and!; [by eexists|done|done]).
  destruct (drive_service p _ _ Hopen) as [Hr ([b Hs] & Hc & _)].
  unfold get_unit_of_work, get_session_scope, run. destruct (drive p _) as [r u]. destruct (service p _) as [r' t]. cbn in *.
  subst r'. split; [|by destruct r]. f_equal. unfold exit, get_session. rewrite Hs. cbn.
  by destruct (_ || _).
Qed.
End requests.

(** [main] of the bootstrap, from the two readings of the password: argparse ends
    a process with 2, an exception with 1. *)
Definition bootstrap_main (password again : str) (bootstrap : str → M unit) (d : db) : Z * db :=
  if bool_decide (password ≠ again) then (2, d)
  else match run (bootstrap password) d with (Ok _, d) => (0, d) | (Err _, d) => (1, d) end.

Lemma bootstrap_main_mismatch password again bootstrap d :
  password ≠ again → bootstrap_main password again bootstrap d = (2, d).
Proof. intros Hp. unfold bootstrap_main. by rewrite bool_decide_eq_true_2. Qed.
