(* ===== verification/WorkerCommands.v ===== *)
(** * The mail worker's commands (auth/delivery_worker.py, outbox/leased_worker.py)

    The loop of the worker, the recovery commands of an operator over the same
    outbox, and the exit code of the process. *)

From S2P Require Import Prelude Regex PyValues CoreTypes AuditTrail Events Outbox Delivery LeasedOutbox OutboxOperations OutboxLifecycle OutboxResults Identity.

(** ** The loop *)

(** [LeasedOutboxWorker.run]: [stopped i] is whether the stop event is set when it
    is asked for the [i]-th time, [process] a call of [process_one]. Without
    [once] the loop ends only when it is stopped or a call raises; [None] is a
    loop that still runs. Waiting for the poll interval changes nothing. *)
Section loop.
Context {T : Type} (process : nat → T → res pyexn bool * T) (stopped : nat → bool) (once : bool).

Fixpoint worker_run (fuel i : nat) (s : T) : option (res pyexn unit * T) :=
  if stopped i then Some (Ok tt, s)
  else match fuel with
       | O => None
       | S fuel =>
           let '(handled, s) := process i s in
           match handled with
           | Err e => Some (Err e, s)
           | Ok _ => if once then Some (Ok tt, s) else worker_run fuel (S i) s
           end
       end.

(** The states between the calls. *)
Fixpoint after_calls (n : nat) (s : T) : T :=
  match n with O => s | S n => (process n (after_calls n s)).2 end.

(** Told to stop at the [k]-th question the loop has ended, after one call per
    earlier question, or before with the exception of the last call. *)
Lemma worker_run_stops k fuel i s :
  (i ≤ k)%nat → stopped k = true → (∀ j, (i ≤ j < k)%nat → stopped j = false) → (k - i ≤ fuel)%nat →
  ∃ r n, worker_run fuel i (after_calls i s) = Some (r, after_calls n s) ∧ (n ≤ k)%nat ∧ (i ≤ n)%nat ∧
    (if once then (n ≤ S i)%nat else r = Ok tt → n = k) ∧
    (r = Ok tt ↔ ∀ j, (i ≤ j < n)%nat → ∃ b, (process j (after_calls j s)).1 = Ok b).
Proof using Type.
  intros Hik Hk Hbefore Hf. remember (k - i)%nat as d eqn:Hd. revert i fuel Hik Hbefore Hf Hd.
  induction d as [|d IH]; intros i fuel Hik Hbefore Hf Hd.
  - assert (i = k) as -> by lia. exists (Ok tt), k. split_and!; [destruct fuel; cbn; by rewrite Hk|lia|lia|by destruct once; lia|].
    split; [|done]. intros _ j Hj. lia.
  - destruct fuel as [|fuel]; [lia|]. cbn [worker_run]. rewrite (Hbefore i) by lia.
    destruct (process i (after_calls i s)) as [h s'] eqn:Hp.
    assert (Hs : s' = after_calls (S i) s) by (cbn; by rewrite Hp). subst s'.
    assert (Hi : (process i (after_calls i s)).1 = h) by (by rewrite Hp). destruct h as [b|e].
    + assert (Hfirst : ∀ j, (i ≤ j < S i)%nat → ∃ b, (process j (after_calls j s)).1 = Ok b).
      { intros j Hj. assert (j = i) as -> by lia. by exists b. }
      destruct once.
      * exists (Ok tt), (S i). split_and!; [done|lia|lia|lia|done].
      * destruct (IH (S i) fuel) as (r & n & Hr & Hn & Hin & Hc & Hiff); [lia|intros; apply Hbefore; lia|lia|lia|].
        exists r, n. split_and!; [done|done|lia|done|]. rewrite Hiff. split; intros Hall j Hj; [|apply Hall; lia].
        destruct (decide (j = i)) as [->|]; [by exists b|]. apply Hall. lia.
    + exists (Err e), (S i). split_and!; [done|lia|lia|by destruct once; [lia|]|]. split; [done|]. intros Hall.
      destruct (Hall i) as [b Hb]; [lia|congruence].
Qed.

Lemma all_from_0 n s :
  (∀ j, (0 ≤ j < n)%nat → ∃ b, (process j (after_calls j s)).1 = Ok b) ↔ (∀ j, (j < n)%nat → ∃ b, (process j (after_calls j s)).1 = Ok b).
Proof using Type. split; intros Hall j Hj; apply Hall; lia. Qed.
End loop.

(** ** The commands *)

Inductive command := Run | Status | Replay | Resume | Unsupported (name : str).
Record Arguments := NewArguments { once : bool; arg_message_id : option uuid; arg_reason : option RecoveryReason }.

Definition GROUP : str := lit "auth_email".
Definition HANDLERS : list str := [lit "email_challenge_requested"].

(** What the process works on: the outbox and the audit trail. *)
Record base := Base { outbox_store : store; trail : list Audit.t }.

Section commands.
Context (float_repr : pyfloat → str) {P : Type} (prepare : str → DomainEvent → res pyexn (PreparedDelivery P + DeliveryOutcome)).
(** Whether the mail settings are there, the clock of the database, and the draws
    of an operation. *)
Context (resend : bool) (now : datetime) (sup : supply).

(** A unit of work around an operation: committed, or rolled back where it raises. *)
Definition committed (r : res pyexn (store * Audit.t)) (b : base) : res pyexn Z * base :=
  match r with
  | Ok (s, a) => (Ok 0, Base s (trail b ++ [a]))
  | Err e => (Err e, b)
  end.

(** The call of [process_one] on the outbox and the look at the stop event. *)
Context (process : nat → base → res pyexn bool * base) (stopped : nat → bool).

(** [run]; [None] while the worker still runs. *)
Definition run_command (fuel : nat) (c : command) (args : Arguments) (b : base) : option (res pyexn Z * base) :=
  if negb resend then Some (Err (RuntimeError "Resend settings are required; SMTP fallback is disabled"), b)
  else match c with
  | Run =>
      match worker_run process stopped (once args) fuel 0 b with
      | Some (Ok _, b) => Some (Ok 0, b)
      | Some (Err e, b) => Some (Err e, b)
      | None => None
      end
  | Status => Some (Ok (if healthy (health now GROUP HANDLERS (outbox_store b)) then 0 else 1), b)
  | Replay => Some
      match arg_message_id args, arg_reason args with
      | Some i, Some reason => committed (replay float_repr HANDLERS prepare now sup i reason (outbox_store b)) b
      | _, _ => (Err (ValueError "replay requires message ID and reason"), b)
      end
  | Resume => Some (committed (resume float_repr sup GROUP (outbox_store b)) b)
  | Unsupported _ => Some (Err (ValueError "unsupported command"), b)
  end.

(** The exit code: every exception is a failure. *)
Definition main (fuel : nat) (c : command) (args : Arguments) (b : base) : option (Z * base) :=
  match run_command fuel c args b with
  | Some (r, b) => Some (match r with Ok code => code | Err _ => 1 end, b)
  | None => None
  end.
End commands.

(** ** What the commands guarantee *)

Lemma resumed float_repr sup group s s' audit :
  resume float_repr sup group s = Ok (s', audit) →
  (∃ ctl, controls s' !! group = Some ctl ∧ paused ctl = false) ∧ Audit.actor_kind audit = SYSTEM.
Proof.
  unfold resume. intros Hr. res_inv. injection Hr as <- <-. split.
  - eexists. split; [apply lookup_insert_eq|done].
  - match goal with H : record_event _ _ _ _ = Ok _ |- _ => unfold record_event in H; apply record_Ok in H as (_ & Hk & _) end. done.
Qed.

(** C15: The commands of an operator. Told to stop at the k-th look, the process ends
    with exit code 0 or 1. Without mail settings it does nothing. A running worker
    then looked for at most k messages, for one at most with --once, and exits
    with 0 exactly when every call answered. A status changes nothing and is 0
    exactly when the group is healthy. A replay or resumption that exits with 0
    is one step of the outbox's histories with one system record on the audit
    trail, and the message waits to be claimed, or the group runs, from now on;
    otherwise it is 1 and nothing changed. *)
Theorem operator_commands {P} float_repr (prepare : str → DomainEvent → res pyexn (PreparedDelivery P + DeliveryOutcome))
    resend now sup process stopped fuel k c args b :
  table_ok (messages (outbox_store b)) →
  stopped k = true → (∀ j, (j < k)%nat → stopped j = false) → (k ≤ fuel)%nat →
  ∃ code b', main float_repr prepare resend now sup process stopped fuel c args b = Some (code, b') ∧
  (code = 0 ∨ code = 1) ∧
  (resend = false → code = 1 ∧ b' = b) ∧
  (resend = true →
   match c with
   | Run => ∃ n, b' = after_calls process n b ∧ (n ≤ k)%nat ∧ (once args = true → (n ≤ 1)%nat) ∧
       (once args = false → code = 0 → n = k) ∧
       (code = 0 ↔ ∀ j, (j < n)%nat → ∃ handled, (process j (after_calls process j b)).1 = Ok handled)
   | Status => b' = b ∧ (code = 0 ↔ healthy (health now GROUP HANDLERS (outbox_store b)) = true)
   | Unsupported _ => code = 1 ∧ b' = b
   | Replay | Resume =>
       (code = 1 → b' = b) ∧
       (code = 0 → (∀ tokens, step (World (outbox_store b) tokens) LSilent (World (outbox_store b') tokens)) ∧
          (∃ a, trail b' = trail b ++ [a] ∧ Audit.actor_kind a = SYSTEM) ∧
          match c with
          | Replay => ∃ i m, arg_message_id args = Some i ∧ messages (outbox_store b') !! i = Some m ∧
              waiting (Msg.status m) = true ∧ Msg.available_at m = now ∧ Msg.attempts m < Msg.retry_budget m
          | _ => ∃ ctl, controls (outbox_store b') !! GROUP = Some ctl ∧ paused ctl = false
          end)
   end).
Proof.
  intros Hok Hk Hbefore Hf. unfold main, run_command. destruct resend; cbn [negb].
  2: { eexists _, _. split_and!; [done|by right|done|done]. }
  destruct c as [| | | |name].
  - destruct (worker_run_stops process stopped (once args) k fuel 0 b) as (r & n & Hr & Hn & _ & Hc & Hiff);
      [lia|done|intros j Hj; apply Hbefore; lia|lia|]. cbn [after_calls] in Hr. rewrite Hr.
    exists (match r with Ok _ => 0 | Err _ => 1 end), (after_calls process n b).
    split_and!; [by destruct r|destruct r; [by left|by right]|done|]. intros _. exists n. split_and!; [done|done| | |].
    + intros Ho. by rewrite Ho in Hc.
    + intros Ho H0. rewrite Ho in Hc. apply Hc. by destruct r as [[]|].
    + rewrite <-(all_from_0 process _ b), <-Hiff. by destruct r as [[]|].
  - eexists _, _. split_and!; [done|destruct (healthy _); [by left|by right]|done|]. intros _. split; [done|].
    destruct (healthy _); by split.
  - destruct (arg_message_id args) as [i|] eqn:Hi; [|eexists _, _; split_and!; [done|by right|done|done]].
    destruct (arg_reason args) as [reason|]; [|eexists _, _; split_and!; [done|by right|done|done]].
    destruct (replay _ _ _ _ _ _ _ _) as [[s' a]|e] eqn:Hr; [|eexists _, _; split_and!; [done|by right|done|done]].
    eexists _, _. split_and!; [done|by left|done|]. intros _. split; [done|]. intros _.
    split_and!; [intros tokens; refine (step_replay (World (outbox_store b) tokens) _ _ _ _ _ _ _ _ _ _ Hr)| |].
    + exists a. split; [done|]. by apply replay_correct in Hr as (m & d & e & p & _ & _ & _ & _ & _ & _ & _ & _ & _ & _ & _ & _ & ->).
    + apply replay_correct in Hr as (m & d & e & p & Hm & _ & _ & _ & _ & _ & _ & _ & _ & _ & (m' & Hm' & -> & Hw & Ha & _ & _ & Hlt) & _ & _).
      exists i, (reopen now m). split_and!; try done. cbn [outbox_store]. rewrite Hm'. unfold put.
      change (row_id (reopen now m)) with (Msg.id m). rewrite (Hok _ _ Hm : Msg.id m = i). apply lookup_insert_eq.
  - destruct (resume _ _ _ _) as [[s' a]|e] eqn:Hr; [|eexists _, _; split_and!; [done|by right|done|done]].
    eexists _, _. split_and!; [done|by left|done|]. intros _. split; [done|]. intros _.
    split_and!; [intros tokens; refine (step_resume (World (outbox_store b) tokens) _ _ _ _ _ Hr)| |].
    + exists a. split; [done|]. apply (resumed _ _ _ _ _ _ Hr).
    + apply (resumed _ _ _ _ _ _ Hr).
  - eexists _, _. split_and!; [done|by right|done|done].
Qed.

(** A paused group is resumed. *)
Definition demo_base : base := Base (Store ∅ {[GROUP := Control GROUP true 0]}) [].
Definition demo_main (c : command) : option (Z * base) :=
  main (P:=unit) (λ _, []) (λ _ _, Err HandlerError) true (seconds 10) (Supply 1 2 3 (seconds 10)) (λ _ b, (Ok false, b))
    (λ i, bool_decide (i = 0%nat)) 0 c (NewArguments false None None) demo_base.

Lemma operator_commands_witness :
  ∃ b', demo_main Resume = Some (0, b') ∧ ∃ ctl, controls (outbox_store b') !! GROUP = Some ctl ∧ paused ctl = false.
Proof.
  destruct (operator_commands (P:=unit) (λ _, []) (λ _ _, Err HandlerError) true (seconds 10) (Supply 1 2 3 (seconds 10))
    (λ _ b, (Ok false, b)) (λ i, bool_decide (i = 0%nat)) 0 0 Resume (NewArguments false None None) demo_base)
    as (code & b' & Hm & _ & _ & Hc); [by intros k m Hk|done|lia|lia|].
  assert (code = 0) as ->.
  { assert (Hv : (fst <$> demo_main Resume) = Some 0) by (vm_compute; reflexivity).
    unfold demo_main in Hv. rewrite Hm in Hv. cbn in Hv. congruence. }
  exists b'. split; [exact Hm|]. destruct (Hc eq_refl) as [_ H0]. by destruct (H0 eq_refl) as (_ & _ & H1).
Defined.
